(* ===== verification/_CoqProject ===== *)
-Q . S2P
Prelude.v
Digits.v
Rlp.v
RlpEncode.v
RlpDecode.v
RlpSound.v
RlpRoundTrip.v
RlpPartial.v
ScriptErrors.v
ScriptNum.v
ScriptStack.v
Opcodes.v
ScriptParse.v
HexUtil.v
Transaction.v
Crypto.v
Address.v
OpcodeExec.v
ScriptEngine.v
EngineSafety.v
EngineProps.v
ScriptBuilder.v
ScriptStandard.v
ScriptRuns.v
ScriptSpend.v
ScriptMultiSig.v
ScriptSign.v
Mediators.v
Vote.v
KvStore.v
StateDb.v
Utxo.v
TxRlp.v
Ledger.v
Validator.v
