(* ===== verification/Prelude.v ===== *)
(** * A verification of the PalletOne node (go-palletone)

    PalletOne is a ledger of units (blocks) in a directed acyclic graph.  Outputs are
    locked by scripts, which a stack machine runs to decide a spend; units are
    produced by mediators, elected by votes, in slots of a shuffled schedule; all
    state is kept in a key-value database, serialised by RLP.  This development
    translates these parts from the Go sources, each function as a Rocq function,
    and proves what they do, including where they do not do what they mean to.

    ** The parts and their files

    The files are listed in the order in which they depend on one another.

    - [Prelude]: machine integers with their wrap-around, byte strings, the outcome
      of a Go call (a value, an error or a panic), Go's slice operations, and the
      monad [go] of a method on a mutable receiver, with lemmas and hint databases
      ([goindex], [gorun], [width]).  [Digits]: byte strings as numbers in base 256.
    - RLP, common/rlp.  [Rlp] has the headers and raw.go, [RlpEncode] the encoder of
      encode.go and typecache.go, [RlpDecode] the stream and the decoders of
      decode.go; Go types and values are the codes [rtype] and [rval], so that
      reflection becomes case analysis.  [RlpSound] has the theorems on arbitrary
      input, [RlpRoundTrip] those on what the encoder writes, and [RlpPartial] what a
      decoder that fails leaves in the value it was given.
    - The script engine, tokenengine/internal/txscript.  [ScriptErrors] is error.go,
      [ScriptNum] scriptnum.go, [ScriptStack] stack.go, [Opcodes] the table of
      opcode.go, [ScriptParse] script.go, [OpcodeExec] the engine's state (record
      [Engine]) and the handlers of opcode.go, [ScriptEngine] the execution of
      engine.go and [ScriptValidate] of tokenengine/api.go.  [EngineSafety] and
      [EngineProps] have the theorems on every script and every transaction.
    - Scripts of the node.  [ScriptBuilder] is scriptbuilder.go, [ScriptStandard]
      standard.go and the generators of tokenengine/api.go, [ScriptSign] sign.go and
      the signing functions of api.go; [ScriptRuns], [ScriptSpend] and
      [ScriptMultiSig] run the engine on the standard scripts.
    - What these use: [HexUtil] is common/hexutil, [Transaction] the transactions of
      dag/modules and how they are copied and hashed, [Crypto] common/crypto,
      [Address] common/address.go, hash.go and bytes.go.
    - [Mediators]: the schedule of mediators, dag/modules/mediator_schedule.go and
      global_property.go, dag/mediator_schedule.go, dag/unit_production.go.
    - [Vote]: the ballot boxes of dag/vote, with weights and delegation.
    - [KvStore]: the database interface common/ptndb as a class, the memory database
      as its instance, and the storage of values of dag/storage/storage.go and
      getor.go.  [StateDb]: the state and property databases of dag/storage, over
      any database of that class; it joins the database with RLP, the mediators and
      the votes.
    - The ledger.  [Utxo]: the unspent outputs of dag/modules/utxo.go, their keys and
      dag/storage/utxodb.go.  [TxRlp]: dag/modules/transaction_rlp.go, how transactions
      are serialised and read by a peer.  [Ledger]: dag/common/utxo_repository.go, how
      payments are applied, balances and fees, and the coinbase transaction of
      dag/common/unit_repository.go.  [Validator]: dag/common/validator.go, which joins
      the three, with the readers of templates of dag/storage/statedb_tpl.go.

    State is explicit: an engine, a stack, an encoder's buffer, a decoder's stream or
    a database is a record, and a method that changes it is a computation in [go],
    which keeps the changed state also where the method fails.  Where Go enumerates
    a map, the order is an argument and the theorems are for every order.  The set of
    unspent outputs is a finite map; [represents] says that a database holds it, and
    [refines] that an operation on the database has a given effect on the set.

    Code outside the repository is a class of operations with its laws:
    [Crypto] with [CryptoLaws] (the lengths of digests) and [SignatureLaws] (what is
    signed verifies), [Base58] with [Base58Laws] and [Base58Text], [Sorting] with
    [SortingLaws] (sort.Sort), [Database] with [DatabaseLaws] (LevelDB), and the text
    of curve points and network nodes, [MediatorText].  Each has an instance, and
    every theorem with such an assumption is applied to it at a concrete input.  What
    a failing decoder leaves in a composite field it fails in is the parameter [torn] of
    [RlpPartial], and whether the node keeps an index of outputs the parameter [UtxoIndex]
    of [Ledger]; the theorems are for all of them.

    ** What the theorems show

    - RLP.  The encoder's two passes implement the recursive definition of RLP
      ([EncodeToBytes_refines]) and its three outputs agree ([encoder_outputs_agree]);
      what it writes is read back, followed by any bytes ([rlp_roundtrip]); for types
      without one-byte arrays and on arbitrary bytes the decoder returns a value of the
      type or an error and does not panic unless the type has floats or maps
      ([decode_sound]); [Split] accepts
      exactly the canonical encodings ([Split_iff]).  Not all signed integers survive
      ([signed_int_read_back]), and one-byte arrays make the decoder spin
      ([decode_byte_array_diverges]).
    - Script engine.  Every run ends, without a panic, within the limits on stack,
      operations and element sizes ([Execute_total], [engine_limits]).  Parsing is
      total, accepts exactly the sequences of instructions, which a grammar of bytes
      describes ([parse_total]), and is inverse to unparsing ([parse_unparse]); numbers are
      read and written as specified ([makeScriptNum_spec], [scriptNum_roundtrip]).
      The hash that is signed does not depend on the transaction, so that a valid
      signature script can be replayed ([sighash_ignores_transaction],
      [ScriptValidate_replay]).
    - Standard scripts.  What an accepted spend must contain and the exact verdict for
      public key hashes, script hashes and multisignatures ([p2pkh_sound],
      [p2pkh_verdict], [p2sh_sound], [multisig_verdict]); what the node signs it
      accepts ([sign_p2pkh_validates], [sign_multisig_validates]); scripts, addresses
      and their text are inverse ([lock_script_roundtrip], [address_text_roundtrip]);
      what is built is what is pushed ([AddData_pushes], [typeOfScript_iff]).
    - Mediators.  The schedule has every active mediator exactly once after any
      sequence of units ([schedule_invariant]), does not depend on the order of maps
      ([active_mediators_deterministic]) and gives each mediator a slot in every round
      ([round_liveness], [slot_at_time]); the validation of a unit's mediator is
      inverted ([validateMediatorSchedule_inverted]).
    - Votes.  The winners have the highest scores ([base_winners]); delegation stays
      without cycles and ends unless somebody names themselves ([delegation_acyclic],
      [self_agent_diverges]); the tally is the sum of weights where delegations are
      not chained ([open_vote_tally]), and depends on the order of a map otherwise
      ([tally_depends_on_order]).
    - Storage.  What is stored is retrieved ([store_retrieve]), with exceptions that
      the proofs delimit exactly: contract states lose a byte
      ([contract_state_readback]), votes are read back for another address
      ([mediator_votes_shifted]) and cannot be replaced ([replacing_votes]), counting
      them stops the node ([counting_votes_panics]), as does the 129th missed unit of
      a mediator ([missed_units_halt]), and after 2038 the properties are read only in
      part ([dynamic_properties_readback]).
    - Ledger.  Saving a view and applying a payment do to the database what they mean to
      do to the set of outputs ([saving_a_view], [applying_a_payment]), and the balance
      of an address is the sum of its outputs ([balance_of_address]), but not where it
      is read from the index, in which spent outputs stay
      ([spent_outputs_stay_in_index]).  Fees are differences modulo 2^64
      ([fee_is_modular]).  Transactions survive the wire ([transaction_on_the_wire])
      except for votes, requests and signatures, which crash the validation
      ([lost_payload_crashes_validation]), and for the coinbase transaction, so that no
      peer accepts it ([coinbase_lost_on_the_wire]).  The validation accepts exactly
      the payments of [payment_accepted_iff], and by that anyone can spend any output
      ([anyone_can_spend]).

    ** Fuel

    Functions whose recursion is not structural take fuel, and a result that stands
    for "has not returned" ([None], [OutOfFuel], [outOfFuel]) when it runs out.
    [parseScriptTemplate] has one step per byte and one more ([parse_total]).
    [Execute] has 20600 steps: an engine runs at most three scripts, of 10000 bytes
    for the first two, the third being an element of at most 520
    ([Execute_total]).  The decoders of lists have one step per unread byte
    ([measure]), which [decode_sound] shows to be enough.  [SetAgent] needs one step
    more than there are agents ([delegation_acyclic]).  [mergeScripts] recurses once, or
    for ever ([mergeScripts_returns_iff]).  [iterate], the splitting and
    the trimming of strings have the length of the sequence.

    ** Not modelled

    - The network, the RPC interfaces, the command line, the wallet, metrics and the
      containers that run contracts: input and output around the modelled core.
    - Concurrency: locks, channels and goroutines.  The modelled functions run under
      the locks of their callers or on values of their own.
    - In dag: the pool of transactions, the unconfirmed units, the building and storage
      of whole units, the validation of their headers and signatures, and the readers
      of outputs and assets by address.
    - In common: the Merkle trie, Keccak, secp256k1, SHA-256, RIPEMD-160 and base58,
      which are used through their contracts only; big integers in text form.
    - In RLP: types with methods of their own for encoding or decoding, other than
      transactions, and the reuse of buffers between calls, on which the result is shown
      not to depend.
    - The text of errors and of log messages; the error codes are kept. *)

From Stdlib Require Export ZArith Lia.
From stdpp Require Export base tactics list numbers option strings gmap.

#[local] Open Scope Z_scope.

(** ** Machine integers

    A Go integer of width [w] is a [Z]; every arithmetic result that can leave
    the width is wrapped explicitly. *)

Definition u8 (z : Z) : Z := z mod 2 ^ 8.
Definition u16 (z : Z) : Z := z mod 2 ^ 16.
Definition u32 (z : Z) : Z := z mod 2 ^ 32.
Definition u64 (z : Z) : Z := z mod 2 ^ 64.
Definition i32 (z : Z) : Z := (z + 2 ^ 31) mod 2 ^ 32 - 2 ^ 31.
Definition i64 (z : Z) : Z := (z + 2 ^ 63) mod 2 ^ 64 - 2 ^ 63.

(** A byte and a byte string.  Go's [[]byte] is a [list Z] whose elements are
    bytes. *)

Definition is_byte (b : Z) : Prop := 0 <= b < 256.
Abbreviation bytes := (list Z).
Definition wf_bytes (l : bytes) : Prop := Forall is_byte l.

#[export] Instance is_byte_dec b : Decision (is_byte b).
Proof. unfold is_byte. apply _. Defined.

#[export] Instance wf_bytes_dec l : Decision (wf_bytes l).
Proof. unfold wf_bytes. apply _. Defined.

(** The length of a Go slice, as the [int] that [len] returns. *)

Definition zlen {A} (l : list A) : Z := Z.of_nat (length l).

(** ** Outcomes of a Go call

    A call returns a value, returns a non-nil error, or panics (index out of
    range, failed type assertion, nil dereference). *)

Inductive outcome (E A : Type) : Type :=
  | Ok (a : A)
  | Err (e : E)
  | Panic.
Arguments Ok {E A} a.
Arguments Err {E A} e.
Arguments Panic {E A}.

#[export] Instance outcome_ret E : MRet (outcome E) := fun A a => Ok a.
#[export] Instance outcome_bind E : MBind (outcome E) := fun A B f o =>
  match o with Ok a => f a | Err e => Err e | Panic => Panic end.

#[export] Instance outcome_eq_dec E A `{EqDecision E, EqDecision A} : EqDecision (outcome E A).
Proof. solve_decision. Defined.

(** [l[i]], which panics out of range. *)

Definition goidx {E A} (l : list A) (i : Z) : outcome E A :=
  if decide (0 <= i) then
    match l !! Z.to_nat i with Some a => Ok a | None => Panic end
  else Panic.

(** [l[a:b]] for a slice whose capacity is not exceeded. *)

Definition goslice {E A} (l : list A) (a b : Z) : outcome E (list A) :=
  if decide (0 <= a <= b /\ b <= zlen l)
  then Ok (take (Z.to_nat (b - a)) (drop (Z.to_nat a) l))
  else Panic.

(** [copy(dst, src)], the new contents of [dst]. *)

Definition gocopy {A} (dst src : list A) : list A :=
  take (length dst) src ++ drop (length src) dst.

(** ** Methods with a mutable receiver

    [go S E A] is a method on a receiver of type [S]: it may mutate the
    receiver even when it returns an error, as the Go methods do. *)

Definition go (S E A : Type) : Type := S -> outcome E A * S.

#[export] Instance go_ret S E : MRet (go S E) := fun A a s => (Ok a, s).
#[export] Instance go_bind S E : MBind (go S E) := fun A B f m s =>
  match m s with
  | (Ok a, s') => f a s'
  | (Err e, s') => (Err e, s')
  | (Panic, s') => (Panic, s')
  end.

Section GoOps.
Context {S E : Type}.

Definition fail {A} (e : E) : go S E A := fun s => (Err e, s).
Definition get : go S E S := fun s => (Ok s, s).
Definition put (s : S) : go S E unit := fun _ => (Ok tt, s).
Definition modify (f : S -> S) : go S E unit := fun s => (Ok tt, f s).
Definition lift {A} (o : outcome E A) : go S E A := fun s => (o, s).

(** [_ = m()]: an error of [m] is ignored, its mutation is kept. *)
Definition ignore_err (m : go S E unit) : go S E unit := fun s =>
  match m s with
  | (Panic, s') => (Panic, s')
  | (_, s') => (Ok tt, s')
  end.
End GoOps.

(** Running a method of a field of the receiver. *)

Definition zoom {S T E A} (rd : S -> T) (wr : T -> S -> S) (m : go T E A) : go S E A :=
  fun s => let '(o, t) := m (rd s) in (o, wr t s).

(** [triple P m Q]: from a receiver satisfying [P], the method [m] does not panic,
    and when it returns a value, the value and the receiver satisfy [Q]. *)

Definition triple {S E A} (P : S -> Prop) (m : go S E A) (Q : A -> S -> Prop) : Prop :=
  forall s, P s ->
    match m s with
    | (Ok a, s') => Q a s'
    | (Err _, _) => True
    | (Panic, _) => False
    end.

(** ** Hint databases *)

Create HintDb width discriminated.
Create Rewrite HintDb goslices.

(** ** Lemmas on widths *)

Lemma u8_id z : is_byte z -> u8 z = z.
Proof. unfold u8, is_byte. intros. apply Z.mod_small. lia. Qed.

Lemma u8_byte z : is_byte (u8 z).
Proof. unfold u8, is_byte. pose proof (Z.mod_pos_bound z (2 ^ 8)). lia. Qed.

Lemma i32_id z : - 2 ^ 31 <= z < 2 ^ 31 -> i32 z = z.
Proof. unfold i32. intros. rewrite Z.mod_small; lia. Qed.

Lemma i64_id z : - 2 ^ 63 <= z < 2 ^ 63 -> i64 z = z.
Proof. unfold i64. intros. rewrite Z.mod_small; lia. Qed.

Lemma i64_range z : - 2 ^ 63 <= i64 z < 2 ^ 63.
Proof. unfold i64. pose proof (Z.mod_pos_bound (z + 2 ^ 63) (2 ^ 64)). lia. Qed.

Lemma u64_id z : 0 <= z < 2 ^ 64 -> u64 z = z.
Proof. unfold u64. intros. apply Z.mod_small. lia. Qed.

Lemma u64_range z : 0 <= u64 z < 2 ^ 64.
Proof. unfold u64. apply Z.mod_pos_bound. lia. Qed.

Lemma u32_id z : 0 <= z < 2 ^ 32 -> u32 z = z.
Proof. unfold u32. intros. apply Z.mod_small. lia. Qed.

#[export] Hint Resolve u8_byte i64_range u64_range : width.

Lemma mul_bound a b A B : 0 <= a <= A -> 0 <= b <= B -> 0 <= a * b <= A * B.
Proof. nia. Qed.

(** ** Lemmas on slices *)

Lemma zlen_nonneg {A} (l : list A) : 0 <= zlen l.
Proof. unfold zlen. lia. Qed.

Lemma zlen_app {A} (l k : list A) : zlen (l ++ k) = zlen l + zlen k.
Proof. unfold zlen. rewrite length_app. lia. Qed.

Lemma zlen_cons {A} (x : A) l : zlen (x :: l) = 1 + zlen l.
Proof. unfold zlen. cbn [length]. lia. Qed.

Lemma zlen_nil {A} : zlen (@nil A) = 0.
Proof. reflexivity. Qed.

Lemma zlen_snoc {A} (l : list A) x : zlen (l ++ [x]) = zlen l + 1.
Proof. by rewrite zlen_app, zlen_cons. Qed.

#[export] Hint Rewrite @zlen_app @zlen_cons @zlen_nil : goslices.

(** [zlen_lia] normalises lengths of concatenations and calls [lia] with every
    length known to be non-negative. *)

Ltac zlen_facts :=
  repeat match goal with
  | |- context [zlen ?l] => lazymatch goal with
      | _ : 0 <= zlen l |- _ => fail | _ => pose proof (zlen_nonneg l) end
  | _ : context [zlen ?l] |- _ => lazymatch goal with
      | _ : 0 <= zlen l |- _ => fail | _ => pose proof (zlen_nonneg l) end
  end.

Ltac zlen_lia := cbn [app] in *; autorewrite with goslices in *; zlen_facts; lia.

(** [app_norm] right-associates concatenations. *)

Ltac app_norm := repeat first [rewrite <- app_assoc | progress cbn [app]]; rewrite ?app_nil_r.

Lemma zlen_0 {A} (l : list A) : zlen l = 0 -> l = [].
Proof. destruct l; [done|]. rewrite zlen_cons. pose proof (zlen_nonneg l). lia. Qed.

Lemma zlen_drop {A} (l : list A) n : 0 <= n <= zlen l -> zlen (drop (Z.to_nat n) l) = zlen l - n.
Proof. unfold zlen. rewrite length_drop. lia. Qed.

Lemma take_zlen_app {A} (v k : list A) : take (Z.to_nat (zlen v)) (v ++ k) = v.
Proof. unfold zlen. by rewrite Nat2Z.id, take_app_length. Qed.

Lemma drop_zlen_app {A} (v k : list A) : drop (Z.to_nat (zlen v)) (v ++ k) = k.
Proof. unfold zlen. by rewrite Nat2Z.id, drop_app_length. Qed.

Lemma goslice_mid {E A} (a b c : list A) i j :
  i = zlen a -> j = zlen a + zlen b -> goslice (E := E) (a ++ b ++ c) i j = Ok b.
Proof.
  intros -> ->. unfold goslice. pose proof (zlen_nonneg a). pose proof (zlen_nonneg b).
  pose proof (zlen_nonneg c). rewrite decide_True by (rewrite !zlen_app; lia).
  replace (zlen a + zlen b - zlen a) with (zlen b) by lia.
  unfold zlen. rewrite !Nat2Z.id, drop_app_length, take_app_length. done.
Qed.

Lemma goslice_prefix {E A} (l r : list A) : goslice (E := E) (l ++ r) 0 (zlen l) = Ok l.
Proof.
  unfold goslice. pose proof (zlen_nonneg l). pose proof (zlen_nonneg r).
  rewrite decide_True by (rewrite zlen_app; lia).
  rewrite drop_0. unfold zlen. rewrite Z.sub_0_r, Nat2Z.id. by rewrite take_app_length.
Qed.

Lemma goslice_suffix {E A} (l r : list A) : goslice (E := E) (l ++ r) (zlen l) (zlen (l ++ r)) = Ok r.
Proof.
  unfold goslice. pose proof (zlen_nonneg l). pose proof (zlen_nonneg r).
  rewrite decide_True by (rewrite zlen_app; lia).
  f_equal. rewrite zlen_app. replace (zlen l + zlen r - zlen l) with (zlen r) by lia.
  unfold zlen. rewrite !Nat2Z.id, drop_app_length. by apply take_ge.
Qed.

Lemma goslice_ok {E A} (l : list A) i j :
  0 <= i <= j -> j <= zlen l ->
  exists a b c, l = a ++ b ++ c /\ zlen a = i /\ zlen b = j - i /\ goslice (E := E) l i j = Ok b.
Proof.
  intros Hi Hj. exists (take (Z.to_nat i) l), (take (Z.to_nat (j - i)) (drop (Z.to_nat i) l)),
    (drop (Z.to_nat (j - i)) (drop (Z.to_nat i) l)).
  rewrite !take_drop. unfold goslice. rewrite decide_True by lia.
  unfold zlen in *. rewrite !length_take, length_drop. split_and!; [done|lia|lia|done].
Qed.

Lemma goidx_out_of_range {E A} (l : list A) i : zlen l <= i -> goidx (E := E) l i = Panic.
Proof.
  intros Hi. unfold goidx, zlen in *. case_decide; [|done]. by rewrite lookup_ge_None_2 by lia.
Qed.

Lemma goidx_lookup {E A} (l : list A) i x :
  0 <= i -> l !! Z.to_nat i = Some x -> goidx (E := E) l i = Ok x.
Proof. intros Hi Hl. unfold goidx. by rewrite decide_True, Hl by done. Qed.

(** Indexing with a literal. *)

Lemma goidx_0 {E A} (x0 : A) l : goidx (E := E) (x0 :: l) 0 = Ok x0.
Proof. reflexivity. Qed.

Lemma goidx_1 {E A} (x0 x1 : A) l : goidx (E := E) (x0 :: x1 :: l) 1 = Ok x1.
Proof. reflexivity. Qed.

Lemma goidx_2 {E A} (x0 x1 x2 : A) l : goidx (E := E) (x0 :: x1 :: x2 :: l) 2 = Ok x2.
Proof. reflexivity. Qed.

Lemma goidx_3 {E A} (x0 x1 x2 x3 : A) l : goidx (E := E) (x0 :: x1 :: x2 :: x3 :: l) 3 = Ok x3.
Proof. reflexivity. Qed.

Lemma goidx_4 {E A} (x0 x1 x2 x3 x4 : A) l :
  goidx (E := E) (x0 :: x1 :: x2 :: x3 :: x4 :: l) 4 = Ok x4.
Proof. reflexivity. Qed.

Create Rewrite HintDb goindex.
#[export] Hint Rewrite @goidx_0 @goidx_1 @goidx_2 @goidx_3 @goidx_4 : goindex.

Lemma goidx_app_r {E A} (l k : list A) (i : Z) :
  0 <= i -> goidx (E := E) (l ++ k) (zlen l + i) = goidx k i.
Proof.
  intros Hi. unfold goidx, zlen. rewrite !decide_True by lia.
  replace (Z.to_nat (Z.of_nat (length l) + i)) with (length l + Z.to_nat i)%nat by lia.
  rewrite lookup_app_r by lia.
  by replace (length l + Z.to_nat i - length l)%nat with (Z.to_nat i) by lia.
Qed.

Lemma goidx_last {E A} (l : list A) x : goidx (E := E) (l ++ [x]) (zlen l) = Ok x.
Proof.
  replace (zlen l) with (zlen l + 0) by lia. by rewrite goidx_app_r by lia.
Qed.

Lemma goidx_app_l {E A} (l k : list A) (i : Z) :
  i < zlen l -> goidx (E := E) (l ++ k) i = goidx l i.
Proof.
  unfold goidx, zlen. intros Hi. case_decide; [|done].
  by rewrite lookup_app_l by lia.
Qed.

Lemma goidx_in_range {E A} (l : list A) i :
  0 <= i < zlen l -> exists x, goidx (E := E) l i = Ok x /\ l !! Z.to_nat i = Some x.
Proof.
  unfold goidx, zlen. intros Hi. rewrite decide_True by lia.
  destruct (lookup_lt_is_Some_2 l (Z.to_nat i)) as [x Hx]; [lia|].
  exists x. by rewrite Hx.
Qed.

Lemma goidx_wf {E} (l : bytes) i x : wf_bytes l -> goidx (E := E) l i = Ok x -> is_byte x.
Proof.
  unfold goidx, wf_bytes. intros Hwf. case_decide; [|done].
  destruct (l !! _) eqn:El; [|done]. intros [= <-].
  by eapply Forall_lookup_1.
Qed.

Lemma wf_bytes_app l k : wf_bytes (l ++ k) <-> wf_bytes l /\ wf_bytes k.
Proof. apply Forall_app. Qed.

Lemma wf_bytes_cons b l : wf_bytes (b :: l) <-> is_byte b /\ wf_bytes l.
Proof. apply Forall_cons. Qed.

Lemma wf_bytes_1 b : wf_bytes [b] <-> is_byte b.
Proof. apply Forall_singleton. Qed.

Lemma wf_bytes_nil : wf_bytes [].
Proof. constructor. Qed.

#[export] Hint Resolve wf_bytes_nil : width.

(** Splitting a non-empty list at its last element. *)

Lemma list_snoc_cases {A} (l : list A) : l = [] \/ exists k x, l = k ++ [x].
Proof.
  induction l as [|x l _] using rev_ind; [by left|]. right. eauto.
Qed.

(** ** Boolean quantifiers *)

Lemma forallb_impl {A} (f g : A -> bool) l :
  Forall (fun x => f x = true -> g x = true) l -> forallb f l = true -> forallb g l = true.
Proof.
  induction 1 as [|x l Hx _ IH]; [done|]. cbn. intros H. apply andb_true_iff in H as [H1 H2].
  by rewrite (Hx H1), (IH H2).
Qed.

Lemma forallb_Forall_impl {A} (f : A -> bool) (P : A -> Prop) l :
  Forall (fun x => f x = true -> P x) l -> forallb f l = true -> Forall P l.
Proof.
  induction 1 as [|x l Hx _ IH]; [done|]. cbn. intros H. apply andb_true_iff in H as [H1 H2].
  constructor; [by apply Hx|by apply IH].
Qed.

(** ** Exhaustive reasoning on bytes *)

Definition all_bytes : list Z := seqZ 0 256.

Lemma byte_exhaust (P : Z -> bool) :
  forallb P all_bytes = true -> forall b, is_byte b -> P b = true.
Proof.
  intros HP b Hb. rewrite forallb_forall in HP. apply HP.
  apply list_elem_of_In. unfold all_bytes. apply elem_of_seqZ. unfold is_byte in Hb. lia.
Qed.

(** ** Running stateful code *)

Lemma go_bind_ok {S E A B} (m : go S E A) (f : A -> go S E B) s a s' :
  m s = (Ok a, s') -> (m ≫= f) s = f a s'.
Proof. intros H. unfold mbind, go_bind. by rewrite H. Qed.

Lemma go_bind_err {S E A B} (m : go S E A) (f : A -> go S E B) s e s' :
  m s = (Err e, s') -> (m ≫= f) s = (Err e, s').
Proof. intros H. unfold mbind, go_bind. by rewrite H. Qed.

Lemma go_bind_assoc {S E A B C} (m : go S E A) (f : A -> go S E B) (g : B -> go S E C) s :
  ((m ≫= f) ≫= g) s = (m ≫= fun a => f a ≫= g) s.
Proof. unfold mbind, go_bind. by destruct (m s) as [[| |] ?]. Qed.

Lemma outcome_bind_ok {E A B} (f : A -> outcome E B) a : (Ok a ≫= f) = f a.
Proof. done. Qed.

#[export] Hint Rewrite @outcome_bind_ok : goindex.

Lemma outcome_bind_no_panic {E A B} (m : outcome E A) (f : A -> outcome E B) :
  m <> Panic -> (forall a, f a <> Panic) -> (m ≫= f) <> Panic.
Proof. by destruct m; cbn; auto. Qed.

Lemma outcome_bind_not_err {E A B} (e : E) (m : outcome E A) (f : A -> outcome E B) :
  m <> Err e -> (forall a, f a <> Err e) -> (m ≫= f) <> Err e.
Proof. destruct m as [a|e'|]; cbn; [by auto| |done]. by intros Hm _ [= ->]. Qed.

Lemma goidx_not_err {E A} (e : E) (l : list A) i : goidx l i <> Err e.
Proof. unfold goidx. case_decide; [|done]. by destruct (l !! _). Qed.

Lemma go_ret_bind {S E A B} (a : A) (f : A -> go S E B) s : (mret a ≫= f) s = f a s.
Proof. done. Qed.

Lemma go_get_bind {S E B} (f : S -> go S E B) s : (get ≫= f) s = f s s.
Proof. done. Qed.

Lemma go_modify_bind {S E B} (g : S -> S) (f : unit -> go S E B) s : (modify g ≫= f) s = f () (g s).
Proof. done. Qed.

Lemma go_lift_ok {S E A B} (a : A) (f : A -> go S E B) s : (lift (Ok a) ≫= f) s = f a s.
Proof. done. Qed.

Lemma go_lift_err {S E A B} e (f : A -> go S E B) s : (lift (Err e) ≫= f) s = (Err e, s).
Proof. done. Qed.

Lemma go_fail_bind {S E A B} e (f : A -> go S E B) s : (fail e ≫= f) s = (Err e, s).
Proof. done. Qed.

(** [autorewrite with gorun] runs the primitive methods at the head of a method. *)

Create Rewrite HintDb gorun.
#[export] Hint Rewrite @go_ret_bind @go_get_bind @go_modify_bind @go_lift_ok @go_lift_err @go_fail_bind
  : gorun.

(** ** Rules for [triple] *)

Section Triples.
Context {S E : Type}.

Lemma triple_ret {A} (P : S -> Prop) (a : A) (Q : A -> S -> Prop) :
  (forall s, P s -> Q a s) -> triple (E := E) P (mret a) Q.
Proof. intros H s Hs. by apply H. Qed.

Lemma triple_fail {A} (P : S -> Prop) (e : E) (Q : A -> S -> Prop) : triple P (fail e) Q.
Proof. by intros s Hs. Qed.

Lemma triple_bind {A B} (P : S -> Prop) (R : A -> S -> Prop) (Q : B -> S -> Prop)
    (m : go S E A) (f : A -> go S E B) :
  triple P m R -> (forall a, triple (R a) (f a) Q) -> triple P (m ≫= f) Q.
Proof.
  intros Hm Hf s Hs. specialize (Hm s Hs). unfold mbind, go_bind.
  destruct (m s) as [[a|e|] s']; [|done..]. by apply Hf.
Qed.

(** After [get], the receiver read and the receiver are the same. *)

Lemma triple_get {B} (P : S -> Prop) (Q : B -> S -> Prop) (f : S -> go S E B) :
  (forall s0, P s0 -> triple (fun s => s = s0) (f s0) Q) -> triple P (get ≫= f) Q.
Proof. intros H s Hs. cbn. by apply (H s Hs s). Qed.

Lemma triple_modify (P : S -> Prop) (g : S -> S) (Q : unit -> S -> Prop) :
  (forall s, P s -> Q () (g s)) -> triple (E := E) P (modify g) Q.
Proof. intros H s Hs. by apply H. Qed.

Lemma triple_lift {A} (P : S -> Prop) (o : outcome E A) (Q : A -> S -> Prop) :
  (forall s, P s -> match o with Ok a => Q a s | Err _ => True | Panic => False end) ->
  triple P (lift o) Q.
Proof. intros H s Hs. cbn. specialize (H s Hs). by destruct o. Qed.

Lemma triple_conseq {A} (P P' : S -> Prop) (Q Q' : A -> S -> Prop) (m : go S E A) :
  triple P' m Q' -> (forall s, P s -> P' s) -> (forall a s, Q' a s -> Q a s) -> triple P m Q.
Proof.
  intros Hm HP HQ s Hs. specialize (Hm s (HP s Hs)).
  destruct (m s) as [[a|e|] s']; [|done..]. by apply HQ.
Qed.

Lemma triple_ignore_err (P : S -> Prop) (m : go S E unit) (Q : unit -> S -> Prop) :
  (forall s, P s -> (m s).1 <> Panic /\ Q () (m s).2) -> triple P (ignore_err m) Q.
Proof.
  intros H s Hs. specialize (H s Hs). unfold ignore_err.
  destruct (m s) as [[a|e|] s']; cbn in *; tauto.
Qed.

(** A property of the arguments that does not mention the receiver. *)

Lemma triple_pure {A} (phi : Prop) (P : S -> Prop) (m : go S E A) (Q : A -> S -> Prop) :
  (phi -> triple P m Q) -> triple (fun s => phi /\ P s) m Q.
Proof. intros H s [Hphi Hs]. by apply H. Qed.

End Triples.

Lemma triple_zoom {S T E A} (rd : S -> T) (wr : T -> S -> S) (P : T -> Prop)
    (R : A -> T -> Prop) (P' : S -> Prop) (Q : A -> S -> Prop) (m : go T E A) :
  triple P m R -> (forall s, P' s -> P (rd s)) ->
  (forall a t s, P' s -> R a t -> Q a (wr t s)) -> triple P' (zoom rd wr m) Q.
Proof.
  intros Hm HP HQ s Hs. specialize (Hm (rd s) (HP s Hs)). unfold zoom.
  destruct (m (rd s)) as [[a|e|] t]; [|done..]. by apply HQ.
Qed.
