(* ===== verification/Digits.v ===== *)
(** * Digits: byte strings as numbers in base 256

    The value of a byte string read little-endian ([le_val]) and big-endian
    ([be_val]), the fixed-width digits of a number ([le_field], [be_field]), its
    minimal big-endian digits ([be_min]), and the lemmas that relate the shifts,
    masks and disjunctions of the code to these references. *)

From S2P Require Import Prelude.

#[local] Open Scope Z_scope.

(** ** Values and digits *)

Fixpoint le_val (v : bytes) : Z :=
  match v with
  | [] => 0
  | b :: v => b + 256 * le_val v
  end.

(** [le_field n l] is [l] in [n] little-endian bytes. *)

Fixpoint le_field (n : nat) (l : Z) : bytes :=
  match n with
  | O => []
  | S n => l mod 256 :: le_field n (l / 256)
  end.

(** ** Disjunctions of disjoint bits are sums *)

Lemma lor_disjoint r w k : 0 <= k -> 0 <= r < 2 ^ k -> Z.lor r (w * 2 ^ k) = r + w * 2 ^ k.
Proof.
  intros Hk Hr. symmetry.
  assert (Hland : Z.land r (w * 2 ^ k) = 0).
  { apply Z.bits_inj'. intros n Hn. rewrite Z.land_spec, Z.bits_0.
    destruct (decide (n < k)) as [Hlt|Hge].
    - by rewrite Z.mul_pow2_bits_low, andb_false_r.
    - rewrite <- (Z.mod_small r (2 ^ k)), Z.mod_pow2_bits_high by lia. done. }
  rewrite Z.add_nocarry_lxor by done. by rewrite Z.lxor_lor.
Qed.

Lemma lor_shift_byte r b k : 0 <= k -> 0 <= r < 2 ^ k -> Z.lor r (Z.shiftl b k) = r + b * 2 ^ k.
Proof. intros Hk Hr. rewrite Z.shiftl_mul_pow2 by lia. by apply lor_disjoint. Qed.

(** ** Little-endian values *)

Lemma le_val_app v k : le_val (v ++ k) = le_val v + 256 ^ zlen v * le_val k.
Proof.
  induction v as [|b v IH]; [change (zlen (@nil Z)) with 0; cbn; lia|].
  cbn [app le_val]. rewrite IH, zlen_cons, Z.pow_add_r by (try apply zlen_nonneg; lia). lia.
Qed.

Lemma le_val_bound v : wf_bytes v -> 0 <= le_val v < 256 ^ zlen v.
Proof.
  induction 1 as [|b v Hb _ IH]; [change (zlen (@nil Z)) with 0; cbn; lia|].
  cbn [le_val]. rewrite zlen_cons, Z.pow_add_r by (try apply zlen_nonneg; lia).
  unfold is_byte in Hb. lia.
Qed.

Lemma le_val_snoc v b : le_val (v ++ [b]) = le_val v + b * 256 ^ zlen v.
Proof. rewrite le_val_app. cbn. lia. Qed.

Lemma pow256 n : 0 <= n -> 256 ^ n = 2 ^ (8 * n).
Proof. intros. change 256 with (2 ^ 8). by rewrite <- Z.pow_mul_r by lia. Qed.

Lemma le_field_length n l : length (le_field n l) = n.
Proof. revert l. induction n; intros l; cbn; auto. Qed.

Lemma le_field_wf n l : wf_bytes (le_field n l).
Proof.
  revert l. induction n as [|n IH]; intros l; cbn; [constructor|].
  constructor; [|apply IH]. pose proof (Z.mod_pos_bound l 256). unfold is_byte. lia.
Qed.

Lemma le_field_val n l : 0 <= l < 256 ^ Z.of_nat n -> le_val (le_field n l) = l.
Proof.
  revert l. induction n as [|n IH]; intros l Hl; [cbn in *; lia|]. cbn [le_field le_val].
  rewrite Nat2Z.inj_succ, Z.pow_succ_r in Hl by lia.
  rewrite IH; [pose proof (Z.div_mod l 256); lia|].
  split; [apply Z.div_pos; lia|apply Z.div_lt_upper_bound; lia].
Qed.

Lemma le_field_of_bytes v : wf_bytes v -> le_field (length v) (le_val v) = v.
Proof.
  induction 1 as [|b v Hb Hv IH]; [done|]. cbn [length le_field le_val].
  unfold is_byte in Hb. f_equal.
  - rewrite Z.mul_comm, Z.mod_add, Z.mod_small; lia.
  - rewrite Z.mul_comm, Z.div_add, Z.div_small by lia. by rewrite Z.add_0_l.
Qed.

(** ** Big-endian values *)

Definition be_val (v : bytes) : Z := le_val (rev v).
Definition be_field (n : nat) (x : Z) : bytes := rev (le_field n x).

(** The number of base 256 digits of [x], and these digits. *)

Definition bytelen (x : Z) : Z := if decide (0 < x) then Z.log2 x / 8 + 1 else 0.
Definition be_min (x : Z) : bytes := be_field (Z.to_nat (bytelen x)) x.

Lemma wf_bytes_rev v : wf_bytes v -> wf_bytes (rev v).
Proof. intros H. unfold wf_bytes. rewrite rev_alt. by apply Forall_reverse. Qed.

Lemma zlen_rev {A} (v : list A) : zlen (rev v) = zlen v.
Proof. unfold zlen. by rewrite length_rev. Qed.

Lemma be_val_nil : be_val [] = 0.
Proof. done. Qed.

Lemma be_val_cons b v : be_val (b :: v) = b * 256 ^ zlen v + be_val v.
Proof. unfold be_val. cbn [rev]. rewrite le_val_snoc, zlen_rev. lia. Qed.

Lemma be_val_snoc v b : be_val (v ++ [b]) = 256 * be_val v + b.
Proof. unfold be_val. rewrite rev_app_distr. cbn. lia. Qed.

Lemma be_val_bound v : wf_bytes v -> 0 <= be_val v < 256 ^ zlen v.
Proof. intros H. unfold be_val. rewrite <- (zlen_rev v). by apply le_val_bound, wf_bytes_rev. Qed.

Lemma be_field_S n x : be_field (S n) x = be_field n (x / 256) ++ [x mod 256].
Proof. done. Qed.

Lemma be_field_length n x : length (be_field n x) = n.
Proof. unfold be_field. by rewrite length_rev, le_field_length. Qed.

Lemma be_field_wf n x : wf_bytes (be_field n x).
Proof. apply wf_bytes_rev, le_field_wf. Qed.

Lemma be_field_val n x : 0 <= x < 256 ^ Z.of_nat n -> be_val (be_field n x) = x.
Proof. intros H. unfold be_val, be_field. rewrite rev_involutive. by apply le_field_val. Qed.

Lemma be_field_of_bytes v : wf_bytes v -> be_field (length v) (be_val v) = v.
Proof.
  intros H. unfold be_val, be_field. rewrite <- (length_rev v), le_field_of_bytes by by apply wf_bytes_rev.
  apply rev_involutive.
Qed.

(** ** Minimal digits *)

Lemma bytelen_nonneg x : 0 <= bytelen x.
Proof. unfold bytelen. case_decide; [|lia]. pose proof (Z.log2_nonneg x). pose proof (Z.div_pos (Z.log2 x) 8). lia. Qed.

Lemma bytelen_eq x k : 0 < k -> 256 ^ (k - 1) <= x < 256 ^ k -> bytelen x = k.
Proof.
  intros Hk Hx. assert (0 < 256 ^ (k - 1)) by (apply Z.pow_pos_nonneg; lia).
  unfold bytelen. rewrite decide_True by lia. rewrite !pow256 in Hx by lia.
  assert (8 * (k - 1) <= Z.log2 x < 8 * k).
  { split; [|apply Z.log2_lt_pow2; lia]. apply Z.log2_le_pow2; lia. }
  assert (Z.log2 x / 8 = k - 1); [|lia].
  symmetry. apply (Z.div_unique _ _ _ (Z.log2 x - 8 * (k - 1))); lia.
Qed.

Lemma bytelen_spec x : 0 < x -> 0 < bytelen x /\ 256 ^ (bytelen x - 1) <= x < 256 ^ bytelen x.
Proof.
  intros Hx. unfold bytelen. rewrite decide_True by done. pose proof (Z.log2_nonneg x).
  pose proof (Z.log2_spec x Hx) as [H1 H2]. pose proof (Z.div_mod (Z.log2 x) 8).
  pose proof (Z.mod_pos_bound (Z.log2 x) 8). pose proof (Z.div_pos (Z.log2 x) 8).
  rewrite !pow256 by lia. split_and!; [lia| |].
  - etrans; [|done]. apply Z.pow_le_mono_r; lia.
  - eapply Z.lt_le_trans; [done|]. apply Z.pow_le_mono_r; lia.
Qed.

Lemma bytelen_le x k : 0 <= k -> x < 256 ^ k -> bytelen x <= k.
Proof.
  intros Hk Hx. destruct (decide (0 < x)); [|unfold bytelen; rewrite decide_False; lia].
  destruct (bytelen_spec x) as (H0 & H1 & _); [done|]. apply Z.le_ngt. intros Hlt.
  pose proof (Z.pow_le_mono_r 256 k (bytelen x - 1)). lia.
Qed.

Lemma be_min_0 : be_min 0 = [].
Proof. done. Qed.

Lemma be_min_zlen x : zlen (be_min x) = bytelen x.
Proof. unfold zlen, be_min. rewrite be_field_length. pose proof (bytelen_nonneg x). lia. Qed.

Lemma be_min_wf x : wf_bytes (be_min x).
Proof. apply be_field_wf. Qed.

Lemma be_min_val x : 0 <= x -> be_val (be_min x) = x.
Proof.
  intros Hx. destruct (decide (x = 0)) as [->|Hne]; [done|]. apply be_field_val.
  pose proof (bytelen_nonneg x). rewrite Z2Nat.id by done. destruct (bytelen_spec x); lia.
Qed.

Lemma be_min_head x : 0 < x -> exists b v, be_min x = b :: v /\ 0 < b.
Proof.
  intros Hx. destruct (bytelen_spec x Hx) as (H0 & H1 & _).
  pose proof (be_min_val x ltac:(lia)) as Hv. pose proof (be_min_zlen x) as Hl.
  pose proof (be_min_wf x) as Hwf.
  destruct (be_min x) as [|b v]; [rewrite zlen_nil in Hl; lia|]. exists b, v. split; [done|].
  apply wf_bytes_cons in Hwf as [Hb Hv']. rewrite zlen_cons in Hl. rewrite be_val_cons in Hv.
  pose proof (be_val_bound v Hv'). replace (bytelen x - 1) with (zlen v) in H1 by lia.
  unfold is_byte in Hb. destruct (decide (b = 0)) as [->|]; lia.
Qed.

(** A byte string without a leading zero is the digits of its value. *)

Lemma be_min_unique b v : wf_bytes (b :: v) -> b <> 0 -> be_min (be_val (b :: v)) = b :: v.
Proof.
  intros Hwf Hb. unfold be_min. rewrite (bytelen_eq _ (zlen (b :: v))).
  - unfold zlen. rewrite Nat2Z.id. by apply be_field_of_bytes.
  - rewrite zlen_cons. pose proof (zlen_nonneg v). lia.
  - split; [|by apply be_val_bound]. apply wf_bytes_cons in Hwf as [Hb' Hv].
    rewrite be_val_cons, zlen_cons. replace (1 + zlen v - 1) with (zlen v) by lia.
    pose proof (be_val_bound v Hv). unfold is_byte in Hb'.
    pose proof (Z.mul_le_mono_nonneg_r 1 b (256 ^ zlen v)). lia.
Qed.

(** ** Shifted bytes *)

Lemma byte_shift x k : 0 <= k -> u8 (Z.shiftr x k) = (x / 2 ^ k) mod 256.
Proof. intros. unfold u8. by rewrite Z.shiftr_div_pow2. Qed.

Lemma lor_shift_high a r k : 0 <= k -> 0 <= r < 2 ^ k -> Z.lor (Z.shiftl a k) r = a * 2 ^ k + r.
Proof. intros. rewrite Z.lor_comm, lor_shift_byte by done. lia. Qed.
