(* ===== verification/Rlp.v ===== *)
(** * Rlp: the RLP primitives (common/rlp/raw.go and the headers of encode.go)

    RLP serialises strings of bytes and lists of values.  This file holds the
    headers ([headsize], [puthead], [putint], [intsize]), the splitting of a byte
    slice into the first value and the rest ([readKind], [readSize], [Split] and
    its wrappers, [CountValues]), and the reference form of an encoded value
    ([header], [encoded]).  The encoder and the stream decoder are in [RlpEncode]
    and [RlpDecode].

    Buffers that the code writes in place ([putint], [puthead]) are lists that are
    returned with the written prefix; a write past the end panics. *)

From S2P Require Import Prelude Digits.

#[local] Open Scope Z_scope.

(** ** Kinds and errors *)

Inductive Kind : Type :=
  | Byte
  | String_
  | List_.

#[export] Instance Kind_eq_dec : EqDecision Kind.
Proof. solve_decision. Defined.

(** The messages of [*decodeError]; its target type and context, which only
    appear in the text of the error, are left out. *)

Inductive decodeMsg : Type :=
  | msgCanonInt            (* non-canonical integer (leading zero bytes) *)
  | msgCanonSize           (* non-canonical size information *)
  | msgExpectedList        (* expected input list *)
  | msgExpectedString      (* expected input string or byte *)
  | msgStringTooLong       (* input string too long *)
  | msgStringTooShort      (* input string too short *)
  | msgListTooMany         (* input list has too many elements *)
  | msgListTooFew          (* input list has too few elements *)
  | msgTooFew.             (* too few elements *)

Inductive rlp_error : Type :=
  | EOL
  | ErrExpectedString
  | ErrExpectedList
  | ErrCanonInt
  | ErrCanonSize
  | ErrElemTooLarge
  | ErrValueTooLarge
  | errNotInList
  | errNotAtEOL
  | errUintOverflow
  | errIntOverflow
  | io_EOF
  | io_ErrUnexpectedEOF
  | decodeError (msg : decodeMsg)
  | errInvalidBool (num : Z)
  | errNegativeBigInt
  | errNotSerializable
  | errTailNotLast
  | errTailNotSlice
  | outOfFuel.  (* not an error of the code: a loop of the model was cut short *)

#[export] Instance decodeMsg_eq_dec : EqDecision decodeMsg.
Proof. solve_decision. Defined.

#[export] Instance rlp_error_eq_dec : EqDecision rlp_error.
Proof. solve_decision. Defined.

(** ** Writing integers and headers *)

(** Assigning [b[0]], [b[1]], ... in turn. *)

Definition store (b ws : bytes) : outcome rlp_error (Z * bytes) :=
  if decide (zlen ws <= zlen b) then Ok (zlen ws, ws ++ drop (length ws) b) else Panic.

Definition putint (b : bytes) (i : Z) : outcome rlp_error (Z * bytes) :=
  let byte_ k := u8 (Z.shiftr i k) in
  if decide (i < 2 ^ 8) then store b [u8 i]
  else if decide (i < 2 ^ 16) then store b [byte_ 8; u8 i]
  else if decide (i < 2 ^ 24) then store b [byte_ 16; byte_ 8; u8 i]
  else if decide (i < 2 ^ 32) then store b [byte_ 24; byte_ 16; byte_ 8; u8 i]
  else if decide (i < 2 ^ 40) then store b [byte_ 32; byte_ 24; byte_ 16; byte_ 8; u8 i]
  else if decide (i < 2 ^ 48) then store b [byte_ 40; byte_ 32; byte_ 24; byte_ 16; byte_ 8; u8 i]
  else if decide (i < 2 ^ 56) then store b [byte_ 48; byte_ 40; byte_ 32; byte_ 24; byte_ 16; byte_ 8; u8 i]
  else store b [byte_ 56; byte_ 48; byte_ 40; byte_ 32; byte_ 24; byte_ 16; byte_ 8; u8 i].

(** The loop returns after at most eight shifts of a 64-bit integer. *)

Fixpoint intsize_loop (fuel : nat) (size i : Z) : Z :=
  let i := Z.shiftr i 8 in
  if decide (i = 0) then size
  else match fuel with O => size | S fuel => intsize_loop fuel (size + 1) i end.

Definition intsize (i : Z) : Z := intsize_loop 8 1 i.

Definition headsize (size : Z) : Z := if decide (size < 56) then 1 else 1 + intsize size.

Definition puthead (buf : bytes) (smalltag largetag size : Z) : outcome rlp_error (Z * bytes) :=
  match buf with
  | [] => Panic
  | b0 :: tl =>
      if decide (size < 56) then Ok (1, u8 (smalltag + u8 size) :: tl)
      else
        '(sizesize, tl) ← putint tl size;
        Ok (sizesize + 1, u8 (largetag + u8 sizesize) :: tl)
  end.

Definition ListSize (contentSize : Z) : Z := u64 (headsize contentSize + contentSize).

(** ** Splitting (raw.go) *)

Definition size_value (b : bytes) : Z :=
  let sh := Z.shiftl in
  match b with
  | [b0] => b0
  | [b0; b1] => Z.lor (sh b0 8) b1
  | [b0; b1; b2] => Z.lor (Z.lor (sh b0 16) (sh b1 8)) b2
  | [b0; b1; b2; b3] => Z.lor (Z.lor (Z.lor (sh b0 24) (sh b1 16)) (sh b2 8)) b3
  | [b0; b1; b2; b3; b4] =>
      Z.lor (Z.lor (Z.lor (Z.lor (sh b0 32) (sh b1 24)) (sh b2 16)) (sh b3 8)) b4
  | [b0; b1; b2; b3; b4; b5] =>
      Z.lor (Z.lor (Z.lor (Z.lor (Z.lor (sh b0 40) (sh b1 32)) (sh b2 24)) (sh b3 16)) (sh b4 8)) b5
  | [b0; b1; b2; b3; b4; b5; b6] =>
      Z.lor (Z.lor (Z.lor (Z.lor (Z.lor (Z.lor (sh b0 48) (sh b1 40)) (sh b2 32)) (sh b3 24)) (sh b4 16))
        (sh b5 8)) b6
  | [b0; b1; b2; b3; b4; b5; b6; b7] =>
      Z.lor (Z.lor (Z.lor (Z.lor (Z.lor (Z.lor (Z.lor (sh b0 56) (sh b1 48)) (sh b2 40)) (sh b3 32))
        (sh b4 24)) (sh b5 16)) (sh b6 8)) b7
  | _ => 0
  end.

Definition readSize (b : bytes) (slen : Z) : outcome rlp_error Z :=
  if decide (zlen b < slen) then Err io_ErrUnexpectedEOF else
  let s := size_value (take (Z.to_nat slen) b) in
  if decide (s < 56) then Err ErrCanonSize else
  b0 ← goidx b 0;
  if decide (b0 = 0) then Err ErrCanonSize else Ok s.

Definition readKind (buf : bytes) : outcome rlp_error (Kind * Z * Z) :=
  if decide (zlen buf = 0) then Err io_ErrUnexpectedEOF else
  b ← goidx buf 0;
  '(k, tagsize, contentsize) ←
    (if decide (b < 0x80) then Ok (Byte, 0, 1)
     else if decide (b < 0xB8) then
       let contentsize := u8 (b - 0x80) in
       small ← (if decide (contentsize = 1 /\ 1 < zlen buf)
                then b1 ← goidx buf 1; Ok (bool_decide (b1 < 128)) else Ok false);
       if (small : bool) then Err ErrCanonSize else Ok (String_, 1, contentsize)
     else if decide (b < 0xC0) then
       contentsize ← readSize (drop 1 buf) (u8 (b - 0xB7));
       Ok (String_, u8 (b - 0xB7) + 1, contentsize)
     else if decide (b < 0xF8) then Ok (List_, 1, u8 (b - 0xC0))
     else
       contentsize ← readSize (drop 1 buf) (u8 (b - 0xF7));
       Ok (List_, u8 (b - 0xF7) + 1, contentsize));
  if decide (contentsize > u64 (zlen buf - tagsize)) then Err ErrValueTooLarge
  else Ok (k, tagsize, contentsize).

Definition Split (b : bytes) : outcome rlp_error (Kind * bytes * bytes) :=
  '(k, ts, cs) ← readKind b;
  content ← goslice b ts (u64 (ts + cs));
  rest ← goslice b (u64 (ts + cs)) (zlen b);
  Ok (k, content, rest).

Definition SplitString (b : bytes) : outcome rlp_error (bytes * bytes) :=
  '(k, content, rest) ← Split b;
  if decide (k = List_) then Err ErrExpectedString else Ok (content, rest).

Definition SplitList (b : bytes) : outcome rlp_error (bytes * bytes) :=
  '(k, content, rest) ← Split b;
  if decide (k <> List_) then Err ErrExpectedList else Ok (content, rest).

(** Each value takes at least one byte, so the length of the input bounds the
    number of iterations ([CountValues_spec]). *)

Fixpoint CountValues_loop (fuel : nat) (i : Z) (b : bytes) : outcome rlp_error Z :=
  if decide (zlen b > 0) then
    match fuel with
    | O => Err outOfFuel
    | S fuel =>
        '(_, tagsize, size) ← readKind b;
        b ← goslice b (u64 (tagsize + size)) (zlen b);
        CountValues_loop fuel (i + 1) b
    end
  else Ok i.

Definition CountValues (b : bytes) : outcome rlp_error Z := CountValues_loop (length b) 0 b.

(** ** The reference form of an encoded value *)

Definition header (smalltag largetag n : Z) : bytes :=
  if decide (n < 56) then [smalltag + n] else (largetag + bytelen n) :: be_min n.

Definition encoded (k : Kind) (c : bytes) : bytes :=
  match k with
  | Byte => c
  | String_ => header 0x80 0xB7 (zlen c) ++ c
  | List_ => header 0xC0 0xF7 (zlen c) ++ c
  end.

(** A byte below 128 is encoded as itself, and as nothing else. *)

Definition single (c : bytes) : bool :=
  match c with [x] => bool_decide (x < 128) | _ => false end.

Definition canonical (k : Kind) (c : bytes) : Prop :=
  match k with
  | Byte => single c = true
  | String_ => single c = false
  | List_ => True
  end.

(** ** Headers *)

Lemma intsize_loop_spec fuel size i :
  0 <= i -> bytelen i <= Z.of_nat fuel + 1 ->
  intsize_loop fuel size i = size + Z.max 1 (bytelen i) - 1.
Proof.
  revert size i. induction fuel as [|fuel IH]; intros size i Hi Hb; cbn [intsize_loop];
    rewrite Z.shiftr_div_pow2 by lia; change (2 ^ 8) with 256.
  - assert (i < 256) as Hlt.
    { apply Z.lt_nge. intros Hge. destruct (bytelen_spec i) as (_ & _ & H); [lia|].
      pose proof (Z.pow_le_mono_r 256 (bytelen i) 1). lia. }
    rewrite Z.div_small by lia. rewrite decide_True by done. lia.
  - destruct (decide (i < 256)).
    + rewrite Z.div_small, decide_True by lia. pose proof (bytelen_le i 1). lia.
    + assert (1 <= i / 256) by (apply Z.div_le_lower_bound; lia). rewrite decide_False by lia.
      assert (bytelen i = bytelen (i / 256) + 1) as Hs.
      { destruct (bytelen_spec (i / 256)) as (Hp & Hl & Hu); [lia|].
        apply bytelen_eq; [lia|]. replace (bytelen (i / 256) + 1 - 1) with (bytelen (i / 256)) by lia.
        pose proof (Z.div_mod i 256). pose proof (Z.mod_pos_bound i 256).
        replace (bytelen (i / 256)) with (bytelen (i / 256) - 1 + 1) at 1 by lia.
        rewrite !Z.pow_add_r by lia. rewrite Z.pow_1_r in *. lia. }
      pose proof (bytelen_nonneg (i / 256)). destruct (bytelen_spec (i / 256)); [lia|].
      rewrite IH by lia. lia.
Qed.

Lemma bytelen_u64 i : i < 2 ^ 64 -> bytelen i <= 8.
Proof. intros. by apply bytelen_le. Qed.

Lemma intsize_spec i : 0 < i < 2 ^ 64 -> intsize i = bytelen i.
Proof.
  intros Hi. pose proof (bytelen_u64 i). destruct (bytelen_spec i); [lia|].
  unfold intsize. rewrite intsize_loop_spec by lia. lia.
Qed.

Lemma header_zlen st lt n : 0 <= n < 2 ^ 64 -> zlen (header st lt n) = headsize n.
Proof.
  intros Hn. unfold header, headsize. case_decide; [done|].
  rewrite zlen_cons, be_min_zlen, intsize_spec by lia. lia.
Qed.

Lemma headsize_pos n : 0 <= n < 2 ^ 64 -> 1 <= headsize n <= 9.
Proof.
  intros Hn. unfold headsize. case_decide; [lia|]. rewrite intsize_spec by lia.
  pose proof (bytelen_u64 n). pose proof (bytelen_nonneg n). lia.
Qed.

Lemma header_wf st lt n :
  0 <= st <= 200 -> 0 <= lt <= 247 -> 0 <= n < 2 ^ 64 -> wf_bytes (header st lt n).
Proof.
  intros. unfold header. case_decide.
  - apply wf_bytes_1. unfold is_byte. lia.
  - apply wf_bytes_cons. split; [|apply be_min_wf]. pose proof (bytelen_u64 n). pose proof (bytelen_nonneg n).
    unfold is_byte. lia.
Qed.

(** The digits written by [putint] are the minimal big-endian ones. *)

Lemma putint_ok b i :
  0 < i < 2 ^ 64 -> bytelen i <= zlen b ->
  putint b i = Ok (bytelen i, be_min i ++ drop (Z.to_nat (bytelen i)) b).
Proof.
  intros Hi Hb. unfold putint.
  assert (forall n ws, bytelen i = Z.of_nat n -> be_field n i = ws ->
    store b ws = Ok (bytelen i, be_min i ++ drop (Z.to_nat (bytelen i)) b)) as Hstore.
  { intros n ws Hn <-. unfold store, be_min. rewrite Hn, Nat2Z.id.
    assert (zlen (be_field n i) = Z.of_nat n) as -> by (unfold zlen; by rewrite be_field_length).
    rewrite be_field_length, decide_True by lia. done. }
  repeat case_decide;
    [apply (Hstore 1%nat)|apply (Hstore 2%nat)|apply (Hstore 3%nat)|apply (Hstore 4%nat)
    |apply (Hstore 5%nat)|apply (Hstore 6%nat)|apply (Hstore 7%nat)|apply (Hstore 8%nat)];
    first [apply bytelen_eq; lia | rewrite ?byte_shift by lia; unfold be_field, u8; cbn [le_field rev app];
      rewrite ?Z.div_div by lia; done].
Qed.

Lemma puthead_ok buf st lt n :
  0 <= st <= 200 -> 0 <= lt <= 247 -> 0 <= n < 2 ^ 64 -> headsize n <= zlen buf ->
  puthead buf st lt n = Ok (headsize n, header st lt n ++ drop (Z.to_nat (headsize n)) buf).
Proof.
  intros Hst Hlt Hn Hb. pose proof (headsize_pos n Hn). unfold puthead.
  destruct buf as [|b0 tl]; [rewrite zlen_nil in Hb; lia|]. rewrite zlen_cons in Hb.
  unfold headsize, header in *. case_decide.
  - rewrite !u8_id by (rewrite ?u8_id; unfold is_byte; lia). done.
  - rewrite intsize_spec in * by lia. pose proof (bytelen_u64 n). pose proof (bytelen_nonneg n).
    rewrite putint_ok by lia. cbn [mbind outcome_bind].
    rewrite !u8_id by (rewrite ?u8_id; unfold is_byte; lia).
    replace (Z.to_nat (1 + bytelen n)) with (S (Z.to_nat (bytelen n))) by lia.
    cbn [drop app]. do 2 f_equal. lia.
Qed.

(** ** Reading a header back *)

Lemma lor_digit a b k k' :
  0 <= k -> k' = k + 8 -> is_byte b ->
  Z.lor (Z.shiftl a k') (Z.shiftl b k) = Z.shiftl (a * 256 + b) k.
Proof.
  intros Hk -> Hb. unfold is_byte in Hb. rewrite (Z.add_comm k 8), <- Z.shiftl_shiftl, <- Z.shiftl_lor by lia.
  f_equal. by apply (lor_shift_high a b 8).
Qed.

Lemma size_value_spec v : wf_bytes v -> zlen v <= 8 -> size_value v = be_val v.
Proof.
  intros Hwf Hlen. unfold size_value. cbn zeta.
  destruct v as [|c0 [|c1 [|c2 [|c3 [|c4 [|c5 [|c6 [|c7 [|c8 v]]]]]]]]];
    [done| | | | | | | | |rewrite !zlen_cons in Hlen; pose proof (zlen_nonneg v); lia];
    unfold wf_bytes in Hwf; rewrite !Forall_cons in Hwf; destruct_and?;
    repeat match goal with |- context [Z.lor (Z.shiftl ?a ?k') (Z.shiftl ?b ?k)] =>
      rewrite (lor_digit a b k k') by (done || lia) end;
    rewrite ?lor_shift_high by (unfold is_byte in *; lia);
    rewrite ?be_val_cons, be_val_nil; rewrite ?zlen_cons, ?zlen_nil; lia.
Qed.

Lemma goidx_head {E A} (l rest : list A) x :
  head l = Some x -> goidx (E := E) (l ++ rest) 0 = Ok x.
Proof. destruct l; [done|]. cbn. by intros [= ->]. Qed.

Lemma readSize_spec v rest b0 :
  wf_bytes v -> head v = Some b0 -> zlen v <= 8 ->
  readSize (v ++ rest) (zlen v) =
    if decide (56 <= be_val v /\ b0 <> 0) then Ok (be_val v) else Err ErrCanonSize.
Proof.
  intros Hwf Hh Hlen. unfold readSize.
  rewrite decide_False by (rewrite zlen_app; pose proof (zlen_nonneg rest); lia).
  rewrite take_zlen_app, size_value_spec, (goidx_head _ _ b0) by done.
  cbn [mbind outcome_bind]. repeat case_decide; try done; lia.
Qed.

(** The header of a canonical encoding is accepted, with the sizes of its parts. *)

Lemma readSize_header n c :
  56 <= n < 2 ^ 64 -> readSize (be_min n ++ c) (bytelen n) = Ok n.
Proof.
  intros Hn. destruct (be_min_head n) as (b & v & Hb & Hpos); [lia|].
  rewrite <- be_min_zlen, (readSize_spec _ _ b); [| | |].
  - rewrite be_min_val, decide_True by lia. done.
  - apply be_min_wf.
  - by rewrite Hb.
  - rewrite be_min_zlen. apply bytelen_u64. lia.
Qed.

Lemma u8_sub a b : 0 <= b < 256 -> u8 (a + b - a) = b.
Proof. intros. rewrite Z.add_simpl_l. by apply u8_id. Qed.

Lemma long_tag n : 56 <= n < 2 ^ 64 -> 1 <= bytelen n <= 8.
Proof. intros. destruct (bytelen_spec n); [lia|]. pose proof (bytelen_u64 n). lia. Qed.

(** The size test at the end of [readKind] accepts a value that is present. *)

Lemma size_fits {B} (h c rest : bytes) (t : Z) (x y : B) :
  zlen (h ++ c ++ rest) < 2 ^ 63 -> t = zlen h ->
  (if decide (zlen c > u64 (zlen (h ++ c ++ rest) - t)) then x else y) = y.
Proof.
  intros H ->. rewrite !zlen_app in *. pose proof (zlen_nonneg rest). pose proof (zlen_nonneg h).
  pose proof (zlen_nonneg c). rewrite u64_id, decide_False by lia. done.
Qed.

Ltac read_tag :=
  unfold readKind; cbn [app]; rewrite decide_False by (rewrite zlen_cons; zlen_facts; lia);
  rewrite goidx_0; cbn [mbind outcome_bind];
  repeat first [rewrite decide_True by lia | rewrite decide_False by lia]; rewrite ?u8_sub by lia.

Lemma readKind_short_string c rest :
  single c = false -> zlen c < 56 -> zlen (c ++ rest) < 2 ^ 62 ->
  readKind (0x80 + zlen c :: c ++ rest) = Ok (String_, 1, zlen c).
Proof.
  intros Hs Hn Hlen. pose proof (zlen_nonneg c). read_tag.
  match goal with |- context [if decide ?P then _ else _] =>
    assert ((if decide P then b1 ← goidx (E := rlp_error) (128 + zlen c :: c ++ rest) 1; Ok (bool_decide (b1 < 128))
             else Ok false) = Ok false) as -> end.
  { case_decide as Hd; [|done]. destruct Hd as [H1 _].
    destruct c as [|x [|]]; try (rewrite ?zlen_cons, ?zlen_nil in H1; zlen_facts; lia).
    cbn in Hs. cbn [app]. rewrite goidx_1. cbn [mbind outcome_bind]. by rewrite Hs. }
  cbn [mbind outcome_bind]. apply (size_fits [_]); [|done]. cbn [app]. rewrite zlen_cons. lia.
Qed.

Lemma readKind_short_list c rest :
  zlen c < 56 -> zlen (c ++ rest) < 2 ^ 62 ->
  readKind (0xC0 + zlen c :: c ++ rest) = Ok (List_, 1, zlen c).
Proof.
  intros Hn Hlen. pose proof (zlen_nonneg c). read_tag.
  cbn [mbind outcome_bind]. apply (size_fits [_]); [|done]. cbn [app]. rewrite zlen_cons. lia.
Qed.

Lemma readKind_long k lt c rest :
  k = String_ /\ lt = 0xB7 \/ k = List_ /\ lt = 0xF7 ->
  56 <= zlen c -> zlen (c ++ rest) < 2 ^ 62 ->
  readKind (lt + bytelen (zlen c) :: be_min (zlen c) ++ c ++ rest) = Ok (k, 1 + bytelen (zlen c), zlen c).
Proof.
  intros Hk Hn Hlen. pose proof (zlen_nonneg rest). pose proof (long_tag (zlen c)) as Ht.
  assert (zlen c < 2 ^ 62) by (rewrite zlen_app in Hlen; lia).
  assert (zlen (lt + bytelen (zlen c) :: be_min (zlen c) ++ c ++ rest) < 2 ^ 63).
  { rewrite zlen_cons, zlen_app, be_min_zlen. lia. }
  destruct Hk as [[-> ->]|[-> ->]]; read_tag; cbn [drop]; rewrite drop_0, readSize_header by lia;
    cbn [mbind outcome_bind]; rewrite (Z.add_comm (bytelen _) 1);
    apply (size_fits (_ :: be_min (zlen c))); [done|by rewrite zlen_cons, be_min_zlen|
      done|by rewrite zlen_cons, be_min_zlen].
Qed.

Lemma readKind_encoded k c rest :
  canonical k c -> zlen (encoded k c ++ rest) < 2 ^ 62 ->
  readKind (encoded k c ++ rest) = Ok (k, zlen (encoded k c) - zlen c, zlen c).
Proof.
  intros Hc Hlen. destruct k; cbn [encoded canonical] in *.
  - destruct c as [|x [|]]; cbn in Hc; try discriminate. apply bool_decide_eq_true in Hc.
    read_tag. cbn [mbind outcome_bind]. apply (size_fits [] [x]); [|done]. cbn [app] in *. lia.
  - rewrite <- app_assoc, !zlen_app in *. unfold header in *. pose proof (zlen_nonneg c).
    case_decide; cbn [app] in *; rewrite ?zlen_cons, ?zlen_nil, ?be_min_zlen in *.
    + rewrite readKind_short_string by (try rewrite zlen_app; first [done|lia]). do 3 f_equal. lia.
    + pose proof (bytelen_nonneg (zlen c)). rewrite (readKind_long String_); [do 3 f_equal; lia|by left|lia|rewrite zlen_app; lia].
  - rewrite <- app_assoc, !zlen_app in *. unfold header in *. pose proof (zlen_nonneg c).
    case_decide; cbn [app] in *; rewrite ?zlen_cons, ?zlen_nil, ?be_min_zlen in *.
    + rewrite readKind_short_list by (try rewrite zlen_app; first [done|lia]). do 3 f_equal. lia.
    + pose proof (bytelen_nonneg (zlen c)). rewrite (readKind_long List_); [do 3 f_equal; lia|by right|lia|rewrite zlen_app; lia].
Qed.

(** Every accepted value is in canonical form. *)

Lemma split_at (b : bytes) n : 0 <= n <= zlen b -> exists v rest, b = v ++ rest /\ zlen v = n.
Proof.
  intros Hn. exists (take (Z.to_nat n) b), (drop (Z.to_nat n) b). split; [by rewrite take_drop|].
  unfold zlen in *. rewrite length_take. lia.
Qed.

Lemma readSize_inv b slen n :
  wf_bytes b -> 1 <= slen <= 8 -> readSize b slen = Ok n ->
  slen = bytelen n /\ 56 <= n < 2 ^ 64 /\ exists rest, b = be_min n ++ rest.
Proof.
  intros Hwf Hs H. destruct (decide (zlen b < slen)) as [Hl|Hl].
  { unfold readSize in H. by rewrite decide_True in H. }
  destruct (split_at b slen) as (v & rest & -> & <-); [lia|].
  destruct v as [|b0 v]; [rewrite zlen_nil in Hs; lia|]. apply wf_bytes_app in Hwf as [Hwf _].
  rewrite (readSize_spec _ _ b0) in H by (done || lia). case_decide as Hd; [|done]. injection H as <-.
  rewrite be_min_unique by tauto. split_and!; [|tauto| |by eexists].
  - by rewrite <- be_min_zlen, be_min_unique by tauto.
  - eapply Z.lt_le_trans; [by apply be_val_bound|]. change (2 ^ 64) with (256 ^ 8).
    apply Z.pow_le_mono_r; lia.
Qed.

Lemma short_inv b0 b tag n :
  b0 = tag + n -> 0 <= n < 56 -> zlen b < 2 ^ 62 -> ~ n > u64 (1 + zlen b - 1) ->
  exists c r, b0 :: b = (header tag 0 (zlen c) ++ c) ++ r /\ b = c ++ r /\ n = zlen c.
Proof.
  intros -> Hn Hb Hfit. pose proof (zlen_nonneg b). rewrite u64_id in Hfit by lia.
  destruct (split_at b n) as (c & r & -> & <-); [lia|]. exists c, r. unfold header.
  by rewrite decide_True by lia.
Qed.

Lemma long_inv b0 b tag lt n rest :
  b0 = lt + bytelen n -> b = be_min n ++ rest -> 56 <= n < 2 ^ 64 -> zlen b < 2 ^ 62 ->
  ~ n > u64 (1 + zlen b - (bytelen n + 1)) ->
  exists c r, b0 :: b = (header tag lt (zlen c) ++ c) ++ r /\ n = zlen c.
Proof.
  intros -> -> Hn Hb Hfit. rewrite zlen_app, be_min_zlen in *. pose proof (zlen_nonneg rest).
  rewrite u64_id in Hfit by (pose proof (bytelen_nonneg n); lia).
  destruct (split_at rest n) as (c & r & -> & <-); [lia|]. exists c, r. unfold header.
  rewrite decide_False by lia. split; [|done]. cbn [app]. by rewrite <- !app_assoc.
Qed.

Lemma header_short st lt lt' n : n < 56 -> header st lt n = header st lt' n.
Proof. intros. unfold header. by rewrite !decide_True. Qed.

Lemma u8_tag b0 lt : lt < b0 <= lt + 8 -> 0 <= lt -> u8 (b0 - lt) = b0 - lt.
Proof. intros. apply u8_id. unfold is_byte. lia. Qed.

Lemma readKind_inv b k ts cs :
  wf_bytes b -> zlen b < 2 ^ 62 -> readKind b = Ok (k, ts, cs) ->
  exists c rest, b = encoded k c ++ rest /\ canonical k c /\ cs = zlen c.
Proof.
  intros Hwf Hlen. unfold readKind. case_decide as H0; [done|].
  destruct b as [|b0 b]; [done|]. rewrite goidx_0. cbn [mbind outcome_bind drop].
  apply wf_bytes_cons in Hwf as [Hb0 Hwf]. unfold is_byte in Hb0. rewrite zlen_cons in Hlen |- *.
  pose proof (zlen_nonneg b) as Hb. rewrite drop_0.
  destruct (decide (b0 < 0x80)) as [H1|H1]; [|destruct (decide (b0 < 0xB8)) as [H2|H2];
    [|destruct (decide (b0 < 0xC0)) as [H3|H3]; [|destruct (decide (b0 < 0xF8)) as [H4|H4]]]].
  - cbn [mbind outcome_bind]. case_decide; [done|]. intros [= <- <- <-]. exists [b0], b.
    split_and!; [done| |done]. cbn. by apply bool_decide_eq_true.
  - rewrite u8_id by (unfold is_byte; lia). intros H.
    assert (exists small, (if decide (b0 - 128 = 1 /\ 1 < 1 + zlen b) then b1 ← goidx (E := rlp_error) (b0 :: b) 1;
      Ok (bool_decide (b1 < 128)) else Ok false) = Ok small) as [small Hsm].
    { case_decide as Hd; [|eauto]. destruct b as [|b1 b]; [rewrite zlen_nil in Hd; lia|].
      rewrite goidx_1. cbn [mbind outcome_bind]. eauto. }
    rewrite Hsm in H. cbn [mbind outcome_bind] in H. destruct small; [done|].
    cbn [mbind outcome_bind] in H. revert H.
    destruct (decide (b0 - 128 > u64 (1 + zlen b - 1))) as [|Hfit]; [done|]. intros [= <- <- <-].
    destruct (short_inv b0 b 0x80 (b0 - 128)) as (c & r & -> & -> & Hc); [lia..|].
    exists c, r. cbn [encoded canonical]. rewrite (header_short _ 0 0xB7) by lia. split_and!; [done| |done].
    destruct c as [|x [|]]; try done. rewrite decide_True in Hsm
      by (cbn [app]; rewrite zlen_cons; zlen_facts; split; [done|lia]).
    cbn [app] in Hsm. rewrite goidx_1 in Hsm. cbn [mbind outcome_bind] in Hsm. by injection Hsm.
  - rewrite u8_tag by lia. destruct (readSize b (b0 - 183)) as [n| |] eqn:Hn; try done.
    cbn [mbind outcome_bind]. case_decide as Hfit; [done|]. intros [= <- <- <-].
    apply readSize_inv in Hn as (Ht & Hr & rest & Hrest); [|done|lia]. rewrite Ht in Hfit.
    destruct (long_inv b0 b 0x80 0xB7 n rest) as (c & r & -> & ->); [lia|done|done|lia|done|].
    exists c, r. split_and!; [done| |done]. destruct c as [|x [|]]; [done|rewrite zlen_cons, zlen_nil in Hr; lia|done].
  - rewrite u8_id by (unfold is_byte; lia). cbn [mbind outcome_bind].
    case_decide as Hfit; [done|]. intros [= <- <- <-].
    destruct (short_inv b0 b 0xC0 (b0 - 0xC0)) as (c & r & -> & -> & Hc); [lia..|].
    exists c, r. cbn [encoded canonical]. by rewrite (header_short _ 0 0xF7) by lia.
  - rewrite u8_tag by lia. destruct (readSize b (b0 - 247)) as [n| |] eqn:Hn; try done.
    cbn [mbind outcome_bind]. case_decide as Hfit; [done|]. intros [= <- <- <-].
    apply readSize_inv in Hn as (Ht & Hr & rest & Hrest); [|done|lia]. rewrite Ht in Hfit.
    destruct (long_inv b0 b 0xC0 0xF7 n rest) as (c & r & -> & ->); [lia|done|done|lia|done|].
    by exists c, r.
Qed.

Lemma readSize_no_panic b slen : 1 <= slen -> readSize b slen <> Panic.
Proof.
  intros Hs. unfold readSize. case_decide as Hl; [done|]. cbn zeta. case_decide; [done|].
  destruct (goidx_in_range (E := rlp_error) b 0) as (x & -> & _); [lia|]. cbn [mbind outcome_bind]. by case_decide.
Qed.

Lemma readKind_no_panic b : wf_bytes b -> readKind b <> Panic.
Proof.
  intros Hwf. unfold readKind. case_decide; [done|]. destruct b as [|b0 b]; [done|].
  apply wf_bytes_cons in Hwf as [Hb0 _]. unfold is_byte in Hb0.
  rewrite goidx_0. cbn [mbind outcome_bind]. apply outcome_bind_no_panic.
  - destruct (decide (b0 < 0x80)); [done|]. destruct (decide (b0 < 0xB8)).
    { apply outcome_bind_no_panic; [|by intros []]. case_decide as Hd; [|done].
      destruct b as [|b1 b]; [rewrite zlen_cons, zlen_nil in Hd; lia|]. by rewrite goidx_1. }
    destruct (decide (b0 < 0xC0)).
    { apply outcome_bind_no_panic; [|done]. apply readSize_no_panic. rewrite u8_tag; lia. }
    destruct (decide (b0 < 0xF8)); [done|].
    apply outcome_bind_no_panic; [|done]. apply readSize_no_panic. rewrite u8_tag; lia.
  - intros [[k ts] cs]. by case_decide.
Qed.

Lemma readKind_not_fuel b : readKind b <> Err outOfFuel.
Proof.
  assert (forall l n, readSize l n <> Err outOfFuel) as Hs.
  { intros l n. unfold readSize. case_decide; [done|]. cbn zeta. case_decide; [done|].
    apply outcome_bind_not_err; [apply goidx_not_err|]. intros x. by case_decide. }
  unfold readKind. case_decide; [done|]. apply outcome_bind_not_err; [apply goidx_not_err|]. intros b0.
  apply outcome_bind_not_err; [|intros [[k ts] cs]; by case_decide].
  repeat (case_decide; [try done|]); try done; apply outcome_bind_not_err; try done; try apply Hs.
  - by apply outcome_bind_not_err; [apply goidx_not_err|].
  - by intros [].
Qed.

(** Splitting accepts exactly the canonical encodings. *)

Lemma Split_encoded k c rest :
  canonical k c -> zlen (encoded k c ++ rest) < 2 ^ 62 -> Split (encoded k c ++ rest) = Ok (k, c, rest).
Proof.
  intros Hc Hlen. unfold Split. rewrite readKind_encoded by done. cbn [mbind outcome_bind].
  assert (exists h, encoded k c = h ++ c) as [h Hh] by (destruct k; [by exists []|by eexists..]).
  rewrite Hh in *.
  replace (zlen (h ++ c) - zlen c) with (zlen h) by (rewrite zlen_app; lia).
  rewrite u64_id by (rewrite !zlen_app in Hlen; zlen_facts; lia).
  rewrite <- app_assoc at 1. rewrite (goslice_mid h c rest) by lia. cbn [mbind outcome_bind].
  by rewrite <- zlen_app, goslice_suffix.
Qed.

Lemma Split_inv b k c rest :
  wf_bytes b -> zlen b < 2 ^ 62 -> Split b = Ok (k, c, rest) -> b = encoded k c ++ rest /\ canonical k c.
Proof.
  intros Hwf Hlen H. destruct (readKind b) as [[[k' ts] cs]| |] eqn:Hk;
    [|unfold Split in H; rewrite Hk in H; discriminate H..].
  apply readKind_inv in Hk as (c' & rest' & -> & Hc & _); [|done..].
  rewrite Split_encoded in H by done. by injection H as <- <- <-.
Qed.

Lemma encoded_pos k c : canonical k c -> zlen c < 2 ^ 64 -> 0 < zlen (encoded k c).
Proof.
  intros Hc Hl. pose proof (zlen_nonneg c). destruct k; cbn [encoded canonical] in *.
  - destruct c as [|? [|]]; done.
  - rewrite zlen_app, header_zlen by lia. pose proof (headsize_pos (zlen c)). lia.
  - rewrite zlen_app, header_zlen by lia. pose proof (headsize_pos (zlen c)). lia.
Qed.

(** C38: [Split] accepts exactly the canonical encodings: it returns kind [k],
    content [c] and rest [r] on the input [b] if and only if [b] is the encoding of
    [c] with the kind [k] followed by [r], where a byte below 128 is its own
    encoding and has no other, sizes below 56 are in the tag, and larger sizes are
    written without leading zeros.  On every other input it returns an error, and
    it never panics. *)
Theorem Split_iff b :
  wf_bytes b -> zlen b < 2 ^ 62 ->
  (forall k c r, Split b = Ok (k, c, r) <-> b = encoded k c ++ r /\ canonical k c) /\ Split b <> Panic.
Proof.
  intros Hwf Hlen. split.
  - intros k c r. split; [by apply Split_inv|]. intros [-> Hc]. by apply Split_encoded.
  - unfold Split. destruct (readKind b) as [[[k ts] cs]| |] eqn:Hk; [|done|].
    + pose proof Hk as Hk'. apply readKind_inv in Hk as (c & r & -> & Hc & _); [|done..].
      pose proof (Split_encoded k c r Hc Hlen) as Hs. unfold Split in Hs. rewrite Hk' in Hs. by rewrite Hs.
    + exfalso. revert Hk. by apply readKind_no_panic.
Qed.

Lemma Split_iff_witness :
  Split [0x83; 1; 2; 3; 0xC0] = Ok (String_, [1; 2; 3], [0xC0]) /\ Split [0x81; 5] <> Panic.
Proof.
  split.
  - apply (Split_iff [0x83; 1; 2; 3; 0xC0]); [by apply (bool_decide_unpack _); vm_compute|done|done].
  - apply (Split_iff [0x81; 5]); [by apply (bool_decide_unpack _); vm_compute|done].
Defined.

(** [CountValues] counts the values of a concatenation of encodings, and its loop
    ends on every input. *)

Lemma CountValues_step fuel i k c rest :
  canonical k c -> zlen (encoded k c ++ rest) < 2 ^ 62 ->
  CountValues_loop (S fuel) i (encoded k c ++ rest) = CountValues_loop fuel (i + 1) rest.
Proof.
  intros Hc Hlen. cbn [CountValues_loop]. rewrite zlen_app in Hlen. zlen_facts.
  assert (zlen c <= zlen (encoded k c)) by (destruct k; cbn [encoded]; rewrite ?zlen_app; zlen_facts; lia).
  pose proof (encoded_pos k c Hc ltac:(lia)).
  rewrite decide_True by (rewrite zlen_app; lia). rewrite readKind_encoded by (done || rewrite zlen_app; lia).
  cbn [mbind outcome_bind]. rewrite Z.sub_add, u64_id by lia. by rewrite goslice_suffix.
Qed.

Lemma CountValues_concat (l : list (Kind * bytes)) fuel i :
  Forall (fun kc => canonical kc.1 kc.2) l -> (length l <= fuel)%nat ->
  zlen (concat ((fun kc => encoded kc.1 kc.2) <$> l)) < 2 ^ 62 ->
  CountValues_loop fuel i (concat ((fun kc => encoded kc.1 kc.2) <$> l)) = Ok (i + zlen l).
Proof.
  intros Hl. revert fuel i. induction Hl as [|[k c] l Hc Hl IH]; intros fuel i Hf Hlen.
  - destruct fuel; cbn; f_equal; rewrite zlen_nil; lia.
  - destruct fuel as [|fuel]; [cbn in Hf; lia|]. cbn [fmap list_fmap concat fst snd] in *.
    rewrite CountValues_step by done. rewrite zlen_app in Hlen. zlen_facts.
    rewrite IH by (cbn in Hf; lia). f_equal. rewrite zlen_cons. lia.
Qed.

Lemma CountValues_loop_ends fuel i b :
  wf_bytes b -> zlen b < 2 ^ 62 -> (length b <= fuel)%nat -> CountValues_loop fuel i b <> Err outOfFuel.
Proof.
  revert i b. induction fuel as [|fuel IH]; intros i b Hwf Hlen Hf.
  { destruct b; [done|cbn in Hf; lia]. }
  destruct (readKind b) as [[[k ts] cs]|e|] eqn:Hk.
  - apply readKind_inv in Hk as (c & r & -> & Hc & _); [|done..]. rewrite CountValues_step by done.
    apply wf_bytes_app in Hwf as [_ Hwf]. rewrite zlen_app in Hlen. zlen_facts.
    assert (zlen c <= zlen (encoded k c)) by (destruct k; cbn [encoded]; rewrite ?zlen_app; zlen_facts; lia).
    pose proof (encoded_pos k c Hc ltac:(lia)). apply IH; [done|lia|].
    rewrite length_app in Hf. unfold zlen in *. lia.
  - cbn [CountValues_loop]. case_decide; [|done]. rewrite Hk. cbn. intros [= ->].
    revert Hk. apply readKind_not_fuel.
  - by apply readKind_no_panic in Hk.
Qed.
