(* ===== verification/RlpEncode.v ===== *)
(** * RlpEncode: the RLP encoder (common/rlp/encode.go, typecache.go)

    The encoder walks a Go value by reflection and appends to an [encbuf]: string
    data goes to [str], and the header of a list is only recorded ([lheads]), since
    its size is known when the list ends.  [toBytes], [toWriter] and the reader of
    [EncodeToReader] then interleave data and headers.

    The Go types that the package serialises are the codes [rtype], the values
    [rval]; the writer that [makeWriter] selects for a type is [writer].  A value
    that is not of the type makes the reflection calls panic.  A struct lists the
    fields that [structFields] keeps (exported, without the "-" tag).  Types with
    an [EncodeRLP] or [DecodeRLP] method of their own are not among the codes, nor
    are recursive types.

    The specification is the abstract syntax [item] with its recursive encoding
    [rlp_bytes]; [EncodeToBytes_refines] states that the two passes over the buffer
    implement it. *)

From S2P Require Import Prelude Digits Rlp.

#[local] Open Scope Z_scope.
#[local] Set Warnings "-register-all".

(** ** Types and values *)

Record tags : Type := Tags { nilOK : bool; tail : bool }.

Definition no_tags : tags := Tags false false.

Inductive rtype : Type :=
  | TRawValue
  | TBigInt                    (* big.Int; *big.Int is [TPtr TBigInt] *)
  | TUint (bits : Z)
  | TBool
  | TString
  | TByteSlice
  | TByteArray (n : Z)
  | TSlice (t : rtype)
  | TArray (n : Z) (t : rtype)
  | TStruct (fields : list (tags * rtype))
  | TPtr (t : rtype)
  | TInterface                 (* interface{} *)
  | TFloat64
  | TMap (k v : rtype)
  | TInt (bits : Z)
  | TUnsupported.              (* channels, functions, complex numbers, float32 *)

(** A float is given by its bits; a map by its entries in the order in which the
    runtime happens to enumerate them. *)

Inductive rval : Type :=
  | VBytes (b : bytes)
  | VInt (z : Z)
  | VBool (b : bool)
  | VList (l : list rval)
  | VMap (l : list (rval * rval))
  | VNil
  | VPtr (v : rval)
  | VIface (t : rtype) (v : rval).

(** ** Type information (typecache.go) *)

Definition is_slice (t : rtype) : bool :=
  match t with TRawValue | TByteSlice | TSlice _ => true | _ => false end.

(** The tags of field [fi] of a struct with [n] fields. *)

Definition parseStructTag (ts : tags) (last : bool) (t : rtype) : outcome rlp_error tags :=
  if tail ts then
    if last then if is_slice t then Ok ts else Err errTailNotSlice else Err errTailNotLast
  else Ok ts.

(** Whether a decoder and a writer exist for the type. *)

Fixpoint genTypeInfo (t : rtype) : outcome rlp_error unit :=
  match t with
  | TSlice t | TArray _ t | TPtr t => genTypeInfo t
  | TStruct fields =>
      (fix structFields (fields : list (tags * rtype)) : outcome rlp_error unit :=
        match fields with
        | [] => Ok tt
        | (ts, t) :: rest =>
            _ ← parseStructTag ts (match rest with [] => true | _ => false end) t;
            _ ← genTypeInfo t;
            structFields rest
        end) fields
  | TMap k v => _ ← genTypeInfo k; genTypeInfo v
  | TUnsupported => Err errNotSerializable
  | _ => Ok tt
  end.

(** ** The buffer *)

Record listhead : Type := ListHead { offset : Z; lh_size : Z }.

Record encbuf : Type := Encbuf {
  str : bytes;
  lheads : list listhead;
  lhsize : Z;
  sizebuf : bytes
}.

Definition set_str (b : bytes) (w : encbuf) : encbuf := Encbuf b (lheads w) (lhsize w) (sizebuf w).
Definition set_sizebuf (b : bytes) (w : encbuf) : encbuf := Encbuf (str w) (lheads w) (lhsize w) b.

Abbreviation enc A := (go encbuf rlp_error A).

(** A buffer made by the pool, and its reset before use. *)

Definition new_encbuf : encbuf := Encbuf [] [] 0 (replicate 9 0).
Definition reset (w : encbuf) : encbuf := Encbuf [] [] 0 (sizebuf w).

Definition append (b : bytes) : enc unit := modify (fun w => set_str (str w ++ b) w).

(** [s := put(w.sizebuf[1:]); w.sizebuf[0] = tag + byte(s); w.str = append(w.str,
    w.sizebuf[:s+1]...)], the sequence shared by the three integer writers. *)

Definition append_sized (tag : Z) (put : bytes -> outcome rlp_error (Z * bytes)) : enc unit :=
  w ← get;
  match sizebuf w with
  | [] => lift Panic
  | _ :: tl =>
      '(s, tl) ← lift (put tl);
      let buf := u8 (tag + u8 s) :: tl in
      _ ← modify (set_sizebuf buf);
      b ← lift (goslice buf 0 (s + 1));
      append b
  end.

Definition encodeStringHeader (size : Z) : enc unit :=
  if decide (size < 56) then append [u8 (0x80 + u8 size)]
  else append_sized 0xB7 (fun b => putint b size).

Definition encodeString (b : bytes) : enc unit :=
  if single b then append b
  else _ ← encodeStringHeader (zlen b); append b.

(** A [*listhead] is its index in [lheads], to which [list] only appends. *)

Definition list_ : enc nat :=
  w ← get;
  _ ← put (Encbuf (str w) (lheads w ++ [ListHead (zlen (str w)) (lhsize w)]) (lhsize w) (sizebuf w));
  mret (length (lheads w)).

Definition size_ (w : encbuf) : Z := zlen (str w) + lhsize w.

Definition listEnd (lh : nat) : enc unit :=
  w ← get;
  match lheads w !! lh with
  | None => lift Panic
  | Some h =>
      let n := size_ w - offset h - lh_size h in
      put (Encbuf (str w) (<[lh := ListHead (offset h) n]> (lheads w))
             (lhsize w + (if decide (n < 56) then 1 else 1 + intsize n)) (sizebuf w))
  end.

(** ** The writers of the types *)

Definition writeRawValue (b : bytes) : enc unit := append b.

(** Two's complement, big-endian, in the least number of bytes. *)

Definition putint2 (b : bytes) (i : Z) : outcome rlp_error (Z * bytes) :=
  let byte_ k := u8 (Z.shiftr i k) in
  if decide (- 2 ^ 7 <= i <= 2 ^ 7 - 1) then store b [u8 i]
  else if decide (- 2 ^ 15 <= i <= 2 ^ 15 - 1) then store b [byte_ 8; u8 i]
  else if decide (- 2 ^ 23 <= i <= 2 ^ 23 - 1) then store b [byte_ 16; byte_ 8; u8 i]
  else if decide (- 2 ^ 31 <= i <= 2 ^ 31 - 1) then store b [byte_ 24; byte_ 16; byte_ 8; u8 i]
  else if decide (- 2 ^ 39 <= i <= 2 ^ 39 - 1) then store b [byte_ 32; byte_ 24; byte_ 16; byte_ 8; u8 i]
  else if decide (- 2 ^ 47 <= i <= 2 ^ 47 - 1) then
    store b [byte_ 40; byte_ 32; byte_ 24; byte_ 16; byte_ 8; u8 i]
  else if decide (- 2 ^ 55 <= i <= 2 ^ 55 - 1) then
    store b [byte_ 48; byte_ 40; byte_ 32; byte_ 24; byte_ 16; byte_ 8; u8 i]
  else store b [byte_ 56; byte_ 48; byte_ 40; byte_ 32; byte_ 24; byte_ 16; byte_ 8; u8 i].

Definition writeInt (i : Z) : enc unit :=
  if decide (i = 0) then append [0x80] else append_sized 0x80 (fun b => putint2 b i).

Definition writeUint (i : Z) : enc unit :=
  if decide (i = 0) then append [0x80]
  else if decide (i < 128) then append [u8 i]
  else append_sized 0x80 (fun b => putint b i).

Definition writeBool (b : bool) : enc unit := append [if b then 0x01 else 0x80].

(** [i.Bytes()] is the minimal big-endian form of the absolute value. *)

Definition writeBigInt (i : Z) : enc unit :=
  if decide (i < 0) then fail errNegativeBigInt
  else if decide (i = 0) then append [0x80]
  else encodeString (be_min i).

Definition writeBytes (b : bytes) : enc unit := encodeString b.
Definition writeByteArray (b : bytes) : enc unit := encodeString b.

(** [binary.LittleEndian.PutUint64] of the bits. *)

Definition writefloat64 (bits : Z) : enc unit := writeBytes (le_field 8 bits).

Definition writeString (s : bytes) : enc unit :=
  if single s then append s
  else _ ← encodeStringHeader (zlen s); append s.

(** The loops over elements, fields and entries. *)

Fixpoint write_elems (ew : rval -> enc unit) (vs : list rval) : enc unit :=
  match vs with
  | [] => mret tt
  | v :: vs => _ ← ew v; write_elems ew vs
  end.

(** [defer fin()]: [fin] runs on the error path of [m] as well. *)

Definition defer (fin m : enc unit) : enc unit := fun w =>
  match m w with
  | (Panic, w) => (Panic, w)
  | (r, w) => match fin w with (Ok _, w) => (r, w) | (o, w) => (o, w) end
  end.

Definition makeSliceWriter (ts : tags) (ew : rval -> enc unit) (vs : list rval) : enc unit :=
  if tail ts then write_elems ew vs
  else lh ← list_; defer (listEnd lh) (write_elems ew vs).

Fixpoint write_fields (fw : tags -> rtype -> rval -> enc unit) (fields : list (tags * rtype))
    (vs : list rval) {struct vs} : enc unit :=
  match vs, fields with
  | v :: vs, (ts, t) :: fields => _ ← fw ts t v; write_fields fw fields vs
  | [], [] => mret tt
  | _, _ => lift Panic
  end.

Fixpoint write_entries (kw vw : rval -> enc unit) (l : list (rval * rval)) : enc unit :=
  match l with
  | [] => mret tt
  | (k, v) :: l => _ ← kw k; _ ← vw v; write_entries kw vw l
  end.

Definition in_list (m : enc unit) : enc unit := lh ← list_; _ ← m; listEnd lh.

(** The writer of a nil pointer to [t]: an empty string or list for arrays and
    structs, the writer of [t] on the zero value of [t] otherwise. *)

Fixpoint nilfunc (t : rtype) : enc unit :=
  match t with
  | TByteArray _ => append [0x80]
  | TStruct _ | TArray _ _ => in_list (mret tt)
  | TBigInt => append [0x80]
  | TRawValue => writeRawValue []
  | TUint _ => writeUint 0
  | TBool => writeBool false
  | TString => writeString []
  | TByteSlice => writeBytes []
  | TSlice t => makeSliceWriter no_tags (fun _ => mret tt) []
  | TPtr t => nilfunc t
  | TInterface => append [0xC0]
  | TFloat64 => writefloat64 0
  | TMap _ _ => in_list (mret tt)
  | TInt _ => writeInt 0
  | TUnsupported => lift Panic
  end.

Fixpoint writer (ts : tags) (t : rtype) (v : rval) {struct v} : enc unit :=
  match v with
  | VBytes b =>
      match t with
      | TRawValue => writeRawValue b
      | TString => writeString b
      | TByteSlice => writeBytes b
      | TByteArray _ => writeByteArray b
      | _ => lift Panic
      end
  | VInt z =>
      match t with
      | TBigInt => writeBigInt z
      | TUint _ => writeUint z
      | TInt _ => writeInt z
      | TFloat64 => writefloat64 z
      | _ => lift Panic
      end
  | VBool b => match t with TBool => writeBool b | _ => lift Panic end
  | VList vs =>
      match t with
      | TSlice t => makeSliceWriter ts (writer no_tags t) vs
      | TArray _ t => makeSliceWriter ts (writer no_tags t) vs
      | TStruct fields => in_list (write_fields writer fields vs)
      | _ => lift Panic
      end
  | VMap l =>
      match t with
      | TMap k v => in_list (write_entries (writer no_tags k) (writer no_tags v) l)
      | _ => lift Panic
      end
  | VNil =>
      match t with
      | TPtr t => nilfunc t
      | TInterface => append [0xC0]
      | _ => lift Panic
      end
  | VPtr v => match t with TPtr t => writer no_tags t v | _ => lift Panic end
  | VIface t' v => match t with TInterface => _ ← lift (genTypeInfo t'); writer no_tags t' v | _ => lift Panic end
  end.

(** ** The encoded bytes *)

(** [copy(out[pos:], src)], with the new [out] and the number of bytes copied. *)

Definition copy_to (out : bytes) (pos : Z) (src : bytes) : outcome rlp_error (bytes * Z) :=
  dst ← goslice out pos (zlen out);
  Ok (take (Z.to_nat pos) out ++ gocopy dst src, Z.min (zlen dst) (zlen src)).

Definition listhead_encode (head : listhead) (buf : bytes) : outcome rlp_error (Z * bytes) :=
  puthead buf 0xC0 0xF7 (u64 (lh_size head)).

Fixpoint toBytes_loop (str : bytes) (heads : list listhead) (out : bytes) (strpos pos : Z) :
    outcome rlp_error bytes :=
  match heads with
  | [] =>
      src ← goslice str strpos (zlen str);
      '(out, _) ← copy_to out pos src;
      Ok out
  | head :: heads =>
      src ← goslice str strpos (offset head);
      '(out, n) ← copy_to out pos src;
      let pos := pos + n in
      let strpos := strpos + n in
      buf ← goslice out pos (zlen out);
      '(n, buf) ← listhead_encode head buf;
      toBytes_loop str heads (take (Z.to_nat pos) out ++ buf) strpos (pos + n)
  end.

Definition toBytes (w : encbuf) : outcome rlp_error bytes :=
  toBytes_loop (str w) (lheads w) (replicate (Z.to_nat (size_ w)) 0) 0 0.

(** [encode]: type information first, then the writer. *)

Definition encode (t : rtype) (v : rval) : enc unit := _ ← lift (genTypeInfo t); writer no_tags t v.

Definition EncodeToBytes (eb : encbuf) (t : rtype) (v : rval) : outcome rlp_error bytes :=
  match encode t v (reset eb) with
  | (Ok _, w) => toBytes w
  | (Err e, _) => Err e
  | (Panic, _) => Panic
  end.

(** [toWriter] to a destination that takes every write in full; its buffer for
    headers is [sizebuf]. *)

Fixpoint toWriter_loop (str : bytes) (heads : list listhead) (sizebuf out : bytes) (strpos : Z) :
    outcome rlp_error bytes :=
  match heads with
  | [] =>
      if decide (strpos < zlen str) then src ← goslice str strpos (zlen str); Ok (out ++ src) else Ok out
  | head :: heads =>
      '(out, strpos) ←
        (if decide (offset head - strpos > 0) then
           src ← goslice str strpos (offset head); Ok (out ++ src, strpos + zlen src)
         else Ok (out, strpos));
      '(n, sizebuf) ← listhead_encode head sizebuf;
      enc ← goslice sizebuf 0 n;
      toWriter_loop str heads sizebuf (out ++ enc) strpos
  end.

Definition toWriter (w : encbuf) : outcome rlp_error bytes :=
  toWriter_loop (str w) (lheads w) (sizebuf w) [] 0.

Definition Encode (eb : encbuf) (t : rtype) (v : rval) : outcome rlp_error bytes :=
  match encode t v (reset eb) with
  | (Ok _, w) => toWriter w
  | (Err e, _) => Err e
  | (Panic, _) => Panic
  end.

(** ** The reader of [EncodeToReader] *)

Record encReader : Type := EncReader {
  rd_buf : option encbuf;
  lhpos : nat;
  strpos : Z;
  piece : option bytes
}.

Definition next (r : encReader) : outcome rlp_error (option bytes * encReader) :=
  match rd_buf r, piece r with
  | None, _ => Ok (None, r)
  | Some _, Some p => Ok (Some p, r)
  | Some w, None =>
      match lheads w !! lhpos r with
      | Some head =>
          let sizebefore := offset head - strpos r in
          if decide (sizebefore > 0) then
            p ← goslice (str w) (strpos r) (offset head);
            Ok (Some p, EncReader (Some w) (lhpos r) (strpos r + sizebefore) None)
          else
            '(n, sb) ← listhead_encode head (sizebuf w);
            p ← goslice sb 0 n;
            Ok (Some p, EncReader (Some (set_sizebuf sb w)) (S (lhpos r)) (strpos r) None)
      | None =>
          if decide (strpos r < zlen (str w)) then
            p ← goslice (str w) (strpos r) (zlen (str w));
            Ok (Some p, EncReader (Some w) (lhpos r) (zlen (str w)) None)
          else Ok (None, r)
      end
  end.

(** [Read] of a destination with [k] bytes left to fill: the bytes copied, and
    whether the end of the data was reported.  Every iteration but the last
    consumes one piece, of which there are at most two per header and one more. *)

Fixpoint Read_loop (fuel : nat) (r : encReader) (k : Z) (acc : bytes) :
    outcome rlp_error (bytes * bool * encReader) :=
  match fuel with
  | O => Err outOfFuel
  | S fuel =>
      '(p, r) ← next r;
      match p with
      | None => Ok (acc, true, EncReader None (lhpos r) (strpos r) None)
      | Some p =>
          let nn := Z.min k (zlen p) in
          let acc := acc ++ take (Z.to_nat nn) p in
          if decide (nn < zlen p) then
            Ok (acc, false, EncReader (rd_buf r) (lhpos r) (strpos r) (Some (drop (Z.to_nat nn) p)))
          else Read_loop fuel (EncReader (rd_buf r) (lhpos r) (strpos r) None) (k - nn) acc
      end
  end.

Definition Read (r : encReader) (n : Z) : outcome rlp_error (bytes * bool * encReader) :=
  Read_loop (match rd_buf r with Some w => 2 * length (lheads w) + 4 | None => 1 end) r n [].

Definition EncodeToReader (eb : encbuf) (t : rtype) (v : rval) : outcome rlp_error (Z * encReader) :=
  match encode t v (reset eb) with
  | (Ok _, w) => Ok (size_ w, EncReader (Some w) 0 0 None)
  | (Err e, _) => Err e
  | (Panic, _) => Panic
  end.

(** Successive reads into buffers of the given sizes. *)

Fixpoint Reads (r : encReader) (ns : list Z) : outcome rlp_error (bytes * encReader) :=
  match ns with
  | [] => Ok ([], r)
  | n :: ns =>
      '(b, _, r) ← Read r n;
      '(bs, r) ← Reads r ns;
      Ok (b ++ bs, r)
  end.

(** ** The specification: items and their encoding *)

Inductive item : Type :=
  | Str (b : bytes)
  | Lst (l : list item)
  | Raw (b : bytes).

Fixpoint rlp_bytes (i : item) : bytes :=
  match i with
  | Str b => if single b then b else encoded String_ b
  | Lst l => encoded List_ (concat (map rlp_bytes l))
  | Raw b => b
  end.

Definition all_bytes_of (l : list item) : bytes := concat (map rlp_bytes l).

(** The number of bytes of the two's complement form of [i], and its encoding:
    always with a tag, also for one byte below 128. *)

Definition intlen (i : Z) : Z := Z.max 1 (bytelen (2 * (if decide (0 <= i) then i else - i - 1))).

Definition int_item (i : Z) : item :=
  if decide (i = 0) then Str []
  else Raw (0x80 + intlen i :: be_field (Z.to_nat (intlen i)) i).

Fixpoint nil_item (t : rtype) : item :=
  match t with
  | TStruct _ | TArray _ _ | TSlice _ | TInterface | TMap _ _ => Lst []
  | TRawValue => Raw []
  | TFloat64 => Str (le_field 8 0)
  | TPtr t => nil_item t
  | _ => Str []
  end.

Fixpoint collect (f : rval -> outcome rlp_error (list item)) (vs : list rval) : outcome rlp_error (list item) :=
  match vs with
  | [] => Ok []
  | v :: vs => x ← f v; xs ← collect f vs; Ok (x ++ xs)
  end.

Fixpoint collect_fields (f : tags -> rtype -> rval -> outcome rlp_error (list item))
    (fields : list (tags * rtype)) (vs : list rval) {struct vs} : outcome rlp_error (list item) :=
  match vs, fields with
  | v :: vs, (ts, t) :: fields => x ← f ts t v; xs ← collect_fields f fields vs; Ok (x ++ xs)
  | [], [] => Ok []
  | _, _ => Panic
  end.

Fixpoint collect_entries (f g : rval -> outcome rlp_error (list item)) (l : list (rval * rval)) :
    outcome rlp_error (list item) :=
  match l with
  | [] => Ok []
  | (k, v) :: l => x ← f k; y ← g v; xs ← collect_entries f g l; Ok (x ++ y ++ xs)
  end.

(** The items of a value: one, except that a slice in the tail of a struct is the
    items of its elements. *)

Fixpoint items (ts : tags) (t : rtype) (v : rval) {struct v} : outcome rlp_error (list item) :=
  match v with
  | VBytes b => Ok [match t with TRawValue => Raw b | _ => Str b end]
  | VInt z =>
      match t with
      | TBigInt => if decide (z < 0) then Err errNegativeBigInt else Ok [Str (be_min z)]
      | TInt _ => Ok [int_item z]
      | TFloat64 => Ok [Str (le_field 8 z)]
      | _ => Ok [Str (be_min z)]
      end
  | VBool b => Ok [Str (if b then [1] else [])]
  | VList vs =>
      match t with
      | TSlice t => xs ← collect (items no_tags t) vs; Ok (if tail ts then xs else [Lst xs])
      | TArray _ t => xs ← collect (items no_tags t) vs; Ok (if tail ts then xs else [Lst xs])
      | TStruct fields => xs ← collect_fields items fields vs; Ok [Lst xs]
      | _ => Panic
      end
  | VMap l =>
      match t with
      | TMap k v => xs ← collect_entries (items no_tags k) (items no_tags v) l; Ok [Lst xs]
      | _ => Panic
      end
  | VNil => Ok [match t with TPtr t => nil_item t | _ => Lst [] end]
  | VPtr v => match t with TPtr t => items no_tags t v | _ => Panic end
  | VIface t v => _ ← genTypeInfo t; items no_tags t v
  end.

(** The values of a type. *)

Fixpoint has_type (t : rtype) (v : rval) {struct v} : bool :=
  match v, t with
  | VBytes b, (TRawValue | TString | TByteSlice) => bool_decide (wf_bytes b)
  | VBytes b, TByteArray n => bool_decide (wf_bytes b /\ zlen b = n)
  | VInt z, TBigInt => true
  | VInt z, TUint bits => bool_decide (0 <= z < 2 ^ bits /\ bits <= 64)
  | VInt z, TInt bits => bool_decide (- 2 ^ (bits - 1) <= z < 2 ^ (bits - 1) /\ 1 <= bits <= 64)
  | VInt z, TFloat64 => bool_decide (0 <= z < 2 ^ 64)
  | VBool _, TBool => true
  | VList vs, TSlice t => forallb (has_type t) vs
  | VList vs, TArray n t => bool_decide (zlen vs = n) && forallb (has_type t) vs
  | VList vs, TStruct fields =>
      (fix go (vs : list rval) (fields : list (tags * rtype)) : bool :=
        match vs, fields with
        | v :: vs, (_, t) :: fields => has_type t v && go vs fields
        | [], [] => true
        | _, _ => false
        end) vs fields
  | VMap l, TMap k v => forallb (fun kv => has_type k kv.1 && has_type v kv.2) l
  | VNil, (TPtr _ | TInterface) => true
  | VPtr v, TPtr t => has_type t v
  | VIface t' v, TInterface => has_type t' v
  | _, _ => false
  end.

(** ** Data and headers interleaved

    [flat base s heads] is the string data [s], which starts at offset [base], with
    the headers put back at their offsets. *)

Fixpoint flat (base : Z) (s : bytes) (heads : list listhead) : bytes :=
  match heads with
  | [] => s
  | h :: heads =>
      take (Z.to_nat (offset h - base)) s ++ header 0xC0 0xF7 (lh_size h) ++
      flat (offset h) (drop (Z.to_nat (offset h - base)) s) heads
  end.

Fixpoint heads_ok (base : Z) (s : bytes) (heads : list listhead) : Prop :=
  match heads with
  | [] => True
  | h :: heads =>
      base <= offset h <= base + zlen s /\ heads_ok (offset h) (drop (Z.to_nat (offset h - base)) s) heads
  end.

Fixpoint heads_size (heads : list listhead) : Z :=
  match heads with
  | [] => 0
  | h :: heads => headsize (lh_size h) + heads_size heads
  end.

Definition small_heads (heads : list listhead) : Prop := Forall (fun h => 0 <= lh_size h < 2 ^ 62) heads.

Lemma drop_shift (s k : bytes) n : zlen s <= n -> drop (Z.to_nat n) (s ++ k) = drop (Z.to_nat (n - zlen s)) k.
Proof. intros. unfold zlen in *. rewrite drop_app_ge by lia. f_equal. lia. Qed.

Lemma take_shift (s k : bytes) n :
  zlen s <= n -> take (Z.to_nat n) (s ++ k) = s ++ take (Z.to_nat (n - zlen s)) k.
Proof. intros. unfold zlen in *. rewrite take_app_ge by lia. do 2 f_equal. lia. Qed.

Lemma flat_prefix base s k heads :
  heads_ok (base + zlen s) k heads ->
  flat base (s ++ k) heads = s ++ flat (base + zlen s) k heads /\ heads_ok base (s ++ k) heads.
Proof.
  destruct heads as [|h heads]; [done|]. cbn [flat heads_ok]. intros [Ho Hh].
  replace (offset h - (base + zlen s)) with (offset h - base - zlen s) in * by lia.
  rewrite take_shift, drop_shift, <- app_assoc by lia. split; [done|]. split; [|done].
  rewrite zlen_app. zlen_facts. lia.
Qed.

Lemma flat_app base s1 h1 s2 h2 :
  heads_ok base s1 h1 -> heads_ok (base + zlen s1) s2 h2 ->
  flat base (s1 ++ s2) (h1 ++ h2) = flat base s1 h1 ++ flat (base + zlen s1) s2 h2 /\
  heads_ok base (s1 ++ s2) (h1 ++ h2).
Proof.
  revert base s1. induction h1 as [|h h1 IH]; intros base s1 H1 H2; [by apply flat_prefix|].
  cbn [app flat heads_ok] in *. destruct H1 as [Ho H1].
  assert (Z.to_nat (offset h - base) <= length s1)%nat by (unfold zlen in *; lia).
  rewrite take_app_le, drop_app_le by done.
  destruct (IH _ _ H1) as [-> Hok].
  { rewrite zlen_drop by lia. by replace (offset h + (zlen s1 - (offset h - base))) with (base + zlen s1) by lia. }
  rewrite zlen_drop by lia. replace (offset h + (zlen s1 - (offset h - base))) with (base + zlen s1) by lia.
  split; [by rewrite <- !app_assoc|]. split; [|done]. rewrite zlen_app. zlen_facts. lia.
Qed.

Lemma flat_zlen base s heads :
  heads_ok base s heads -> small_heads heads -> zlen (flat base s heads) = zlen s + heads_size heads.
Proof.
  intros H Hs. revert base s H. induction Hs as [|h heads Hh Hs IH]; intros base s H; cbn [flat heads_size]; [lia|].
  destruct H as [Ho H]. rewrite !zlen_app, IH by done. rewrite header_zlen by lia.
  rewrite zlen_drop by lia. assert (zlen (take (Z.to_nat (offset h - base)) s) = offset h - base); [|lia].
  unfold zlen in *. rewrite length_take. lia.
Qed.

Lemma heads_size_app h1 h2 : heads_size (h1 ++ h2) = heads_size h1 + heads_size h2.
Proof. induction h1 as [|h h1 IH]; cbn [app heads_size]; [done|]. rewrite IH. lia. Qed.

(** ** What a writer appends *)

Definition ext (w : encbuf) (s : bytes) (heads : list listhead) (sb : bytes) : encbuf :=
  Encbuf (str w ++ s) (lheads w ++ heads) (lhsize w + heads_size heads) sb.

Definition wf_encbuf (w : encbuf) : Prop := zlen (sizebuf w) = 9.

Definition writes (m : enc unit) (e : bytes) : Prop :=
  forall w, wf_encbuf w ->
    exists s heads sb, m w = (Ok tt, ext w s heads sb) /\ zlen sb = 9 /\ heads_ok (zlen (str w)) s heads /\
      (zlen e < 2 ^ 62 -> flat (zlen (str w)) s heads = e /\ small_heads heads).

Definition errs (m : enc unit) (e : rlp_error) : Prop :=
  forall w, wf_encbuf w ->
    exists w', m w = (Err e, w') /\ wf_encbuf w' /\ (length (lheads w) <= length (lheads w'))%nat.

Definition implements (m : enc unit) (o : outcome rlp_error bytes) : Prop :=
  match o with
  | Ok e => writes m e
  | Err e => errs m e
  | Panic => False
  end.

Lemma writes_ret : writes (mret tt) [].
Proof.
  intros w Hw. exists [], [], (sizebuf w). split_and!; [|done|done|intros _; split; [done|constructor]].
  unfold ext. cbn. rewrite !app_nil_r, Z.add_0_r. by destruct w.
Qed.

Lemma writes_append b : writes (append b) b.
Proof.
  intros w Hw. exists b, [], (sizebuf w). split_and!; [|done|done|intros _; split; [done|constructor]].
  unfold append, modify, ext, set_str. cbn. by rewrite app_nil_r, Z.add_0_r.
Qed.

Lemma writes_bind m1 m2 e1 e2 : writes m1 e1 -> writes m2 e2 -> writes (_ ← m1; m2) (e1 ++ e2).
Proof.
  intros H1 H2 w Hw. destruct (H1 w Hw) as (s1 & h1 & sb1 & E1 & Hsb1 & Hok1 & Hf1).
  destruct (H2 (ext w s1 h1 sb1) Hsb1) as (s2 & h2 & sb2 & E2 & Hsb2 & Hok2 & Hf2).
  cbn [str ext] in Hok2, Hf2. rewrite zlen_app in Hok2, Hf2.
  destruct (flat_app _ _ _ _ _ Hok1 Hok2) as [Hflat Hok].
  exists (s1 ++ s2), (h1 ++ h2), sb2. split_and!; [|done|done|].
  - rewrite (go_bind_ok _ _ _ _ _ E1), E2. unfold ext. cbn.
    by rewrite !app_assoc, heads_size_app, Z.add_assoc.
  - rewrite zlen_app. zlen_facts. intros Hlen. destruct Hf1 as [Hf1 Hs1]; [lia|].
    destruct Hf2 as [Hf2 Hs2]; [lia|]. rewrite Hflat, Hf1, Hf2. split; [done|]. by apply Forall_app.
Qed.

Lemma errs_bind m1 m2 e : errs m1 e -> errs (_ ← m1; m2) e.
Proof. intros H w Hw. destruct (H w Hw) as (w' & E & Hw'). exists w'. split; [|done]. by apply go_bind_err. Qed.

Lemma errs_bind_r m1 m2 e1 e : writes m1 e1 -> errs m2 e -> errs (_ ← m1; m2) e.
Proof.
  intros H1 H2 w Hw. destruct (H1 w Hw) as (s1 & h1 & sb1 & E1 & Hsb1 & _).
  destruct (H2 (ext w s1 h1 sb1) Hsb1) as (w' & E2 & Hw' & Hl).
  exists w'. split_and!; [|done|]; [by rewrite (go_bind_ok _ _ _ _ _ E1)|].
  cbn in Hl. rewrite length_app in Hl. lia.
Qed.

Lemma implements_bind m1 m2 o1 o2 :
  implements m1 o1 -> implements m2 o2 -> implements (_ ← m1; m2) (e1 ← o1; e2 ← o2; Ok (e1 ++ e2)).
Proof.
  destruct o1 as [e1|e1|], o2 as [e2|e2|]; cbn; eauto using writes_bind, errs_bind, errs_bind_r.
Qed.

(** ** Lists *)

Definition opened (w : encbuf) : encbuf :=
  Encbuf (str w) (lheads w ++ [ListHead (zlen (str w)) (lhsize w)]) (lhsize w) (sizebuf w).

Lemma list_opened {A} (f : nat -> enc A) w : (list_ ≫= f) w = f (length (lheads w)) (opened w).
Proof. done. Qed.

Lemma listEnd_opened w s heads sb :
  listEnd (length (lheads w)) (ext (opened w) s heads sb) =
    (Ok tt, ext w s (ListHead (zlen (str w)) (zlen s + heads_size heads) :: heads) sb).
Proof.
  unfold listEnd. rewrite go_get_bind. cbn [ext lheads opened].
  rewrite <- app_assoc. cbn [app]. rewrite list_lookup_middle by done. cbn [offset lh_size].
  assert (size_ (ext (opened w) s heads sb) - zlen (str w) - lhsize w = zlen s + heads_size heads) as ->.
  { unfold size_. cbn. rewrite zlen_app. lia. }
  unfold put, ext. cbn [str lheads lhsize sizebuf opened offset lh_size heads_size].
  rewrite insert_app_r_alt, Nat.sub_diag by lia. cbn [insert list_insert]. do 2 f_equal.
  unfold headsize. destruct (decide _); lia.
Qed.

Lemma listEnd_ok lh w : (lh < length (lheads w))%nat ->
  exists w', listEnd lh w = (Ok tt, w') /\ sizebuf w' = sizebuf w /\ length (lheads w') = length (lheads w).
Proof.
  intros H. apply lookup_lt_is_Some in H as [h Hh]. eexists. unfold listEnd.
  rewrite go_get_bind, Hh. split; [done|]. cbn. by rewrite length_insert.
Qed.

Lemma ended_writes w s heads e :
  heads_ok (zlen (str w)) s heads ->
  (zlen e < 2 ^ 62 -> flat (zlen (str w)) s heads = e /\ small_heads heads) ->
  let heads' := ListHead (zlen (str w)) (zlen s + heads_size heads) :: heads in
  heads_ok (zlen (str w)) s heads' /\
  (zlen (encoded List_ e) < 2 ^ 62 -> flat (zlen (str w)) s heads' = encoded List_ e /\ small_heads heads').
Proof.
  intros Hok Hf. cbn [heads_ok flat offset lh_size]. rewrite Z.sub_diag. change (Z.to_nat 0) with 0%nat. rewrite take_0, drop_0. cbn [app].
  split; [zlen_facts; split; [lia|done]|]. intros Hlen.
  assert (zlen e < 2 ^ 62) as He by (cbn [encoded] in Hlen; rewrite zlen_app in Hlen; zlen_facts; lia).
  destruct (Hf He) as [Hfl Hs]. pose proof (flat_zlen _ _ _ Hok Hs) as Hz. rewrite Hfl in Hz.
  rewrite Hfl, <- Hz. split; [done|]. constructor; [|done]. cbn. zlen_facts. lia.
Qed.

Lemma writes_in_list m e : writes m e -> writes (in_list m) (encoded List_ e).
Proof.
  intros H w Hw. unfold in_list. rewrite list_opened.
  destruct (H (opened w) Hw) as (s & heads & sb & E & Hsb & Hok & Hf).
  eexists s, _, sb. rewrite (go_bind_ok _ _ _ _ _ E), listEnd_opened. split; [done|]. split; [done|].
  by apply ended_writes.
Qed.

Lemma errs_in_list m e : errs m e -> errs (in_list m) e.
Proof.
  intros H w Hw. unfold in_list. rewrite list_opened.
  destruct (H (opened w) Hw) as (w' & E & Hw' & Hl). exists w'. rewrite (go_bind_err _ _ _ _ _ E).
  split_and!; [done|done|]. cbn in Hl. rewrite length_app in Hl. lia.
Qed.

Lemma writes_defer m e : writes m e -> writes (lh ← list_; defer (listEnd lh) m) (encoded List_ e).
Proof.
  intros H w Hw. rewrite list_opened.
  destruct (H (opened w) Hw) as (s & heads & sb & E & Hsb & Hok & Hf).
  eexists s, _, sb. unfold defer. rewrite E, listEnd_opened. split; [done|]. split; [done|].
  by apply ended_writes.
Qed.

Lemma errs_defer m e : errs m e -> errs (lh ← list_; defer (listEnd lh) m) e.
Proof.
  intros H w Hw. rewrite list_opened.
  destruct (H (opened w) Hw) as (w' & E & Hw' & Hl). cbn in Hl. rewrite length_app in Hl. cbn in Hl.
  destruct (listEnd_ok (length (lheads w)) w') as (w'' & E'' & Hsb & Hl''); [lia|].
  exists w''. unfold defer. rewrite E, E''. unfold wf_encbuf. rewrite Hsb, Hl''. split_and!; [done|done|lia].
Qed.

(** ** Leaves *)

Lemma writes_weaken m e e' : writes m e' -> (zlen e < 2 ^ 62 -> e' = e) -> writes m e.
Proof.
  intros H He w Hw. destruct (H w Hw) as (s & heads & sb & E & Hsb & Hok & Hf).
  exists s, heads, sb. split_and!; [done..|]. intros Hlen. specialize (He Hlen). subst e. by apply Hf.
Qed.

Lemma writes_sized tag put ws :
  (forall b, put b = store b ws) -> zlen ws <= 8 ->
  writes (append_sized tag put) (u8 (tag + u8 (zlen ws)) :: ws).
Proof.
  intros Hput Hws w Hw. unfold wf_encbuf in Hw.
  unfold append_sized. rewrite go_get_bind.
  destruct (sizebuf w) as [|b0 tl]; [done|]. rewrite zlen_cons in Hw.
  rewrite Hput. unfold store. rewrite decide_True, go_lift_ok, go_modify_bind by lia.
  set (buf := _ :: ws ++ drop (length ws) tl).
  assert (goslice (E := rlp_error) buf 0 (zlen ws + 1) = Ok (u8 (tag + u8 (zlen ws)) :: ws)) as ->.
  { replace (zlen ws + 1) with (zlen (u8 (tag + u8 (zlen ws)) :: ws)) by (rewrite zlen_cons; lia).
    subst buf. rewrite app_comm_cons. apply goslice_prefix. }
  rewrite go_lift_ok. eexists _, [], buf. split_and!; [| |done|intros _; split; [done|constructor]].
  - unfold append, modify, set_str, set_sizebuf, ext. cbn. by rewrite app_nil_r, Z.add_0_r.
  - subst buf. rewrite zlen_cons, zlen_app. unfold zlen in *. rewrite length_drop. lia.
Qed.

(** [putint] and [putint2] store at most eight bytes, whatever the integer. *)

Lemma store_det b ws n v : store b ws = Ok (n, v) -> n = zlen ws /\ take (length ws) v = ws.
Proof. unfold store. case_decide; [|done]. intros [= <- <-]. by rewrite take_app_length. Qed.

Lemma putint_store i :
  exists ws, zlen ws <= 8 /\ (forall b, putint b i = store b ws) /\ (0 < i < 2 ^ 64 -> ws = be_min i).
Proof.
  assert (exists ws, zlen ws <= 8 /\ (forall b, putint b i = store b ws)) as (ws & Hl & Hs).
  { unfold putint. repeat case_decide; (eexists; split; [|intros; reflexivity]); done. }
  exists ws. split_and!; [done..|]. intros Hi.
  assert (zlen (replicate 8 0) = 8) as H8 by done.
  pose proof (putint_ok (replicate 8 0) i Hi ltac:(rewrite H8; apply bytelen_u64; lia)) as Hp.
  rewrite Hs in Hp. apply store_det in Hp as [Hn <-].
  assert (length ws = length (be_min i)) as -> by (rewrite <- be_min_zlen in Hn; unfold zlen in Hn; lia).
  apply take_app_length.
Qed.

Lemma encodeStringHeader_writes n :
  0 <= n -> exists e, writes (encodeStringHeader n) e /\ (n < 2 ^ 62 -> e = header 0x80 0xB7 n).
Proof.
  intros Hn. unfold encodeStringHeader, header. case_decide as Hs.
  - eexists. split; [apply writes_append|]. intros _. by rewrite !u8_id by (rewrite ?u8_id; unfold is_byte; lia).
  - destruct (putint_store n) as (ws & Hl & Hst & Hws). eexists. split; [by apply writes_sized|].
    intros Hlt. rewrite Hws, be_min_zlen by lia. pose proof (long_tag n).
    by rewrite !u8_id by (rewrite ?u8_id; unfold is_byte; lia).
Qed.

Lemma writes_string b : single b = false -> writes (_ ← encodeStringHeader (zlen b); append b) (encoded String_ b).
Proof.
  intros Hs. destruct (encodeStringHeader_writes (zlen b)) as (e & He & Hv); [apply zlen_nonneg|].
  eapply writes_weaken; [apply writes_bind; [done|apply writes_append]|]. cbn [encoded].
  rewrite zlen_app. zlen_facts. intros. by rewrite Hv by lia.
Qed.

Lemma encodeString_writes b : writes (encodeString b) (rlp_bytes (Str b)).
Proof.
  unfold encodeString. cbn [rlp_bytes]. destruct (single b) eqn:Hs; [apply writes_append|by apply writes_string].
Qed.

Lemma writeUint_writes i : 0 <= i < 2 ^ 64 -> writes (writeUint i) (rlp_bytes (Str (be_min i))).
Proof.
  intros Hi. unfold writeUint. case_decide as H0; [subst; apply writes_append|]. case_decide as H1.
  - assert (be_min i = [i]) as ->.
    { unfold be_min, be_field. rewrite (bytelen_eq i 1) by lia. change (Z.to_nat 1) with 1%nat.
      cbn [le_field rev app]. by rewrite Z.mod_small by lia. }
    rewrite u8_id by (unfold is_byte; lia). cbn. rewrite bool_decide_eq_true_2 by lia. apply writes_append.
  - destruct (putint_store i) as (ws & Hl & Hst & Hws). rewrite Hws in * by lia. cbn [rlp_bytes encoded].
    assert (single (be_min i) = false) as ->.
    { pose proof (be_min_val i ltac:(lia)) as Hv. destruct (be_min i) as [|x [|]]; [done| |done].
      cbn. rewrite be_val_cons, be_val_nil, zlen_nil in Hv. apply bool_decide_eq_false. lia. }
    unfold header. rewrite decide_True by lia. rewrite be_min_zlen in *. pose proof (bytelen_nonneg i).
    pose proof (writes_sized 0x80 (fun b => putint b i) (be_min i) Hst) as Hw. rewrite be_min_zlen in Hw.
    rewrite !u8_id in Hw by (rewrite ?u8_id; unfold is_byte; lia). by apply Hw.
Qed.

(** Two's complement digits. *)

Lemma intlen_eq i k : 1 <= k -> - 2 ^ (8 * k - 1) <= i <= 2 ^ (8 * k - 1) - 1 ->
  ~ - 2 ^ (8 * (k - 1) - 1) <= i <= 2 ^ (8 * (k - 1) - 1) - 1 -> intlen i = k.
Proof.
  intros Hk Hi Hn. unfold intlen.
  set (a := if decide (0 <= i) then i else - i - 1).
  assert (0 <= a <= 2 ^ (8 * k - 1) - 1) as Ha by (subst a; case_decide; lia).
  assert (2 * a < 256 ^ k).
  { rewrite pow256 by lia. replace (8 * k) with (8 * k - 1 + 1) by lia. rewrite Z.pow_add_r by lia. lia. }
  destruct (decide (k = 1)) as [->|].
  - pose proof (bytelen_le (2 * a) 1). lia.
  - rewrite (bytelen_eq (2 * a) k); [lia|lia|]. split; [|done].
    rewrite pow256 by lia. replace (8 * (k - 1)) with (8 * (k - 1) - 1 + 1) by lia.
    rewrite Z.pow_add_r by lia. subst a. case_decide; lia.
Qed.

Lemma putint2_store i :
  - 2 ^ 63 <= i < 2 ^ 63 ->
  1 <= intlen i <= 8 /\ forall b, putint2 b i = store b (be_field (Z.to_nat (intlen i)) i).
Proof.
  intros Hi. unfold putint2.
  assert (forall n ws, intlen i = Z.of_nat n -> (1 <= n <= 8)%nat -> be_field n i = ws ->
    1 <= intlen i <= 8 /\ forall b, store b ws = store b (be_field (Z.to_nat (intlen i)) i)) as Hst.
  { intros n ws Hn Hr <-. rewrite Hn, Nat2Z.id. split; [lia|done]. }
  repeat case_decide;
    [apply (Hst 1%nat)|apply (Hst 2%nat)|apply (Hst 3%nat)|apply (Hst 4%nat)
    |apply (Hst 5%nat)|apply (Hst 6%nat)|apply (Hst 7%nat)|apply (Hst 8%nat)];
    first [lia | apply intlen_eq; lia | rewrite ?byte_shift by lia; unfold be_field, u8; cbn [le_field rev app];
      rewrite ?Z.div_div by lia; done].
Qed.

Lemma writeInt_writes i : - 2 ^ 63 <= i < 2 ^ 63 -> writes (writeInt i) (rlp_bytes (int_item i)).
Proof.
  intros Hi. unfold writeInt, int_item. case_decide; [apply writes_append|]. cbn [rlp_bytes].
  destruct (putint2_store i Hi) as [Hl Hst]. set (ws := be_field _ i) in *.
  assert (zlen ws = intlen i) as Hz by (subst ws; unfold zlen; rewrite be_field_length; lia).
  pose proof (writes_sized 0x80 (fun b => putint2 b i) ws Hst ltac:(lia)) as Hw. rewrite Hz in Hw.
  rewrite !u8_id in Hw by (rewrite ?u8_id; unfold is_byte; lia). done.
Qed.

(** ** The writer implements the items *)

Section RvalInd.
Context (P : rval -> Prop).
Context (Hbytes : forall b, P (VBytes b)) (Hint : forall z, P (VInt z)) (Hbool : forall b, P (VBool b)).
Context (Hlist : forall l, Forall P l -> P (VList l)).
Context (Hmap : forall l, Forall (fun kv => P kv.1 /\ P kv.2) l -> P (VMap l)).
Context (Hnil : P VNil) (Hptr : forall v, P v -> P (VPtr v)) (Hiface : forall t v, P v -> P (VIface t v)).

Fixpoint rval_nested_ind (v : rval) : P v :=
  match v with
  | VBytes b => Hbytes b
  | VInt z => Hint z
  | VBool b => Hbool b
  | VList l => Hlist l ((fix go l : Forall P l :=
      match l with [] => Forall_nil_2 _ | v :: l => Forall_cons_2 _ _ _ (rval_nested_ind v) (go l) end) l)
  | VMap l => Hmap l ((fix go l : Forall (fun kv => P kv.1 /\ P kv.2) l :=
      match l with
      | [] => Forall_nil_2 _
      | (k, v) :: l => Forall_cons_2 _ (k, v) _ (conj (rval_nested_ind k) (rval_nested_ind v)) (go l)
      end) l)
  | VNil => Hnil
  | VPtr v => Hptr v (rval_nested_ind v)
  | VIface t v => Hiface t v (rval_nested_ind v)
  end.
End RvalInd.

#[local] Arguments all_bytes_of : simpl never.
#[local] Arguments encoded : simpl never.

Section RtypeInd.
Context (P : rtype -> Prop).
Context (Hleaf : forall t, match t with TSlice _ | TArray _ _ | TStruct _ | TPtr _ | TMap _ _ => False | _ => True end -> P t).
Context (Hslice : forall t, P t -> P (TSlice t)) (Harray : forall n t, P t -> P (TArray n t)).
Context (Hstruct : forall fs, Forall (fun f => P f.2) fs -> P (TStruct fs)).
Context (Hptr : forall t, P t -> P (TPtr t)) (Hmap : forall k v, P k -> P v -> P (TMap k v)).

Fixpoint rtype_nested_ind (t : rtype) : P t :=
  match t return P t with
  | TSlice t => Hslice t (rtype_nested_ind t)
  | TArray n t => Harray n t (rtype_nested_ind t)
  | TStruct fs => Hstruct fs ((fix go fs : Forall (fun f => P f.2) fs :=
      match fs with
      | [] => Forall_nil_2 _
      | (ts, t) :: fs => Forall_cons_2 _ (ts, t) _ (rtype_nested_ind t) (go fs)
      end) fs)
  | TPtr t => Hptr t (rtype_nested_ind t)
  | TMap k v => Hmap k v (rtype_nested_ind k) (rtype_nested_ind v)
  | t => Hleaf t I
  end.
End RtypeInd.

Lemma parseStructTag_no_panic ts last t : parseStructTag ts last t <> Panic.
Proof. unfold parseStructTag. by destruct (tail ts), last, (is_slice t). Qed.

Lemma genTypeInfo_no_panic t : genTypeInfo t <> Panic.
Proof.
  induction t as [t Hl|t IH|n t IH|fs IH|t IH|k v IHk IHv] using rtype_nested_ind.
  - destruct t; cbn; (discriminate || contradiction).
  - exact IH.
  - exact IH.
  - cbn [genTypeInfo]. induction IH as [|[ts t] fs Ht _ IH]; [discriminate|]. apply outcome_bind_no_panic.
    + apply parseStructTag_no_panic.
    + intros _. apply outcome_bind_no_panic; [exact Ht|]. intros _. exact IH.
  - exact IH.
  - cbn [genTypeInfo]. apply outcome_bind_no_panic; [exact IHk|]. intros _. exact IHv.
Qed.

Lemma all_bytes_app l k : all_bytes_of (l ++ k) = all_bytes_of l ++ all_bytes_of k.
Proof. unfold all_bytes_of. by rewrite map_app, concat_app. Qed.

Lemma all_bytes_1 i : all_bytes_of [i] = rlp_bytes i.
Proof. unfold all_bytes_of. cbn [map concat]. apply app_nil_r. Qed.

(** [spec o]: the bytes of the items [o]. *)

Definition spec (o : outcome rlp_error (list item)) : outcome rlp_error bytes :=
  xs ← o; Ok (all_bytes_of xs).

Lemma implements_1 m i : writes m (rlp_bytes i) -> implements m (spec (Ok [i])).
Proof. cbn. by rewrite all_bytes_1. Qed.

Lemma spec_app o1 o2 :
  (e1 ← spec o1; e2 ← spec o2; Ok (e1 ++ e2)) = spec (x ← o1; y ← o2; Ok (x ++ y)).
Proof. destruct o1 as [x| |], o2 as [y| |]; cbn; try done. by rewrite all_bytes_app. Qed.

Lemma implements_seq m1 m2 o1 o2 :
  implements m1 (spec o1) -> implements m2 (spec o2) ->
  implements (_ ← m1; m2) (spec (x ← o1; y ← o2; Ok (x ++ y))).
Proof. intros H1 H2. rewrite <- spec_app. by apply implements_bind. Qed.

Lemma implements_in_list m o :
  implements m (spec o) -> implements (in_list m) (spec (xs ← o; Ok [Lst xs])).
Proof.
  destruct o as [xs|e|]; cbn; [|by apply errs_in_list|done]. rewrite all_bytes_1. apply writes_in_list.
Qed.

Lemma implements_slice ts m o :
  implements m (spec o) ->
  implements (if tail ts then m else lh ← list_; defer (listEnd lh) m)
    (spec (xs ← o; Ok (if tail ts then xs else [Lst xs]))).
Proof.
  destruct (tail ts); intros H; [by destruct o|].
  destruct o as [xs|e|]; cbn in *; [|by apply errs_defer|done]. rewrite all_bytes_1. by apply writes_defer.
Qed.

Lemma nilfunc_writes t : genTypeInfo t = Ok tt -> writes (nilfunc t) (rlp_bytes (nil_item t)).
Proof.
  induction t; intros Ht; cbn [nilfunc nil_item] in *; try apply writes_append; try discriminate Ht.
  all: try (apply (writes_in_list (mret tt) []), writes_ret).
  - by apply (writes_string []).
  - apply (encodeString_writes []).
  - apply (writes_defer (mret tt) []), writes_ret.
  - by apply IHt.
  - apply encodeString_writes.
Qed.

Lemma collect_implements ew f vs :
  Forall (fun v => implements (ew v) (spec (f v))) vs -> implements (write_elems ew vs) (spec (collect f vs)).
Proof.
  induction 1 as [|v vs Hv _ IH]; [apply writes_ret|]. cbn [write_elems collect]. by apply implements_seq.
Qed.

Lemma implements_mono m o o' : implements m o -> o = o' -> implements m o'.
Proof. by intros ? <-. Qed.

Lemma fields_implements fields vs :
  Forall (fun v => forall ts t, has_type t v = true -> genTypeInfo t = Ok tt ->
    implements (writer ts t v) (spec (items ts t v))) vs ->
  has_type (TStruct fields) (VList vs) = true -> genTypeInfo (TStruct fields) = Ok tt ->
  implements (write_fields writer fields vs) (spec (collect_fields items fields vs)).
Proof.
  intros Hvs. revert fields. induction Hvs as [|v vs Hv _ IH]; intros [|[ts t] fields] Ht Hg; try done.
  - apply writes_ret.
  - cbn [write_fields collect_fields]. cbn in Ht. apply andb_true_iff in Ht as [Ht Hts].
    cbn in Hg. destruct (parseStructTag _ _ _); [|done..]. cbn in Hg.
    destruct (genTypeInfo t) as [[]| |] eqn:Hgt; [|done..]. cbn in Hg.
    apply implements_seq; [by apply Hv|]. by apply IH.
Qed.

Lemma entries_implements k v l :
  Forall (fun kv => implements (writer no_tags k kv.1) (spec (items no_tags k kv.1)) /\
                    implements (writer no_tags v kv.2) (spec (items no_tags v kv.2))) l ->
  implements (write_entries (writer no_tags k) (writer no_tags v) l)
    (spec (collect_entries (items no_tags k) (items no_tags v) l)).
Proof.
  induction 1 as [|[x y] l [Hx Hy] _ IH]; [apply writes_ret|]. cbn [write_entries collect_entries fst snd] in *.
  pose proof (implements_seq _ _ _ _ Hx (implements_seq _ _ _ _ Hy IH)) as H.
  eapply implements_mono; [exact H|]. f_equal.
  destruct (items no_tags k x); cbn; [|done..]. destruct (items no_tags v y); cbn; [|done..].
  by destruct (collect_entries _ _ l).
Qed.

Lemma writer_implements v ts t :
  has_type t v = true -> genTypeInfo t = Ok tt -> implements (writer ts t v) (spec (items ts t v)).
Proof.
  revert ts t. induction v as [b|z|b|vs IH|l IH| |v IH|t' v IH] using rval_nested_ind; intros ts t Ht Hg.
  - destruct t; try discriminate Ht; cbn [writer items]; apply implements_1;
      [apply writes_append|apply (encodeString_writes b)..].
  - destruct t; try discriminate Ht; cbn [writer items] in *.
    + unfold writeBigInt. case_decide; [intros w Hw; by exists w|]. apply implements_1.
      case_decide; [subst; apply writes_append|apply encodeString_writes].
    + apply implements_1, writeUint_writes. apply bool_decide_eq_true in Ht as [Hz Hb].
      pose proof (Z.pow_le_mono_r 2 bits 64). lia.
    + apply implements_1, encodeString_writes.
    + apply implements_1, writeInt_writes. apply bool_decide_eq_true in Ht as [Hz Hb].
      pose proof (Z.pow_le_mono_r 2 (bits - 1) 63). lia.
  - destruct t; try discriminate Ht. apply implements_1. destruct b; apply writes_append.
  - destruct t; try discriminate Ht; cbn [writer items].
    + apply implements_slice, collect_implements. cbn in Ht, Hg.
      apply Forall_forall. intros v Hv. rewrite Forall_forall in IH. apply IH; [done| |done].
      rewrite forallb_forall in Ht. apply Ht. by apply list_elem_of_In.
    + apply implements_slice, collect_implements. cbn in Ht, Hg. apply andb_true_iff in Ht as [_ Ht].
      apply Forall_forall. intros v Hv. rewrite Forall_forall in IH. apply IH; [done| |done].
      rewrite forallb_forall in Ht. apply Ht. by apply list_elem_of_In.
    + apply implements_in_list. by apply fields_implements.
  - destruct t as [| | | | | | | | | | | | |k v| |]; try discriminate Ht; cbn [writer items].
    apply implements_in_list, entries_implements.
    cbn in Ht, Hg. destruct (genTypeInfo k) as [[]| |] eqn:Hk; [|done..]. cbn in Hg.
    rewrite forallb_forall in Ht. apply Forall_forall. intros [x y] Hxy. rewrite Forall_forall in IH.
    destruct (IH _ Hxy) as [Hx Hy]. apply list_elem_of_In in Hxy. specialize (Ht _ Hxy). cbn in Ht.
    apply andb_true_iff in Ht as [Ht1 Ht2]. split; [by apply Hx|by apply Hy].
  - destruct t; try discriminate Ht; cbn [writer items]; apply implements_1;
      [by apply nilfunc_writes|apply writes_append].
  - destruct t; try discriminate Ht. cbn [writer items]. by apply IH.
  - destruct t; try discriminate Ht. cbn [writer items].
    destruct (genTypeInfo t') as [[]|e|] eqn:Hg'; [by apply IH| |by apply genTypeInfo_no_panic in Hg'].
    intros w Hw. by exists w.
Qed.

(** ** The second pass *)

Lemma copy_to_ok (pre post src : bytes) :
  zlen src <= zlen post ->
  copy_to (pre ++ post) (zlen pre) src = Ok ((pre ++ src) ++ drop (length src) post, zlen src).
Proof.
  intros H. unfold copy_to. rewrite goslice_suffix. cbn [mbind outcome_bind].
  rewrite take_zlen_app, Z.min_r by done. unfold gocopy. rewrite take_ge by (unfold zlen in H; lia).
  by rewrite app_assoc.
Qed.

Lemma split_head (a b : bytes) heads h :
  heads_ok (zlen a) b (h :: heads) ->
  exists b1 b2, b = b1 ++ b2 /\ offset h = zlen a + zlen b1 /\ heads_ok (zlen (a ++ b1)) b2 heads /\
    flat (zlen a) b (h :: heads) = b1 ++ header 0xC0 0xF7 (lh_size h) ++ flat (zlen (a ++ b1)) b2 heads.
Proof.
  intros [Ho Hok]. destruct (split_at b (offset h - zlen a)) as (b1 & b2 & -> & Hl); [lia|].
  exists b1, b2. cbn [flat]. rewrite <- Hl in *. rewrite take_zlen_app, drop_zlen_app in *.
  assert (offset h = zlen a + zlen b1) as Hoff by lia. rewrite zlen_app, <- Hoff. done.
Qed.

Lemma listhead_encode_ok h buf :
  0 <= lh_size h < 2 ^ 62 -> headsize (lh_size h) <= zlen buf ->
  let hd := header 0xC0 0xF7 (lh_size h) in
  listhead_encode h buf = Ok (zlen hd, hd ++ drop (length hd) buf).
Proof.
  intros Hs Hb. cbn zeta. unfold listhead_encode. rewrite u64_id, puthead_ok by lia.
  pose proof (header_zlen 0xC0 0xF7 (lh_size h) ltac:(lia)) as Hz. rewrite <- Hz.
  unfold zlen. by rewrite Nat2Z.id.
Qed.

Lemma toBytes_loop_flat heads : forall a b pre post : bytes,
  heads_ok (zlen a) b heads -> small_heads heads -> zlen post = zlen (flat (zlen a) b heads) ->
  toBytes_loop (a ++ b) heads (pre ++ post) (zlen a) (zlen pre) = Ok (pre ++ flat (zlen a) b heads).
Proof.
  induction heads as [|h heads IH]; intros a b pre post Hok Hs Hp; cbn [toBytes_loop].
  - rewrite goslice_suffix. cbn [mbind outcome_bind flat] in *. rewrite copy_to_ok by lia. cbn [mbind outcome_bind].
    rewrite drop_ge, app_nil_r by (unfold zlen in Hp; lia). done.
  - destruct (split_head a b heads h Hok) as (b1 & b2 & -> & Ho & Hok2 & Hfl). rewrite Hfl in *.
    apply Forall_cons in Hs as [Hh Hs]. rewrite !zlen_app in Hp. zlen_facts.
    rewrite (goslice_mid a b1 b2) by lia. cbn [mbind outcome_bind]. rewrite copy_to_ok by lia. cbn [mbind outcome_bind].
    rewrite <- (zlen_app pre b1), <- (zlen_app a b1), goslice_suffix. cbn [mbind outcome_bind].
    set (post1 := drop (length b1) post).
    assert (zlen post1 = zlen post - zlen b1) as Hp1 by (subst post1; unfold zlen in *; rewrite length_drop; lia).
    pose proof (header_zlen 0xC0 0xF7 (lh_size h) ltac:(lia)) as Hhd.
    rewrite listhead_encode_ok by lia. cbn [mbind outcome_bind].
    rewrite take_zlen_app, !app_assoc, <- (zlen_app (pre ++ b1)), <- (app_assoc _ _ b2), app_assoc.
    rewrite <- (app_assoc a b1 b2), app_assoc, IH; [done|done|done|].
    rewrite (zlen_app a b1). set (f := flat _ b2 heads) in *. unfold zlen in Hp, Hp1 |- *. rewrite length_drop. lia.
Qed.

Lemma toBytes_flat w :
  heads_ok 0 (str w) (lheads w) -> small_heads (lheads w) -> lhsize w = heads_size (lheads w) ->
  toBytes w = Ok (flat 0 (str w) (lheads w)).
Proof.
  intros Hok Hs Hl. unfold toBytes.
  apply (toBytes_loop_flat (lheads w) [] (str w) [] (replicate _ 0)); [done..|].
  change (zlen []) with 0. rewrite (flat_zlen 0) by done. unfold zlen at 1. rewrite length_replicate. unfold size_.
  rewrite Hl. zlen_facts. rewrite Z2Nat.id; [done|]. pose proof (flat_zlen 0 _ _ Hok Hs). zlen_facts. lia.
Qed.

(** The other way out, to a writer, delivers the same bytes. *)

Lemma toWriter_loop_flat heads : forall a b sb out : bytes,
  heads_ok (zlen a) b heads -> small_heads heads -> zlen sb = 9 ->
  toWriter_loop (a ++ b) heads sb out (zlen a) = Ok (out ++ flat (zlen a) b heads).
Proof.
  induction heads as [|h heads IH]; intros a b sb out Hok Hs Hsb; cbn [toWriter_loop].
  - cbn [flat]. rewrite zlen_app. case_decide.
    + by rewrite <- zlen_app, goslice_suffix.
    + assert (b = []) as -> by (apply zlen_0; zlen_facts; lia). by rewrite app_nil_r.
  - destruct (split_head a b heads h Hok) as (b1 & b2 & -> & Ho & Hok2 & Hfl). rewrite Hfl.
    apply Forall_cons in Hs as [Hh Hs].
    assert ((if decide (offset h - zlen a > 0) then
        src ← goslice (E := rlp_error) (a ++ b1 ++ b2) (zlen a) (offset h); Ok (out ++ src, zlen a + zlen src)
      else Ok (out, zlen a)) = Ok (out ++ b1, zlen (a ++ b1))) as ->.
    { rewrite zlen_app. case_decide.
      - by rewrite (goslice_mid a b1 b2) by lia.
      - assert (b1 = []) as -> by (apply zlen_0; zlen_facts; lia). by rewrite app_nil_r, Z.add_0_r. }
    cbn [mbind outcome_bind]. pose proof (headsize_pos (lh_size h) ltac:(lia)).
    rewrite listhead_encode_ok by lia. cbn [mbind outcome_bind]. rewrite goslice_prefix. cbn [mbind outcome_bind].
    rewrite (app_assoc a b1 b2), IH; [by rewrite <- !app_assoc|done|done|].
    pose proof (header_zlen 0xC0 0xF7 (lh_size h) ltac:(lia)) as Hhd.
    rewrite zlen_app. unfold zlen in *. rewrite length_drop. lia.
Qed.

(** What [encode] leaves in the buffer. *)

Lemma encode_flat eb t v xs :
  wf_encbuf eb -> genTypeInfo t = Ok tt -> has_type t v = true -> items no_tags t v = Ok xs ->
  zlen (all_bytes_of xs) < 2 ^ 62 ->
  exists w, encode t v (reset eb) = (Ok tt, w) /\ heads_ok 0 (str w) (lheads w) /\ small_heads (lheads w) /\
    lhsize w = heads_size (lheads w) /\ flat 0 (str w) (lheads w) = all_bytes_of xs /\ zlen (sizebuf w) = 9.
Proof.
  intros Heb Hg Ht Hx Hlen. pose proof (writer_implements v no_tags t Ht Hg) as H. rewrite Hx in H.
  destruct (H (reset eb) Heb) as (s & heads & sb & E & Hsb & Hok & Hf). destruct (Hf Hlen) as [Hfl Hs].
  exists (ext (reset eb) s heads sb). unfold encode. rewrite Hg, go_lift_ok. done.
Qed.

(** ** The reader *)

Definition pieces (base : Z) (s : bytes) (heads : list listhead) : nat :=
  2 * length heads +
  match heads with
  | [] => if decide (0 < zlen s) then 1 else 0
  | h :: _ => if decide (base < offset h) then 1 else 0
  end.

(** The reader [r] is at the point where [a] of the data [a ++ b] and the headers
    before [heads] have been handed out. *)

Definition at_ (r : encReader) (a b : bytes) (heads : list listhead) : Prop :=
  exists w done, rd_buf r = Some w /\ str w = a ++ b /\ lheads w = done ++ heads /\ lhpos r = length done /\
    strpos r = zlen a /\ zlen (sizebuf w) = 9 /\ heads_ok (zlen a) b heads /\ small_heads heads.

Lemma next_spec r a b heads :
  at_ r a b heads -> piece r = None ->
  next r = Ok (None, r) /\ flat (zlen a) b heads = [] \/
  exists p r' a' b' heads', next r = Ok (Some p, r') /\ at_ r' a' b' heads' /\ piece r' = None /\ p <> [] /\
    flat (zlen a) b heads = p ++ flat (zlen a') b' heads' /\
    (pieces (zlen a') b' heads' < pieces (zlen a) b heads)%nat.
Proof.
  intros (w & hd & Hb & Hstr & Hl & Hp & Hsp & Hsb & Hok & Hs) Hpc. unfold next. rewrite Hb, Hpc, Hl, Hp, Hsp, Hstr.
  destruct heads as [|h heads].
  - rewrite lookup_ge_None_2 by (rewrite app_nil_r; lia). rewrite zlen_app. case_decide as Hd.
    + right. rewrite <- zlen_app, goslice_suffix. cbn [mbind outcome_bind].
      exists b, (EncReader (Some w) (length hd) (zlen (a ++ b)) None), (a ++ b), [], []. split_and!; [done| |done| | |].
      * exists w, hd. rewrite app_nil_r. done.
      * intros ->. rewrite zlen_nil in Hd. lia.
      * cbn. by rewrite app_nil_r.
      * unfold pieces. change (zlen (@nil Z)) with 0. cbn [length]. repeat case_decide; lia.
    + left. split; [done|]. cbn. apply zlen_0. zlen_facts. lia.
  - right. rewrite list_lookup_middle by done.
    destruct (split_head a b heads h Hok) as (b1 & b2 & -> & Ho & Hok2 & Hfl).
    apply Forall_cons in Hs as [Hh Hs]. zlen_facts. case_decide as Hd.
    + rewrite (goslice_mid a b1 b2) by lia. cbn [mbind outcome_bind].
      exists b1, (EncReader (Some w) (length hd) (zlen a + (offset h - zlen a)) None), (a ++ b1), b2, (h :: heads).
      assert (flat (zlen (a ++ b1)) b2 (h :: heads) =
              header 0xC0 0xF7 (lh_size h) ++ flat (zlen (a ++ b1)) b2 heads) as Hfl'.
      { cbn [flat]. replace (offset h - zlen (a ++ b1)) with 0 by (rewrite zlen_app; lia).
        change (Z.to_nat 0) with 0%nat. rewrite take_0, drop_0. rewrite zlen_app, <- Ho. done. }
      split_and!; [done| |done| | |].
      * exists w, hd. rewrite <- app_assoc. cbn [rd_buf lhpos strpos]. rewrite zlen_app.
        split_and!; [done..|lia|done| |by constructor]. cbn [heads_ok]. split; [zlen_facts; lia|].
        replace (offset h - (zlen a + zlen b1)) with 0 by lia. change (Z.to_nat 0) with 0%nat.
        rewrite drop_0, Ho, <- zlen_app. done.
      * intros ->. rewrite zlen_nil in *. lia.
      * by rewrite Hfl, Hfl'.
      * unfold pieces. rewrite zlen_app, decide_False, (decide_True (P := zlen a < offset h)) by lia. lia.
    + assert (b1 = []) as -> by (apply zlen_0; lia). rewrite app_nil_r in *. cbn [app] in *.
      pose proof (headsize_pos (lh_size h) ltac:(lia)). rewrite listhead_encode_ok by lia. cbn [mbind outcome_bind].
      rewrite goslice_prefix. cbn [mbind outcome_bind].
      pose proof (header_zlen 0xC0 0xF7 (lh_size h) ltac:(lia)) as Hhd.
      eexists _, _, a, b2, heads. split_and!; [done| |done| |done|].
      * eexists _, (hd ++ [h]). rewrite <- app_assoc. cbn [rd_buf lhpos strpos set_sizebuf str lheads sizebuf app].
        rewrite length_app, Nat.add_1_r. split_and!; [done..| |done|done].
        cbn [sizebuf set_sizebuf]. rewrite zlen_app. unfold zlen in *. rewrite length_drop. lia.
      * intros He. rewrite He, zlen_nil in Hhd. lia.
      * unfold pieces. cbn [length]. destruct heads; repeat case_decide; lia.
Qed.

(** [delivers r e m]: the reader still has to deliver [e], in at most [m] pieces. *)

Definition delivers (r : encReader) (e : bytes) (m : nat) : Prop :=
  match rd_buf r with
  | None => e = []
  | Some _ =>
      exists a b heads, at_ r a b heads /\ piece r <> Some [] /\ e = default [] (piece r) ++ flat (zlen a) b heads /\
        (pieces (zlen a) b heads + match piece r with Some _ => 1 | None => 0 end <= m)%nat
  end.

Definition rest (r : encReader) : encReader := EncReader (rd_buf r) (lhpos r) (strpos r) None.

Lemma next_delivers r e m :
  delivers r e m ->
  next r = Ok (None, r) /\ e = [] \/
  exists p r' e' m', next r = Ok (Some p, r') /\ p <> [] /\ e = p ++ e' /\ is_Some (rd_buf r') /\
    delivers (rest r') e' m' /\ m = S m'.
Proof.
  unfold delivers at 1. destruct (rd_buf r) as [w|] eqn:Hb; [|intros ->; left; unfold next; by rewrite Hb].
  intros (a & b & heads & Hat & Hne & -> & Hm). destruct (piece r) as [p|] eqn:Hp.
  - right. exists p, r, (flat (zlen a) b heads), (m - 1)%nat. unfold next. rewrite Hb, Hp.
    split_and!; [done|by intros ->|done|done| |lia].
    unfold delivers, rest. cbn [rd_buf piece]. rewrite Hb. exists a, b, heads. split_and!; [|done|done|lia].
    by destruct Hat as (w' & hd & Hb' & Hrest); rewrite Hb in Hb'; injection Hb' as <-; exists w, hd.
  - cbn [default app]. destruct (next_spec r a b heads Hat Hp)
      as [?|(p & r' & a' & b' & heads' & Hn & Hat' & Hpc' & Hne' & He & Hlt)]; [by left|].
    right. exists p, r', (flat (zlen a') b' heads'), (m - 1)%nat.
    assert (exists w', rd_buf r' = Some w') as [w' Hb'] by (destruct Hat' as (w' & hd & Hb' & _); eauto).
    split_and!; [done..|by rewrite Hb'| |lia].
    unfold delivers, rest. cbn [rd_buf piece]. rewrite Hb'. exists a', b', heads'. split_and!; [|done|done|lia].
    by destruct Hat' as (w'' & hd & Hb'' & Hrest); rewrite Hb' in Hb''; injection Hb'' as <-; exists w', hd.
Qed.

Lemma take_split (p f : bytes) k :
  zlen p <= k -> take (Z.to_nat k) (p ++ f) = p ++ take (Z.to_nat (k - zlen p)) f /\
    drop (Z.to_nat k) (p ++ f) = drop (Z.to_nat (k - zlen p)) f.
Proof. intros. by rewrite take_shift, drop_shift. Qed.

Lemma take_within (p f : bytes) k :
  0 <= k < zlen p -> take (Z.to_nat k) (p ++ f) = take (Z.to_nat k) p /\
    drop (Z.to_nat k) (p ++ f) = drop (Z.to_nat k) p ++ f.
Proof. intros. unfold zlen in *. rewrite take_app_le, drop_app_le by lia. done. Qed.

Lemma delivers_piece r e m p :
  is_Some (rd_buf r) -> delivers (rest r) e m -> p <> [] ->
  delivers (EncReader (rd_buf r) (lhpos r) (strpos r) (Some p)) (p ++ e) (S m).
Proof.
  intros [w Hb]. unfold delivers, rest. cbn [rd_buf piece]. rewrite Hb.
  intros (a & b & heads & Hat & _ & -> & Hm) Hp. exists a, b, heads. split_and!; [done|congruence|done|lia].
Qed.

Lemma Read_loop_spec fuel : forall r e m k acc,
  delivers r e m -> 0 <= k -> (m < fuel)%nat ->
  exists r' m', Read_loop fuel r k acc = Ok (acc ++ take (Z.to_nat k) e, bool_decide (zlen e <= k), r') /\
    delivers r' (drop (Z.to_nat k) e) m' /\ (m' <= m)%nat.
Proof.
  induction fuel as [|fuel IH]; intros r e m k acc Hd Hk Hf; [lia|]. cbn [Read_loop].
  destruct (next_delivers r e m Hd) as [[Hn ->]|(p & r' & e' & m' & Hn & Hne & -> & Hb & Hd' & ->)];
    rewrite Hn; cbn [mbind outcome_bind].
  - eexists _, m. rewrite take_nil, drop_nil, app_nil_r, zlen_nil, bool_decide_eq_true_2 by done. done.
  - destruct (decide (Z.min k (zlen p) < zlen p)) as [Hlt|Hge].
    + rewrite Z.min_l by lia. destruct (take_within p e' k ltac:(lia)) as [-> ->].
      eexists _, (S m'). rewrite bool_decide_eq_false_2 by (rewrite zlen_app; zlen_facts; lia).
      split; [done|]. split; [|lia]. apply delivers_piece; [done..|]. intros Hz.
      apply (f_equal zlen) in Hz. rewrite zlen_drop, zlen_nil in Hz by lia. lia.
    + rewrite Z.min_r by lia. destruct (take_split p e' k ltac:(lia)) as [-> ->].
      rewrite (take_ge p) by (unfold zlen; lia).
      destruct (IH (rest r') e' m' (k - zlen p) (acc ++ p)) as (r'' & m'' & Hr & Hd'' & Hm''); [done|lia|lia|].
      unfold rest in Hr. rewrite Hr. exists r'', m''. split_and!; [|done|lia]. rewrite <- app_assoc.
      do 2 f_equal. f_equal. apply bool_decide_ext. rewrite zlen_app. lia.
Qed.

Lemma Read_spec r e m n :
  delivers r e m -> 0 <= n ->
  exists r' m', Read r n = Ok (take (Z.to_nat n) e, bool_decide (zlen e <= n), r') /\
    delivers r' (drop (Z.to_nat n) e) m'.
Proof.
  intros Hd Hn. unfold Read. destruct (rd_buf r) as [w|] eqn:Hb.
  - assert (delivers r e (2 * length (lheads w) + 2)) as Hd'.
    { unfold delivers in *. rewrite Hb in *. destruct Hd as (a & b & heads & Hat & Hp & He & _).
      exists a, b, heads. split_and!; [done..|]. destruct Hat as (w' & hd & Hb' & _ & Hl & _).
      rewrite Hb in Hb'. injection Hb' as <-. rewrite Hl, length_app. unfold pieces.
      destruct heads, (piece r); repeat case_decide; lia. }
    destruct (Read_loop_spec (2 * length (lheads w) + 4) r e _ n [] Hd' Hn) as (r' & m' & -> & ? & _); [lia|].
    by exists r', m'.
  - unfold delivers in Hd. rewrite Hb in Hd. subst e. eexists _, 0%nat. cbn [Read_loop]. unfold next. rewrite Hb.
    cbn [mbind outcome_bind]. rewrite take_nil, drop_nil, zlen_nil, bool_decide_eq_true_2 by done. done.
Qed.

Definition zsum (ns : list Z) : Z := foldr Z.add 0 ns.

Lemma Reads_spec ns : forall r e m,
  delivers r e m -> Forall (fun n => 0 <= n) ns ->
  exists r', Reads r ns = Ok (take (Z.to_nat (zsum ns)) e, r').
Proof.
  induction ns as [|n ns IH]; intros r e m Hd Hns; [by exists r|]. apply Forall_cons in Hns as [Hn Hns].
  destruct (Read_spec r e m n Hd Hn) as (r1 & m1 & Hr & Hd1).
  destruct (IH r1 _ m1 Hd1 Hns) as (r2 & Hr2). exists r2. cbn [Reads]. rewrite Hr. cbn [mbind outcome_bind].
  rewrite Hr2. cbn [mbind outcome_bind]. do 2 f_equal.
  assert (0 <= zsum ns) by (clear -Hns; unfold zsum; induction Hns; cbn; lia).
  change (zsum (n :: ns)) with (n + zsum ns). rewrite Z2Nat.inj_add by lia.
  apply take_take_drop.
Qed.

(** ** The encoder implements its specification *)

Definition Encode_spec (t : rtype) (v : rval) : outcome rlp_error bytes :=
  _ ← genTypeInfo t; spec (items no_tags t v).

(** Go slices hold fewer than [2 ^ 62] bytes. *)

Definition fits (t : rtype) (v : rval) : Prop :=
  forall xs, items no_tags t v = Ok xs -> zlen (all_bytes_of xs) < 2 ^ 62.

(** A bound on the size of an encoding, without computing it. *)

Fixpoint rsize (v : rval) : Z :=
  match v with
  | VBytes b => 9 + zlen b
  | VInt z => 18 + bytelen z
  | VBool _ => 9
  | VList vs => 9 + foldr (fun v n => rsize v + n) 0 vs
  | VMap l => 9 + foldr (fun kv n => rsize kv.1 + rsize kv.2 + n) 0 l
  | VNil => 18
  | VPtr v => rsize v
  | VIface _ v => rsize v
  end.

Lemma rsize_pos v : 0 <= rsize v.
Proof.
  induction v as [b|z|b|vs IH|l IH| |v IH|t v IH] using rval_nested_ind; cbn [rsize]; try lia.
  - zlen_facts. lia.
  - pose proof (bytelen_nonneg z). lia.
  - enough (0 <= foldr (fun v n => rsize v + n) 0 vs) by lia. induction IH; cbn; lia.
  - enough (0 <= foldr (fun kv n => rsize kv.1 + rsize kv.2 + n) 0 l) by lia. induction IH; cbn; lia.
Qed.

Lemma header_zlen_le a b n : 0 <= n < 2 ^ 62 -> zlen (header a b n) <= 9.
Proof.
  intros Hn. unfold header. case_decide; [done|]. rewrite zlen_cons, be_min_zlen by lia.
  pose proof (bytelen_le n 8 ltac:(lia) ltac:(lia)). lia.
Qed.

Lemma Str_zlen b : zlen b < 2 ^ 62 -> zlen (rlp_bytes (Str b)) <= 9 + zlen b.
Proof.
  intros Hb. cbn [rlp_bytes]. destruct (single b); [lia|]. unfold encoded. rewrite zlen_app.
  pose proof (zlen_nonneg b). pose proof (header_zlen_le 128 183 (zlen b)). lia.
Qed.

Lemma Lst_zlen l : zlen (all_bytes_of l) < 2 ^ 62 -> zlen (rlp_bytes (Lst l)) <= 9 + zlen (all_bytes_of l).
Proof.
  intros Hl. cbn [rlp_bytes]. fold (all_bytes_of l). unfold encoded. rewrite zlen_app.
  pose proof (zlen_nonneg (all_bytes_of l)). pose proof (header_zlen_le 192 247 (zlen (all_bytes_of l))). lia.
Qed.

Lemma int_item_zlen i : - 2 ^ 63 <= i < 2 ^ 63 -> zlen (rlp_bytes (int_item i)) <= 9.
Proof.
  intros Hi. unfold int_item. case_decide; [done|]. cbn [rlp_bytes]. rewrite zlen_cons. unfold zlen. rewrite be_field_length.
  assert (intlen i <= 8) as Hl; [|lia]. unfold intlen. apply Z.max_lub; [lia|]. apply bytelen_le; [lia|].
  change (256 ^ 8) with (2 * 2 ^ 63). case_decide; lia.
Qed.

Lemma nil_item_zlen t : zlen (rlp_bytes (nil_item t)) <= 18.
Proof. induction t; cbn [nil_item]; try (by vm_compute); done. Qed.

Lemma bytelen_64 z : 0 <= z < 2 ^ 64 -> bytelen z <= 8.
Proof. intros. apply bytelen_le; [lia|]. change (256 ^ 8) with (2 ^ 64). lia. Qed.

(** The elements of a list, together. *)

Lemma list_rsize (f : rval -> outcome rlp_error (list item)) vs xs :
  Forall (fun v => forall ys, rsize v < 2 ^ 62 -> f v = Ok ys -> zlen (all_bytes_of ys) <= rsize v) vs ->
  foldr (fun v n => rsize v + n) 0 vs < 2 ^ 62 -> collect f vs = Ok xs ->
  zlen (all_bytes_of xs) <= foldr (fun v n => rsize v + n) 0 vs.
Proof.
  intros IH. revert xs. induction IH as [|v vs Hv _ IH]; intros xs Hn Hx; [by injection Hx as <-|]. cbn in Hn, Hx |- *.
  destruct (f v) as [y| |] eqn:Ey; [|discriminate Hx..]. destruct (collect f vs) as [ys| |]; [|discriminate Hx..].
  injection Hx as <-. pose proof (rsize_pos v).
  assert (0 <= foldr (fun v n => rsize v + n) 0 vs) by (clear; induction vs as [|w]; cbn; [lia|]; pose proof (rsize_pos w); lia).
  rewrite all_bytes_app, zlen_app. specialize (Hv y ltac:(lia) eq_refl). specialize (IH ys ltac:(lia) eq_refl). lia.
Qed.

Lemma list_rsize_pos vs : 0 <= foldr (fun v n => rsize v + n) 0 vs.
Proof. induction vs as [|w vs]; cbn; [lia|]. pose proof (rsize_pos w). lia. Qed.

Lemma fields_rsize vs : forall fields xs,
  Forall (fun v => forall ts t ys, has_type t v = true -> rsize v < 2 ^ 62 -> items ts t v = Ok ys ->
    zlen (all_bytes_of ys) <= rsize v) vs ->
  has_type (TStruct fields) (VList vs) = true ->
  foldr (fun v n => rsize v + n) 0 vs < 2 ^ 62 -> collect_fields items fields vs = Ok xs ->
  zlen (all_bytes_of xs) <= foldr (fun v n => rsize v + n) 0 vs.
Proof.
  induction vs as [|v vs IH]; intros [|[ts t] fields] xs HF Ht Hn Hx; try discriminate Hx; [by injection Hx as <-|].
  apply Forall_cons in HF as [Hv HF]. cbn in Hn |- *. cbn [collect_fields] in Hx.
  change (has_type (TStruct ((ts, t) :: fields)) (VList (v :: vs)))
    with (has_type t v && has_type (TStruct fields) (VList vs)) in Ht. apply andb_true_iff in Ht as [Ht1 Ht2].
  destruct (items ts t v) as [y| |] eqn:Ey; [|discriminate Hx..].
  destruct (collect_fields items fields vs) as [ys| |] eqn:Eys; [|discriminate Hx..].
  injection Hx as <-. pose proof (rsize_pos v). pose proof (list_rsize_pos vs).
  rewrite all_bytes_app, zlen_app. specialize (Hv ts t y Ht1 ltac:(lia) Ey).
  specialize (IH fields ys HF Ht2 ltac:(lia) Eys). lia.
Qed.

Lemma entries_rsize f g l : forall xs,
  Forall (fun kv => (forall ys, rsize kv.1 < 2 ^ 62 -> f kv.1 = Ok ys -> zlen (all_bytes_of ys) <= rsize kv.1) /\
    (forall ys, rsize kv.2 < 2 ^ 62 -> g kv.2 = Ok ys -> zlen (all_bytes_of ys) <= rsize kv.2)) l ->
  foldr (fun kv n => rsize kv.1 + rsize kv.2 + n) 0 l < 2 ^ 62 -> collect_entries f g l = Ok xs ->
  zlen (all_bytes_of xs) <= foldr (fun kv n => rsize kv.1 + rsize kv.2 + n) 0 l.
Proof.
  induction l as [|[k v] l IH]; intros xs HF Hn Hx; [by injection Hx as <-|].
  apply Forall_cons in HF as [[Hk Hv] HF]. cbn in *.
  destruct (f k) as [y| |] eqn:Ek; [|discriminate Hx..]. destruct (g v) as [z| |] eqn:Ev; [|discriminate Hx..].
  destruct (collect_entries f g l) as [ys| |]; [|discriminate Hx..]. injection Hx as <-.
  assert (0 <= foldr (fun kv n => rsize kv.1 + rsize kv.2 + n) 0 l) as Hp.
  { clear. induction l as [|[k v] l]; cbn; [lia|]. pose proof (rsize_pos k). pose proof (rsize_pos v). lia. }
  pose proof (rsize_pos k). pose proof (rsize_pos v). rewrite !all_bytes_app, !zlen_app.
  specialize (Hk y ltac:(lia) eq_refl). specialize (Hv z ltac:(lia) eq_refl). specialize (IH ys HF ltac:(lia) eq_refl). lia.
Qed.

Lemma items_rsize v : forall ts t xs,
  has_type t v = true -> rsize v < 2 ^ 62 -> items ts t v = Ok xs -> zlen (all_bytes_of xs) <= rsize v.
Proof.
  induction v as [b|z|b|vs IH|l IH| |v IH|t' v IH] using rval_nested_ind; intros ts t xs Ht Hn Hx; cbn [rsize] in *.
  - injection Hx as <-. rewrite all_bytes_1. zlen_facts. destruct t; try (apply Str_zlen; lia). cbn [rlp_bytes]. lia.
  - assert (forall z, zlen (be_min z) < 2 ^ 62 -> zlen (all_bytes_of [Str (be_min z)]) <= 9 + bytelen z) as Hs.
    { intros x Hl. rewrite all_bytes_1. pose proof (Str_zlen (be_min x) Hl). by rewrite be_min_zlen in *. }
    pose proof (Hs z ltac:(rewrite be_min_zlen; lia)). pose proof (bytelen_nonneg z).
    destruct t; try discriminate Ht; cbn [items] in Hx; [case_decide; [discriminate Hx|]|..]; injection Hx as <-; try lia.
    + rewrite all_bytes_1. assert (zlen (le_field 8 z) = 8) by (unfold zlen; by rewrite le_field_length).
      etransitivity; [exact (Str_zlen (le_field 8 z) ltac:(lia))|lia].
    + rewrite all_bytes_1. cbn in Ht. apply bool_decide_eq_true in Ht as [Hr Hb].
      pose proof (Z.pow_le_mono_r 2 (bits - 1) 63). pose proof (int_item_zlen z). lia.
  - injection Hx as <-. destruct b; by vm_compute.
  - pose proof (list_rsize_pos vs). assert (forall t zs, collect (items no_tags t) vs = Ok zs -> forallb (has_type t) vs = true ->
      zlen (all_bytes_of zs) <= foldr (fun v n => rsize v + n) 0 vs) as Hel.
    { intros t' zs Hzs Hts. apply (list_rsize (items no_tags t')); [|lia|done].
      eapply forallb_Forall_impl; [|exact Hts]. eapply Forall_impl; [exact IH|]. intros v Hv Htv ys Hy. by apply Hv. }
    destruct t; try discriminate Ht; cbn [items] in Hx.
    + destruct (collect _ vs) as [zs| |] eqn:Hc; [|discriminate Hx..]. specialize (Hel t zs Hc Ht). injection Hx as <-.
      destruct (tail ts); [lia|]. rewrite all_bytes_1. pose proof (Lst_zlen zs). lia.
    + destruct (collect _ vs) as [zs| |] eqn:Hc; [|discriminate Hx..]. cbn in Ht. apply andb_true_iff in Ht as [_ Ht].
      specialize (Hel t zs Hc Ht). injection Hx as <-.
      destruct (tail ts); [lia|]. rewrite all_bytes_1. pose proof (Lst_zlen zs). lia.
    + destruct (collect_fields items fields vs) as [zs| |] eqn:Hc; [|discriminate Hx..]. injection Hx as <-.
      rewrite all_bytes_1. pose proof (fields_rsize vs fields zs IH Ht ltac:(lia) Hc). pose proof (Lst_zlen zs). lia.
  - destruct t; try discriminate Ht; cbn [items] in Hx. cbn in Ht.
    destruct (collect_entries _ _ l) as [zs| |] eqn:Hc; [|discriminate Hx..]. injection Hx as <-. rewrite all_bytes_1.
    pose proof (entries_rsize (items no_tags t1) (items no_tags t2) l zs) as He. pose proof (Lst_zlen zs).
    assert (zlen (all_bytes_of zs) <= foldr (fun kv n => rsize kv.1 + rsize kv.2 + n) 0 l); [|lia].
    apply He; [|lia|done]. eapply forallb_Forall_impl; [|exact Ht]. eapply Forall_impl; [exact IH|].
    intros [k v] [Hk Hv] Hkv. apply andb_true_iff in Hkv as [H1 H2]. split; intros ys Hy; [by apply Hk|by apply Hv].
  - injection Hx as <-. rewrite all_bytes_1. destruct t; try discriminate Ht; [apply nil_item_zlen|by vm_compute].
  - destruct t; try discriminate Ht. by apply (IH no_tags t).
  - destruct t; try discriminate Ht. cbn [items] in Hx. destruct (genTypeInfo t'); [|discriminate Hx..].
    by apply (IH no_tags t').
Qed.

Lemma fits_rsize t v : has_type t v = true -> rsize v < 2 ^ 62 -> fits t v.
Proof. intros Ht Hn xs Hx. pose proof (items_rsize v no_tags t xs Ht Hn Hx). lia. Qed.

Lemma EncodeToBytes_ok eb t v xs :
  wf_encbuf eb -> has_type t v = true -> genTypeInfo t = Ok tt -> items no_tags t v = Ok xs ->
  zlen (all_bytes_of xs) < 2 ^ 62 -> EncodeToBytes eb t v = Ok (all_bytes_of xs).
Proof.
  intros Heb Ht Hg Hx Hl. unfold EncodeToBytes.
  destruct (encode_flat eb t v xs Heb Hg Ht Hx Hl) as (w & -> & Hok & Hs & Hlh & Hf & _).
  rewrite toBytes_flat by done. by rewrite Hf.
Qed.

(** C2: The encoder refines the recursive definition of RLP.  For every type and
    every value of it, and whatever the pooled buffer was used for before, the two
    passes of [EncodeToBytes] (data and deferred list headers first, the
    interleaving afterwards) return exactly the bytes of the items of the value, and
    fail exactly where the specification does: on a type that cannot be serialised,
    also inside an interface, and on a negative big integer.  Writes through the
    preallocated output never panic. *)
Theorem EncodeToBytes_refines eb t v :
  wf_encbuf eb -> has_type t v = true -> fits t v -> EncodeToBytes eb t v = Encode_spec t v.
Proof.
  intros Heb Ht Hfit. unfold Encode_spec.
  destruct (genTypeInfo t) as [[]|e|] eqn:Hg; [|unfold EncodeToBytes, encode; by rewrite Hg..].
  destruct (items no_tags t v) as [xs|e|] eqn:Hx.
  - by rewrite (EncodeToBytes_ok eb t v xs Heb Ht Hg Hx (Hfit xs Hx)).
  - pose proof (writer_implements v no_tags t Ht Hg) as H. rewrite Hx in H.
    destruct (H (reset eb) Heb) as (w' & Hw & _). unfold EncodeToBytes, encode. rewrite Hg, go_lift_ok, Hw. done.
  - pose proof (writer_implements v no_tags t Ht Hg) as H. by rewrite Hx in H.
Qed.

(** C39: The three ways out of the encoder deliver the same bytes.  Where
    [EncodeToBytes] returns [e], [Encode] writes [e] to its destination, and
    [EncodeToReader] announces the size of [e] and hands out a reader from which
    any sequence of reads, into buffers of any sizes, obtains the corresponding
    prefix of [e]. *)
Theorem encoder_outputs_agree eb t v e :
  wf_encbuf eb -> has_type t v = true -> fits t v -> EncodeToBytes eb t v = Ok e ->
  Encode eb t v = Ok e /\
  exists r, EncodeToReader eb t v = Ok (zlen e, r) /\
    forall ns, Forall (fun n => 0 <= n) ns -> exists r', Reads r ns = Ok (take (Z.to_nat (zsum ns)) e, r').
Proof.
  intros Heb Ht Hfit. unfold EncodeToBytes, Encode, EncodeToReader.
  destruct (genTypeInfo t) as [[]|e'|] eqn:Hg; [|unfold encode; by rewrite Hg..].
  pose proof (writer_implements v no_tags t Ht Hg) as H.
  destruct (items no_tags t v) as [xs|e'|] eqn:Hx; [|destruct (H (reset eb) Heb) as (w' & Hw & _);
    unfold encode; rewrite Hg, go_lift_ok, Hw; discriminate|done].
  destruct (encode_flat eb t v xs Heb Hg Ht Hx (Hfit xs Hx)) as (w & -> & Hok & Hs & Hl & Hf & Hsb).
  rewrite toBytes_flat by done. rewrite Hf. intros [= <-]. split.
  - unfold toWriter. rewrite (toWriter_loop_flat (lheads w) [] (str w)) by done.
    change (zlen []) with 0. by rewrite Hf.
  - eexists. split; [do 2 f_equal; unfold size_; by rewrite <- Hf, (flat_zlen 0), Hl|].
    intros ns Hns. eapply Reads_spec; [|done]. unfold delivers. cbn [rd_buf piece default app].
    exists [], (str w), (lheads w). change (zlen []) with 0. split_and!; [by exists w, []|done|done|reflexivity].
Qed.

(** A unit of the examples: a list header inside a list, a long string, a big
    integer, a signed integer, a boolean, a map and an interface. *)

Definition example_type : rtype :=
  TStruct [(no_tags, TByteArray 2); (no_tags, TStruct [(no_tags, TUint 64); (no_tags, TString)]);
           (no_tags, TByteSlice); (no_tags, TPtr TBigInt); (no_tags, TInt 32);
           (Tags true false, TPtr (TStruct [])); (no_tags, TInterface); (no_tags, TMap TString TBool);
           (Tags false true, TSlice (TUint 16))].

Definition example_value : rval :=
  VList [VBytes [1; 2]; VList [VInt 1024; VBytes [104; 105]]; VBytes (replicate 60 7); VPtr (VInt (2 ^ 70));
         VInt (-2); VNil; VIface TByteSlice (VBytes [200]); VMap [(VBytes [97], VBool true)];
         VList [VInt 3; VInt 300]].

Lemma example_fits : fits example_type example_value.
Proof. intros xs Hx. vm_compute in Hx. injection Hx as <-. done. Qed.

Lemma EncodeToBytes_refines_witness :
  EncodeToBytes new_encbuf example_type example_value = Encode_spec example_type example_value /\
  exists e, Encode_spec example_type example_value = Ok e.
Proof.
  split; [|by eexists; vm_compute].
  apply (EncodeToBytes_refines new_encbuf example_type example_value); [done|by vm_compute|apply example_fits].
Defined.

Lemma encoder_outputs_agree_witness :
  Encode new_encbuf (TSlice TBool) (VList [VBool true; VBool false]) = Ok [0xC2; 1; 0x80].
Proof.
  apply (encoder_outputs_agree new_encbuf (TSlice TBool) (VList [VBool true; VBool false]) [0xC2; 1; 0x80]);
    [done|done| |by vm_compute].
  intros xs Hx. vm_compute in Hx. injection Hx as <-. done.
Defined.
