(* ===== verification/RlpDecode.v ===== *)
(** * RlpDecode: the RLP decoder (common/rlp/decode.go)

    [Stream] reads values from an input with a limit and a stack of the lists being
    read, and caches the header of the value ahead ([Kind]).  On top of it,
    [decoder] is the decoder that [makeDecoder] selects for a type, writing into a
    zero value of the type, and [DecodeBytes] runs it on a byte slice.

    The input reader is the list of the bytes still to be read, with the behaviour
    of [bytes.Reader].  The stack has the innermost list first.  [uintbuf] is scratch
    space that is overwritten before every use and is left out.

    The loops over list elements and the recursion on nested lists inside an
    interface are bounded by [measure], which counts the unread bytes.
    [decode_sound] shows that the bound is never reached, except for types that
    contain one-byte arrays; for these the code itself does not end
    ([decode_byte_array_diverges]). *)

From S2P Require Import Prelude Digits Rlp RlpEncode.

#[local] Open Scope Z_scope.

(** ** The stream *)

Record Stream : Type := mkStream {
  unread : bytes;
  remaining : Z;
  limited : bool;
  kind : option Kind;          (* [None] is -1: no header is cached *)
  size : Z;
  byteval : Z;
  kinderr : option rlp_error;
  stack : list (Z * Z)         (* [listpos]: position and size *)
}.

Abbreviation dec A := (go Stream rlp_error A).

Definition set_unread (b : bytes) (s : Stream) : Stream :=
  mkStream b (remaining s) (limited s) (kind s) (size s) (byteval s) (kinderr s) (stack s).
Definition set_remaining (n : Z) (s : Stream) : Stream :=
  mkStream (unread s) n (limited s) (kind s) (size s) (byteval s) (kinderr s) (stack s).
Definition set_kind (k : option Kind) (s : Stream) : Stream :=
  mkStream (unread s) (remaining s) (limited s) k (size s) (byteval s) (kinderr s) (stack s).
Definition set_size (n : Z) (s : Stream) : Stream :=
  mkStream (unread s) (remaining s) (limited s) (kind s) n (byteval s) (kinderr s) (stack s).
Definition set_byteval (b : Z) (s : Stream) : Stream :=
  mkStream (unread s) (remaining s) (limited s) (kind s) (size s) b (kinderr s) (stack s).
Definition set_kinderr (e : option rlp_error) (s : Stream) : Stream :=
  mkStream (unread s) (remaining s) (limited s) (kind s) (size s) (byteval s) e (stack s).
Definition set_stack (st : list (Z * Z)) (s : Stream) : Stream :=
  mkStream (unread s) (remaining s) (limited s) (kind s) (size s) (byteval s) (kinderr s) st.

(** The error of a call as a value, for the callers that look at it. *)

Definition try_ {A} (m : dec A) : dec (A + rlp_error) := fun s =>
  match m s with
  | (Ok a, s) => (Ok (inl a), s)
  | (Err e, s) => (Ok (inr e), s)
  | (Panic, s) => (Panic, s)
  end.

(** [Reset]: [known] is whether the reader is a [bytes.Reader] or a
    [strings.Reader], whose length is the limit when none is given. *)

Definition Reset (rd : bytes) (known : bool) (inputLimit : Z) (s : Stream) : Stream :=
  let '(rem, lim) :=
    if decide (inputLimit > 0) then (inputLimit, true)
    else if known then (zlen rd, true) else (remaining s, false) in
  mkStream rd rem lim None 0 (byteval s) None [].

Definition NewStream (rd : bytes) (known : bool) (inputLimit : Z) : Stream :=
  Reset rd known inputLimit (mkStream [] 0 false None 0 0 None []).

Definition willRead (n : Z) : dec unit :=
  _ ← modify (set_kind None);
  s ← get;
  _ ← match stack s with
      | (pos, sz) :: st =>
          if decide (n > u64 (sz - pos)) then fail ErrElemTooLarge
          else modify (set_stack ((u64 (pos + n), sz) :: st))
      | [] => mret tt
      end;
  if limited s then
    if decide (n > remaining s) then fail ErrValueTooLarge
    else modify (fun s => set_remaining (remaining s - n) s)
  else mret tt.

Definition readByte : dec Z :=
  _ ← willRead 1;
  s ← get;
  match unread s with
  | [] => fail io_ErrUnexpectedEOF
  | b :: rd => _ ← put (set_unread rd s); mret b
  end.

(** [readFull] of a buffer of [n] bytes. *)

Definition readFull (n : Z) : dec bytes :=
  _ ← willRead n;
  s ← get;
  if decide (n <= zlen (unread s)) then
    _ ← put (set_unread (drop (Z.to_nat n) (unread s)) s);
    mret (take (Z.to_nat n) (unread s))
  else _ ← put (set_unread [] s); fail io_ErrUnexpectedEOF.

Definition readUint (n : Z) : dec Z :=
  if decide (n = 0) then _ ← modify (set_kind None); mret 0
  else if decide (n = 1) then readByte
  else
    b ← readFull n;
    if decide (head b = Some 0) then fail ErrCanonSize else mret (be_val b).

(** [readKind] returns kind and size together with the error. *)

Definition read_size (k : Kind) (n : Z) : dec (Kind * Z * option rlp_error) :=
  res ← try_ (readUint n);
  mret match res with
       | inl sz => (k, sz, if decide (sz < 56) then Some ErrCanonSize else None)
       | inr e => (k, 0, Some e)
       end.

Definition readKind_ : dec (Kind * Z * option rlp_error) :=
  res ← try_ readByte;
  match res with
  | inr err =>
      s ← get;
      let err :=
        match stack s, err with
        | [], (io_ErrUnexpectedEOF | ErrValueTooLarge) => io_EOF
        | _, _ => err
        end in
      mret (Byte, 0, Some err)
  | inl b =>
      _ ← modify (set_byteval 0);
      if decide (b < 0x80) then _ ← modify (set_byteval b); mret (Byte, 0, None)
      else if decide (b < 0xB8) then mret (String_, u8 (b - 0x80), None)
      else if decide (b < 0xC0) then read_size String_ (u8 (b - 0xB7))
      else if decide (b < 0xF8) then mret (List_, u8 (b - 0xC0), None)
      else read_size List_ (u8 (b - 0xF7))
  end.

Definition at_end (s : Stream) : bool :=
  match stack s with (pos, sz) :: _ => bool_decide (pos = sz) | [] => false end.

(** The size of the value ahead against the list or the input it is in. *)

Definition check_size (s : Stream) : option rlp_error :=
  match stack s with
  | [] => if limited s && bool_decide (size s > remaining s) then Some ErrValueTooLarge else None
  | (pos, sz) :: _ => if decide (size s > u64 (sz - pos)) then Some ErrElemTooLarge else None
  end.

Definition cached_kind (k : Kind) : dec (Kind * Z) :=
  s ← get;
  match kinderr s with
  | Some e => fail e
  | None => mret (k, size s)
  end.

Definition Kind_ : dec (Kind * Z) :=
  s ← get;
  match kind s with
  | Some k => cached_kind k
  | None =>
      _ ← modify (set_kinderr None);
      if at_end s then fail EOL
      else
        '(k, n, err) ← readKind_;
        _ ← modify (fun s => set_kinderr err (set_size n (set_kind (Some k) s)));
        _ ← match err with
            | Some _ => mret tt
            | None => modify (fun s => set_kinderr (check_size s) s)
            end;
        cached_kind k
  end.

(** ** Reading values *)

Definition rearm : dec unit := modify (set_kind None).

(** [make([]byte, n)] panics when [n] is not an [int]. *)

Definition make_bytes (n : Z) : dec unit := if decide (n < 2 ^ 63) then mret tt else lift Panic.

Definition Bytes : dec bytes :=
  '(k, n) ← Kind_;
  match k with
  | Byte => s ← get; _ ← rearm; mret [byteval s]
  | String_ =>
      _ ← make_bytes n;
      b ← readFull n;
      if decide (n = 1 /\ single b = true) then fail ErrCanonSize else mret b
  | List_ => fail ErrExpectedString
  end.

Definition Raw_ : dec bytes :=
  '(k, n) ← Kind_;
  match k with
  | Byte => s ← get; _ ← rearm; mret [byteval s]
  | _ =>
      let start := headsize n in
      let len := u64 (start + n) in
      _ ← make_bytes len;
      dst ← lift (goslice (replicate (Z.to_nat len) 0) start len);
      b ← readFull (zlen dst);
      '(_, buf) ← lift (if decide (k = String_) then puthead (replicate (Z.to_nat start) 0 ++ b) 0x80 0xB7 n
                        else puthead (replicate (Z.to_nat start) 0 ++ b) 0xC0 0xF7 n);
      mret buf
  end.

(** The error of [readUint] inside an integer. *)

Definition adjust_canon {A} (m : dec A) : dec A := fun s =>
  match m s with
  | (Err ErrCanonSize, s) => (Err ErrCanonInt, s)
  | res => res
  end.

Definition uint (maxbits : Z) : dec Z :=
  '(k, n) ← Kind_;
  match k with
  | Byte =>
      s ← get;
      if decide (byteval s = 0) then fail ErrCanonInt else _ ← rearm; mret (byteval s)
  | String_ =>
      if decide (n > maxbits / 8) then fail errUintOverflow
      else
        v ← adjust_canon (readUint n);
        if decide (n > 0 /\ v < 128) then fail ErrCanonSize else mret v
  | List_ => fail ErrExpectedString
  end.

Definition Uint : dec Z := uint 64.

Definition i8 (z : Z) : Z := (z + 2 ^ 7) mod 2 ^ 8 - 2 ^ 7.
Definition i16 (z : Z) : Z := (z + 2 ^ 15) mod 2 ^ 16 - 2 ^ 15.

(** The conversion of [n] bytes read as an unsigned number. *)

Definition sign_extend (n v : Z) : Z :=
  if decide (n = 1) then i8 v
  else if decide (n = 2) then i16 v
  else if decide (n = 3 \/ n = 4) then i32 v
  else i64 v.

Definition int_ (maxbits : Z) : dec Z :=
  '(k, n) ← Kind_;
  match k with
  | Byte =>
      s ← get;
      if decide (byteval s = 0) then fail ErrCanonInt else _ ← rearm; mret (byteval s)
  | String_ =>
      if decide (n > maxbits / 8) then fail errIntOverflow
      else
        v ← adjust_canon (readUint n);
        mret (sign_extend n v)
  | List_ => fail ErrExpectedString
  end.

Definition Bool_ : dec bool :=
  num ← uint 8;
  if decide (num = 0) then mret false
  else if decide (num = 1) then mret true
  else fail (errInvalidBool num).

Definition List__ : dec Z :=
  '(k, n) ← Kind_;
  if decide (k <> List_) then fail ErrExpectedList
  else
    _ ← modify (fun s => set_size 0 (set_kind None (set_stack ((0, n) :: stack s) s)));
    mret n.

Definition ListEnd : dec unit :=
  s ← get;
  match stack s with
  | [] => fail errNotInList
  | (pos, sz) :: st =>
      if decide (pos <> sz) then fail errNotAtEOL
      else
        let st := match st with (pos', sz') :: st => (u64 (pos' + sz), sz') :: st | [] => [] end in
        put (set_size 0 (set_kind None (set_stack st s)))
  end.

(** ** The decoders of the types *)

Definition wrapStreamError (err : rlp_error) : rlp_error :=
  match err with
  | ErrCanonInt => decodeError msgCanonInt
  | ErrCanonSize => decodeError msgCanonSize
  | ErrExpectedList => decodeError msgExpectedList
  | ErrExpectedString => decodeError msgExpectedString
  | errUintOverflow => decodeError msgStringTooLong
  | errNotAtEOL => decodeError msgListTooMany
  | err => err
  end.

Definition wrap {A} (m : dec A) : dec A := fun s =>
  match m s with
  | (Err e, s) => (Err (wrapStreamError e), s)
  | res => res
  end.

Definition decodeRawValue : dec rval := b ← Raw_; mret (VBytes b).
Definition decodeUint (bits : Z) : dec rval := num ← wrap (uint bits); mret (VInt num).
Definition decodeInt (bits : Z) : dec rval := num ← wrap (int_ bits); mret (VInt num).
Definition decodeBool : dec rval := b ← wrap Bool_; mret (VBool b).

(** [binary.LittleEndian.Uint64(b)] indexes [b[7]]. *)

Definition decodefloat64 : dec rval :=
  b ← wrap Bytes;
  if decide (zlen b < 8) then lift Panic else mret (VInt (le_val (take 8 b))).

Definition decodeString : dec rval := b ← wrap Bytes; mret (VBytes b).

Definition decodeBigInt : dec rval :=
  b ← wrap Bytes;
  if decide (head b = Some 0) then fail (wrapStreamError ErrCanonInt) else mret (VInt (be_val b)).

Definition decodeByteSlice : dec rval := b ← wrap Bytes; mret (VBytes b).

Definition decodeByteArray (vlen : Z) : dec rval :=
  '(k, n) ← Kind_;
  match k with
  | Byte =>
      if decide (vlen = 0) then fail (decodeError msgStringTooLong)
      else if decide (vlen > 1) then fail (decodeError msgStringTooShort)
      else
        bv ← try_ Uint;
        mret (VBytes [match bv with inl bv => bv | inr _ => 0 end])
  | String_ =>
      if decide (vlen < n) then fail (decodeError msgStringTooLong)
      else if decide (vlen > n) then fail (decodeError msgStringTooShort)
      else
        b ← readFull vlen;
        if decide (n = 1 /\ single b = true) then fail (wrapStreamError ErrCanonSize) else mret (VBytes b)
  | List_ => fail (wrapStreamError ErrExpectedString)
  end.

(** The unread bytes, and whether a header is cached. *)

Definition measure (s : Stream) : nat :=
  2 * length (unread s) + match kind s with Some _ => 1 | None => 0 end.

Fixpoint decode_elems (fuel : nat) (elemdec : dec rval) (vs : list rval) : dec (list rval) :=
  match fuel with
  | O => fail outOfFuel
  | S fuel =>
      res ← try_ elemdec;
      match res with
      | inl v => decode_elems fuel elemdec (vs ++ [v])
      | inr EOL => mret vs
      | inr e => fail e
      end
  end.

Definition decodeSliceElems (elemdec : dec rval) : dec rval :=
  s ← get;
  vs ← decode_elems (S (measure s)) elemdec [];
  mret (VList vs).

Definition decodeListSlice (elemdec : dec rval) : dec rval :=
  n ← wrap List__;
  if decide (n = 0) then _ ← ListEnd; mret (VList [])
  else v ← decodeSliceElems elemdec; _ ← ListEnd; mret v.

Fixpoint decode_array (n : nat) (elemdec : dec rval) (vs : list rval) : dec (list rval) :=
  match n with
  | O => mret vs
  | S n =>
      res ← try_ elemdec;
      match res with
      | inl v => decode_array n elemdec (vs ++ [v])
      | inr EOL => fail (decodeError msgListTooFew)
      | inr e => fail e
      end
  end.

Definition decodeListArray (vlen : Z) (elemdec : dec rval) : dec rval :=
  _ ← wrap List__;
  vs ← decode_array (Z.to_nat vlen) elemdec [];
  _ ← wrap ListEnd;
  mret (VList vs).

(** One field of a struct, or one part of a map entry. *)

Definition decode_field (d : dec rval) : dec rval :=
  res ← try_ d;
  match res with
  | inl v => mret v
  | inr EOL => fail (decodeError msgTooFew)
  | inr e => fail e
  end.

Definition optional_ptr (elem : dec rval) : dec rval :=
  res ← try_ Kind_;
  match res with
  | inr e => _ ← rearm; fail e
  | inl (k, n) =>
      if decide (n = 0 /\ k <> Byte) then _ ← rearm; mret VNil
      else v ← elem; mret (VPtr v)
  end.

Fixpoint decodeInterface (fuel : nat) : dec rval :=
  match fuel with
  | O => fail outOfFuel
  | S fuel =>
      '(k, _) ← Kind_;
      if decide (k = List_) then
        v ← decodeListSlice (decodeInterface fuel);
        mret (VIface (TSlice TInterface) v)
      else b ← Bytes; mret (VIface TByteSlice (VBytes b))
  end.

(** The map in a zero value is nil, and assigning an entry to it panics, so that
    only an empty list is decoded. *)

Definition decode_map (kdecoder vdecoder : dec rval) : dec rval :=
  _ ← wrap List__;
  res ← try_ kdecoder;
  match res with
  | inr EOL => _ ← wrap ListEnd; mret (VMap [])
  | inr e => fail e
  | inl _ => _ ← try_ Kind_; _ ← decode_field vdecoder; lift Panic
  end.

Fixpoint decoder (ts : tags) (t : rtype) : dec rval :=
  match t with
  | TRawValue => decodeRawValue
  | TBigInt => decodeBigInt
  | TPtr TBigInt => v ← decodeBigInt; mret (VPtr v)
  | TUint bits => decodeUint bits
  | TBool => decodeBool
  | TString => decodeString
  | TByteSlice => decodeByteSlice
  | TByteArray n => decodeByteArray n
  | TSlice t => if tail ts then decodeSliceElems (decoder no_tags t) else decodeListSlice (decoder no_tags t)
  | TArray n t => decodeListArray n (decoder no_tags t)
  | TStruct fields =>
      _ ← wrap List__;
      vs ← (fix decode_fields (fields : list (tags * rtype)) : dec (list rval) :=
              match fields with
              | [] => mret []
              | (ts, t) :: fields =>
                  v ← decode_field (decoder ts t);
                  vs ← decode_fields fields;
                  mret (v :: vs)
              end) fields;
      _ ← wrap ListEnd;
      mret (VList vs)
  | TPtr t =>
      if nilOK ts then optional_ptr (decoder no_tags t)
      else v ← decoder no_tags t; mret (VPtr v)
  | TInterface => s ← get; decodeInterface (S (measure s))
  | TFloat64 => decodefloat64
  | TMap k v => decode_map (decoder no_tags k) (decoder no_tags v)
  | TInt bits => decodeInt bits
  | TUnsupported => fail errNotSerializable
  end.

(** [NewStream(bytes.NewReader(b), len(b)).Decode(val)]; input after the value is
    not looked at. *)

Definition Decode_stream (t : rtype) : dec rval := _ ← lift (genTypeInfo t); decoder no_tags t.

Definition DecodeBytes (b : bytes) (t : rtype) : outcome rlp_error rval :=
  (Decode_stream t (NewStream b true (zlen b))).1.
