(* ===== verification/RlpSound.v ===== *)
(** * RlpSound: the RLP decoder on arbitrary input

    Whatever bytes it is given, the decoder returns a value of the type it decodes,
    or an error: it reads every loop to an end, and does not panic unless the type
    mentions a float or a map.  The exceptions of the code are proved as well: a
    slice of one-byte arrays is decoded forever, a short float panics, and signed
    integers do not all survive a round trip.

    The statements about the stream are Hoare triples with an error postcondition
    ([hoare]), for states that satisfy [inv] and have at most [k] to read. *)

From S2P Require Import Prelude Digits Rlp RlpEncode RlpDecode.

#[local] Open Scope Z_scope.

(** ** Triples with an error postcondition *)

Definition hoare {A} (pan : Prop) (P : Stream -> Prop) (m : dec A) (Q : A -> Stream -> Prop)
    (E : rlp_error -> Stream -> Prop) : Prop :=
  forall s, P s ->
    match m s with
    | (Ok a, s') => Q a s'
    | (Err e, s') => E e s'
    | (Panic, _) => pan
    end.

Section Hoare.
Context (pan : Prop).

Lemma hoare_ret {A} (P : Stream -> Prop) (a : A) Q E : (forall s, P s -> Q a s) -> hoare pan P (mret a) Q E.
Proof. intros H s Hs. by apply H. Qed.

Lemma hoare_fail {A} (P : Stream -> Prop) e Q E : (forall s, P s -> E e s) -> hoare (A := A) pan P (fail e) Q E.
Proof. intros H s Hs. by apply H. Qed.

Lemma hoare_bind {A B} P (m : dec A) (f : A -> dec B) R Q E :
  hoare pan P m R E -> (forall a, hoare pan (R a) (f a) Q E) -> hoare pan P (m ≫= f) Q E.
Proof.
  intros Hm Hf s Hs. specialize (Hm s Hs). unfold mbind, go_bind. destruct (m s) as [[a|e|] s']; [|done..].
  by apply Hf.
Qed.

Lemma hoare_get {B} P (f : Stream -> dec B) Q E :
  (forall s, hoare pan (fun s' => s' = s /\ P s) (f s) Q E) -> hoare pan P (get ≫= f) Q E.
Proof. intros H s Hs. by apply (H s s). Qed.

Lemma hoare_modify P g (Q : unit -> Stream -> Prop) E : (forall s, P s -> Q tt (g s)) -> hoare pan P (modify g) Q E.
Proof. intros H s Hs. by apply H. Qed.

Lemma hoare_conseq {A} P P' (m : dec A) (Q Q' : A -> Stream -> Prop) (E E' : rlp_error -> Stream -> Prop) :
  hoare pan P' m Q' E' -> (forall s, P s -> P' s) -> (forall a s, Q' a s -> Q a s) ->
  (forall e s, E' e s -> E e s) -> hoare pan P m Q E.
Proof.
  intros H HP HQ HE s Hs. specialize (H s (HP s Hs)). destruct (m s) as [[a|e|] s']; auto.
Qed.

Lemma hoare_pre {A} (P P' : Stream -> Prop) (m : dec A) Q E :
  hoare pan P' m Q E -> (forall s, P s -> P' s) -> hoare pan P m Q E.
Proof. intros H HP. by apply (hoare_conseq P P' m Q Q E E). Qed.

Lemma hoare_try {A} P (m : dec A) (Q : A + rlp_error -> Stream -> Prop) E' :
  hoare pan P m (fun a => Q (inl a)) (fun e => Q (inr e)) -> hoare pan P (try_ m) Q E'.
Proof. intros H s Hs. specialize (H s Hs). unfold try_. by destruct (m s) as [[a|e|] s']. Qed.

Lemma hoare_wrap {A} P (m : dec A) Q (E : rlp_error -> Stream -> Prop) :
  hoare pan P m Q (fun e => E (wrapStreamError e)) -> hoare pan P (wrap m) Q E.
Proof. intros H s Hs. specialize (H s Hs). unfold wrap. by destruct (m s) as [[a|e|] s']. Qed.

Lemma hoare_pure {A} (phi : Prop) P (m : dec A) Q E :
  (phi -> hoare pan P m Q E) -> hoare pan (fun s => phi /\ P s) m Q E.
Proof. intros H s [Hphi Hs]. by apply (H Hphi). Qed.
End Hoare.

(** ** The invariant of the stream *)

(** [n] more bytes fit into the innermost list. *)

Definition room (st : list (Z * Z)) (n : Z) : Prop :=
  match st with (pos, sz) :: _ => pos + n <= sz | [] => True end.

Fixpoint stack_ok (st : list (Z * Z)) : Prop :=
  match st with
  | [] => True
  | (pos, sz) :: st => 0 <= pos <= sz /\ sz < 2 ^ 62 /\ room st sz /\ stack_ok st
  end.

Definition inv (s : Stream) : Prop :=
  limited s = true /\ 0 <= remaining s < 2 ^ 62 /\ wf_bytes (unread s) /\ stack_ok (stack s) /\
  0 <= byteval s < 128 /\ kinderr s <> Some outOfFuel /\
  (kind s <> None -> kinderr s = None -> 0 <= size s < 2 ^ 62 /\ room (stack s) (size s)).

Definition upto (k : nat) (s : Stream) : Prop := inv s /\ (measure s <= k)%nat.

(** The invariant and the bound with no header cached. *)

Definition fresh (k : nat) (s : Stream) : Prop := upto k s /\ kind s = None.

Definition err_ok (k : nat) (e : rlp_error) (s : Stream) : Prop :=
  inv s /\ e <> outOfFuel /\ (e = EOL -> (measure s <= k)%nat).

(** An error of reading is neither the end of a list nor an exhausted bound. *)

Definition err_io (e : rlp_error) (s : Stream) : Prop := inv s /\ e <> outOfFuel /\ e <> EOL.

Ltac inv_solve :=
  unfold err_io, err_ok, fresh, upto, inv, measure in *; cbn in *; destruct_and?; split_and!;
  try done; try congruence; try lia.

Lemma err_io_ok k e s : err_io e s -> err_ok k e s.
Proof. intros (? & ? & ?). split_and!; [done|done|congruence]. Qed.

Lemma err_ok_wrap k e s : err_ok k e s -> err_ok k (wrapStreamError e) s.
Proof. intros (? & ? & ?). split_and!; [done|destruct e; cbn; congruence|]. intros He. destruct e; try discriminate He; auto. Qed.

Lemma inv_disarm s : inv s -> inv (set_kind None s).
Proof. unfold inv. cbn. intros (?&?&?&?&?&?&?). split_and!; try done; lia. Qed.

Lemma disarm_measure s : (measure (set_kind None s) <= measure s)%nat.
Proof. unfold measure. cbn. destruct (kind s); lia. Qed.

Lemma fresh_disarm k s : upto k s -> fresh k (set_kind None s).
Proof. intros [Hi Hm]. pose proof (disarm_measure s). split; [split; [by apply inv_disarm|lia]|done]. Qed.

(** ** Reading from the input *)

Lemma willRead_ok k n :
  0 <= n -> hoare False (upto k) (willRead n) (fun _ => fresh k) err_io.
Proof.
  intros Hn s Hs. apply fresh_disarm in Hs as [[Hi Hm] _]. unfold willRead. rewrite go_modify_bind, go_get_bind.
  set (s1 := set_kind None s) in *. cbn [stack limited remaining set_kind s1].
  destruct Hi as (Hl & Hr & Hu & Hst & Hb & Hke & _).
  assert (forall st, stack_ok st ->
    match (if limited s then if decide (n > remaining s) then fail ErrValueTooLarge
           else modify (fun s => set_remaining (remaining s - n) s) else mret tt) (set_stack st s1) with
    | (Ok _, s') => fresh k s' | (Err e, s') => err_io e s' | (Panic, _) => False end) as Hlim.
  { intros st Hst'. cbn in Hl. rewrite Hl. case_decide as Hd.
    - inv_solve.
    - inv_solve. }
  destruct (stack s) as [|[pos sz] st] eqn:Hstk.
  - rewrite go_ret_bind. specialize (Hlim (stack s)). rewrite Hstk in Hlim. unfold s1 at 1 in Hst. cbn in Hst.
    replace (set_stack [] s1) with s1 in Hlim; [by apply Hlim|].
    unfold set_stack, s1, set_kind. cbn. by rewrite Hstk.
  - unfold s1 in Hst. cbn in Hst. rewrite Hstk in Hst. cbn [stack_ok] in Hst. destruct Hst as (Hp & Hz & Hrm & Hst).
    rewrite u64_id by lia. destruct (decide (n > sz - pos)) as [Hd|Hd].
    + rewrite go_fail_bind. unfold err_io, inv. cbn. rewrite Hstk. inv_solve.
    + rewrite go_modify_bind. apply Hlim. cbn [stack_ok]. rewrite u64_id by lia. split_and!; [lia..|done|done].
Qed.

Lemma set_unread_inv s b : wf_bytes b -> inv s -> inv (set_unread b s).
Proof. unfold inv. cbn. intros ? (?&?&?&?&?&?&?). split_and!; try done; lia. Qed.

Lemma readByte_ok k :
  hoare False (upto k) readByte (fun b s => is_byte b /\ fresh (k - 2) s /\ (2 <= k)%nat) err_io.
Proof.
  unfold readByte. eapply hoare_bind; [apply willRead_ok; lia|]. intros []. apply hoare_get. intros s s0 [Heq [[Hi Hm] Hk]]. subst s0.
  pose proof Hi as (_ & _ & Hu & _). destruct (unread s) as [|b rd] eqn:Hr; [done|].
  apply wf_bytes_cons in Hu as [Hb Hu]. unfold measure in Hm. rewrite Hr, Hk in Hm. cbn [length] in Hm.
  split; [done|]. split; [|lia]. split; [|done]. split; [by apply set_unread_inv|].
  unfold measure. cbn. rewrite Hk. lia.
Qed.

Lemma readFull_ok k n :
  0 <= n -> hoare False (upto k) (readFull n) (fun b s => (wf_bytes b /\ zlen b = n) /\ fresh k s) err_io.
Proof.
  intros Hn. unfold readFull. eapply hoare_bind; [by apply willRead_ok|]. intros []. apply hoare_get.
  intros s s0 [Heq [[Hi Hm] Hk]]. subst s0. pose proof Hi as (_ & _ & Hu & _). case_decide as Hd.
  - split; [split; [by apply Forall_take|unfold zlen in *; rewrite length_take; lia]|].
    split; [|done]. split; [by apply set_unread_inv; [apply Forall_drop|]|].
    unfold measure in *. cbn. rewrite length_drop. rewrite Hk in *. lia.
  - unfold err_io. split; [|done]. apply set_unread_inv; [constructor|done].
Qed.

Lemma readUint_ok k n :
  0 <= n <= 8 -> hoare False (upto k) (readUint n) (fun v s => 0 <= v < 256 ^ n /\ fresh k s) err_io.
Proof.
  intros Hn. unfold readUint. case_decide; [|case_decide].
  - subst. eapply hoare_bind; [apply hoare_modify with (Q := fun _ => fresh k); apply fresh_disarm|].
    intros []. apply hoare_ret. intros s Hs. split; [lia|done].
  - subst. eapply hoare_conseq; [apply readByte_ok|done| |done]. intros b s (Hb & [[Hi Hm] Hk] & _).
    split; [exact Hb|]. split; [split; [done|lia]|done].
  - eapply hoare_bind; [apply readFull_ok; lia|]. intros b. cbn beta. apply hoare_pure. intros [Hwf Hl].
    case_decide; [by apply hoare_fail; intros s [[Hi _] _]|]. apply hoare_ret. intros s Hs. split; [|done].
    rewrite <- Hl. by apply be_val_bound.
Qed.

(** ** The header ahead *)

Definition header_read (k : nat) (res : Kind * Z * option rlp_error) (s : Stream) : Prop :=
  let '(_, n, err) := res in
  0 <= n < 2 ^ 64 /\
  match err with
  | None => fresh (k - 2) s /\ (2 <= k)%nat
  | Some e => err_io e s
  end.

Lemma read_size_ok k kd n :
  0 <= n <= 8 -> (2 <= k)%nat -> hoare False (fresh (k - 2)) (read_size kd n) (header_read k) (fun _ _ => False).
Proof.
  intros Hn Hk. unfold read_size.
  eapply hoare_bind with (R := fun res s => match res with
    | inl v => 0 <= v < 2 ^ 64 /\ fresh (k - 2) s | inr e => err_io e s end).
  - apply hoare_try. eapply hoare_conseq; [apply (readUint_ok (k - 2)); lia|by intros s []| |done].
    cbn. intros v s [Hv Hs]. split; [|done]. pose proof (Z.pow_le_mono_r 256 n 8). lia.
  - intros [v|e]; apply hoare_ret; cbn [header_read]; [|intros s Hs; split; [lia|done]].
    intros s [Hv Hs]. split; [done|]. case_decide; [|done]. destruct Hs as [[Hi _] _]. done.
Qed.

Lemma set_byteval_fresh k b s : 0 <= b < 128 -> fresh k s -> fresh k (set_byteval b s).
Proof. intros. inv_solve. Qed.

Lemma readKind_ok k : hoare False (upto k) readKind_ (header_read k) (fun _ _ => False).
Proof.
  unfold readKind_.
  eapply hoare_bind with (R := fun res s => match res with
    | inl b => is_byte b /\ fresh (k - 2) s /\ (2 <= k)%nat | inr e => err_io e s end).
  { apply hoare_try. eapply hoare_conseq; [apply readByte_ok|done..]. }
  intros [b|e].
  - apply hoare_pure. intros Hb. unfold is_byte in Hb. apply hoare_pre with (P' := fun s => (2 <= k)%nat /\ fresh (k - 2) s); [|by intros s []].
    apply hoare_pure. intros Hk. eapply hoare_bind with (R := fun _ => fresh (k - 2)).
    { apply hoare_modify. intros s. by apply set_byteval_fresh. }
    intros []. repeat case_decide.
    + eapply hoare_bind with (R := fun _ => fresh (k - 2)).
      { apply hoare_modify. intros s. apply set_byteval_fresh. lia. }
      intros []. apply hoare_ret. intros s Hs. split; [lia|done].
    + apply hoare_ret. intros s Hs. rewrite u8_id by (unfold is_byte; lia). split; [lia|done].
    + apply read_size_ok; [|done]. rewrite u8_tag by lia. lia.
    + apply hoare_ret. intros s Hs. rewrite u8_id by (unfold is_byte; lia). split; [lia|done].
    + apply read_size_ok; [|done]. rewrite u8_tag by lia. lia.
  - apply hoare_get. intros s. apply hoare_ret. intros s0 [Heq (Hi & H1 & H2)]. subst s0. split; [lia|].
    destruct (stack s), e; done.
Qed.

Definition ahead (k : nat) (kn : Kind * Z) (s : Stream) : Prop :=
  upto k s /\ kind s = Some kn.1 /\ room (stack s) kn.2 /\ size s = kn.2 /\ 0 <= kn.2 < 2 ^ 62.

Lemma cached_kind_ok k kd :
  hoare False (fun s => upto k s /\ kind s = Some kd) (cached_kind kd) (ahead k) (err_ok k).
Proof.
  intros s [[Hi Hm] Hk]. unfold cached_kind. rewrite go_get_bind.
  pose proof Hi as (_ & _ & _ & _ & _ & He & Hsz). destruct (kinderr s) as [e|] eqn:Hke.
  - split_and!; [done|congruence|done].
  - split; [done|]. destruct Hsz as [Hn Hrm]; [congruence|done|]. by cbn.
Qed.

Lemma check_size_inv s k n :
  inv s -> 0 <= n -> inv (set_kinderr (check_size (set_kinderr None (set_size n (set_kind (Some k) s))))
                           (set_kinderr None (set_size n (set_kind (Some k) s)))).
Proof.
  intros (Hl & Hr & Hu & Hst & Hb & _) Hn. unfold inv, check_size. cbn. rewrite Hl. cbn.
  assert (forall e, match stack s with
      | [] => if bool_decide (n > remaining s) then Some ErrValueTooLarge else None
      | (pos, sz) :: _ => if decide (n > u64 (sz - pos)) then Some ErrElemTooLarge else None end = e ->
    e <> Some outOfFuel /\ (e = None -> n < 2 ^ 62 /\ room (stack s) n)) as H.
  { intros e <-. destruct (stack s) as [|[pos sz] st].
    - case_bool_decide; split; try done. intros _. split; [lia|done].
    - destruct Hst as (Hp & Hz & _). rewrite u64_id by lia. case_decide; split; try done. intros _. cbn. lia. }
  destruct (H _ eq_refl) as [H1 H2]. split_and!; try done; try lia. intros _ He. destruct (H2 He). done.
Qed.

Lemma Kind_ok k : hoare False (upto k) Kind_ (ahead k) (err_ok k).
Proof.
  intros s [Hi Hm]. unfold Kind_. rewrite go_get_bind. destruct (kind s) as [kd|] eqn:Hk.
  { apply cached_kind_ok. done. }
  rewrite go_modify_bind. set (s1 := set_kinderr None s).
  assert (upto k s1) as [Hi1 Hm1] by (subst s1; inv_solve).
  destruct (at_end s); [by split_and!|]. unfold mbind at 1, go_bind at 1.
  pose proof (readKind_ok k s1 (conj Hi1 Hm1)) as Hrk.
  destruct (readKind_ s1) as [[[[kd n] err]|e|] s2]; [|done..]. destruct Hrk as [Hn Hrk].
  rewrite go_modify_bind. destruct err as [e|].
  - rewrite go_ret_bind. destruct Hrk as (Hi2 & He1 & He2). unfold cached_kind. rewrite go_get_bind. cbn.
    split_and!; [|done|done]. inv_solve.
  - rewrite go_modify_bind. destruct Hrk as [[[Hi2 Hm2] Hk2] Hk0]. apply cached_kind_ok. split; [|done].
    split; [apply check_size_inv; [done|lia]|]. unfold measure in *. cbn. rewrite Hk2 in Hm2. lia.
Qed.

(** ** Reading a value: below the bound afterwards *)

Definition below (k : nat) (s : Stream) : Prop := inv s /\ (measure s < k)%nat.

Lemma below_upto k s : below k s -> upto k s.
Proof. intros [? ?]. split; [done|lia]. Qed.

Lemma below_mono k k' s : below k s -> (k <= k')%nat -> below k' s.
Proof. intros [? ?] ?. split; [done|lia]. Qed.

Lemma below_pred k s : below k s -> upto (k - 1) s /\ (1 <= k)%nat.
Proof. intros [? ?]. split; [split; [done|lia]|lia]. Qed.

Lemma err_ok_mono k k' e s : err_ok k e s -> (k <= k')%nat -> err_ok k' e s.
Proof. intros (? & ? & H) ?. split_and!; [done|done|]. intros He. specialize (H He). lia. Qed.

Lemma ahead_armed k kn s : ahead k kn s -> below k (set_kind None s).
Proof.
  intros [[Hi Hm] (Hk & _)]. split; [by apply inv_disarm|]. unfold measure in *. rewrite Hk in Hm. cbn. lia.
Qed.

Lemma hoare_armed {A} pan k kn (m : dec A) Q E :
  (forall s, m s = m (set_kind None s)) -> ((1 <= k)%nat -> hoare pan (upto (k - 1)) m Q E) ->
  hoare pan (ahead k kn) m Q E.
Proof.
  intros Hm H s Hs. apply ahead_armed, below_pred in Hs as [Hs Hk]. rewrite Hm. by apply H.
Qed.

Lemma readFull_disarms n s : readFull n s = readFull n (set_kind None s).
Proof. done. Qed.

Lemma readByte_disarms s : readByte s = readByte (set_kind None s).
Proof. done. Qed.

Lemma readUint_disarms n s : readUint n s = readUint n (set_kind None s).
Proof. unfold readUint. repeat case_decide; done. Qed.

Lemma rearm_ok pan k kn E : hoare pan (ahead k kn) rearm (fun _ => below k) E.
Proof. apply hoare_modify. intros s Hs. by apply ahead_armed in Hs. Qed.

Lemma fresh_below k s : (1 <= k)%nat -> fresh (k - 1) s -> below k s.
Proof. intros ? [[? ?] _]. split; [done|lia]. Qed.

Lemma readFull_ahead k kn n :
  0 <= n ->
  hoare False (ahead k kn) (readFull n) (fun b s => (wf_bytes b /\ zlen b = n) /\ below k s) (err_ok k).
Proof.
  intros Hn. apply hoare_armed; [apply readFull_disarms|]. intros Hk.
  eapply hoare_conseq; [apply readFull_ok; done|done| |intros; by apply err_io_ok].
  intros b s [Hb Hs]. split; [done|by apply fresh_below].
Qed.

Lemma readUint_ahead k kn n :
  0 <= n <= 8 ->
  hoare False (ahead k kn) (readUint n) (fun v s => 0 <= v < 256 ^ n /\ below k s) (err_ok k).
Proof.
  intros Hn. apply hoare_armed; [apply readUint_disarms|]. intros Hk.
  eapply hoare_conseq; [apply readUint_ok; done|done| |intros; by apply err_io_ok].
  intros b s [Hb Hs]. split; [done|by apply fresh_below].
Qed.

Lemma err_ahead k kn e s : ahead k kn s -> e <> outOfFuel -> e <> EOL -> err_ok k e s.
Proof. intros [[Hi _] _] ? ?. split_and!; [done|done|congruence]. Qed.

Lemma err_below k e s : below k s -> e <> outOfFuel -> e <> EOL -> err_ok k e s.
Proof. intros [Hi _] ? ?. split_and!; [done|done|congruence]. Qed.

Lemma get_ahead {B} pan k kn (f : Stream -> dec B) Q E :
  (forall s, 0 <= byteval s < 128 -> hoare pan (ahead k kn) (f s) Q E) -> hoare pan (ahead k kn) (get ≫= f) Q E.
Proof. intros H s Hs. rewrite go_get_bind. apply H; [|done]. destruct Hs as [[Hi _] _]. by destruct Hi as (_ & _ & _ & _ & ? & _). Qed.

Lemma ahead_size {A} pan k kd n (m : dec A) Q E :
  (0 <= n < 2 ^ 62 -> hoare pan (ahead k (kd, n)) m Q E) -> hoare pan (ahead k (kd, n)) m Q E.
Proof. intros H s Hs. apply H; [|done]. by destruct Hs as (_ & _ & _ & _ & ?). Qed.

Lemma Bytes_ok k : hoare False (upto k) Bytes (fun b s => wf_bytes b /\ below k s) (err_ok k).
Proof.
  unfold Bytes. eapply hoare_bind; [apply Kind_ok|]. intros [kd n]. apply ahead_size. intros Hn. destruct kd.
  - apply get_ahead. intros s Hb. eapply hoare_bind; [apply rearm_ok|]. intros []. apply hoare_ret. intros s' Hs.
    split; [|done]. apply wf_bytes_1. unfold is_byte. lia.
  - unfold make_bytes. rewrite decide_True by lia. eapply hoare_bind; [by apply hoare_ret with (Q := fun _ => ahead k (String_, n))|].
    intros []. eapply hoare_bind; [apply readFull_ahead; lia|]. intros b. apply hoare_pure. intros [Hwf Hl].
    case_decide; [apply hoare_fail; intros s Hs; by eapply err_below|]. by apply hoare_ret.
  - apply hoare_fail. intros s Hs. by eapply err_ahead.
Qed.

Lemma Raw_ok k : hoare False (upto k) Raw_ (fun b s => wf_bytes b /\ below k s) (err_ok k).
Proof.
  unfold Raw_. eapply hoare_bind; [apply Kind_ok|]. intros [kd n]. apply ahead_size. intros Hn.
  pose proof (headsize_pos n ltac:(lia)) as Hh.
  assert (forall b : bytes, zlen b = n -> headsize n <= zlen (replicate (Z.to_nat (headsize n)) 0 ++ b)) as Hroom.
  { intros b Hb. rewrite zlen_app. unfold zlen at 1. rewrite length_replicate. zlen_facts. lia. }
  assert (forall st lt b, 0 <= st <= 200 -> 0 <= lt <= 247 -> zlen b = n ->
    puthead (replicate (Z.to_nat (headsize n)) 0 ++ b) st lt n = Ok (headsize n, header st lt n ++ b)) as Hput.
  { intros st lt b Hst Hlt Hb. rewrite puthead_ok by (try lia; by apply Hroom). do 3 f_equal.
    rewrite <- (length_replicate (Z.to_nat (headsize n)) 0) at 1. apply drop_app_length. }
  assert (hoare False (ahead k (kd, n))
    (_ ← make_bytes (u64 (headsize n + n));
     dst ← lift (goslice (replicate (Z.to_nat (u64 (headsize n + n))) 0) (headsize n) (u64 (headsize n + n)));
     b ← readFull (zlen dst);
     '(_, buf) ← lift (if decide (kd = String_) then puthead (replicate (Z.to_nat (headsize n)) 0 ++ b) 0x80 0xB7 n
                       else puthead (replicate (Z.to_nat (headsize n)) 0 ++ b) 0xC0 0xF7 n);
     mret buf) (fun b s => wf_bytes b /\ below k s) (err_ok k)) as Hlong.
  { rewrite u64_id by lia. unfold make_bytes. rewrite decide_True by lia.
    eapply hoare_bind; [by apply hoare_ret with (Q := fun _ => ahead k (kd, n))|]. intros [].
    destruct (goslice_ok (E := rlp_error) (replicate (Z.to_nat (headsize n + n)) 0) (headsize n) (headsize n + n))
      as (a & d & c & _ & _ & Hd & ->); [lia|unfold zlen; rewrite length_replicate; lia|].
    replace (headsize n + n - headsize n) with n in Hd by lia.
    intros s Hs. rewrite go_lift_ok, Hd. revert s Hs.
    eapply hoare_bind; [apply readFull_ahead; lia|]. intros b. apply hoare_pure. intros [Hwf Hl] s Hs.
    case_decide; rewrite Hput by lia; rewrite go_lift_ok; (split; [|done]);
      (apply wf_bytes_app; split; [apply header_wf; lia|done]). }
  destruct kd; [|exact Hlong..].
  apply get_ahead. intros s Hb. eapply hoare_bind; [apply rearm_ok|]. intros []. apply hoare_ret. intros s' Hs.
  split; [|done]. apply wf_bytes_1. unfold is_byte. lia.
Qed.

(** ** Integers and lists *)

Lemma hoare_adjust {A} pan P (m : dec A) Q (E : rlp_error -> Stream -> Prop) :
  hoare pan P m Q E -> (forall s, E ErrCanonSize s -> E ErrCanonInt s) -> hoare pan P (adjust_canon m) Q E.
Proof.
  intros H HE s Hs. specialize (H s Hs). unfold adjust_canon. destruct (m s) as [[a|e|] s']; [done| |done].
  destruct e; auto.
Qed.

(** The widths of the integer types. *)

Definition is_width (bits : Z) : bool := (bits =? 8) || (bits =? 16) || (bits =? 32) || (bits =? 64).

Lemma is_width_cases bits : is_width bits = true -> bits = 8 \/ bits = 16 \/ bits = 32 \/ bits = 64.
Proof. unfold is_width. rewrite !orb_true_iff, !Z.eqb_eq. tauto. Qed.

Lemma canon_err k s : err_ok k ErrCanonSize s -> err_ok k ErrCanonInt s.
Proof. intros (? & ? & ?). by split_and!. Qed.

Lemma uint_ok k bits :
  is_width bits = true -> hoare False (upto k) (uint bits) (fun v s => 0 <= v < 2 ^ bits /\ below k s) (err_ok k).
Proof.
  intros Hw. apply is_width_cases in Hw. unfold uint. eapply hoare_bind; [apply Kind_ok|]. intros [kd n].
  apply ahead_size. intros Hn. destruct kd; [|case_decide as Hd|].
  - apply get_ahead. intros s Hb. case_decide.
    + apply hoare_fail. intros s' Hs. by eapply err_ahead.
    + eapply hoare_bind; [apply rearm_ok|]. intros []. apply hoare_ret. intros s' Hs. split; [|done].
      pose proof (Z.pow_le_mono_r 2 8 bits). lia.
  - apply hoare_fail. intros s Hs. by eapply err_ahead.
  - assert (n <= 8 /\ 8 * n <= bits) as [Hn8 Hnb]
      by (pose proof (Z.div_mod bits 8); pose proof (Z.mod_pos_bound bits 8); lia).
    eapply hoare_bind; [apply hoare_adjust; [apply readUint_ahead; lia|apply canon_err]|]. intros v. apply hoare_pure. intros Hv.
    case_decide; [apply hoare_fail; intros s Hs; by eapply err_below|]. apply hoare_ret. intros s Hs. split; [|done].
    rewrite pow256 in Hv by lia. pose proof (Z.pow_le_mono_r 2 (8 * n) bits). lia.
  - apply hoare_fail. intros s Hs. by eapply err_ahead.
Qed.

Lemma wrap_signed z w : 0 < w -> - 2 ^ (w - 1) <= (z + 2 ^ (w - 1)) mod 2 ^ w - 2 ^ (w - 1) < 2 ^ (w - 1).
Proof.
  intros Hw. pose proof (Z.mod_pos_bound (z + 2 ^ (w - 1)) (2 ^ w)).
  assert (2 ^ w = 2 * 2 ^ (w - 1)) as Hp by (rewrite <- Z.pow_succ_r by lia; f_equal; lia).
  pose proof (Z.pow_pos_nonneg 2 (w - 1)). lia.
Qed.

Lemma int_ok k bits :
  is_width bits = true ->
  hoare False (upto k) (int_ bits) (fun v s => - 2 ^ (bits - 1) <= v < 2 ^ (bits - 1) /\ below k s) (err_ok k).
Proof.
  intros Hw. apply is_width_cases in Hw. unfold int_. eapply hoare_bind; [apply Kind_ok|]. intros [kd n].
  apply ahead_size. intros Hn. destruct kd; [|case_decide as Hd|].
  - apply get_ahead. intros s Hb. case_decide.
    + apply hoare_fail. intros s' Hs. by eapply err_ahead.
    + eapply hoare_bind; [apply rearm_ok|]. intros []. apply hoare_ret. intros s' Hs. split; [|done].
      pose proof (Z.pow_le_mono_r 2 7 (bits - 1)). lia.
  - apply hoare_fail. intros s Hs. by eapply err_ahead.
  - assert (n <= 8 /\ 8 * n <= bits) as [Hn8 Hnb]
      by (pose proof (Z.div_mod bits 8); pose proof (Z.mod_pos_bound bits 8); lia).
    eapply hoare_bind; [apply hoare_adjust; [apply readUint_ahead; lia|apply canon_err]|]. intros v. apply hoare_pure. intros Hv.
    apply hoare_ret. intros s Hs. split; [|done].
    pose proof (wrap_signed v 8 ltac:(lia)) as H8. pose proof (wrap_signed v 16 ltac:(lia)) as H16.
    pose proof (wrap_signed v 32 ltac:(lia)) as H32. pose proof (wrap_signed v 64 ltac:(lia)) as H64.
    change (8 - 1) with 7 in H8. change (16 - 1) with 15 in H16. change (32 - 1) with 31 in H32.
    change (64 - 1) with 63 in H64. fold (i8 v) in H8. fold (i16 v) in H16. fold (i32 v) in H32. fold (i64 v) in H64.
    unfold sign_extend. destruct Hw as [-> | [-> | [-> | ->]]];
      [change (8 - 1) with 7|change (16 - 1) with 15|change (32 - 1) with 31|change (64 - 1) with 63];
      repeat case_decide; try lia; assert (n = 0) as -> by lia; assert (v = 0) as -> by lia; done.
  - apply hoare_fail. intros s Hs. by eapply err_ahead.
Qed.

Lemma Bool_ok k : hoare False (upto k) Bool_ (fun _ => below k) (err_ok k).
Proof.
  unfold Bool_. eapply hoare_bind; [by apply uint_ok|]. intros v. apply hoare_pure. intros _.
  repeat case_decide; try by apply hoare_ret. apply hoare_fail. intros s Hs. by eapply err_below.
Qed.

Lemma List_ok k : hoare False (upto k) List__ (fun n s => 0 <= n /\ below k s) (err_ok k).
Proof.
  unfold List__. eapply hoare_bind; [apply Kind_ok|]. intros [kd n]. case_decide.
  - apply hoare_fail. intros s Hs. by eapply err_ahead.
  - eapply hoare_bind with (R := fun _ s => 0 <= n /\ below k s).
    + apply hoare_modify. intros s Hs. pose proof Hs as (_ & _ & Hrm & _ & Hn). cbn in Hn, Hrm. split; [lia|].
      apply ahead_armed in Hs as [Hi Hm]. unfold below, inv, measure in *. cbn in *. destruct_and?.
      split_and!; try done; try lia; congruence.
    + intros []. by apply hoare_ret.
Qed.

Lemma ListEnd_ok k : hoare False (upto k) ListEnd (fun _ => upto k) (err_ok k).
Proof.
  unfold ListEnd. apply hoare_get. intros s s0 [Heq [Hi Hm]]. subst s0.
  destruct (stack s) as [|[pos sz] st] eqn:Hst; [by split_and!|]. case_decide; [by split_and!|].
  pose proof Hi as (_ & _ & _ & Hs & _). rewrite Hst in Hs. destruct Hs as (Hp & Hz & Hrm & Hs).
  assert (stack_ok match st with (pos', sz') :: st => (u64 (pos' + sz), sz') :: st | [] => [] end).
  { destruct st as [|[pos' sz'] st]; [done|]. cbn [stack_ok room] in *. destruct Hs as (Hp' & Hz' & Hs).
    rewrite u64_id by lia. split_and!; [lia..|apply Hs|apply Hs]. }
  pose proof (disarm_measure s). unfold put, upto, inv, measure in *. cbn in *. destruct_and?.
  split_and!; try done; try lia; congruence.
Qed.

(** ** The decoders *)

(** Integer types have a width, and array types a length; no byte arrays of one
    element. *)

Fixpoint regular (t : rtype) : bool :=
  match t with
  | TUint bits | TInt bits => is_width bits
  | TByteArray n => bool_decide (0 <= n /\ n <> 1)
  | TArray n t => bool_decide (0 <= n) && regular t
  | TSlice t | TPtr t => regular t
  | TStruct fields => forallb (fun f => regular f.2) fields
  | TMap k v => regular k && regular v
  | _ => true
  end.

Fixpoint may_panic (t : rtype) : bool :=
  match t with
  | TFloat64 | TMap _ _ => true
  | TSlice t | TPtr t | TArray _ t => may_panic t
  | TStruct fields => existsb (fun f => may_panic f.2) fields
  | _ => false
  end.

(** [d] decodes values of type [t]: from any state with at most [k <= n] to read,
    it leaves less to read. *)

Definition decodes (n : nat) (pan : Prop) (t : rtype) (d : dec rval) : Prop :=
  forall k, (k <= n)%nat -> hoare pan (upto k) d (fun v s => has_type t v = true /\ below k s) (err_ok k).

Lemma hoare_pan {A} (pan pan' : Prop) P (m : dec A) Q E : (pan -> pan') -> hoare pan P m Q E -> hoare pan' P m Q E.
Proof. intros Hp H s Hs. specialize (H s Hs). by destruct (m s) as [[]]; auto. Qed.

Lemma hoare_wrap_ok {A} pan k P (m : dec A) Q : hoare pan P m Q (err_ok k) -> hoare pan P (wrap m) Q (err_ok k).
Proof.
  intros H. apply hoare_wrap. eapply hoare_conseq; [exact H|done|done|]. intros e s. apply err_ok_wrap.
Qed.

Lemma decodes_leaf {A} n pan t (m : dec A) (f : A -> rval) (phi : A -> Prop) :
  (forall k, hoare False (upto k) m (fun a s => phi a /\ below k s) (err_ok k)) ->
  (forall a, phi a -> has_type t (f a) = true) -> decodes n pan t (a ← wrap m; mret (f a)).
Proof.
  intros Hm Hf k _. apply hoare_pan with (pan := False); [done|].
  eapply hoare_bind; [apply hoare_wrap_ok, Hm|]. intros a. apply hoare_pure. intros Ha. apply hoare_ret. auto.
Qed.

Lemma try_ok {A} pan k (m : dec A) (Q : A -> Stream -> Prop) E :
  hoare pan (upto k) m Q (err_ok k) ->
  hoare pan (upto k) (try_ m) (fun r s => match r with inl a => Q a s | inr e => err_ok k e s end) E.
Proof. intros H. by apply hoare_try. Qed.

Lemma fail_err {A} pan k k' e (Q : A -> Stream -> Prop) :
  e <> EOL -> (k' <= k)%nat -> hoare pan (err_ok k' e) (fail e) Q (err_ok k).
Proof. intros He Hk. apply hoare_fail. intros s Hs. by eapply err_ok_mono. Qed.

Lemma EOL_upto k s : err_ok k EOL s -> upto k s.
Proof. intros (? & _ & H). split; [done|by apply H]. Qed.

Lemma err_other k k' e s : err_ok k e s -> forall e', e' <> outOfFuel -> e' <> EOL -> err_ok k' e' s.
Proof. intros (? & _ & _) e' ? ?. by split_and!. Qed.

Lemma decode_elems_ok n pan t d :
  decodes n pan t d -> forall fuel k vs, (k <= n)%nat -> (k < fuel)%nat -> forallb (has_type t) vs = true ->
  hoare pan (upto k) (decode_elems fuel d vs) (fun vs s => forallb (has_type t) vs = true /\ upto k s) (err_ok k).
Proof.
  intros Hd. induction fuel as [|fuel IH]; intros k vs Hk Hf Hvs; [lia|]. cbn [decode_elems].
  eapply hoare_bind; [apply try_ok, Hd, Hk|]. intros [v|e].
  - apply hoare_pure. intros Hv s Hs. apply below_pred in Hs as [Hs Hk1].
    eapply hoare_conseq; [apply (IH (k - 1)%nat (vs ++ [v])); [lia|lia|]| | | |exact Hs]; [|done| |].
    + rewrite forallb_app, Hvs. cbn. by rewrite Hv.
    + intros l s' [Hl [Hi Hm]]. split; [done|]. split; [done|lia].
    + intros e s' He. eapply err_ok_mono; [done|lia].
  - destruct e; try (by apply fail_err). apply hoare_ret. intros s Hs. split; [done|by apply EOL_upto].
Qed.

Lemma decodeSliceElems_ok n pan t d :
  decodes n pan t d -> forall k, (k <= n)%nat ->
  hoare pan (upto k) (decodeSliceElems d) (fun v s => has_type (TSlice t) v = true /\ upto k s) (err_ok k).
Proof.
  intros Hd k Hk. unfold decodeSliceElems. apply hoare_get. intros s.
  apply hoare_pre with (P' := fun s' => (measure s <= k)%nat /\ upto (measure s) s').
  2:{ intros s' [-> [Hi Hm]]. split; [done|]. by split. }
  apply hoare_pure. intros Hm.
  eapply hoare_bind with (R := fun vs s' => forallb (has_type t) vs = true /\ upto k s').
  - eapply hoare_conseq; [eapply (decode_elems_ok n pan t d Hd (S (measure s)) (measure s) []); [lia|lia|done]|done| |].
    + intros vs s' [Hvs [Hi Hm']]. split; [done|]. split; [done|lia].
    + intros e s' He. by eapply err_ok_mono.
  - intros vs. apply hoare_pure. intros Hvs. by apply hoare_ret.
Qed.

Lemma end_list {A} pan k k' (e : dec unit) (a : A) (Q : A -> Prop) :
  e = ListEnd \/ e = wrap ListEnd -> Q a -> (k' <= k)%nat ->
  hoare pan (upto k') (_ ← e; mret a) (fun v s => Q v /\ upto k' s) (err_ok k).
Proof.
  intros He Ha Hk. apply hoare_pan with (pan := False); [done|].
  eapply hoare_bind with (R := fun _ => upto k'); [|intros []; by apply hoare_ret].
  assert (hoare False (upto k') e (fun _ => upto k') (err_ok k')) as H.
  { destruct He as [->| ->]; [|apply hoare_wrap_ok]; apply ListEnd_ok. }
  eapply hoare_conseq; [exact H|done|done|]. intros e' s Hs. by eapply err_ok_mono.
Qed.

(** After the header of a list there is less to read. *)

Lemma in_list_ok {A} pan k (f : Z -> dec A) (Q : A -> Prop) :
  (forall n, (1 <= k)%nat -> hoare pan (upto (k - 1)) (f n) (fun v s => Q v /\ upto (k - 1) s) (err_ok k)) ->
  hoare pan (upto k) (n ← wrap List__; f n) (fun v s => Q v /\ below k s) (err_ok k).
Proof.
  intros H. eapply hoare_bind; [apply hoare_pan with (pan := False); [done|apply hoare_wrap_ok, List_ok]|].
  intros n. apply hoare_pure. intros Hn s Hs. apply below_pred in Hs as [Hs Hk].
  eapply hoare_conseq; [apply (H n Hk)|done| |done|exact Hs].
  intros v s' [Hv [Hi Hm]]. split; [done|]. split; [done|lia].
Qed.

Lemma decodeListSlice_ok n pan t d : decodes n pan t d -> decodes (S n) pan (TSlice t) (decodeListSlice d).
Proof.
  intros Hd k Hk. apply in_list_ok. intros sz Hk1. case_decide.
  - apply end_list; [by left|done|lia].
  - eapply hoare_bind with (R := fun v s => has_type (TSlice t) v = true /\ upto (k - 1) s).
    + eapply hoare_conseq; [apply (decodeSliceElems_ok n pan t d Hd (k - 1)); lia|done|done|].
      intros e s He. eapply err_ok_mono; [done|lia].
    + intros v. apply hoare_pure. intros Hv. apply end_list; [by left|done|lia].
Qed.

Lemma decode_array_ok n pan t d :
  decodes n pan t d -> forall m k vs, (k <= n)%nat -> forallb (has_type t) vs = true ->
  hoare pan (upto k) (decode_array m d vs)
    (fun l s => (forallb (has_type t) l = true /\ length l = (length vs + m)%nat) /\ upto k s) (err_ok k).
Proof.
  intros Hd. induction m as [|m IH]; intros k vs Hk Hvs; cbn [decode_array].
  { apply hoare_ret. intros s Hs. by rewrite Nat.add_0_r. }
  eapply hoare_bind; [apply try_ok, Hd, Hk|]. intros [v|e].
  - apply hoare_pure. intros Hv s Hs. apply below_upto in Hs.
    eapply hoare_conseq; [apply (IH k (vs ++ [v])); [lia|]| | | |exact Hs]; [|done| |done].
    + rewrite forallb_app, Hvs. cbn. by rewrite Hv.
    + intros l s' [[Hl Hlen] Hs']. split; [|done]. split; [done|]. rewrite Hlen, length_app. cbn. lia.
  - destruct e; try (by apply fail_err). apply hoare_fail. intros s Hs. by eapply err_other.
Qed.

Lemma decodeListArray_ok n pan m t d :
  0 <= m -> decodes n pan t d -> decodes (S n) pan (TArray m t) (decodeListArray m d).
Proof.
  intros Hm Hd k Hk. apply in_list_ok. intros sz Hk1.
  eapply hoare_bind with (R := fun vs s => (forallb (has_type t) vs = true /\ length vs = Z.to_nat m) /\ upto (k - 1) s).
  - eapply hoare_conseq; [apply (decode_array_ok n pan t d Hd (Z.to_nat m) (k - 1) []); [lia|done]|done|done|].
    intros e s He. eapply err_ok_mono; [done|lia].
  - intros vs. apply hoare_pure. intros [Hvs Hl]. apply end_list; [by right| |lia].
    cbn. rewrite Hvs, andb_true_r. apply bool_decide_eq_true. unfold zlen. lia.
Qed.

Lemma decode_field_ok pan k d (Q : rval -> Stream -> Prop) :
  hoare pan (upto k) d Q (err_ok k) -> hoare pan (upto k) (decode_field d) Q err_io.
Proof.
  intros H. unfold decode_field. eapply hoare_bind; [by apply try_ok|]. intros [v|e]; [by apply hoare_ret|].
  destruct e; apply hoare_fail; intros s (? & ? & _); by split_and!.
Qed.

Lemma optional_ptr_ok n pan t d : decodes n pan t d -> decodes n pan (TPtr t) (optional_ptr d).
Proof.
  intros Hd k Hk. unfold optional_ptr.
  eapply hoare_bind; [apply try_ok; apply hoare_pan with (pan := False); [done|apply Kind_ok]|].
  intros [[kd sz]|e]; [case_decide|].
  - eapply hoare_bind; [apply rearm_ok|]. intros []. by apply hoare_ret.
  - apply hoare_pre with (P' := upto k); [|by intros s []]. eapply hoare_bind; [by apply Hd|].
    intros v. by apply hoare_ret.
  - intros s Hs. unfold rearm. rewrite go_modify_bind. destruct Hs as (Hi & He & Hm). pose proof (disarm_measure s).
    split_and!; [by apply inv_disarm|done|]. intros Heol. specialize (Hm Heol). lia.
Qed.

Lemma decodeByteArray_ok n pan m : 0 <= m /\ m <> 1 -> decodes n pan (TByteArray m) (decodeByteArray m).
Proof.
  intros Hm k _. apply hoare_pan with (pan := False); [done|]. unfold decodeByteArray.
  eapply hoare_bind; [apply Kind_ok|]. intros [kd sz].
  destruct kd; [destruct (decide (m = 0)); [|rewrite decide_True by lia]|
    destruct (decide (m < sz)); [|destruct (decide (m > sz))]|];
    try (apply hoare_fail; intros s Hs; by eapply err_ahead).
  eapply hoare_bind; [apply readFull_ahead; lia|]. intros b. apply hoare_pure. intros [Hwf Hl].
  case_decide; [apply hoare_fail; intros s Hs; by eapply err_below|]. apply hoare_ret. intros s Hs.
  split; [|done]. cbn. by apply bool_decide_eq_true.
Qed.

Lemma decodeInterface_ok fuel : forall n, (n < fuel)%nat -> decodes n False TInterface (decodeInterface fuel).
Proof.
  induction fuel as [|fuel IH]; intros n Hn; [lia|]. intros k Hk. cbn [decodeInterface].
  eapply hoare_bind; [apply Kind_ok|]. intros [kd sz] s Hs.
  pose proof (ahead_armed _ _ _ Hs) as [_ Hk1]. destruct Hs as [Hs _]. revert s Hs Hk1.
  intros s Hs Hk1. case_decide; revert s Hs Hk1; intros s Hs Hk1.
  - eapply hoare_bind; [apply (decodeListSlice_ok (k - 1) False TInterface); [apply IH; lia|lia]| |exact Hs].
    intros v. apply hoare_pure. intros Hv. by apply hoare_ret.
  - eapply hoare_bind; [apply Bytes_ok| |exact Hs]. intros b. apply hoare_pure. intros Hb.
    apply hoare_ret. intros s' Hs'. split; [|done]. cbn. by apply bool_decide_eq_true.
Qed.

Lemma decode_map_ok n tk tv dk dv :
  (forall n, decodes n True tk dk) -> (forall n, decodes n True tv dv) -> decodes n True (TMap tk tv) (decode_map dk dv).
Proof.
  intros Hdk Hdv k Hk. apply in_list_ok. intros sz Hk1.
  eapply hoare_bind; [apply try_ok; apply (Hdk k); lia|]. intros [x|e].
  - apply hoare_pre with (P' := upto (k - 1)); [|intros s [_ Hs]; by apply below_upto].
    eapply hoare_bind; [apply try_ok; apply hoare_pan with (pan := False); [done|apply Kind_ok]|].
    intros r s Hs. assert (inv s) as Hi by (destruct r; [by destruct Hs as [[? _] _]|by destruct Hs as (? & _)]).
    eapply hoare_bind with (P := upto (measure s)) (R := fun _ _ => True); [|by intros v s'|by split].
    eapply hoare_conseq with (P' := upto (measure s)); [apply decode_field_ok, (Hdv (measure s)); lia|done|done|]. intros; by apply err_io_ok.
  - destruct e; try (by apply fail_err; [|lia]).
    eapply hoare_pre; [apply end_list; [by right|done|lia]|]. intros s Hs. by apply EOL_upto.
Qed.

Lemma hoare_unwrapped {A} n pan t (m : dec A) (f : A -> rval) (phi : A -> Prop) :
  (forall k, hoare False (upto k) m (fun a s => phi a /\ below k s) (err_ok k)) ->
  (forall a, phi a -> has_type t (f a) = true) -> decodes n pan t (a ← m; mret (f a)).
Proof.
  intros Hm Hf k _. apply hoare_pan with (pan := False); [done|].
  eapply hoare_bind; [apply Hm|]. intros a. apply hoare_pure. intros Ha. apply hoare_ret. auto.
Qed.

Lemma decodeBigInt_ok n pan : decodes n pan TBigInt decodeBigInt.
Proof.
  intros k _. apply hoare_pan with (pan := False); [done|]. unfold decodeBigInt.
  eapply hoare_bind; [apply hoare_wrap_ok, Bytes_ok|]. intros b. apply hoare_pure. intros Hb.
  case_decide; [apply hoare_fail; intros s Hs; by eapply err_below|]. by apply hoare_ret.
Qed.

Lemma decodefloat64_ok n : decodes n True TFloat64 decodefloat64.
Proof.
  intros k _. unfold decodefloat64.
  eapply hoare_bind; [apply hoare_wrap_ok; apply hoare_pan with (pan := False); [done|apply Bytes_ok]|].
  intros b. apply hoare_pure. intros Hb. case_decide as Hl; [by intros s Hs|]. apply hoare_ret. intros s Hs. split; [|done].
  cbn. apply bool_decide_eq_true. change (2 ^ 64) with (256 ^ 8).
  assert (zlen (take 8 b) = 8) as <- by (unfold zlen in *; rewrite length_take; lia).
  by apply le_val_bound, Forall_take.
Qed.

(** A slice in the tail of a struct may be empty, everything else reads something. *)

Definition decodes_field (n : nat) (pan : Prop) (ts : tags) (t : rtype) : Prop :=
  forall k, (k <= n)%nat -> hoare pan (upto k) (decoder ts t) (fun v s => has_type t v = true /\ upto k s) (err_ok k).

Definition sound (t : rtype) : Prop :=
  forall ts n, decodes_field n (may_panic t = true) ts t /\
    (tail ts = false -> decodes n (may_panic t = true) t (decoder ts t)).

Lemma sound_intro t :
  (forall ts n, decodes n (may_panic t = true) t (decoder ts t)) -> sound t.
Proof.
  intros H ts n. split; [|by intros _]. intros k Hk. eapply hoare_conseq; [by apply (H ts n)|done| |done].
  intros v s [Hv Hs]. split; [done|by apply below_upto].
Qed.

Lemma decodes_pan n (pan pan' : Prop) t d : (pan -> pan') -> decodes n pan t d -> decodes n pan' t d.
Proof. intros Hp H k Hk. by eapply hoare_pan, H. Qed.

Lemma sound_slice t : sound t -> sound (TSlice t).
Proof.
  intros H ts n. cbn [decoder may_panic]. destruct (H no_tags n) as [_ Hd]. specialize (Hd eq_refl).
  assert (decodes n (may_panic t = true) (TSlice t) (decodeListSlice (decoder no_tags t))) as Hl.
  { intros k Hk. by apply (decodeListSlice_ok n); [|lia]. }
  split; [|by intros ->]. intros k Hk. cbn [decoder]. destruct (tail ts).
  - by apply (decodeSliceElems_ok n).
  - eapply hoare_conseq; [by apply Hl|done| |done]. intros v s [Hv Hs]. split; [done|by apply below_upto].
Qed.

Lemma sound_array m t : 0 <= m -> sound t -> sound (TArray m t).
Proof.
  intros Hm H. apply sound_intro. intros ts n k Hk. cbn [decoder may_panic].
  destruct (H no_tags n) as [_ Hd]. by apply (decodeListArray_ok n); [|apply Hd|lia].
Qed.

Lemma decoder_ptr ts t :
  decoder ts (TPtr t) =
    match t with
    | TBigInt => v ← decodeBigInt; mret (VPtr v)
    | _ => if nilOK ts then optional_ptr (decoder no_tags t) else v ← decoder no_tags t; mret (VPtr v)
    end.
Proof. by destruct t. Qed.

Lemma ptr_ok n pan t d : decodes n pan t d -> decodes n pan (TPtr t) (v ← d; mret (VPtr v)).
Proof. intros Hd k Hk. eapply hoare_bind; [by apply Hd|]. intros v. by apply hoare_ret. Qed.

Lemma sound_ptr t : sound t -> sound (TPtr t).
Proof.
  intros H. apply sound_intro. intros ts n. rewrite decoder_ptr. cbn [may_panic].
  destruct (H no_tags n) as [_ Hd]. specialize (Hd eq_refl).
  assert (decodes n (may_panic t = true) (TPtr t)
    (if nilOK ts then optional_ptr (decoder no_tags t) else v ← decoder no_tags t; mret (VPtr v))) as Hp.
  { destruct (nilOK ts); [by apply optional_ptr_ok|by apply ptr_ok]. }
  destruct t; try exact Hp. apply ptr_ok, decodeBigInt_ok.
Qed.

Lemma sound_struct fields : Forall (fun f => sound f.2) fields -> sound (TStruct fields).
Proof.
  intros H. apply sound_intro. intros ts n k Hk. cbn [decoder]. apply in_list_ok. intros sz Hk1.
  set (pan := may_panic (TStruct fields) = true).
  eapply hoare_bind with (R := fun vs s => has_type (TStruct fields) (VList vs) = true /\ upto (k - 1) s);
    [|intros vs; apply hoare_pure; intros Hvs; apply end_list; [by right|done|lia]].
  assert (existsb (fun f => may_panic f.2) fields = true -> pan) as Hpan by done. clearbody pan.
  induction H as [|[ts' t] fields Ht _ IH]; [by apply hoare_ret|]. cbn in Hpan.
  destruct (Ht ts' n) as [Hd _].
  eapply hoare_bind with (R := fun v s => has_type t v = true /\ upto (k - 1) s).
  - apply hoare_pan with (pan := may_panic t = true); [intros Hp; apply Hpan; cbn in Hp; by rewrite Hp|].
    eapply hoare_conseq; [apply decode_field_ok, (Hd (k - 1)%nat); lia|done|done|]. intros; by apply err_io_ok.
  - intros v. apply hoare_pure. intros Hv. eapply hoare_bind.
    + apply IH. intros Hp. apply Hpan. by rewrite Hp, orb_true_r.
    + intros vs. apply hoare_pure. intros Hvs. apply hoare_ret. intros s Hs. split; [|done].
      cbn. rewrite Hv. exact Hvs.
Qed.

Lemma decoder_sound t : regular t = true -> sound t.
Proof.
  induction t as [t Hleaf|t IH|m t IH|fields IH|t IH|tk tv IHk IHv] using rtype_nested_ind; intros Hr.
  - apply sound_intro. intros ts n. destruct t; try contradiction; cbn [decoder may_panic].
    + eapply hoare_unwrapped; [intros; apply Raw_ok|]. intros b Hb. cbn. by apply bool_decide_eq_true.
    + apply decodeBigInt_ok.
    + eapply decodes_leaf; [intros; by apply uint_ok|]. intros v Hv. cbn. apply bool_decide_eq_true.
      split; [done|]. apply is_width_cases in Hr. lia.
    + eapply (decodes_leaf n _ TBool Bool_ VBool (fun _ => True)); [|done].
      intros k. eapply hoare_conseq; [apply Bool_ok|done|done|done].
    + eapply decodes_leaf; [intros; apply Bytes_ok|]. intros b Hb. cbn. by apply bool_decide_eq_true.
    + eapply decodes_leaf; [intros; apply Bytes_ok|]. intros b Hb. cbn. by apply bool_decide_eq_true.
    + apply decodeByteArray_ok. cbn in Hr. by apply bool_decide_eq_true in Hr.
    + intros k Hk. apply hoare_pan with (pan := False); [done|]. intros s [Hi Hm]. rewrite go_get_bind.
      eapply hoare_conseq; [apply (decodeInterface_ok (S (measure s)) (measure s) ltac:(lia) (measure s)); lia|done| | |by split].
      * intros v s' [Hv Hs]. split; [done|by eapply below_mono].
      * intros e s' He. by eapply err_ok_mono.
    + eapply decodes_pan; [|apply decodefloat64_ok]. done.
    + eapply decodes_leaf; [intros; by apply int_ok|]. intros v Hv. cbn. apply bool_decide_eq_true.
      split; [done|]. apply is_width_cases in Hr. lia.
    + intros k Hk. apply hoare_fail. intros s [Hi Hm]. by split_and!.
  - by apply sound_slice, IH.
  - cbn in Hr. apply andb_true_iff in Hr as [Hm Hr]. apply bool_decide_eq_true in Hm. apply sound_array; auto.
  - apply sound_struct. cbn in Hr. rewrite forallb_forall in Hr. apply Forall_forall. intros f Hf.
    rewrite Forall_forall in IH. apply IH; [done|]. apply Hr. by apply list_elem_of_In.
  - by apply sound_ptr, IH.
  - cbn in Hr. apply andb_true_iff in Hr as [Hk Hv]. apply sound_intro. intros ts n. cbn [decoder may_panic].
    eapply decodes_pan; [|apply decode_map_ok]; [done| |]; intros n'; eapply decodes_pan; [done| |done|];
      [by apply (IHk Hk no_tags n')|by apply (IHv Hv no_tags n')].
Qed.

Lemma genTypeInfo_not_fuel t : genTypeInfo t <> Err outOfFuel.
Proof.
  induction t as [t Hl|t IH|n t IH|fs IH|t IH|k v IHk IHv] using rtype_nested_ind;
    [destruct t; cbn; (discriminate || contradiction)|exact IH|exact IH| |exact IH|].
  - cbn [genTypeInfo]. induction IH as [|[ts t] fs Ht _ IH]; [discriminate|]. apply outcome_bind_not_err.
    + unfold parseStructTag. destruct (tail ts), fs, (is_slice t); discriminate.
    + intros _. apply outcome_bind_not_err; [exact Ht|]. intros _. exact IH.
  - cbn [genTypeInfo]. apply outcome_bind_not_err; [exact IHk|]. intros _. exact IHv.
Qed.

Lemma NewStream_upto b :
  wf_bytes b -> zlen b < 2 ^ 62 -> upto (measure (NewStream b true (zlen b))) (NewStream b true (zlen b)).
Proof.
  intros Hb Hl. split; [|lia]. zlen_facts. unfold NewStream, Reset. case_decide; unfold inv; cbn; split_and!; done || lia.
Qed.

(** C6: Decoding is type safe and total on arbitrary input.  For every type whose
    integers have a Go width and which has no arrays of exactly one byte, and for
    every byte string whatsoever, [DecodeBytes] comes to an end: it returns a value
    of the type it was asked for or an error, and it panics only if the type
    mentions a [float64] or a map.  In particular the loops over list elements and
    the recursion into nested lists of an interface always end. *)
Theorem decode_sound b t :
  regular t = true -> wf_bytes b -> zlen b < 2 ^ 62 ->
  match DecodeBytes b t with
  | Ok v => has_type t v = true
  | Err e => e <> outOfFuel
  | Panic => may_panic t = true
  end.
Proof.
  intros Hr Hb Hl. unfold DecodeBytes, Decode_stream. pose proof (genTypeInfo_no_panic t) as Hnp.
  pose proof (genTypeInfo_not_fuel t) as Hnf.
  destruct (genTypeInfo t) as [[]|e|]; [|cbn; congruence|done]. rewrite go_lift_ok.
  destruct (decoder_sound t Hr no_tags (measure (NewStream b true (zlen b)))) as [_ Hd].
  pose proof (Hd eq_refl _ (le_n _) _ (NewStream_upto b Hb Hl)) as H.
  destruct (decoder no_tags t (NewStream b true (zlen b))) as [[v|e|] s']; [apply H|apply H|exact H].
Qed.

Lemma decode_sound_witness :
  DecodeBytes [0xC3; 0x01; 0x82; 0xFF] (TStruct [(no_tags, TUint 64); (no_tags, TByteSlice)]) <> Panic.
Proof.
  pose proof (decode_sound [0xC3; 0x01; 0x82; 0xFF] (TStruct [(no_tags, TUint 64); (no_tags, TByteSlice)])
    eq_refl ltac:(by apply (bool_decide_unpack _); vm_compute) eq_refl) as H.
  intros Hp. rewrite Hp in H. discriminate H.
Defined.

(** The exception for one-byte arrays is real.  The encoding [C1 00] of a slice
    with the one element [[1]byte{0}], which the encoder itself produces, is never
    decoded: after the list header, the loop over the elements exhausts every
    bound, because [decodeByteArray] ignores the error of [Uint] on a zero byte and
    leaves the header cached, so that the same element is decoded again and again
    and the slice grows without end. *)
Theorem decode_byte_array_diverges :
  EncodeToBytes new_encbuf (TSlice (TByteArray 1)) (VList [VBytes [0]]) = Ok [0xC1; 0x00] /\
  exists s, wrap List__ (NewStream [0xC1; 0x00] true 2) = (Ok 1, s) /\
    forall fuel, (decode_elems fuel (decodeByteArray 1) [] s).1 = Err outOfFuel.
Proof.
  split; [by vm_compute|]. eexists. split; [by vm_compute|].
  match goal with |- forall fuel, (decode_elems _ _ _ ?s).1 = _ => set (s0 := s) end.
  destruct (decodeByteArray 1 s0) as [o s1] eqn:E. assert (o = Ok (VBytes [0]) /\ decodeByteArray 1 s1 = (o, s1)) as [-> Hs1].
  { vm_compute in E. injection E as <- <-. by vm_compute. }
  assert (forall fuel vs, (decode_elems fuel (decodeByteArray 1) vs s1).1 = Err outOfFuel) as Hloop.
  { induction fuel as [|fuel IH]; intros vs; [done|]. cbn [decode_elems]. unfold mbind, go_bind, try_. rewrite Hs1. apply IH. }
  intros [|fuel]; [done|]. cbn [decode_elems]. unfold mbind, go_bind, try_. rewrite E. apply Hloop.
Qed.
