(* ===== verification/RlpRoundTrip.v ===== *)
(** * RlpRoundTrip: what the RLP encoder writes, the decoder reads back

    The stream is followed on well-formed input ([at_] says where it stands), one
    lemma per operation, and from these one per decoder ([reads]).  The values that
    survive a round trip are delimited by [survives]: among others, nil pointers are
    read back as zero values, and not every signed integer is read back. *)

From S2P Require Import Prelude Digits Rlp RlpEncode RlpDecode RlpSound.

#[local] Open Scope Z_scope.

(** ** Positions *)

(** The stream stands before [inp], with [rem] bytes left of the limit, inside the
    lists [st]. *)

Definition at_ (s : Stream) (inp : bytes) (rem : Z) (st : list (Z * Z)) : Prop :=
  unread s = inp /\ limited s = true /\ remaining s = rem /\ kind s = None /\ stack s = st.

Definition bump (n : Z) (st : list (Z * Z)) : list (Z * Z) :=
  match st with (pos, sz) :: st => (pos + n, sz) :: st | [] => [] end.

(** [n] bytes may be read: they are within the limit and within the innermost list. *)

Definition enough (n rem : Z) (st : list (Z * Z)) : Prop :=
  0 <= n <= rem /\ rem < 2 ^ 62 /\ stack_ok st /\ room st n.

Lemma bump_0 st : bump 0 st = st.
Proof. destruct st as [|[pos sz] st]; [done|]. cbn. by rewrite Z.add_0_r. Qed.

Lemma bump_bump a b st : bump a (bump b st) = bump (b + a) st.
Proof. destruct st as [|[pos sz] st]; [done|]. cbn. do 2 f_equal. lia. Qed.

Lemma enough_bump n m rem st : enough (n + m) rem st -> 0 <= n -> 0 <= m -> enough m (rem - n) (bump n st).
Proof.
  intros (H1 & H2 & H3 & H4) Hn Hm. split_and!; [lia|lia|lia| |].
  - destruct st as [|[pos sz] st]; [done|]. cbn in *. split_and!; try apply H3; lia.
  - destruct st as [|[pos sz] st]; [done|]. cbn in *. lia.
Qed.

Lemma enough_le n m rem st : enough n rem st -> 0 <= m <= n -> enough m rem st.
Proof. intros (H1 & H2 & H3 & H4) Hm. split_and!; [lia|lia|lia|done|]. destruct st as [|[pos sz] st]; cbn in *; [done|lia]. Qed.

Lemma willRead_at n s inp rem st :
  at_ s inp rem st \/ at_ (set_kind None s) inp rem st -> enough n rem st ->
  exists s', willRead n s = (Ok tt, s') /\ at_ s' inp (rem - n) (bump n st) /\ byteval s' = byteval s.
Proof.
  intros Hat (Hn & Hrem & Hst & Hrm).
  assert (at_ (set_kind None s) inp rem st) as (Hu & Hl & Hr & _ & Hs) by (by destruct Hat as [(?&?&?&?&?)|?]; [split_and!|]).
  cbn in *. unfold willRead. rewrite go_modify_bind, go_get_bind. cbn [stack limited remaining set_kind]. rewrite Hs, Hl, Hr.
  destruct st as [|[pos sz] st].
  - rewrite go_ret_bind, decide_False by lia. eexists. split; [done|]. unfold at_. cbn. rewrite Hr. done.
  - cbn in Hst, Hrm. rewrite (u64_id (sz - pos)), (decide_False (P := n > sz - pos)), go_modify_bind, decide_False by lia.
    eexists. split; [done|].
    unfold at_. cbn. rewrite Hr, u64_id by lia. done.
Qed.

Lemma readByte_at b s inp rem st :
  at_ s (b :: inp) rem st \/ at_ (set_kind None s) (b :: inp) rem st -> enough 1 rem st ->
  exists s', readByte s = (Ok b, s') /\ at_ s' inp (rem - 1) (bump 1 st) /\ byteval s' = byteval s.
Proof.
  intros Hat He. destruct (willRead_at 1 s _ _ _ Hat He) as (s1 & E & (Hu & Hrest) & Hb).
  unfold readByte. rewrite (go_bind_ok _ _ _ _ _ E), go_get_bind, Hu. eexists. split; [done|].
  unfold at_. cbn. done.
Qed.

Lemma readFull_at v s inp rem st :
  at_ s (v ++ inp) rem st \/ at_ (set_kind None s) (v ++ inp) rem st -> enough (zlen v) rem st ->
  exists s', readFull (zlen v) s = (Ok v, s') /\ at_ s' inp (rem - zlen v) (bump (zlen v) st).
Proof.
  intros Hat He. destruct (willRead_at _ s _ _ _ Hat He) as (s1 & E & (Hu & Hrest) & Hb).
  unfold readFull. rewrite (go_bind_ok _ _ _ _ _ E), go_get_bind, Hu.
  rewrite decide_True by (rewrite zlen_app; zlen_facts; lia). eexists.
  rewrite drop_zlen_app, take_zlen_app. split; [done|]. unfold at_. cbn. done.
Qed.

Lemma readUint_at v s inp rem st :
  at_ s (v ++ inp) rem st \/ at_ (set_kind None s) (v ++ inp) rem st -> enough (zlen v) rem st ->
  zlen v = 1 \/ head v <> Some 0 ->
  exists s', readUint (zlen v) s = (Ok (be_val v), s') /\ at_ s' inp (rem - zlen v) (bump (zlen v) st).
Proof.
  intros Hat He Hh. unfold readUint. case_decide as H0; [|case_decide as H1].
  - apply zlen_0 in H0 as ->. change (zlen (@nil Z)) with 0. eexists. rewrite go_modify_bind. split; [done|].
    rewrite Z.sub_0_r, bump_0. by destruct Hat as [(?&?&?&?&?)|?]; [split_and!|].
  - destruct v as [|b [|]]; try (rewrite ?zlen_cons, ?zlen_nil in H1; zlen_facts; lia).
    destruct (readByte_at b s inp rem st Hat He) as (s' & E & Ha & _). exists s'. split; [|done].
    rewrite E. rewrite be_val_cons, be_val_nil, zlen_nil. do 2 f_equal. lia.
  - destruct (readFull_at v s inp rem st Hat He) as (s' & E & Ha). exists s'. split; [|done].
    rewrite (go_bind_ok _ _ _ _ _ E), decide_False; [done|]. destruct Hh as [Hh|Hh]; [lia|done].
Qed.

(** ** The header of a canonical value *)

Definition body (k : Kind) (c : bytes) : bytes := match k with Byte => [] | _ => c end.

Definition hdr (k : Kind) (c : bytes) : bytes :=
  match k with
  | Byte => c
  | String_ => header 0x80 0xB7 (zlen c)
  | List_ => header 0xC0 0xF7 (zlen c)
  end.

Lemma encoded_split k c : encoded k c = hdr k c ++ body k c.
Proof. destruct k; cbn; [by rewrite app_nil_r|done..]. Qed.

Lemma try_at {A} (m : dec A) s a s' : m s = (Ok a, s') -> try_ m s = (Ok (inl a), s').
Proof. intros H. unfold try_. by rewrite H. Qed.

Lemma at_byteval b s inp rem st : at_ s inp rem st -> at_ (set_byteval b s) inp rem st.
Proof. done. Qed.

Lemma read_size_at k n s inp rem st :
  at_ s (be_min n ++ inp) rem st -> 56 <= n < 2 ^ 62 -> enough (bytelen n) rem st ->
  exists s', read_size k (bytelen n) s = (Ok (k, n, None), s') /\ at_ s' inp (rem - bytelen n) (bump (bytelen n) st).
Proof.
  intros Hat Hn He. rewrite <- be_min_zlen in He |- *.
  destruct (be_min_head n) as (b & v & Hb & Hb0); [lia|].
  destruct (readUint_at (be_min n) s inp rem st) as (s' & E & Ha); [by left|done|right; rewrite Hb; intros [= ->]; lia|].
  exists s'. split; [|done]. unfold read_size. rewrite (go_bind_ok _ _ _ _ _ (try_at _ _ _ _ E)).
  rewrite be_min_val, decide_False by lia. done.
Qed.

Lemma enough_1 n rem st : enough (1 + n) rem st -> 0 <= n -> enough 1 rem st.
Proof. intros H Hn. eapply enough_le; [done|lia]. Qed.

Lemma header_short_at k tag n s inp rem st :
  k = String_ /\ tag = 0x80 \/ k = List_ /\ tag = 0xC0 -> 0 <= n < 56 ->
  at_ s (tag + n :: inp) rem st -> enough (1 + n) rem st ->
  exists s', readKind_ s = (Ok (k, n, None), s') /\ at_ s' inp (rem - 1) (bump 1 st).
Proof.
  intros Hk Hn Hat He. destruct (readByte_at (tag + n) s inp rem st) as (s' & E & Ha & _);
    [by left|by eapply enough_1, Hn|].
  unfold readKind_. rewrite (go_bind_ok _ _ _ _ _ (try_at _ _ _ _ E)), go_modify_bind.
  exists (set_byteval 0 s'). split; [|done].
  destruct Hk as [[-> ->]|[-> ->]]; repeat first [rewrite decide_True by lia|rewrite decide_False by lia];
    by rewrite u8_sub by lia.
Qed.

Lemma header_long_at k tag n s inp rem st :
  k = String_ /\ tag = 0xB7 \/ k = List_ /\ tag = 0xF7 -> 56 <= n < 2 ^ 62 ->
  at_ s (tag + bytelen n :: be_min n ++ inp) rem st -> enough (1 + bytelen n) rem st ->
  exists s', readKind_ s = (Ok (k, n, None), s') /\ at_ s' inp (rem - (1 + bytelen n)) (bump (1 + bytelen n) st).
Proof.
  intros Hk Hn Hat He. pose proof (long_tag n ltac:(lia)) as Hl.
  destruct (readByte_at (tag + bytelen n) s (be_min n ++ inp) rem st) as (s1 & E & Ha & _);
    [by left|eapply enough_1; [done|lia]|].
  destruct (read_size_at k n (set_byteval 0 s1) inp (rem - 1) (bump 1 st)) as (s2 & E2 & Ha2);
    [done|lia|apply enough_bump; [done|lia|lia]|].
  exists s2. unfold readKind_. rewrite (go_bind_ok _ _ _ _ _ (try_at _ _ _ _ E)), go_modify_bind.
  rewrite bump_bump, <- Z.sub_add_distr in Ha2. split; [|done].
  destruct Hk as [[-> ->]|[-> ->]]; repeat first [rewrite decide_True by lia|rewrite decide_False by lia];
    by rewrite u8_sub by lia.
Qed.

Lemma readKind_at k c s inp rem st :
  at_ s (encoded k c ++ inp) rem st -> (k = Byte -> single c = true) -> enough (zlen (encoded k c)) rem st ->
  exists s', readKind_ s = (Ok (k, zlen (body k c), None), s') /\
    at_ s' (body k c ++ inp) (rem - zlen (hdr k c)) (bump (zlen (hdr k c)) st) /\ (k = Byte -> c = [byteval s']).
Proof.
  intros Hat Hc He. rewrite encoded_split in Hat, He. rewrite zlen_app in He. rewrite <- app_assoc in Hat.
  assert (zlen c < 2 ^ 62) as Hlt by (destruct He as (He & Hr & _); destruct k; cbn [hdr body] in *; zlen_facts; lia).
  pose proof (zlen_nonneg c) as Hc0. destruct k; cbn [hdr body] in *.
  - specialize (Hc eq_refl). destruct c as [|x [|]]; cbn in Hc; try discriminate. apply bool_decide_eq_true in Hc.
    destruct (readByte_at x s inp rem st) as (s' & E & Ha & _); [by left|exact He|].
    unfold readKind_. rewrite (go_bind_ok _ _ _ _ _ (try_at _ _ _ _ E)), go_modify_bind, decide_True, go_modify_bind by done.
    eexists. split; [done|]. done.
  - unfold header in *. case_decide; rewrite zlen_cons, ?zlen_nil, ?be_min_zlen, ?Z.add_0_r in *.
    + destruct (header_short_at String_ 0x80 (zlen c) s (c ++ inp) rem st) as (s' & E & Ha); [by left|lia|done|done|].
      by exists s'.
    + destruct (header_long_at String_ 0xB7 (zlen c) s (c ++ inp) rem st) as (s' & E & Ha);
        [by left|lia|done|eapply enough_le; [done|pose proof (bytelen_nonneg (zlen c)); lia]|]. by exists s'.
  - unfold header in *. case_decide; rewrite zlen_cons, ?zlen_nil, ?be_min_zlen, ?Z.add_0_r in *.
    + destruct (header_short_at List_ 0xC0 (zlen c) s (c ++ inp) rem st) as (s' & E & Ha); [by right|lia|done|done|].
      by exists s'.
    + destruct (header_long_at List_ 0xF7 (zlen c) s (c ++ inp) rem st) as (s' & E & Ha);
        [by right|lia|done|eapply enough_le; [done|pose proof (bytelen_nonneg (zlen c)); lia]|]. by exists s'.
Qed.

(** The header is cached, and a second look finds it again. *)

Definition ready (s : Stream) (k : Kind) (c inp : bytes) (rem : Z) (st : list (Z * Z)) : Prop :=
  at_ (set_kind None s) (body k c ++ inp) rem st /\ kind s = Some k /\ kinderr s = None /\
  size s = zlen (body k c) /\ (k = Byte -> c = [byteval s]).

Lemma Kind_ready s k c inp rem st : ready s k c inp rem st -> Kind_ s = (Ok (k, zlen (body k c)), s).
Proof.
  intros (_ & Hk & He & Hs & _). unfold Kind_. rewrite go_get_bind, Hk. unfold cached_kind.
  by rewrite go_get_bind, He, Hs.
Qed.

Lemma enough_not_end n s inp rem st : at_ s inp rem st -> enough n rem st -> 1 <= n -> at_end s = false.
Proof.
  intros (_ & _ & _ & _ & Hst) (_ & _ & _ & Hr) Hn. unfold at_end. rewrite Hst.
  destruct st as [|[pos sz] st]; [done|]. cbn in Hr. apply bool_decide_eq_false. lia.
Qed.

Lemma hdr_pos k c : (k = Byte -> single c = true) -> zlen c < 2 ^ 62 -> 1 <= zlen (hdr k c).
Proof.
  intros Hc Hl. pose proof (zlen_nonneg c). destruct k; cbn [hdr].
  - specialize (Hc eq_refl). by destruct c as [|? [|]].
  - rewrite header_zlen by lia. pose proof (headsize_pos (zlen c)). lia.
  - rewrite header_zlen by lia. pose proof (headsize_pos (zlen c)). lia.
Qed.

Lemma Kind_at k c s inp rem st :
  at_ s (encoded k c ++ inp) rem st -> (k = Byte -> single c = true) -> enough (zlen (encoded k c)) rem st ->
  exists s', Kind_ s = (Ok (k, zlen (body k c)), s') /\
    ready s' k c inp (rem - zlen (hdr k c)) (bump (zlen (hdr k c)) st).
Proof.
  intros Hat Hc He. pose proof He as He'. rewrite encoded_split, zlen_app in He'. zlen_facts.
  assert (1 <= zlen (hdr k c)) as Hh.
  { apply hdr_pos; [done|]. destruct He as (He & Hr & _). destruct k; cbn [encoded] in *; rewrite ?zlen_app in *; zlen_facts; lia. }
  assert (1 <= zlen (encoded k c)) as Hen by (rewrite encoded_split, zlen_app; lia).
  unfold Kind_. rewrite go_get_bind. pose proof Hat as (_ & _ & _ & Hk & _). rewrite Hk, go_modify_bind.
  rewrite (enough_not_end _ _ _ _ _ Hat He Hen).
  destruct (readKind_at k c (set_kinderr None s) inp rem st) as (s2 & E & Ha & Hb); [done..|].
  unfold mbind at 1, go_bind at 1. rewrite E. rewrite !go_modify_bind.
  destruct Ha as (Hu & Hl & Hr & _ & Hst). apply enough_bump in He'; [|lia..].
  assert (check_size (set_kinderr None (set_size (zlen (body k c)) (set_kind (Some k) s2))) = None) as Hcs.
  { unfold check_size. cbn. rewrite Hst, Hl, Hr. destruct He' as (Hn & Hrem & Hsk & Hrm).
    destruct st as [|[pos sz] st]; cbn in *; [by rewrite bool_decide_eq_false_2 by lia|].
    rewrite u64_id, decide_False by lia. done. }
  rewrite Hcs. eexists. split; [unfold cached_kind; rewrite go_get_bind; done|]. done.
Qed.

(** ** Reading single values *)

(** [d] reads the encoding [e] as [v], whatever follows it. *)

Definition reads {A} (d : dec A) (e : bytes) (v : A) : Prop :=
  forall s inp rem st, at_ s (e ++ inp) rem st -> enough (zlen e) rem st ->
    exists s', d s = (Ok v, s') /\ at_ s' inp (rem - zlen e) (bump (zlen e) st).

Lemma reads_map {A B} (d : dec A) e (v : A) (f : A -> B) : reads d e v -> reads (a ← d; mret (f a)) e (f v).
Proof.
  intros H s inp rem st Hat He. destruct (H s inp rem st Hat He) as (s' & E & Ha). exists s'.
  by rewrite (go_bind_ok _ _ _ _ _ E).
Qed.

Lemma reads_wrap {A} (d : dec A) e (v : A) : reads d e v -> reads (wrap d) e v.
Proof.
  intros H s inp rem st Hat He. destruct (H s inp rem st Hat He) as (s' & E & Ha). exists s'.
  unfold wrap. by rewrite E.
Qed.

(** Decoding from the cached header. *)

Definition reads_ready {A} (f : Kind * Z -> dec A) (k : Kind) (c : bytes) (v : A) : Prop :=
  forall s inp rem st, ready s k c inp rem st -> enough (zlen (body k c)) rem st ->
    exists s', f (k, zlen (body k c)) s = (Ok v, s') /\ at_ s' inp (rem - zlen (body k c)) (bump (zlen (body k c)) st).

Lemma reads_Kind {A} (f : Kind * Z -> dec A) k c (v : A) :
  (k = Byte -> single c = true) -> reads_ready f k c v -> reads (Kind_ ≫= f) (encoded k c) v.
Proof.
  intros Hc Hf s inp rem st Hat He. destruct (Kind_at k c s inp rem st Hat Hc He) as (s1 & E & Hr).
  rewrite encoded_split, zlen_app in He |- *. zlen_facts.
  destruct (Hf s1 inp _ _ Hr) as (s2 & E2 & Ha); [apply enough_bump; [done|lia|lia]|].
  exists s2. rewrite (go_bind_ok _ _ _ _ _ E). rewrite bump_bump, <- Z.sub_add_distr in Ha. done.
Qed.

Lemma ready_rearm s c inp rem st : ready s Byte c inp rem st -> at_ (set_kind None s) inp rem st /\ c = [byteval s].
Proof. intros (Ha & _ & _ & _ & Hb). split; [done|by apply Hb]. Qed.

Lemma Bytes_reads b : reads Bytes (rlp_bytes (Str b)) b.
Proof.
  cbn [rlp_bytes]. destruct (single b) eqn:Hs.
  - change b with (encoded Byte b) at 1. apply reads_Kind; [done|]. intros s inp rem st Hr He.
    apply ready_rearm in Hr as [Ha ->]. rewrite go_get_bind. eexists. split; [done|]. cbn in *.
    by rewrite Z.sub_0_r, bump_0.
  - apply reads_Kind; [done|]. intros s inp rem st (Ha & _) He. cbn [body] in *.
    unfold make_bytes. rewrite decide_True by (destruct He; lia). rewrite go_ret_bind.
    destruct (readFull_at b s inp rem st) as (s' & E & Ha'); [by right|done|].
    exists s'. rewrite (go_bind_ok _ _ _ _ _ E), decide_False by (intros [_ Hb]; congruence). done.
Qed.

Lemma be_min_single z : 0 <= z -> single (be_min z) = bool_decide (0 < z < 128).
Proof.
  intros Hz. pose proof (be_min_val z Hz) as Hv. destruct (decide (z = 0)) as [->|]; [done|].
  destruct (be_min z) as [|x [|y v]] eqn:Hb; cbn.
  - rewrite be_val_nil in Hv. symmetry. apply bool_decide_eq_false. lia.
  - rewrite be_val_cons, be_val_nil, zlen_nil in Hv. apply bool_decide_ext. lia.
  - symmetry. apply bool_decide_eq_false. intros [_ Hlt]. pose proof (be_min_zlen z) as Hl.
    rewrite Hb, !zlen_cons in Hl. zlen_facts. pose proof (bytelen_le z 1). lia.
Qed.

Lemma be_min_head_ok z : 0 <= z -> head (be_min z) <> Some 0.
Proof.
  intros Hz. destruct (decide (z = 0)) as [->|]; [done|]. destruct (be_min_head z) as (b & v & -> & Hb); [lia|].
  intros [= ->]. lia.
Qed.

Lemma uint_reads bits z :
  0 <= z < 2 ^ bits -> is_width bits = true -> reads (uint bits) (rlp_bytes (Str (be_min z))) z.
Proof.
  intros Hz Hw. cbn [rlp_bytes]. rewrite be_min_single by lia. case_bool_decide as H1.
  - assert (be_min z = [z]) as ->.
    { pose proof (be_min_single z ltac:(lia)) as Hs. rewrite bool_decide_eq_true_2 in Hs by done.
      pose proof (be_min_val z ltac:(lia)) as Hv. destruct (be_min z) as [|x [|]]; try done.
      rewrite be_val_cons, be_val_nil, zlen_nil in Hv. f_equal. lia. }
    change [z] with (encoded Byte [z]). apply reads_Kind; [intros _; cbn; apply bool_decide_eq_true; lia|].
    intros s inp rem st Hr He. apply ready_rearm in Hr as [Ha [= Hb]]. rewrite go_get_bind, <- Hb, decide_False by lia.
    eexists. split; [done|]. cbn in *. by rewrite Z.sub_0_r, bump_0.
  - apply reads_Kind; [done|].
    intros s inp rem st (Ha & _) He. cbn [body] in *.
    assert (bytelen z <= bits / 8).
    { apply is_width_cases in Hw. apply bytelen_le; [by destruct Hw as [-> | [-> | [-> | ->]]]|].
      rewrite pow256 by (by destruct Hw as [-> | [-> | [-> | ->]]]).
      replace (8 * (bits / 8)) with bits by (destruct Hw as [-> | [-> | [-> | ->]]]; done). lia. }
    rewrite be_min_zlen in *. rewrite decide_False by lia. rewrite <- be_min_zlen in He |- *.
    destruct (readUint_at (be_min z) s inp rem st) as (s' & E & Ha');
      [by right|done|right; by apply be_min_head_ok; lia|].
    exists s'. rewrite be_min_val in E by lia. unfold adjust_canon at 1, mbind at 1, go_bind at 1.
    rewrite E. rewrite decide_False; [done|]. intros [Hn Hv]. rewrite be_min_zlen in Hn.
    assert (z <> 0) by (intros ->; done). lia.
Qed.

(** ** Signed integers *)

Lemma le_field_mod n i : le_val (le_field n i) = i mod 256 ^ Z.of_nat n.
Proof.
  revert i. induction n as [|n IH]; intros i; cbn [le_field le_val]; [by rewrite Z.mod_1_r|].
  rewrite IH, Nat2Z.inj_succ, Z.pow_succ_r, Z.rem_mul_r by (try apply Z.pow_nonzero; lia). done.
Qed.

Lemma be_field_mod n i : be_val (be_field n i) = i mod 256 ^ Z.of_nat n.
Proof. unfold be_val, be_field. rewrite rev_involutive. apply le_field_mod. Qed.

Lemma be_field_head n i : head (be_field (S n) i) = Some ((i / 256 ^ Z.of_nat n) mod 256).
Proof.
  revert i. induction n as [|n IH]; intros i; rewrite be_field_S; [cbn; by rewrite Z.div_1_r|].
  specialize (IH (i / 256)). destruct (be_field (S n) (i / 256)) as [|x l]; [done|]. cbn in *.
  injection IH as ->. f_equal. f_equal. rewrite Nat2Z.inj_succ, Z.pow_succ_r, Z.div_div by lia. done.
Qed.

Lemma wrap_mod i w : 0 < w -> - 2 ^ (w - 1) <= i < 2 ^ (w - 1) ->
  (i mod 2 ^ w + 2 ^ (w - 1)) mod 2 ^ w - 2 ^ (w - 1) = i.
Proof.
  intros Hw Hi. rewrite Z.add_mod_idemp_l by (apply Z.pow_nonzero; lia).
  assert (2 ^ w = 2 * 2 ^ (w - 1)) as Hp by (rewrite <- Z.pow_succ_r by lia; f_equal; lia).
  rewrite Z.mod_small; lia.
Qed.

Lemma intlen_spec i : - 2 ^ 63 <= i < 2 ^ 63 ->
  1 <= intlen i <= 8 /\ - 2 ^ (8 * intlen i - 1) <= i < 2 ^ (8 * intlen i - 1).
Proof.
  intros Hi. unfold intlen. set (a := if decide (0 <= i) then i else - i - 1).
  assert (0 <= a < 2 ^ 63) as Ha by (subst a; case_decide; lia).
  pose proof (bytelen_le (2 * a) 8 ltac:(lia) ltac:(change (256 ^ 8) with (2 * 2 ^ 63); lia)).
  pose proof (bytelen_nonneg (2 * a)). split; [lia|].
  set (k := Z.max 1 (bytelen (2 * a))) in *.
  assert (a < 2 ^ (8 * k - 1)) as Hk; [|subst a; case_decide; lia].
  assert (2 * a < 256 ^ k) as H2.
  { destruct (decide (a = 0)) as [->|]; [apply Z.pow_pos_nonneg; lia|].
    destruct (bytelen_spec (2 * a)) as (Hp & _ & Hu); [lia|]. pose proof (Z.pow_le_mono_r 256 (bytelen (2 * a)) k). lia. }
  rewrite pow256 in H2 by lia. replace (8 * k) with (8 * k - 1 + 1) in H2 by lia.
  rewrite Z.pow_add_r in H2 by lia. lia.
Qed.

(** What reading back the encoding of [i] gives. *)

Definition int_read_back (i : Z) : outcome rlp_error Z :=
  if decide (0 <= i) then
    if decide (i < 128 \/ 256 ^ (intlen i - 1) <= i) then Ok i else Err ErrCanonInt
  else if decide (intlen i = 1 \/ intlen i = 2 \/ intlen i = 4 \/ intlen i = 8) then Ok i
  else Ok (i + 256 ^ intlen i).

Lemma sign_extend_back i :
  - 2 ^ 63 <= i < 2 ^ 63 ->
  sign_extend (intlen i) (i mod 256 ^ intlen i) =
    if decide (0 <= i \/ intlen i = 1 \/ intlen i = 2 \/ intlen i = 4 \/ intlen i = 8) then i else i + 256 ^ intlen i.
Proof.
  intros Hi. destruct (intlen_spec i Hi) as [Hl Hr]. set (n := intlen i) in *. clearbody n.
  rewrite pow256 by lia.
  assert (2 ^ (8 * n) = 2 * 2 ^ (8 * n - 1)) as Hp by (rewrite <- Z.pow_succ_r by lia; f_equal; lia).
  assert (i mod 2 ^ (8 * n) = if decide (0 <= i) then i else i + 2 ^ (8 * n)) as Hm.
  { case_decide; [rewrite Z.mod_small; lia|]. symmetry. apply (Z.mod_unique _ _ (-1)); lia. }
  assert (forall w, 0 < w -> 8 * n = w -> (i mod 2 ^ (8 * n) + 2 ^ (w - 1)) mod 2 ^ w - 2 ^ (w - 1) = i) as Hw.
  { intros w Hw <-. by apply wrap_mod. }
  unfold sign_extend. destruct (decide (n = 1)) as [->|]; [rewrite decide_True by tauto; by apply (Hw 8)|].
  destruct (decide (n = 2)) as [->|]; [rewrite decide_True by tauto; by apply (Hw 16)|].
  destruct (decide (n = 4)) as [->|]; [rewrite decide_True, decide_True by tauto; by apply (Hw 32)|].
  destruct (decide (n = 8)) as [->|]; [rewrite decide_False, decide_True by lia; by apply (Hw 64)|].
  assert (2 ^ (8 * n) <= 2 ^ 56) by (apply Z.pow_le_mono_r; lia). rewrite Hm.
  destruct (decide (n = 3)) as [->|]; [rewrite decide_True by tauto; change (8 * 3) with 24 in *|
    rewrite decide_False by lia]; repeat case_decide; try lia; first [apply i32_id|apply i64_id]; lia.
Qed.

Lemma int_body_zlen i : - 2 ^ 63 <= i < 2 ^ 63 -> zlen (be_field (Z.to_nat (intlen i)) i) = intlen i.
Proof. intros Hi. destruct (intlen_spec i Hi). unfold zlen. rewrite be_field_length. lia. Qed.

Lemma int_head i :
  - 2 ^ 63 <= i < 2 ^ 63 -> 1 < intlen i ->
  head (be_field (Z.to_nat (intlen i)) i) = Some 0 <-> 0 <= i < 256 ^ (intlen i - 1).
Proof.
  intros Hi Hl. destruct (intlen_spec i Hi) as [_ Hr]. set (n := intlen i) in *. clearbody n.
  replace (Z.to_nat n) with (S (Z.to_nat (n - 1))) by lia. rewrite be_field_head, Z2Nat.id by lia.
  set (p := 256 ^ (n - 1)) in *. assert (0 < p) by (apply Z.pow_pos_nonneg; lia).
  assert (2 ^ (8 * n - 1) = 128 * p) as Hp.
  { subst p. rewrite pow256 by lia. change 128 with (2 ^ 7). rewrite <- Z.pow_add_r by lia. f_equal. lia. }
  assert (-128 <= i / p < 128) as Hq.
  { split; [apply Z.div_le_lower_bound; lia|apply Z.div_lt_upper_bound; lia]. }
  pose proof (Z.div_mod i p). pose proof (Z.mod_pos_bound i p).
  split.
  - intros [= Hd]. assert (i / p = 0) as Hz; [|rewrite Hz in *; lia].
    destruct (decide (0 <= i / p)); [by rewrite Z.mod_small in Hd by lia|].
    rewrite <- (Z.mod_add _ 1), Z.mod_small in Hd by lia. lia.
  - intros Hz. rewrite Z.div_small by lia. done.
Qed.

Lemma intlen_small i : 0 <= i -> 1 < intlen i -> 128 <= i.
Proof.
  intros Hi Hl. unfold intlen in Hl. rewrite decide_True in Hl by done. pose proof (bytelen_le (2 * i) 1). lia.
Qed.

Lemma intlen_width i bits :
  is_width bits = true -> - 2 ^ (bits - 1) <= i < 2 ^ (bits - 1) -> intlen i <= bits / 8 /\ - 2 ^ 63 <= i < 2 ^ 63.
Proof.
  intros Hw Hi. apply is_width_cases in Hw.
  assert (1 <= bits / 8 /\ bits = 8 * (bits / 8)) as [H1 H8] by (destruct Hw as [-> | [-> | [-> | ->]]]; by split).
  pose proof (Z.pow_le_mono_r 2 (bits - 1) 63 ltac:(lia) ltac:(lia)). split; [|lia].
  unfold intlen. apply Z.max_lub; [lia|]. apply bytelen_le; [lia|]. rewrite pow256, <- H8 by lia.
  replace bits with (bits - 1 + 1) by lia. rewrite Z.pow_add_r by lia. case_decide; lia.
Qed.

(** [int] on the encoding of [i], either way. *)

Lemma int_at bits i s inp rem st :
  is_width bits = true -> - 2 ^ (bits - 1) <= i < 2 ^ (bits - 1) ->
  let e := rlp_bytes (int_item i) in
  at_ s (e ++ inp) rem st -> enough (zlen e) rem st ->
  match int_read_back i with
  | Ok v => exists s', int_ bits s = (Ok v, s') /\ at_ s' inp (rem - zlen e) (bump (zlen e) st)
  | Err e => exists s', int_ bits s = (Err e, s')
  | Panic => False
  end.
Proof.
  intros Hw Hi e Hat He. destruct (intlen_width i bits Hw Hi) as [Hb Hi64].
  destruct (intlen_spec i Hi64) as [Hl Hr]. pose proof (int_body_zlen i Hi64) as Hz.
  destruct (decide (i = 0)) as [->|Hne].
  { subst e. change (rlp_bytes (int_item 0)) with (encoded String_ []) in *.
    refine (reads_Kind _ String_ [] 0 ltac:(done) _ s inp rem st Hat He). clear s inp rem st Hat He.
    intros s inp rem st (Ha & _) He. cbn [body] in *. rewrite decide_False by (change (zlen (@nil Z)) with 0; lia).
    destruct (readUint_at [] s inp rem st) as (s' & E & Ha'); [by right|done|by right|].
    unfold adjust_canon, mbind, go_bind. rewrite E. by exists s'. }
  set (c := be_field (Z.to_nat (intlen i)) i) in *.
  assert (e = encoded String_ c) as Hec.
  { subst e. unfold int_item. rewrite decide_False by done. cbn [rlp_bytes encoded]. unfold header.
    by rewrite Hz, decide_True by lia. }
  clearbody e. subst e. destruct (Kind_at String_ c s inp rem st Hat ltac:(done) He) as (s1 & E & Hrdy).
  unfold int_. rewrite (go_bind_ok _ _ _ _ _ E). cbn [body]. rewrite Hz, decide_False by lia.
  destruct Hrdy as (Ha & _). cbn [body] in Ha. rewrite encoded_split, zlen_app in He. cbn [body] in He.
  pose proof (zlen_nonneg (hdr String_ c)) as Hh. pose proof (zlen_nonneg c) as Hc. apply enough_bump in He; [|lia..].
  assert (intlen i = 1 \/ head c <> Some 0 -> exists s',
    adjust_canon (readUint (intlen i)) s1 = (Ok (i mod 256 ^ intlen i), s') /\
    at_ s' inp (rem - zlen (encoded String_ c)) (bump (zlen (encoded String_ c)) st)) as Hok.
  { intros Hh'. destruct (readUint_at c s1 inp _ _ (or_intror Ha) He) as (s2 & E2 & Ha2); [by rewrite Hz|].
    exists s2. rewrite bump_bump, <- Z.sub_add_distr in Ha2. rewrite encoded_split, zlen_app. split; [|done].
    unfold adjust_canon. rewrite <- Hz, E2. subst c. rewrite be_field_mod, Hz, Z2Nat.id by lia. done. }
  pose proof (sign_extend_back i Hi64) as Hsb.
  pose proof (fun H => intlen_small i H) as Hsm. pose proof (fun H => int_head i Hi64 H) as Hhd. fold c in Hhd.
  unfold int_read_back. destruct (decide (head c = Some 0 /\ 1 < intlen i)) as [[Hh0 Hl1]|Hgood].
  - apply Hhd in Hh0 as Hrange; [|done]. rewrite decide_True, decide_False by lia.
    destruct (readFull_at c s1 inp _ _ (or_intror Ha) He) as (s2 & E2 & _).
    exists s2. unfold adjust_canon at 1, mbind at 1, go_bind at 1. unfold readUint. rewrite decide_False, decide_False by lia.
    rewrite <- Hz. by rewrite (go_bind_ok _ _ _ _ _ E2), decide_True.
  - destruct Hok as (s2 & E2 & Ha2); [destruct (decide (intlen i = 1)); [by left|right; intros ?; apply Hgood; split; [done|lia]]|].
    rewrite (go_bind_ok _ _ _ _ _ E2). destruct (decide (0 <= i)) as [Hpos|Hneg].
    + rewrite decide_True in Hsb by tauto. rewrite Hsb, decide_True; [by exists s2|].
      destruct (decide (intlen i = 1)) as [H1|]; [left; rewrite H1 in Hr; change (2 ^ (8 * 1 - 1)) with 128 in Hr; lia|].
      right. apply Z.le_ngt. intros Hlt. apply Hgood. split; [apply Hhd; lia|lia].
    + rewrite Hsb. destruct (decide (intlen i = 1 \/ intlen i = 2 \/ intlen i = 4 \/ intlen i = 8)).
      * rewrite decide_True by tauto. by exists s2.
      * rewrite decide_False by tauto. by exists s2.
Qed.

(** ** The remaining single values *)

Lemma Raw_reads k c : (k = Byte -> single c = true) -> reads Raw_ (encoded k c) (encoded k c).
Proof.
  intros Hc. apply reads_Kind; [done|]. intros s inp rem st Hr He.
  assert (zlen (body k c) < 2 ^ 62) as Hlt by (destruct He as (He & Hrem & _); lia).
  pose proof (zlen_nonneg (body k c)) as Hn. pose proof (headsize_pos (zlen (body k c)) ltac:(lia)) as Hh.
  destruct k; [apply ready_rearm in Hr as [Ha ->]; rewrite go_get_bind; eexists; split; [done|];
    cbn in *; by rewrite Z.sub_0_r, bump_0| |]; destruct Hr as (Ha & _); cbn [body] in *;
  (rewrite u64_id by lia; unfold make_bytes; rewrite decide_True, go_ret_bind by lia;
   destruct (goslice_ok (E := rlp_error) (replicate (Z.to_nat (headsize (zlen c) + zlen c)) 0)
     (headsize (zlen c)) (headsize (zlen c) + zlen c)) as (a & d & e & _ & _ & Hd & ->);
     [lia|unfold zlen; rewrite length_replicate; unfold zlen in *; lia|];
   rewrite go_lift_ok, Hd, Z.add_simpl_l;
   destruct (readFull_at c s inp rem st) as (s' & E & Ha'); [by right|done|];
   exists s'; rewrite (go_bind_ok _ _ _ _ _ E); split; [|done];
   first [rewrite decide_True by done|rewrite decide_False by done];
   rewrite puthead_ok by (rewrite ?zlen_app; try (unfold zlen at 2; rewrite length_replicate); lia);
   rewrite go_lift_ok; unfold mret, go_ret; do 2 f_equal; cbn [encoded]; f_equal;
   rewrite <- (length_replicate (Z.to_nat (headsize (zlen c))) 0) at 1; apply drop_app_length).
Qed.

Lemma Bool_reads (b : bool) : reads Bool_ (rlp_bytes (Str (if b then [1] else []))) b.
Proof.
  intros s inp rem st Hat He.
  destruct (uint_reads 8 (if b then 1 else 0) ltac:(destruct b; lia) eq_refl s inp rem st) as (s' & E & Ha).
  - destruct b; exact Hat.
  - destruct b; exact He.
  - exists s'. unfold Bool_. rewrite (go_bind_ok _ _ _ _ _ E). destruct b; by split.
Qed.

Lemma ByteArray_reads b :
  wf_bytes b -> b <> [0] -> reads (decodeByteArray (zlen b)) (rlp_bytes (Str b)) (VBytes b).
Proof.
  intros Hwf Hne. cbn [rlp_bytes]. destruct (single b) eqn:Hs.
  - change b with (encoded Byte b) at 2. apply reads_Kind; [done|]. intros s inp rem st Hr He.
    pose proof (Kind_ready _ _ _ _ _ _ Hr) as HK. apply ready_rearm in Hr as [Ha ->].
    change (zlen [byteval s]) with 1. rewrite decide_False, decide_False by lia.
    assert (Uint s = (Ok (byteval s), set_kind None s)) as HU.
    { unfold Uint, uint. rewrite (go_bind_ok _ _ _ _ _ HK). rewrite go_get_bind, decide_False by congruence. done. }
    rewrite (go_bind_ok _ _ _ _ _ (try_at _ _ _ _ HU)). eexists. split; [done|]. cbn in *. by rewrite Z.sub_0_r, bump_0.
  - apply reads_Kind; [done|]. intros s inp rem st (Ha & _) He. cbn [body] in *.
    rewrite decide_False, decide_False by lia.
    destruct (readFull_at b s inp rem st) as (s' & E & Ha'); [by right|done|].
    exists s'. rewrite (go_bind_ok _ _ _ _ _ E), decide_False by (intros [_ Hb]; congruence). done.
Qed.

Lemma BigInt_reads z : 0 <= z -> reads decodeBigInt (rlp_bytes (Str (be_min z))) (VInt z).
Proof.
  intros Hz s inp rem st Hat He. destruct (reads_wrap _ _ _ (Bytes_reads (be_min z)) s inp rem st Hat He) as (s' & E & Ha).
  exists s'. unfold decodeBigInt. rewrite (go_bind_ok _ _ _ _ _ E), decide_False by by apply be_min_head_ok.
  by rewrite be_min_val.
Qed.

Lemma float_reads z : 0 <= z < 2 ^ 64 -> reads decodefloat64 (rlp_bytes (Str (le_field 8 z))) (VInt z).
Proof.
  intros Hz s inp rem st Hat He. destruct (reads_wrap _ _ _ (Bytes_reads (le_field 8 z)) s inp rem st Hat He) as (s' & E & Ha).
  exists s'. unfold decodefloat64. rewrite (go_bind_ok _ _ _ _ _ E), decide_False
    by (unfold zlen; rewrite le_field_length; lia).
  rewrite take_ge by (rewrite le_field_length; lia). by rewrite le_field_val.
Qed.

(** ** Lists *)

Lemma reads_list {A} (f : Z -> dec A) c (v : A) :
  (forall s inp rem st, at_ s (c ++ inp) rem ((0, zlen c) :: st) -> enough (zlen c) rem ((0, zlen c) :: st) ->
     exists s', f (zlen c) s = (Ok v, s') /\ at_ s' inp (rem - zlen c) (bump (zlen c) st)) ->
  reads (n ← wrap List__; f n) (encoded List_ c) v.
Proof.
  intros Hf s inp rem st Hat He. destruct (Kind_at List_ c s inp rem st Hat ltac:(done) He) as (s1 & E & Hr).
  rewrite encoded_split, zlen_app in He |- *. cbn [body] in *. pose proof (zlen_nonneg c). pose proof (zlen_nonneg (hdr List_ c)).
  apply enough_bump in He; [|lia..]. destruct Hr as ((Hu & Hl & Hrm & _ & Hst) & _). cbn in *.
  set (s2 := set_size 0 (set_kind None (set_stack ((0, zlen c) :: stack s1) s1))).
  assert (wrap List__ s = (Ok (zlen c), s2)) as EL.
  { unfold wrap, List__. by rewrite (go_bind_ok _ _ _ _ _ E). }
  destruct (Hf s2 inp (rem - zlen (header 192 247 (zlen c))) (bump (zlen (header 192 247 (zlen c))) st)) as (s3 & E3 & Ha).
  - unfold at_, s2. cbn. by rewrite Hst.
  - destruct He as (H1 & H2 & H3 & H4). split_and!; [lia..| |cbn; lia]. cbn [stack_ok]. split_and!; [lia..|done|done].
  - exists s3. rewrite (go_bind_ok _ _ _ _ _ EL). rewrite bump_bump, <- Z.sub_add_distr in Ha. done.
Qed.

Lemma ListEnd_at s inp rem n st (le : dec unit) :
  le = ListEnd \/ le = wrap ListEnd -> at_ s inp rem ((n, n) :: st) -> stack_ok ((n, n) :: st) ->
  exists s', le s = (Ok tt, s') /\ at_ s' inp rem (bump n st).
Proof.
  intros Hle (Hu & Hl & Hr & Hk & Hst) Hok. cbn in Hok. destruct Hok as (Hn & Hz & Hrm & Hok).
  assert (exists s', ListEnd s = (Ok tt, s') /\ at_ s' inp rem (bump n st)) as (s' & E & Ha).
  { unfold ListEnd. rewrite go_get_bind, Hst, decide_False by tauto. eexists. split; [done|].
    unfold at_. cbn. split_and!; [done..|]. destruct st as [|[pos sz] st]; [done|]. cbn in *. by rewrite u64_id by lia. }
  exists s'. split; [|done]. destruct Hle as [->| ->]; [done|]. unfold wrap. by rewrite E.
Qed.

(** [d] reads [c] up to the end of the list it is in. *)

Definition reads_rest {A} (d : dec A) (c : bytes) (v : A) : Prop :=
  forall s inp rem pos st, at_ s (c ++ inp) rem ((pos, pos + zlen c) :: st) ->
    enough (zlen c) rem ((pos, pos + zlen c) :: st) ->
    exists s', d s = (Ok v, s') /\ at_ s' inp (rem - zlen c) ((pos + zlen c, pos + zlen c) :: st).

Lemma reads_reads_rest {A} (d : dec A) c (v : A) : reads d c v -> reads_rest d c v.
Proof. intros H s inp rem pos st Hat He. by apply (H s inp rem _ Hat He). Qed.

Lemma end_of_list {A B} (d : dec A) c v (le : dec unit) (w : B) (f : A -> B) s inp rem st :
  reads_rest d c v -> le = ListEnd \/ le = wrap ListEnd -> w = f v ->
  at_ s (c ++ inp) rem ((0, zlen c) :: st) -> enough (zlen c) rem ((0, zlen c) :: st) ->
  exists s', (x ← d; _ ← le; mret (f x)) s = (Ok w, s') /\ at_ s' inp (rem - zlen c) (bump (zlen c) st).
Proof.
  intros Hd Hle -> Hat He. destruct (Hd s inp rem 0 st) as (s1 & E & Ha); [done..|]. rewrite Z.add_0_l in Ha.
  destruct He as (_ & _ & Hok & _). cbn [stack_ok] in Hok.
  destruct (ListEnd_at s1 inp _ _ _ le Hle Ha) as (s2 & E2 & Ha2); [cbn; split_and!; try lia; apply Hok|].
  exists s2. by rewrite (go_bind_ok _ _ _ _ _ E), (go_bind_ok _ _ _ _ _ E2).
Qed.

(** ** The end of a list, and a second look at a header *)

Definition ends {A} (d : dec A) : Prop :=
  forall s, kind s = None -> at_end s = true -> d s = (Err EOL, set_kinderr None s).

Definition peeks {A} (d : dec A) : Prop :=
  forall s kn s1, Kind_ s = (Ok kn, s1) -> Kind_ s1 = (Ok kn, s1) -> d s1 = d s.

Lemma Kind_ends : ends Kind_.
Proof. intros s Hk He. unfold Kind_. by rewrite go_get_bind, Hk, go_modify_bind, He. Qed.

Lemma Kind_peeks : peeks Kind_.
Proof. intros s kn s1 E E1. by rewrite E, E1. Qed.

Lemma ends_bind {A B} (d : dec A) (f : A -> dec B) : ends d -> ends (d ≫= f).
Proof. intros H s Hk He. by rewrite (go_bind_err _ _ _ _ _ (H s Hk He)). Qed.

Lemma peeks_bind {A B} (d : dec A) (f : A -> dec B) : peeks d -> peeks (d ≫= f).
Proof. intros H s kn s1 E E1. unfold mbind, go_bind. by rewrite (H s kn s1 E E1). Qed.

Lemma ends_wrap {A} (d : dec A) : ends d -> ends (wrap d).
Proof. intros H s Hk He. unfold wrap. by rewrite (H s Hk He). Qed.

Lemma peeks_wrap {A} (d : dec A) : peeks d -> peeks (wrap d).
Proof. intros H s kn s1 E E1. unfold wrap. by rewrite (H s kn s1 E E1). Qed.

Create HintDb stream discriminated.
#[local] Hint Resolve Kind_ends Kind_peeks ends_bind peeks_bind ends_wrap peeks_wrap : stream.

Lemma List_ends : ends List__. Proof. unfold List__. auto with stream. Qed.
Lemma List_peeks : peeks List__. Proof. unfold List__. auto with stream. Qed.
Lemma Bytes_ends : ends Bytes. Proof. unfold Bytes. auto with stream. Qed.
Lemma Bytes_peeks : peeks Bytes. Proof. unfold Bytes. auto with stream. Qed.
Lemma uint_ends bits : ends (uint bits). Proof. unfold uint. auto with stream. Qed.
Lemma uint_peeks bits : peeks (uint bits). Proof. unfold uint. auto with stream. Qed.
Lemma int_ends bits : ends (int_ bits). Proof. unfold int_. auto with stream. Qed.
Lemma int_peeks bits : peeks (int_ bits). Proof. unfold int_. auto with stream. Qed.
Lemma Raw_ends : ends Raw_. Proof. unfold Raw_. auto with stream. Qed.
Lemma Raw_peeks : peeks Raw_. Proof. unfold Raw_. auto with stream. Qed.
#[local] Hint Resolve List_ends List_peeks Bytes_ends Bytes_peeks uint_ends uint_peeks int_ends int_peeks
  Raw_ends Raw_peeks : stream.

Ltac unfold_decoders :=
  unfold decodeRawValue, decodeUint, decodeInt, decodeBool, decodefloat64, decodeString, decodeBigInt, decodeByteSlice,
    decodeByteArray, decodeListSlice, decodeListArray, decode_map, Bool_.

Lemma decodeInterface_ends fuel : ends (decodeInterface (S fuel)).
Proof. cbn [decodeInterface]. auto with stream. Qed.

Lemma decoder_ends t : t <> TUnsupported -> genTypeInfo t = Ok tt -> ends (decoder no_tags t).
Proof.
  induction t as [t Hl|t IH|n t IH|fs IH|t IH|k v IHk IHv] using rtype_nested_ind; intros Ht Hg.
  - destruct t; try contradiction; cbn [decoder]; unfold_decoders; auto 6 with stream.
    intros s Hk He. rewrite go_get_bind. by apply decodeInterface_ends.
  - cbn [decoder tail no_tags]. unfold_decoders. auto with stream.
  - cbn [decoder]. unfold_decoders. auto with stream.
  - cbn [decoder]. auto with stream.
  - rewrite decoder_ptr. cbn [nilOK no_tags].
    assert (ends (v ← decoder no_tags t; mret (VPtr v))) as H.
    { apply ends_bind, IH; [|done]. intros ->. discriminate Hg. }
    destruct t; exact H.
  - cbn [decoder]. unfold_decoders. auto with stream.
Qed.

(** The types whose decoder looks at the header first, whatever the fuel. *)

Fixpoint peek (t : rtype) : bool :=
  match t with TInterface | TUnsupported => false | TPtr t => peek t | _ => true end.

Lemma decoder_peeks t : peek t = true -> peeks (decoder no_tags t).
Proof.
  induction t; intros Hp; try discriminate Hp; cbn [tail no_tags] in *;
    try (cbn [decoder tail no_tags]; unfold_decoders; auto 6 with stream; fail).
  rewrite decoder_ptr. cbn [nilOK no_tags].
  assert (peeks (v ← decoder no_tags t; mret (VPtr v))) as H by (apply peeks_bind, IHt, Hp).
  destruct t; exact H.
Qed.

Lemma reads_peek {A} (f : Kind * Z -> dec A) (m : dec A) k c v :
  (k = Byte -> single c = true) -> peeks m -> f (k, zlen (body k c)) = m ->
  reads m (encoded k c) v -> reads (Kind_ ≫= f) (encoded k c) v.
Proof.
  intros Hc Hp Hf Hm s inp rem st Hat He. destruct (Kind_at k c s inp rem st Hat Hc He) as (s1 & E & Hr).
  rewrite (go_bind_ok _ _ _ _ _ E), Hf, (Hp s _ s1 E (Kind_ready _ _ _ _ _ _ Hr)). by apply Hm.
Qed.

(** ** Elements and fields *)

Lemma ends_at {A} (d : dec A) s inp rem n st :
  ends d -> at_ s inp rem ((n, n) :: st) -> exists s', d s = (Err EOL, s') /\ at_ s' inp rem ((n, n) :: st).
Proof.
  intros Hd (Hu & Hl & Hr & Hk & Hst). eexists. split; [apply Hd; [done|]|done].
  unfold at_end. rewrite Hst. by apply bool_decide_eq_true.
Qed.

Lemma reads_split {A} (d : dec A) e c v s inp rem pos sz st :
  reads d e v -> sz = pos + (zlen e + zlen c) ->
  at_ s ((e ++ c) ++ inp) rem ((pos, sz) :: st) -> enough (zlen e + zlen c) rem ((pos, sz) :: st) ->
  exists s', d s = (Ok v, s') /\ at_ s' (c ++ inp) (rem - zlen e) ((pos + zlen e, pos + zlen e + zlen c) :: st) /\
    enough (zlen c) (rem - zlen e) ((pos + zlen e, pos + zlen e + zlen c) :: st).
Proof.
  intros Hd -> Hat He. rewrite <- app_assoc in Hat. pose proof (zlen_nonneg e). pose proof (zlen_nonneg c).
  destruct (Hd s (c ++ inp) rem _ Hat) as (s' & E & Ha); [eapply enough_le; [done|lia]|].
  exists s'. cbn [bump] in Ha. rewrite Z.add_assoc in Ha. split_and!; [done..|].
  apply (enough_bump (zlen e)) in He; [|lia..]. cbn [bump] in He. by rewrite Z.add_assoc in He.
Qed.

Lemma elems_read d es vs : Forall2 (fun e v => reads d e v) es vs -> ends d ->
  forall fuel acc, (length vs < fuel)%nat -> reads_rest (decode_elems fuel d acc) (concat es) (acc ++ vs).
Proof.
  intros H Hd. induction H as [|e v es vs Hv _ IH]; intros fuel acc Hf s inp rem pos st Hat He.
  - destruct fuel as [|fuel]; [lia|]. cbn [concat decode_elems] in *. change (zlen (@nil Z)) with 0 in *.
    rewrite Z.add_0_r in *. destruct (ends_at d s inp rem pos st Hd Hat) as (s' & E & Ha). exists s'.
    unfold mbind, go_bind, try_. rewrite E, app_nil_r, Z.sub_0_r. done.
  - destruct fuel as [|fuel]; [lia|]. cbn [concat decode_elems] in *. rewrite zlen_app in *.
    destruct (reads_split d e (concat es) v s inp rem pos _ st Hv eq_refl Hat He) as (s1 & E & Ha & He1).
    destruct (IH fuel (acc ++ [v]) ltac:(cbn in Hf; lia) s1 inp _ _ st Ha He1) as (s2 & E2 & Ha2).
    exists s2. rewrite (go_bind_ok _ _ _ _ _ (try_at _ _ _ _ E)), E2, <- app_assoc.
    rewrite Z.sub_add_distr, Z.add_assoc. done.
Qed.

Lemma array_reads d es vs : Forall2 (fun e v => reads d e v) es vs ->
  forall acc, reads_rest (decode_array (length vs) d acc) (concat es) (acc ++ vs).
Proof.
  induction 1 as [|e v es vs Hv _ IH]; intros acc s inp rem pos st Hat He.
  - exists s. cbn [concat decode_array length] in *. change (zlen (@nil Z)) with 0 in *.
    rewrite Z.add_0_r in *. by rewrite app_nil_r, Z.sub_0_r.
  - cbn [concat decode_array length] in *. rewrite zlen_app in *.
    destruct (reads_split d e (concat es) v s inp rem pos _ st Hv eq_refl Hat He) as (s1 & E & Ha & He1).
    destruct (IH (acc ++ [v]) s1 inp _ _ st Ha He1) as (s2 & E2 & Ha2).
    exists s2. rewrite (go_bind_ok _ _ _ _ _ (try_at _ _ _ _ E)), E2, <- app_assoc.
    rewrite Z.sub_add_distr, Z.add_assoc. done.
Qed.

(** ** The values that survive *)

(** A nil pointer is written as an empty string or list. *)

Definition nil_survives (t : rtype) : bool :=
  match t, nil_item t with
  | TBigInt, _ => false
  | _, (Str [] | Lst []) => true
  | _, _ => false
  end.

(** A value behind a pointer with the "nil" tag is not taken for nil. *)

Definition not_nil (t : rtype) (v : rval) : bool :=
  match t with
  | TBigInt => true
  | _ =>
      peek t && match items no_tags t v with
                | Ok xs => bool_decide (all_bytes_of xs <> [0x80] /\ all_bytes_of xs <> [0xC0])
                | _ => false
                end
  end.

Fixpoint survives (ts : tags) (t : rtype) (v : rval) {struct v} : bool :=
  match v, t with
  | VBytes b, TRawValue =>
      match Split b with Ok (_, _, []) => bool_decide (wf_bytes b /\ zlen b < 2 ^ 62) | _ => false end
  | VBytes b, (TString | TByteSlice) => bool_decide (wf_bytes b)
  | VBytes b, TByteArray n => bool_decide (wf_bytes b /\ zlen b = n /\ b <> [0])
  | VInt z, TBigInt => bool_decide (0 <= z)
  | VInt z, TUint bits => is_width bits && bool_decide (0 <= z < 2 ^ bits)
  | VInt z, TInt bits =>
      is_width bits && bool_decide (- 2 ^ (bits - 1) <= z < 2 ^ (bits - 1) /\ int_read_back z = Ok z)
  | VInt z, TFloat64 => bool_decide (0 <= z < 2 ^ 64)
  | VBool _, TBool => true
  | VList vs, TSlice t => forallb (survives no_tags t) vs
  | VList vs, TArray n t => bool_decide (zlen vs = n) && forallb (survives no_tags t) vs
  | VList vs, TStruct fields =>
      (fix go (vs : list rval) (fields : list (tags * rtype)) : bool :=
        match vs, fields with
        | v :: vs, (ts, t) :: fields =>
            survives ts t v && (negb (tail ts) || match fields with [] => true | _ => false end) && go vs fields
        | [], [] => true
        | _, _ => false
        end) vs fields
  | VMap [], TMap _ _ => true
  | VNil, TPtr t => nilOK ts && nil_survives t
  | VPtr v, TPtr t => survives no_tags t v && (negb (nilOK ts) || not_nil t v)
  | VIface t' v, TInterface =>
      match t' with
      | TByteSlice | TSlice TInterface => survives no_tags t' v
      | _ => false
      end
  | _, _ => false
  end.

(** The encoding of one value, with the kind of its header. *)

Definition one_value (e : bytes) : Prop := exists k c, e = encoded k c /\ (k = Byte -> single c = true).

Lemma one_value_pos e : one_value e -> zlen e < 2 ^ 62 -> 1 <= zlen e.
Proof.
  intros (k & c & -> & Hc) Hl. rewrite encoded_split, zlen_app in *. zlen_facts.
  pose proof (hdr_pos k c Hc) as Hpos. destruct k; cbn [body hdr] in *; lia.
Qed.

Lemma one_value_Str b : one_value (rlp_bytes (Str b)).
Proof. cbn. destruct (single b) eqn:H; [by exists Byte, b|by exists String_, b]. Qed.

Lemma one_value_Lst l : one_value (rlp_bytes (Lst l)).
Proof. by exists List_, (concat (map rlp_bytes l)). Qed.

Lemma one_value_int i : - 2 ^ 63 <= i < 2 ^ 63 -> one_value (rlp_bytes (int_item i)).
Proof.
  intros Hi. destruct (intlen_spec i Hi) as [Hl _]. unfold int_item. case_decide; [apply one_value_Str|].
  exists String_, (be_field (Z.to_nat (intlen i)) i). split; [|done]. cbn [rlp_bytes encoded]. unfold header.
  by rewrite int_body_zlen, decide_True by (done || lia).
Qed.

(** Items of elements. *)

Lemma collect_inv f vs xs :
  collect f vs = Ok xs -> exists xss, Forall2 (fun v x => f v = Ok x) vs xss /\ xs = concat xss.
Proof.
  revert xs. induction vs as [|v vs IH]; intros xs H; cbn in H; [injection H as <-; by exists []|].
  destruct (f v) as [x| |] eqn:Hv; [|done..]. cbn in H. destruct (collect f vs) as [ys| |] eqn:Hc; [|done..].
  cbn in H. injection H as <-. destruct (IH ys eq_refl) as (xss & Hf & ->). exists (x :: xss). by split; [constructor|].
Qed.

Lemma all_bytes_concat xss : all_bytes_of (concat xss) = concat (map all_bytes_of xss).
Proof. induction xss as [|x xss IH]; [done|]. cbn [concat map]. by rewrite all_bytes_app, IH. Qed.

Lemma elems_length (es : list bytes) :
  Forall one_value es -> zlen (concat es) < 2 ^ 62 -> (length es <= length (concat es))%nat.
Proof.
  induction 1 as [|e es He _ IH]; intros Hl; [done|]. cbn [concat length] in *. rewrite zlen_app in Hl. zlen_facts.
  pose proof (one_value_pos e He ltac:(lia)). rewrite length_app. specialize (IH ltac:(lia)). unfold zlen in *. lia.
Qed.

Lemma slice_reads d es vs :
  Forall2 (fun e v => reads d e v) es vs -> Forall one_value es -> ends d ->
  reads (decodeListSlice d) (encoded List_ (concat es)) (VList vs) /\
  reads_rest (decodeSliceElems d) (concat es) (VList vs).
Proof.
  intros H Hone Hd.
  assert (reads_rest (decodeSliceElems d) (concat es) (VList vs)) as Hrest.
  { intros s inp rem pos st Hat He. unfold decodeSliceElems. rewrite go_get_bind.
    destruct (elems_read d es vs H Hd (S (measure s)) [] ltac:(
      pose proof (elems_length es Hone ltac:(destruct He as (? & ? & _); lia));
      rewrite <- (Forall2_length _ _ _ H); destruct Hat as (Hu & _); unfold measure; rewrite Hu, length_app; lia)
      s inp rem pos st Hat He) as (s' & E & Ha).
    exists s'. by rewrite (go_bind_ok _ _ _ _ _ E). }
  split; [|done]. apply reads_list. intros s inp rem st Hat He. case_decide as Hz.
  - pose proof (elems_length es Hone ltac:(lia)) as Hl. apply zlen_0 in Hz. rewrite Hz in *.
    destruct es; [|cbn in Hl; lia]. apply Forall2_nil_inv_l in H as ->. change (zlen (@nil Z)) with 0 in *.
    destruct (ListEnd_at s inp rem 0 st ListEnd) as (s' & E & Ha); [by left|done|by destruct He as (_ & _ & ? & _)|].
    exists s'. rewrite (go_bind_ok _ _ _ _ _ E). by rewrite Z.sub_0_r.
  - by eapply (end_of_list _ _ _ ListEnd _ id); [done|left| |done|done].
Qed.

(** ** Every surviving value is read back *)

Definition read_back (ts : tags) (t : rtype) (e : bytes) (v : rval) : Prop :=
  (if tail ts then reads_rest (decoder ts t) e v else reads (decoder ts t) e v) /\
  (tail ts = false -> one_value e).

Lemma read_back_intro ts t e v : reads (decoder ts t) e v -> one_value e -> read_back ts t e v.
Proof. intros H Ho. split; [|done]. destruct (tail ts); [by apply reads_reads_rest|done]. Qed.

(** The elements of a slice or array. *)

Lemma elems_read_back (d : dec rval) t vs xs :
  Forall (fun v => forall ys, survives no_tags t v = true -> items no_tags t v = Ok ys -> (length (all_bytes_of ys) <= length (all_bytes_of xs))%nat ->
    reads d (all_bytes_of ys) v /\ one_value (all_bytes_of ys)) vs ->
  forallb (survives no_tags t) vs = true -> collect (items no_tags t) vs = Ok xs ->
  exists es, all_bytes_of xs = concat es /\ Forall2 (fun e v => reads d e v) es vs /\ Forall one_value es.
Proof.
  intros IH Hs Hc. apply collect_inv in Hc as (xss & Hf & ->). exists (map all_bytes_of xss).
  rewrite all_bytes_concat in *. split; [done|].
  induction Hf as [|v x vs xss Hx _ IHf]; [by split|]. cbn [map concat forallb] in *.
  apply Forall_cons in IH as [Hv IH]. apply andb_true_iff in Hs as [Hs1 Hs2]. rewrite length_app in *.
  destruct (Hv x Hs1 Hx ltac:(lia)) as [Hr Ho].
  destruct IHf as [H1 H2]; [|done|by split; constructor].
  eapply Forall_impl; [done|]. cbn. intros w Hw ys H1 H2 H3. apply Hw; [done..|lia].
Qed.

Lemma header_length a b n : (1 <= length (header a b n))%nat.
Proof. unfold header. case_decide; cbn; lia. Qed.

(** The values [decodeInterface] builds, with enough fuel for their nesting. *)

Definition iface_back (v : rval) : Prop :=
  forall xs fuel, survives no_tags TInterface v = true -> items no_tags TInterface v = Ok xs ->
    (length (all_bytes_of xs) < fuel)%nat ->
    reads (decodeInterface fuel) (all_bytes_of xs) v /\ one_value (all_bytes_of xs).

Lemma iface_bytes_reads fuel b :
  reads (decodeInterface (S fuel)) (rlp_bytes (Str b)) (VIface TByteSlice (VBytes b)).
Proof.
  pose proof (reads_map _ _ _ (fun b => VIface TByteSlice (VBytes b)) (Bytes_reads b)) as Hb.
  cbn [decodeInterface]. cbn [rlp_bytes] in *. destruct (single b) eqn:Hs.
  - eapply (reads_peek _ _ Byte b); [done| | |exact Hb]; [|done]. auto with stream.
  - eapply (reads_peek _ _ String_ b); [done| | |exact Hb]; [|done]. auto with stream.
Qed.

Lemma iface_list_reads fuel vs xs :
  Forall iface_back vs -> forallb (survives no_tags TInterface) vs = true ->
  collect (items no_tags TInterface) vs = Ok xs -> (length (all_bytes_of xs) < fuel)%nat ->
  reads (decodeInterface (S fuel)) (rlp_bytes (Lst xs)) (VIface (TSlice TInterface) (VList vs)).
Proof.
  intros IH Hs Hc Hf. destruct fuel as [|fuel]; [lia|].
  destruct (elems_read_back (decodeInterface (S fuel)) TInterface vs xs) as (es & He & Hr & Ho); [|done..|].
  { eapply Forall_impl; [exact IH|]. cbv beta. intros v Hv ys H1 H2 H3. apply (Hv ys (S fuel) H1 H2). lia. }
  destruct (slice_reads _ es vs Hr Ho (decodeInterface_ends fuel)) as [Hl _].
  change (rlp_bytes (Lst xs)) with (encoded List_ (all_bytes_of xs)). rewrite He.
  remember (S fuel) as f. cbn [decodeInterface]. subst f.
  eapply (reads_peek _ (v ← decodeListSlice (decodeInterface (S fuel)); mret (VIface (TSlice TInterface) v)));
    [done| | |by apply (reads_map _ _ _ (VIface (TSlice TInterface)))]; [|done].
  unfold decodeListSlice. auto with stream.
Qed.

Lemma iface_reads v : iface_back v.
Proof.
  enough (iface_back v /\ match v with VList vs => Forall iface_back vs | _ => True end) by tauto.
  induction v as [b|z|b|vs IH|l IH| |v IH|t v IH] using rval_nested_ind;
    (split; [|first [exact I|exact (Forall_impl _ _ _ IH (fun _ H => proj1 H))]]); intros xs fuel Hs Hx Hf;
    try (discriminate Hs || (destruct l; discriminate Hs)).
  destruct fuel as [|fuel]; [lia|]. destruct t as [| | | | | | |[]| | | | | | | |]; try discriminate Hs;
    cbn in Hs; destruct v; try discriminate Hs; try (destruct l; discriminate Hs).
  - injection Hx as <-. rewrite all_bytes_1. split; [apply iface_bytes_reads|apply one_value_Str].
  - cbn in Hx. destruct (collect (items no_tags TInterface) l) as [ys| |] eqn:Hc; [|done..]. cbn in Hx.
    injection Hx as <-. rewrite all_bytes_1 in *. split; [|apply one_value_Lst].
    apply iface_list_reads; [apply IH|done..|].
    change (rlp_bytes (Lst ys)) with (encoded List_ (all_bytes_of ys)) in Hf. unfold encoded in Hf.
    rewrite length_app in Hf. pose proof (header_length 192 247 (zlen (all_bytes_of ys))). lia.
Qed.

(** ** The fields of a struct *)

Fixpoint fields_decoder (fields : list (tags * rtype)) : dec (list rval) :=
  match fields with
  | [] => mret []
  | (ts, t) :: fields => v ← decode_field (decoder ts t); vs ← fields_decoder fields; mret (v :: vs)
  end.

Fixpoint survive (vs : list rval) (fields : list (tags * rtype)) : bool :=
  match vs, fields with
  | v :: vs, (ts, t) :: fields =>
      survives ts t v && (negb (tail ts) || match fields with [] => true | _ => false end) && survive vs fields
  | [], [] => true
  | _, _ => false
  end.

Definition comes_back (v : rval) : Prop :=
  forall ts t xs, survives ts t v = true -> genTypeInfo t = Ok tt -> (tail ts = true -> is_slice t = true) ->
    items ts t v = Ok xs -> read_back ts t (all_bytes_of xs) v.

Lemma parseStructTag_tail ts last t ts' :
  parseStructTag ts last t = Ok ts' -> tail ts = true -> is_slice t = true.
Proof. unfold parseStructTag. intros H Ht. rewrite Ht in H. by destruct last, (is_slice t). Qed.

Lemma struct_info_inv ts t fields :
  genTypeInfo (TStruct ((ts, t) :: fields)) = Ok tt ->
  (tail ts = true -> is_slice t = true) /\ genTypeInfo t = Ok tt /\ genTypeInfo (TStruct fields) = Ok tt.
Proof.
  cbn [genTypeInfo]. intros H. destruct (parseStructTag ts _ t) as [ts'| |] eqn:Hp; [|discriminate H..]. cbn [mbind outcome_bind] in H.
  destruct (genTypeInfo t) as [[]| |]; [|discriminate H..]. split_and!; [by eapply parseStructTag_tail|done|exact H].
Qed.

Lemma decode_field_at d s v s' : d s = (Ok v, s') -> decode_field d s = (Ok v, s').
Proof. intros E. unfold decode_field. by rewrite (go_bind_ok _ _ _ _ _ (try_at _ _ _ _ E)). Qed.

Lemma fields_read_back vs : Forall comes_back vs ->
  forall fields xs, survive vs fields = true -> genTypeInfo (TStruct fields) = Ok tt ->
    collect_fields items fields vs = Ok xs -> reads_rest (fields_decoder fields) (all_bytes_of xs) vs.
Proof.
  induction 1 as [|v vs Hv _ IH]; intros [|[ts t] fields] xs Hs Hg Hx; try discriminate Hs.
  { injection Hx as <-. intros s inp rem pos st Hat He. exists s. change (zlen (all_bytes_of [])) with 0 in *.
    rewrite Z.add_0_r in *. by rewrite Z.sub_0_r. }
  cbn [survive] in Hs. apply andb_true_iff in Hs as [Hs Hs2]. apply andb_true_iff in Hs as [Hs1 Hlast].
  apply struct_info_inv in Hg as (Htail & Hgt & Hgf). cbn [collect_fields] in Hx.
  destruct (items ts t v) as [x| |] eqn:Hxv; [|discriminate Hx..].
  destruct (collect_fields items fields vs) as [ys| |] eqn:Hys; [|discriminate Hx..]. injection Hx as <-.
  destruct (Hv ts t x Hs1 Hgt Htail Hxv) as [Hr _]. rewrite all_bytes_app. cbn [fields_decoder].
  specialize (IH fields ys Hs2 Hgf Hys).
  intros s inp rem pos st Hat He. rewrite zlen_app in *. destruct (tail ts).
  - destruct fields; [|discriminate Hlast]. destruct vs; [|discriminate Hs2]. injection Hys as <-.
    change (all_bytes_of []) with (@nil Z) in *. change (zlen (@nil Z)) with 0 in *. rewrite app_nil_r, Z.add_0_r in *.
    destruct (Hr s inp rem pos st Hat He) as (s1 & E & Ha). exists s1.
    by rewrite (go_bind_ok _ _ _ _ _ (decode_field_at _ _ _ _ E)).
  - destruct (reads_split _ _ _ v s inp rem pos _ st Hr eq_refl Hat He) as (s1 & E & Ha & He1).
    destruct (IH s1 inp _ _ st Ha He1) as (s2 & E2 & Ha2). exists s2.
    rewrite (go_bind_ok _ _ _ _ _ (decode_field_at _ _ _ _ E)), (go_bind_ok _ _ _ _ _ E2).
    rewrite Z.sub_add_distr, Z.add_assoc. done.
Qed.

Lemma struct_reads ts fields vs c :
  reads_rest (fields_decoder fields) c vs -> reads (decoder ts (TStruct fields)) (encoded List_ c) (VList vs).
Proof.
  intros H. change (decoder ts (TStruct fields)) with
    (_ ← wrap List__; vs ← fields_decoder fields; _ ← wrap ListEnd; mret (VList vs)).
  apply (reads_list (fun _ => vs ← fields_decoder fields; _ ← wrap ListEnd; mret (VList vs))).
  intros s inp rem st Hat He. by eapply end_of_list; [exact H|right| |done|done].
Qed.

Lemma array_read_back ts n t es vs :
  zlen vs = n -> Forall2 (fun e v => reads (decoder no_tags t) e v) es vs ->
  reads (decoder ts (TArray n t)) (encoded List_ (concat es)) (VList vs).
Proof.
  intros <- H. cbn [decoder]. unfold decodeListArray.
  apply (reads_list (fun _ => vs ← _; _ ← wrap ListEnd; mret (VList vs))). intros s inp rem st Hat He.
  replace (Z.to_nat (zlen vs)) with (length vs) by (unfold zlen; lia).
  by eapply end_of_list; [apply (array_reads _ _ _ H [])|right| |done|done].
Qed.

(** Pointers with the "nil" tag. *)

Lemma optional_reads elem e v :
  peeks elem -> reads elem e v -> one_value e -> e <> [0x80] -> e <> [0xC0] -> reads (optional_ptr elem) e (VPtr v).
Proof.
  intros Hp Hr (k & c & -> & Hc) Hn1 Hn2 s inp rem st Hat He.
  destruct (Kind_at k c s inp rem st Hat Hc He) as (s1 & E & Hrdy).
  destruct (Hr s inp rem st Hat He) as (s2 & E2 & Ha). exists s2. split; [|done].
  unfold optional_ptr. rewrite (go_bind_ok _ _ _ _ _ (try_at _ _ _ _ E)), decide_False.
  - rewrite <- (Hp s _ s1 E (Kind_ready _ _ _ _ _ _ Hrdy)) in E2. by rewrite (go_bind_ok _ _ _ _ _ E2).
  - intros [Hz Hk]. destruct k; [done|..]; cbn [body] in Hz; apply zlen_0 in Hz as ->; [by apply Hn1|by apply Hn2].
Qed.

Lemma optional_nil elem k : k <> Byte -> reads (optional_ptr elem) (encoded k []) VNil.
Proof.
  intros Hk s inp rem st Hat He. destruct (Kind_at k [] s inp rem st Hat ltac:(done) He) as (s1 & E & (Ha & _)).
  unfold optional_ptr. rewrite (go_bind_ok _ _ _ _ _ (try_at _ _ _ _ E)), decide_True by (by destruct k).
  eexists. split; [done|]. destruct k; [done|..]; exact Ha.
Qed.

Lemma ptr_nil_back ts t : nilOK ts = true -> nil_survives t = true ->
  read_back ts (TPtr t) (rlp_bytes (nil_item t)) VNil.
Proof.
  intros Hn Hs. assert (exists k, k <> Byte /\ rlp_bytes (nil_item t) = encoded k []) as (k & Hk & ->).
  { unfold nil_survives in Hs. destruct t; cbn in Hs |- *; try discriminate Hs; try (by exists String_); try (by exists List_).
    destruct (nil_item t) as [[]|[]|]; try discriminate Hs; [by exists String_|by exists List_]. }
  apply read_back_intro; [|by exists k, []]. rewrite decoder_ptr, Hn.
  destruct t; try discriminate Hs; by apply optional_nil.
Qed.

Lemma ptr_back ts t v xs :
  comes_back v -> survives ts (TPtr t) (VPtr v) = true -> genTypeInfo t = Ok tt -> items no_tags t v = Ok xs ->
  read_back ts (TPtr t) (all_bytes_of xs) (VPtr v).
Proof.
  intros IH Hs Hg Hx. cbn in Hs. apply andb_true_iff in Hs as [Hs Hn].
  destruct (IH no_tags t xs Hs Hg ltac:(done) Hx) as [Hr Ho]. specialize (Ho eq_refl). cbn [tail no_tags] in Hr.
  apply read_back_intro; [|done]. pose proof (reads_map _ _ _ VPtr Hr) as Hm. rewrite decoder_ptr.
  assert (t = TBigInt \/ t <> TBigInt) as [->|Ht] by (destruct t; (by left) || by right); [exact Hm|].
  assert (reads (if nilOK ts then optional_ptr (decoder no_tags t) else v ← decoder no_tags t; mret (VPtr v))
    (all_bytes_of xs) (VPtr v)) as H; [|by destruct t].
  destruct (nilOK ts); [|done]. cbn in Hn. unfold not_nil in Hn.
  assert (peek t = true /\ all_bytes_of xs <> [0x80] /\ all_bytes_of xs <> [0xC0]) as (Hp & H1 & H2).
  { rewrite Hx in Hn. destruct t; try done; apply andb_true_iff in Hn as [Hp Hn]; by apply bool_decide_eq_true in Hn. }
  apply optional_reads; [by apply decoder_peeks|done..].
Qed.

(** ** Everything together *)

Lemma bytes_back b : comes_back (VBytes b).
Proof.
  intros ts t xs Hs Hg Htail Hx. injection Hx as <-. rewrite all_bytes_1.
  destruct t; try discriminate Hs; cbn [decoder survives] in *.
  - destruct (Split b) as [[[k c] [|]]| |] eqn:Hsp; try discriminate Hs. apply bool_decide_eq_true in Hs as [Hwf Hl].
    apply Split_inv in Hsp as [-> Hc]; [|done..]. rewrite app_nil_r. cbn [rlp_bytes].
    assert (k = Byte -> single c = true) by (by intros ->).
    apply read_back_intro; [|by exists k, c]. cbn [decoder]. unfold decodeRawValue.
    by apply (reads_map _ _ _ VBytes), Raw_reads.
  - apply read_back_intro; [|apply one_value_Str]. by apply (reads_map _ _ _ VBytes), reads_wrap, Bytes_reads.
  - apply read_back_intro; [|apply one_value_Str]. by apply (reads_map _ _ _ VBytes), reads_wrap, Bytes_reads.
  - apply bool_decide_eq_true in Hs as (Hwf & <- & Hne).
    apply read_back_intro; [|apply one_value_Str]. by apply ByteArray_reads.
Qed.

Lemma ints_back z : comes_back (VInt z).
Proof.
  intros ts t xs Hs Hg Htail Hx. destruct t; try discriminate Hs; cbn [items survives] in *.
  - apply bool_decide_eq_true in Hs. rewrite decide_False in Hx by lia. injection Hx as <-. rewrite all_bytes_1.
    apply read_back_intro; [by apply BigInt_reads|apply one_value_Str].
  - injection Hx as <-. rewrite all_bytes_1. apply andb_true_iff in Hs as [Hw Hs]. apply bool_decide_eq_true in Hs.
    apply read_back_intro; [|apply one_value_Str].
    apply (reads_map _ _ _ VInt), reads_wrap, uint_reads; done.
  - injection Hx as <-. rewrite all_bytes_1. apply bool_decide_eq_true in Hs.
    apply read_back_intro; [by apply float_reads|apply one_value_Str].
  - injection Hx as <-. rewrite all_bytes_1. apply andb_true_iff in Hs as [Hw Hs].
    apply bool_decide_eq_true in Hs as [Hr Hb]. destruct (intlen_width z bits Hw Hr) as [_ H64].
    apply read_back_intro; [|by apply one_value_int]. apply (reads_map _ _ _ VInt), reads_wrap.
    intros s inp rem st Hat He. pose proof (int_at bits z s inp rem st Hw Hr Hat He) as H. by rewrite Hb in H.
Qed.

Lemma elems_back t vs xs :
  Forall comes_back vs -> genTypeInfo t = Ok tt -> forallb (survives no_tags t) vs = true ->
  collect (items no_tags t) vs = Ok xs ->
  exists es, all_bytes_of xs = concat es /\ Forall2 (fun e v => reads (decoder no_tags t) e v) es vs /\ Forall one_value es.
Proof.
  intros IH Hg Hs Hx. apply (elems_read_back _ t); [|done..]. eapply Forall_impl; [exact IH|]. cbv beta.
  intros v Hv ys H1 H2 _. destruct (Hv no_tags t ys H1 Hg ltac:(done) H2) as [Hr Ho]. by split; [|apply Ho].
Qed.

Lemma lists_back vs : Forall comes_back vs -> comes_back (VList vs).
Proof.
  intros IH ts t xs Hs Hg Htail Hx. destruct t; try discriminate Hs; cbn [items survives] in *.
  - destruct (collect (items no_tags t) vs) as [ys| |] eqn:Hc; [|discriminate Hx..]. injection Hx as <-.
    destruct (elems_back t vs ys IH Hg Hs Hc) as (es & He & Hr & Ho).
    assert (ends (decoder no_tags t)) as Hd by (apply decoder_ends; [by intros ->|done]).
    destruct (slice_reads _ es vs Hr Ho Hd) as [H1 H2]. unfold read_back. cbn [decoder].
    destruct (tail ts); [by rewrite He|]. rewrite all_bytes_1. split; [|intros _; apply one_value_Lst].
    change (rlp_bytes (Lst ys)) with (encoded List_ (all_bytes_of ys)). by rewrite He.
  - destruct (tail ts) eqn:Hts; [by specialize (Htail eq_refl)|].
    apply andb_true_iff in Hs as [Hn Hs]. apply bool_decide_eq_true in Hn.
    destruct (collect (items no_tags t) vs) as [ys| |] eqn:Hc; [|discriminate Hx..]. injection Hx as <-.
    destruct (elems_back t vs ys IH Hg Hs Hc) as (es & He & Hr & Ho). rewrite all_bytes_1.
    apply read_back_intro; [|apply one_value_Lst].
    change (rlp_bytes (Lst ys)) with (encoded List_ (all_bytes_of ys)). rewrite He. by apply array_read_back.
  - destruct (collect_fields items fields vs) as [ys| |] eqn:Hc; [|discriminate Hx..]. injection Hx as <-.
    rewrite all_bytes_1. apply read_back_intro; [|apply one_value_Lst].
    apply struct_reads. by apply fields_read_back.
Qed.

Lemma map_back l : comes_back (VMap l).
Proof.
  intros ts t xs Hs Hg Htail Hx. destruct l; [|discriminate Hs]. destruct t; try discriminate Hs. injection Hx as <-.
  rewrite all_bytes_1. apply read_back_intro; [|apply one_value_Lst]. cbn [decoder]. unfold decode_map.
  assert (ends (decoder no_tags t1)) as Hd.
  { cbn in Hg. destruct (genTypeInfo t1) as [[]| |] eqn:Hg1; [|discriminate Hg..].
    apply decoder_ends; [by intros ->|done]. }
  refine (reads_list (fun _ => res ← try_ (decoder no_tags t1); _) [] (VMap []) _). intros s inp rem st Hat He.
  change (zlen (@nil Z)) with 0 in *. destruct (ends_at _ s inp rem 0 st Hd Hat) as (s1 & E & Ha).
  assert (try_ (decoder no_tags t1) s = (Ok (inr EOL), s1)) as Et by (unfold try_; by rewrite E).
  destruct (ListEnd_at s1 inp rem 0 st (wrap ListEnd)) as (s2 & E2 & Ha2); [by right|done|by destruct He as (_ & _ & ? & _)|].
  exists s2. rewrite (go_bind_ok _ _ _ _ _ Et), (go_bind_ok _ _ _ _ _ E2), Z.sub_0_r. done.
Qed.

Lemma value_comes_back v : comes_back v.
Proof.
  induction v as [b|z|b|vs IH|l _| |v IH|t' v _] using rval_nested_ind;
    [apply bytes_back|apply ints_back| |by apply lists_back|apply map_back|..];
    intros ts t xs Hs Hg Htail Hx; destruct t; try discriminate Hs.
  - injection Hx as <-. rewrite all_bytes_1. apply read_back_intro; [|apply one_value_Str].
    apply (reads_map _ _ _ VBool), reads_wrap, Bool_reads.
  - injection Hx as <-. rewrite all_bytes_1. cbn in Hs. apply andb_true_iff in Hs as [H1 H2]. by apply ptr_nil_back.
  - by apply ptr_back.
  - assert (forall fuel, (length (all_bytes_of xs) < fuel)%nat ->
      reads (decodeInterface fuel) (all_bytes_of xs) (VIface t' v) /\ one_value (all_bytes_of xs)) as H.
    { intros fuel. by apply iface_reads. }
    apply read_back_intro; [|by destruct (H _ (le_n _))]. intros s inp rem st Hat He. cbn [decoder]. rewrite go_get_bind.
    destruct (H (S (measure s))) as [Hr _]; [|by apply (Hr s inp rem st)].
    destruct Hat as (Hu & _). unfold measure. rewrite Hu, length_app. lia.
Qed.

(** ** What survives is a value that can be encoded *)

Lemma survives_type v : forall ts t, survives ts t v = true -> has_type t v = true.
Proof.
  induction v as [b|z|b|vs IH|l _| |v IH|t' v IH] using rval_nested_ind; intros ts t Hs;
    try (destruct l; [|discriminate Hs]); destruct t; try discriminate Hs; try done; cbn [survives has_type] in *.
  - destruct (Split b) as [[[k c] [|]]| |]; try discriminate Hs. apply bool_decide_eq_true in Hs. apply bool_decide_eq_true. tauto.
  - apply bool_decide_eq_true in Hs. apply bool_decide_eq_true. tauto.
  - apply andb_true_iff in Hs as [Hw Hs]. apply is_width_cases in Hw. apply bool_decide_eq_true in Hs.
    apply bool_decide_eq_true. lia.
  - apply andb_true_iff in Hs as [Hw Hs]. apply is_width_cases in Hw. apply bool_decide_eq_true in Hs.
    apply bool_decide_eq_true. lia.
  - eapply forallb_impl; [|exact Hs]. eapply Forall_impl; [exact IH|]. intros x Hx. apply Hx.
  - apply andb_true_iff in Hs as [Hn Hs]. rewrite Hn. cbn [andb].
    eapply forallb_impl; [|exact Hs]. eapply Forall_impl; [exact IH|]. intros x Hx. apply Hx.
  - revert fields Hs. induction IH as [|v vs Hv _ IH]; intros [|[ts' t] fields] Hs; try done.
    apply andb_true_iff in Hs as [Hs Hs2]. apply andb_true_iff in Hs as [Hs1 _].
    rewrite (Hv ts' t Hs1). by apply IH.
  - apply andb_true_iff in Hs as [Hs _]. by apply (IH no_tags).
  - destruct t' as [| | | | | | |[]| | | | | | | |]; try discriminate Hs; by apply (IH no_tags).
Qed.

Lemma collect_ok f vs : Forall (fun v => exists xs, f v = Ok xs) vs -> exists xs, collect f vs = Ok xs.
Proof.
  induction 1 as [|v vs [x Hx] _ [xs IH]]; [by exists []|]. exists (x ++ xs). cbn. by rewrite Hx, IH.
Qed.

Lemma survives_items v : forall ts t, survives ts t v = true -> exists xs, items ts t v = Ok xs.
Proof.
  induction v as [b|z|b|vs IH|l _| |v IH|t' v IH] using rval_nested_ind; intros ts t Hs;
    try (destruct l; [|discriminate Hs]); destruct t; try discriminate Hs; try (by eexists); cbn [survives items] in *.
  - apply bool_decide_eq_true in Hs. rewrite decide_False by lia. by eexists.
  - destruct (collect_ok (items no_tags t) vs) as [xs ->]; [|by eexists].
    eapply forallb_Forall_impl; [|exact Hs]. eapply Forall_impl; [exact IH|]. intros x Hx. apply Hx.
  - apply andb_true_iff in Hs as [_ Hs]. destruct (collect_ok (items no_tags t) vs) as [xs ->]; [|by eexists].
    eapply forallb_Forall_impl; [|exact Hs]. eapply Forall_impl; [exact IH|]. intros x Hx. apply Hx.
  - enough (exists xs, collect_fields items fields vs = Ok xs) as [xs ->] by by eexists.
    revert fields Hs. induction IH as [|v vs Hv _ IH]; intros [|[ts' t] fields] Hs; try done; [by eexists|].
    apply andb_true_iff in Hs as [Hs Hs2]. apply andb_true_iff in Hs as [Hs1 _].
    destruct (Hv ts' t Hs1) as [x Hx]. destruct (IH fields Hs2) as [xs Hxs].
    exists (x ++ xs). cbn [collect_fields]. by rewrite Hx, Hxs.
  - apply andb_true_iff in Hs as [Hs _]. by apply (IH no_tags).
  - destruct t' as [| | | | | | |[]| | | | | | | |]; try discriminate Hs; by apply (IH no_tags).
Qed.

(** ** From bytes to bytes *)

Lemma NewStream_at b : zlen b < 2 ^ 62 -> at_ (NewStream b true (zlen b)) b (zlen b) [].
Proof. intros H. unfold NewStream, Reset, at_. zlen_facts. case_decide; cbn; split_and!; done || lia. Qed.

Lemma NewStream_enough (b : bytes) n : 0 <= n <= zlen b -> zlen b < 2 ^ 62 -> enough n (zlen b) [].
Proof. intros Hn Hb. unfold enough. cbn. split_and!; try done; lia. Qed.

Lemma survives_decodes t v xs junk :
  genTypeInfo t = Ok tt -> survives no_tags t v = true -> items no_tags t v = Ok xs ->
  zlen (all_bytes_of xs ++ junk) < 2 ^ 62 -> DecodeBytes (all_bytes_of xs ++ junk) t = Ok v.
Proof.
  intros Hg Hs Hx Hl. destruct (value_comes_back v no_tags t xs Hs Hg ltac:(done) Hx) as [Hr _]. cbn [tail no_tags] in Hr.
  destruct (Hr _ junk _ [] (NewStream_at _ Hl)) as (s' & E & _).
  - apply NewStream_enough; [|done]. rewrite zlen_app. zlen_facts. lia.
  - unfold DecodeBytes, Decode_stream. by rewrite Hg, go_lift_ok, E.
Qed.

(** A struct is refused with the error of its first bad field. *)

Lemma fields_fail (pre : list (rtype * bytes * rval)) ts t c e post :
  Forall (fun x => reads (decoder no_tags x.1.1) x.1.2 x.2) pre -> e <> EOL ->
  (forall s inp rem pos st, at_ s (c ++ inp) rem ((pos, pos + zlen c) :: st) ->
     enough (zlen c) rem ((pos, pos + zlen c) :: st) -> exists s', decoder ts t s = (Err e, s')) ->
  forall s inp rem pos st, let k := concat (map (fun x => x.1.2) pre) ++ c in
    at_ s (k ++ inp) rem ((pos, pos + zlen k) :: st) -> enough (zlen k) rem ((pos, pos + zlen k) :: st) ->
    exists s', fields_decoder (map (fun x => (no_tags, x.1.1)) pre ++ (ts, t) :: post) s = (Err e, s').
Proof.
  intros HF He Hbad. induction HF as [|[[t' b] v] pre Hr _ IH]; intros s inp rem pos st k Hat Hen; subst k; cbn [map concat app] in *.
  - destruct (Hbad s inp rem pos st Hat Hen) as [s' E]. exists s'. cbn [fields_decoder]. apply go_bind_err.
    unfold decode_field. assert (try_ (decoder ts t) s = (Ok (inr e), s')) as Et by (unfold try_; by rewrite E).
    rewrite (go_bind_ok _ _ _ _ _ Et). by destruct e.
  - cbn [fst snd] in *. set (k := concat (map (fun x => x.1.2) pre) ++ c) in *.
    replace ((b ++ concat (map (fun x => x.1.2) pre)) ++ c) with (b ++ k) in * by (subst k; by rewrite app_assoc).
    rewrite zlen_app in *. destruct (reads_split _ b _ v s inp rem pos _ st Hr eq_refl Hat Hen) as (s1 & E & Ha & He1).
    destruct (IH s1 inp _ _ st Ha He1) as [s2 E2]. exists s2. cbn [fields_decoder].
    rewrite (go_bind_ok _ _ _ _ _ (decode_field_at _ _ _ _ E)). by rewrite (go_bind_err _ _ _ _ _ E2).
Qed.

Lemma struct_fails pre ts t c e post :
  Forall (fun x => reads (decoder no_tags x.1.1) x.1.2 x.2) pre -> e <> EOL ->
  (forall s inp rem pos st, at_ s (c ++ inp) rem ((pos, pos + zlen c) :: st) ->
     enough (zlen c) rem ((pos, pos + zlen c) :: st) -> exists s', decoder ts t s = (Err e, s')) ->
  let fields := map (fun x => (no_tags, x.1.1)) pre ++ (ts, t) :: post in
  let b := encoded List_ (concat (map (fun x => x.1.2) pre) ++ c) in
  genTypeInfo (TStruct fields) = Ok tt -> zlen b < 2 ^ 62 -> DecodeBytes b (TStruct fields) = Err e.
Proof.
  intros HF He Hbad fields b Hg Hl. unfold DecodeBytes, Decode_stream. rewrite Hg, go_lift_ok.
  set (s := NewStream b true (zlen b)). set (k := concat (map (fun x => x.1.2) pre) ++ c) in *.
  change (decoder no_tags (TStruct fields)) with
    (_ ← wrap List__; vs ← fields_decoder fields; _ ← wrap ListEnd; mret (VList vs)).
  pose proof (NewStream_at b Hl) as Hat. fold s in Hat. rewrite <- (app_nil_r b) in Hat at 1.
  pose proof (zlen_nonneg b). pose proof (NewStream_enough b (zlen b) ltac:(lia) Hl) as Hen.
  destruct (Kind_at List_ k s [] (zlen b) [] Hat ltac:(done) Hen) as (s1 & E & Hrdy).
  subst b. rewrite encoded_split, zlen_app in Hen, Hrdy. cbn [body] in *. pose proof (zlen_nonneg k).
  pose proof (zlen_nonneg (hdr List_ k)). apply enough_bump in Hen; [|lia..]. destruct Hrdy as ((Hu & Hlm & Hrm & _ & Hst) & _).
  cbn [bump set_kind stack remaining unread limited] in *.
  set (s2 := set_size 0 (set_kind None (set_stack ((0, zlen k) :: stack s1) s1))).
  assert (wrap List__ s = (Ok (zlen k), s2)) as EL by (unfold wrap, List__; by rewrite (go_bind_ok _ _ _ _ _ E)).
  rewrite (go_bind_ok _ _ _ _ _ EL).
  destruct (fields_fail pre ts t c e post HF He Hbad s2 [] (zlen (hdr List_ k) + zlen k - zlen (hdr List_ k)) 0 []) as [s3 E3].
  - unfold at_, s2. cbn. rewrite Hst. split_and!; done.
  - fold k. destruct Hen as (Hn1 & Hn2 & Hn3 & Hn4). split_and!; [lia..| |cbn; lia]. cbn [stack_ok]. split_and!; (lia || done).
  - by rewrite (go_bind_err _ _ _ _ _ E3).
Qed.

Lemma int_refused ts bits i rest s inp rem pos st :
  is_width bits = true -> - 2 ^ (bits - 1) <= i < 2 ^ (bits - 1) -> 128 <= i < 256 ^ (intlen i - 1) ->
  let c := rlp_bytes (int_item i) ++ rest in
  at_ s (c ++ inp) rem ((pos, pos + zlen c) :: st) -> enough (zlen c) rem ((pos, pos + zlen c) :: st) ->
  exists s', decoder ts (TInt bits) s = (Err (decodeError msgCanonInt), s').
Proof.
  intros Hw Hi Hbad c Hat Hen. subst c. rewrite <- app_assoc in Hat.
  pose proof (int_at bits i s (rest ++ inp) rem _ Hw Hi Hat) as H. cbn zeta in H.
  assert (int_read_back i = Err ErrCanonInt) as Hb by (unfold int_read_back; by rewrite decide_True, decide_False by lia).
  rewrite Hb in H. destruct H as [s' E].
  - eapply enough_le; [exact Hen|]. rewrite zlen_app. zlen_facts. lia.
  - exists s'. cbn [decoder]. unfold decodeInt. apply go_bind_err. unfold wrap. by rewrite E.
Qed.

(** A struct whose fields survive up to a signed integer that does not. *)

Lemma fields_before (pre : list (rtype * rval)) fields vs ys :
  Forall (fun x => survives no_tags x.1 x.2 = true /\ genTypeInfo x.1 = Ok tt) pre ->
  collect_fields items (map (fun x => (no_tags, x.1)) pre ++ fields) (map snd pre ++ vs) = Ok ys ->
  exists (trs : list (rtype * bytes * rval)) zs, map (fun x => x.1.1) trs = map fst pre /\ map snd trs = map snd pre /\
    Forall (fun x => reads (decoder no_tags x.1.1) x.1.2 x.2) trs /\ collect_fields items fields vs = Ok zs /\
    all_bytes_of ys = concat (map (fun x => x.1.2) trs) ++ all_bytes_of zs.
Proof.
  intros HF. revert ys. induction HF as [|[t v] pre [Hs Hg] _ IH]; intros ys Hy; [by exists [], ys|].
  cbn [map app fst snd collect_fields] in Hy. destruct (items no_tags t v) as [x| |] eqn:Hx; [|discriminate Hy..].
  cbn [mbind outcome_bind] in Hy. destruct (collect_fields _ _ _) as [k| |] eqn:Hk; [|discriminate Hy..]. injection Hy as <-.
  destruct (IH k eq_refl) as (trs & zs & Ht & Hv & Hr & Hz & Hb). exists ((t, all_bytes_of x, v) :: trs), zs.
  cbn [map concat fst snd]. rewrite Ht, Hv, all_bytes_app, Hb, app_assoc. split_and!; try done. constructor; [|done].
  destruct (value_comes_back v no_tags t x Hs Hg ltac:(done) Hx) as [Hread _]. exact Hread.
Qed.

Lemma bad_int_shape pre bits z post vs xs :
  let fields := map (fun x => (no_tags, x.1)) pre ++ (no_tags, TInt bits) :: post in
  Forall (fun x => survives no_tags x.1 x.2 = true /\ genTypeInfo x.1 = Ok tt) pre ->
  is_width bits = true -> - 2 ^ (bits - 1) <= z < 2 ^ (bits - 1) -> 128 <= z < 256 ^ (intlen z - 1) ->
  items no_tags (TStruct fields) (VList (map snd pre ++ VInt z :: vs)) = Ok xs ->
  exists (trs : list (rtype * bytes * rval)) c, fields = map (fun x => (no_tags, x.1.1)) trs ++ (no_tags, TInt bits) :: post /\
    map snd trs = map snd pre /\ Forall (fun x => reads (decoder no_tags x.1.1) x.1.2 x.2) trs /\
    all_bytes_of xs = encoded List_ (concat (map (fun x => x.1.2) trs) ++ c) /\
    (forall s inp rem pos st, at_ s (c ++ inp) rem ((pos, pos + zlen c) :: st) ->
       enough (zlen c) rem ((pos, pos + zlen c) :: st) ->
       exists s', decoder no_tags (TInt bits) s = (Err (decodeError msgCanonInt), s')).
Proof.
  intros fields HF Hw Hz Hbad Hx. cbn [items] in Hx.
  destruct (collect_fields items fields _) as [ys| |] eqn:Hy; [|discriminate Hx..]. injection Hx as <-.
  rewrite all_bytes_1. destruct (fields_before _ _ _ _ HF Hy) as (trs & zs & Ht & Hv & Hr & Hzs & Hb).
  cbn [collect_fields items mbind outcome_bind] in Hzs. destruct (collect_fields items post vs) as [rest| |]; [|discriminate Hzs..].
  injection Hzs as <-. exists trs, (rlp_bytes (int_item z) ++ all_bytes_of rest). split_and!; [|done|done| |].
  - unfold fields. f_equal. rewrite <- (map_map fst (pair no_tags)), <- Ht, map_map. done.
  - change (rlp_bytes (Lst ys)) with (encoded List_ (all_bytes_of ys)). by rewrite Hb.
  - intros s inp rem pos st Hat Hen. exact (int_refused _ _ _ _ _ _ _ _ _ Hw Hz Hbad Hat Hen).
Qed.

Lemma bad_int_refused pre bits z post vs xs :
  let fields := map (fun x => (no_tags, x.1)) pre ++ (no_tags, TInt bits) :: post in
  Forall (fun x => survives no_tags x.1 x.2 = true /\ genTypeInfo x.1 = Ok tt) pre ->
  is_width bits = true -> - 2 ^ (bits - 1) <= z < 2 ^ (bits - 1) -> 128 <= z < 256 ^ (intlen z - 1) ->
  genTypeInfo (TStruct fields) = Ok tt -> items no_tags (TStruct fields) (VList (map snd pre ++ VInt z :: vs)) = Ok xs ->
  zlen (all_bytes_of xs) < 2 ^ 62 -> DecodeBytes (all_bytes_of xs) (TStruct fields) = Err (decodeError msgCanonInt).
Proof.
  intros fields HF Hw Hz Hbad Hg Hx Hl.
  destruct (bad_int_shape pre bits z post vs xs HF Hw Hz Hbad Hx) as (trs & c & Hf & _ & Hr & Hb & Hd).
  fold fields in Hf. rewrite Hf, Hb in *. by apply struct_fails.
Qed.

(** C1: What the encoder writes, the decoder reads back.  Every value that
    [survives], of any type that can be serialised, is encoded, and decoding its
    encoding, with any bytes after it, gives back exactly the value: integers,
    strings, byte arrays, big integers, floats, slices, arrays, structs with "tail"
    and "nil" fields, pointers and nested interface values alike.  The bytes after
    the value are accepted, although the comment on [DecodeBytes] rules them out. *)
Theorem rlp_roundtrip eb t v :
  wf_encbuf eb -> genTypeInfo t = Ok tt -> survives no_tags t v = true -> fits t v ->
  exists e, EncodeToBytes eb t v = Ok e /\
    forall junk, zlen (e ++ junk) < 2 ^ 62 -> DecodeBytes (e ++ junk) t = Ok v.
Proof.
  intros Heb Hg Hs Hfit. destruct (survives_items v _ _ Hs) as [xs Hx]. exists (all_bytes_of xs).
  split; [apply EncodeToBytes_ok; try done; [by eapply survives_type|by apply Hfit]|].
  intros junk Hl. by apply survives_decodes.
Qed.

(** C40: Which signed integers survive.  [writeInt] writes the shortest two's
    complement form of an integer.  Reading it back gives the integer, except that
    a nonnegative integer whose form starts with a zero byte (128, 200, 40000, the
    times after 2038) is refused as non-canonical, and a negative integer whose form
    takes three, five, six or seven bytes comes back as a positive one. *)
Theorem signed_int_read_back eb bits i :
  wf_encbuf eb -> is_width bits = true -> - 2 ^ (bits - 1) <= i < 2 ^ (bits - 1) ->
  exists e, EncodeToBytes eb (TInt bits) (VInt i) = Ok e /\
    DecodeBytes e (TInt bits) =
      if decide (128 <= i /\ i < 256 ^ (intlen i - 1)) then Err (decodeError msgCanonInt)
      else if decide (i < 0 /\ (intlen i = 3 \/ intlen i = 5 \/ intlen i = 6 \/ intlen i = 7)) then
        Ok (VInt (i + 256 ^ intlen i))
      else Ok (VInt i).
Proof.
  intros Heb Hw Hi. destruct (intlen_width i bits Hw Hi) as [_ H64]. destruct (intlen_spec i H64) as [Hl _].
  exists (rlp_bytes (int_item i)). pose proof (int_body_zlen i H64) as Hz. apply is_width_cases in Hw as Hbits.
  assert (zlen (rlp_bytes (int_item i)) <= 9) as Hlen.
  { unfold int_item. case_decide; [done|]. cbn [rlp_bytes]. rewrite zlen_cons, Hz. lia. }
  split.
  { rewrite <- all_bytes_1 in Hlen |- *. apply EncodeToBytes_ok; [done| |done|done|lia].
    cbn. apply bool_decide_eq_true. lia. }
  set (s := NewStream (rlp_bytes (int_item i)) true (zlen (rlp_bytes (int_item i)))).
  pose proof (int_at bits i s [] (zlen (rlp_bytes (int_item i))) [] Hw Hi) as H. cbn zeta in H. rewrite app_nil_r in H.
  pose proof (zlen_nonneg (rlp_bytes (int_item i))) as Hpos.
  specialize (H (NewStream_at (rlp_bytes (int_item i)) ltac:(lia))
    (NewStream_enough (rlp_bytes (int_item i)) (zlen (rlp_bytes (int_item i))) ltac:(lia) ltac:(lia))).
  unfold DecodeBytes, Decode_stream. cbn [genTypeInfo decoder]. rewrite go_lift_ok. fold s. clearbody s.
  unfold decodeInt, mbind, go_bind, wrap. unfold int_read_back in H.
  destruct (decide (128 <= i /\ i < 256 ^ (intlen i - 1))) as [Hbad|Hgood].
  - rewrite decide_True, decide_False in H by lia. by destruct H as (s' & -> ).
  - destruct (decide (i < 0 /\ _)) as [Hneg|Hok].
    + rewrite decide_False, decide_False in H by lia. by destruct H as (s' & -> & _).
    + destruct (decide (0 <= i)); [rewrite decide_True in H by lia|rewrite decide_True in H by lia];
        by destruct H as (s' & -> & _).
Qed.

(** A block-like struct: hash, nested struct, data, amount, optional and tail fields. *)

Definition roundtrip_type : rtype :=
  TStruct [(no_tags, TByteArray 2); (no_tags, TStruct [(no_tags, TUint 64); (no_tags, TString)]);
           (no_tags, TByteSlice); (no_tags, TPtr TBigInt); (no_tags, TInt 32);
           (Tags true false, TPtr (TStruct [])); (Tags true false, TPtr (TSlice TBool)); (no_tags, TInterface);
           (Tags false true, TSlice (TUint 16))].

Definition roundtrip_value : rval :=
  VList [VBytes [1; 2]; VList [VInt 1024; VBytes [104; 105]]; VBytes (replicate 60 7); VPtr (VInt (2 ^ 70));
         VInt (-2); VNil; VPtr (VList [VBool true]);
         VIface (TSlice TInterface) (VList [VIface TByteSlice (VBytes [200]); VIface (TSlice TInterface) (VList [])]);
         VList [VInt 3; VInt 300]].

Lemma rlp_roundtrip_witness :
  exists e, EncodeToBytes new_encbuf roundtrip_type roundtrip_value = Ok e /\ DecodeBytes (e ++ [1; 2; 3]) roundtrip_type = Ok roundtrip_value.
Proof.
  destruct (rlp_roundtrip new_encbuf roundtrip_type roundtrip_value) as (e & He & H); [done|done|by vm_compute| |].
  - intros xs Hx. vm_compute in Hx. injection Hx as <-. done.
  - exists e. split; [done|]. apply H. vm_compute in He. injection He as <-. done.
Defined.

Lemma signed_int_read_back_witness :
  exists e, EncodeToBytes new_encbuf (TInt 64) (VInt 200) = Ok e /\
    DecodeBytes e (TInt 64) = Err (decodeError msgCanonInt).
Proof.
  destruct (signed_int_read_back new_encbuf 64 200) as (e & He & Hd); [done|done|done|].
  exists e. split; [done|]. rewrite Hd. by vm_compute.
Defined.
