(* ===== verification/RlpPartial.v ===== *)
(** * RlpPartial: what a failed decoding leaves

    A decoder of [common/rlp/decode.go] writes into the value it is given as it goes on,
    so that after an error the value holds what was read so far.  Where the node drops
    the error it goes on with that value.  For a struct that starts as a zero value these
    are: the fields before the failing one, the zero values of the fields after it, and
    in the failing field its zero value or, in a composite one, whatever was read before
    the error, which is a parameter here ([torn]).

    The lemmas: which encodings the decoders refuse ([refuses]), and what is left of a
    struct with a field that is refused. *)

From S2P Require Import Prelude Digits Rlp RlpEncode RlpDecode RlpSound RlpRoundTrip.

#[local] Open Scope Z_scope.

(** ** The value that is left *)

Fixpoint zero_of (t : rtype) : rval :=
  match t with
  | TRawValue | TString | TByteSlice => VBytes []
  | TByteArray n => VBytes (replicate (Z.to_nat n) 0)
  | TBigInt | TUint _ | TInt _ | TFloat64 => VInt 0
  | TBool => VBool false
  | TSlice _ => VList []
  | TArray n t => VList (replicate (Z.to_nat n) (zero_of t))
  | TStruct fields => VList (map (fun f => zero_of f.2) fields)
  | TMap _ _ => VMap []
  | TPtr _ | TInterface | TUnsupported => VNil
  end.

Section Received.
Context (torn : rtype -> bytes -> rval).

(** What a decoder that fails on a field leaves in it.  Integers, booleans, strings and
    byte slices are set once they have been read. *)

Definition left_field (t : rtype) (s : Stream) : rval :=
  match t with
  | TUint _ | TInt _ | TBool | TString | TByteSlice => zero_of t
  | _ => torn t (unread s)
  end.

(** The fields after it keep their zero values. *)

Fixpoint fields_left (fields : list (tags * rtype)) (s : Stream) : list rval :=
  match fields with
  | [] => []
  | (ts, t) :: fields =>
      match decode_field (decoder ts t) s with
      | (Ok v, s') => v :: fields_left fields s'
      | _ => left_field t s :: map (fun f => zero_of f.2) fields
      end
  end.

(** [rlp.DecodeBytes(data, &val)] on a zero value of a struct, its error dropped. *)

Definition left_by (fields : list (tags * rtype)) (data : bytes) : outcome rlp_error rval :=
  match DecodeBytes data (TStruct fields) with
  | Ok v => Ok v
  | Panic => Panic
  | Err _ =>
      match wrap List__ (NewStream data true (zlen data)) with
      | (Ok _, s) => Ok (VList (fields_left fields s))
      | _ => Ok (zero_of (TStruct fields))
      end
  end.
End Received.

(** ** Values the decoder refuses *)

Definition refuses {A} (d : dec A) (c : bytes) (e : rlp_error) : Prop :=
  forall s inp rem st, at_ s (c ++ inp) rem st -> enough (zlen c) rem st -> exists s', d s = (Err e, s').

Lemma refuses_bind {A B} (d : dec A) (f : A -> dec B) c e : refuses d c e -> refuses (d ≫= f) c e.
Proof. intros Hd s inp rem st Hat He. destruct (Hd s inp rem st Hat He) as [s' E]. exists s'. by apply go_bind_err. Qed.

(** Entering a list. *)

Lemma enter_list c s inp rem st :
  at_ s (encoded List_ c ++ inp) rem st -> enough (zlen (encoded List_ c)) rem st ->
  exists s' rem' st', wrap List__ s = (Ok (zlen c), s') /\ at_ s' (c ++ inp) rem' ((0, zlen c) :: st') /\
    enough (zlen c) rem' ((0, zlen c) :: st').
Proof.
  intros Hat He. destruct (Kind_at List_ c s inp rem st Hat ltac:(done) He) as (s1 & E & Hr).
  rewrite encoded_split, zlen_app in He. cbn [body] in *. pose proof (zlen_nonneg c). pose proof (zlen_nonneg (hdr List_ c)).
  apply enough_bump in He; [|lia..]. destruct Hr as ((Hu & Hl & Hrm & _ & Hst) & _). cbn in *.
  exists (set_size 0 (set_kind None (set_stack ((0, zlen c) :: stack s1) s1))), (rem - zlen (header 192 247 (zlen c))),
    (bump (zlen (header 192 247 (zlen c))) st). split_and!.
  - unfold wrap, List__. by rewrite (go_bind_ok _ _ _ _ _ E).
  - unfold at_. cbn. by rewrite Hst.
  - destruct He as (H1 & H2 & H3 & H4). split_and!; [lia..| |cbn; lia]. cbn [stack_ok]. split_and!; [lia..|done|done].
Qed.

Lemma refuses_list {A} (f : Z -> dec A) c e :
  (forall s inp rem st, at_ s (c ++ inp) rem ((0, zlen c) :: st) -> enough (zlen c) rem ((0, zlen c) :: st) ->
     exists s', f (zlen c) s = (Err e, s')) ->
  refuses (n ← wrap List__; f n) (encoded List_ c) e.
Proof.
  intros Hf s inp rem st Hat He. destruct (enter_list c s inp rem st Hat He) as (s2 & rem' & st' & EL & Ha & He').
  destruct (Hf s2 inp rem' st' Ha He') as [s3 E3]. exists s3. by rewrite (go_bind_ok _ _ _ _ _ EL).
Qed.

Lemma at_prefix s c rest inp rem pos st :
  at_ s ((c ++ rest) ++ inp) rem ((pos, pos + zlen (c ++ rest)) :: st) ->
  enough (zlen (c ++ rest)) rem ((pos, pos + zlen (c ++ rest)) :: st) ->
  at_ s (c ++ rest ++ inp) rem ((pos, pos + zlen (c ++ rest)) :: st) /\
  enough (zlen c) rem ((pos, pos + zlen (c ++ rest)) :: st).
Proof.
  intros Hat He. rewrite <- app_assoc in Hat. split; [done|]. eapply enough_le; [exact He|]. rewrite zlen_app. zlen_facts. lia.
Qed.

Lemma decode_field_err d s e s' : d s = (Err e, s') -> e <> EOL -> decode_field d s = (Err e, s').
Proof.
  intros E He. unfold decode_field. assert (try_ d s = (Ok (inr e), s')) as Et by (unfold try_; by rewrite E).
  rewrite (go_bind_ok _ _ _ _ _ Et). by destruct e.
Qed.

Lemma decoder_struct fields :
  decoder no_tags (TStruct fields) = (_ ← wrap List__; vs ← fields_decoder fields; _ ← wrap ListEnd; mret (VList vs)).
Proof. done. Qed.

(** The first field of a struct. *)

Lemma refuses_first_field ts t fields c rest e :
  refuses (decoder ts t) c e -> e <> EOL ->
  refuses (decoder no_tags (TStruct ((ts, t) :: fields))) (encoded List_ (c ++ rest)) e.
Proof.
  intros Hd He. rewrite decoder_struct. apply (refuses_list (fun _ => _)). intros s inp rem st Hat Hen.
  destruct (at_prefix s c rest inp rem 0 st Hat Hen) as [Hat' Hen']. destruct (Hd _ _ _ _ Hat' Hen') as [s' E]. exists s'.
  apply go_bind_err. cbn [fields_decoder]. apply go_bind_err. by apply decode_field_err.
Qed.

(** The first element of a slice. *)

Lemma refuses_first_elem t c rest e :
  refuses (decoder no_tags t) c e -> e <> EOL -> 0 < zlen c ->
  refuses (decoder no_tags (TSlice t)) (encoded List_ (c ++ rest)) e.
Proof.
  intros Hd He Hc. cbn [decoder tail no_tags]. unfold decodeListSlice. apply refuses_list. intros s inp rem st Hat Hen.
  destruct (at_prefix s c rest inp rem 0 st Hat Hen) as [Hat' Hen']. destruct (Hd _ _ _ _ Hat' Hen') as [s' E]. exists s'.
  rewrite decide_False by (rewrite zlen_app; zlen_facts; lia). apply go_bind_err. unfold decodeSliceElems. rewrite go_get_bind.
  apply go_bind_err. cbn [decode_elems]. assert (try_ (decoder no_tags t) s = (Ok (inr e), s')) as Et by (unfold try_; by rewrite E).
  rewrite (go_bind_ok _ _ _ _ _ Et). by destruct e.
Qed.

(** An empty list is no struct. *)

Lemma refuses_empty_struct t fields :
  ends (decoder no_tags t) ->
  refuses (decoder no_tags (TStruct ((no_tags, t) :: fields))) (encoded List_ []) (decodeError msgTooFew).
Proof.
  intros Ht. rewrite decoder_struct. apply (refuses_list (fun _ => _)). intros s inp rem st (Hu & Hl & Hr & Hk & Hst) Hen.
  assert (at_end s = true) as Hend by (unfold at_end; by rewrite Hst).
  exists (set_kinderr None s). apply go_bind_err. cbn [fields_decoder]. apply go_bind_err. unfold decode_field.
  assert (try_ (decoder no_tags t) s = (Ok (inr EOL), set_kinderr None s)) as Et by (unfold try_; by rewrite (Ht s Hk Hend)).
  by rewrite (go_bind_ok _ _ _ _ _ Et).
Qed.

Lemma refuses_ptr t c e : refuses (decoder no_tags t) c e -> refuses (decoder no_tags (TPtr t)) c e.
Proof. intros Hd. rewrite decoder_ptr. cbn [nilOK no_tags]. destruct t; by apply refuses_bind. Qed.

(** ** What is left of a struct *)

Lemma fields_left_after torn (pre : list (rtype * bytes * rval)) ts t c e post :
  Forall (fun x => reads (decoder no_tags x.1.1) x.1.2 x.2) pre -> e <> EOL ->
  (forall s inp rem pos st, at_ s (c ++ inp) rem ((pos, pos + zlen c) :: st) ->
     enough (zlen c) rem ((pos, pos + zlen c) :: st) -> exists s', decoder ts t s = (Err e, s')) ->
  forall s inp rem pos st, let k := concat (map (fun x => x.1.2) pre) ++ c in
    at_ s (k ++ inp) rem ((pos, pos + zlen k) :: st) -> enough (zlen k) rem ((pos, pos + zlen k) :: st) ->
    exists s', fields_left torn (map (fun x => (no_tags, x.1.1)) pre ++ (ts, t) :: post) s =
      map snd pre ++ left_field torn t s' :: map (fun f => zero_of f.2) post.
Proof.
  intros HF He Hbad. induction HF as [|[[t' b] v] pre Hr _ IH]; intros s inp rem pos st k Hat Hen; subst k; cbn [map concat app] in *.
  - destruct (Hbad s inp rem pos st Hat Hen) as [s' E]. exists s. cbn [fields_left]. by rewrite (decode_field_err _ _ _ _ E He).
  - cbn [fst snd] in *. set (k := concat (map (fun x => x.1.2) pre) ++ c) in *.
    replace ((b ++ concat (map (fun x => x.1.2) pre)) ++ c) with (b ++ k) in * by (subst k; by rewrite app_assoc).
    rewrite zlen_app in *. destruct (reads_split _ b _ v s inp rem pos _ st Hr eq_refl Hat Hen) as (s1 & E & Ha & He1).
    destruct (IH s1 inp _ _ st Ha He1) as [s2 E2]. exists s2. cbn [fields_left].
    by rewrite (decode_field_at _ _ _ _ E), E2.
Qed.

Lemma left_by_after torn pre ts t c e post :
  Forall (fun x => reads (decoder no_tags x.1.1) x.1.2 x.2) pre -> e <> EOL ->
  (forall s inp rem pos st, at_ s (c ++ inp) rem ((pos, pos + zlen c) :: st) ->
     enough (zlen c) rem ((pos, pos + zlen c) :: st) -> exists s', decoder ts t s = (Err e, s')) ->
  let fields := map (fun x => (no_tags, x.1.1)) pre ++ (ts, t) :: post in
  let b := encoded List_ (concat (map (fun x => x.1.2) pre) ++ c) in
  genTypeInfo (TStruct fields) = Ok tt -> zlen b < 2 ^ 62 ->
  exists s, left_by torn fields b = Ok (VList (map snd pre ++ left_field torn t s :: map (fun f => zero_of f.2) post)).
Proof.
  intros HF He Hbad fields b Hg Hl. unfold left_by.
  pose proof (struct_fails pre ts t c e post HF He Hbad Hg Hl) as Hf. fold fields b in Hf. rewrite Hf.
  assert (at_ (NewStream b true (zlen b)) (b ++ []) (zlen b) []) as Hat by (rewrite app_nil_r; by apply NewStream_at).
  assert (enough (zlen b) (zlen b) []) as Hen by (apply NewStream_enough; [zlen_facts; lia|done]).
  destruct (enter_list _ _ [] _ _ Hat Hen) as (s2 & rem' & st' & -> & Ha & He').
  destruct (fields_left_after torn pre ts t c e post HF He Hbad s2 [] rem' 0 st' Ha He') as [s3 E].
  exists s3. fold fields in E. by rewrite E.
Qed.

(** The first field is refused. *)

Lemma left_by_refused torn ts t fields c rest e :
  genTypeInfo (TStruct ((ts, t) :: fields)) = Ok tt -> refuses (decoder ts t) c e -> e <> EOL ->
  zlen (encoded List_ (c ++ rest)) < 2 ^ 62 ->
  exists s, left_by torn ((ts, t) :: fields) (encoded List_ (c ++ rest)) =
    Ok (VList (left_field torn t s :: map (fun f => zero_of f.2) fields)).
Proof.
  intros Hg Hd He Hl. apply (left_by_after torn [] ts t (c ++ rest) e fields); [done|done| |done|done].
  intros s inp rem pos st Hat Hen. destruct (at_prefix s c rest inp rem pos st Hat Hen) as [Ha' Hen']. by eapply Hd.
Qed.

(** A signed integer that is not read back comes after fields that are. *)

Lemma bad_int_left torn pre bits z post vs xs :
  let fields := map (fun x => (no_tags, x.1)) pre ++ (no_tags, TInt bits) :: post in
  Forall (fun x => survives no_tags x.1 x.2 = true /\ genTypeInfo x.1 = Ok tt) pre ->
  is_width bits = true -> - 2 ^ (bits - 1) <= z < 2 ^ (bits - 1) -> 128 <= z < 256 ^ (intlen z - 1) ->
  genTypeInfo (TStruct fields) = Ok tt -> items no_tags (TStruct fields) (VList (map snd pre ++ VInt z :: vs)) = Ok xs ->
  zlen (all_bytes_of xs) < 2 ^ 62 ->
  left_by torn fields (all_bytes_of xs) = Ok (VList (map snd pre ++ VInt 0 :: map (fun f => zero_of f.2) post)).
Proof.
  intros fields HF Hw Hz Hbad Hg Hx Hl.
  destruct (bad_int_shape pre bits z post vs xs HF Hw Hz Hbad Hx) as (trs & c & Hf & Hv & Hr & Hb & Hd).
  fold fields in Hf. rewrite Hf, Hb in *. rewrite <- Hv. destruct (left_by_after torn trs _ _ c (decodeError msgCanonInt) post Hr ltac:(done) Hd Hg Hl) as [s E]. exact E.
Qed.
