(* ===== verification/ScriptErrors.v ===== *)
(** * Script error codes

    [ErrorCode] of [tokenengine/internal/txscript/error.go]: the kinds of error a
    script can fail with.  An [Error] is modelled by its code; the human readable
    description is not modelled. *)

From S2P Require Import Prelude.

Inductive ErrorCode : Type :=
  | ErrInternal
  | ErrInvalidFlags
  | ErrInvalidIndex
  | ErrUnsupportedAddress
  | ErrNotMultisigScript
  | ErrTooManyRequiredSigs
  | ErrTooMuchNullData
  | ErrEarlyReturn
  | ErrEmptyStack
  | ErrEvalFalse
  | ErrScriptUnfinished
  | ErrInvalidProgramCounter
  | ErrScriptTooBig
  | ErrElementTooBig
  | ErrTooManyOperations
  | ErrStackOverflow
  | ErrInvalidPubKeyCount
  | ErrInvalidSignatureCount
  | ErrNumberTooBig
  | ErrVerify
  | ErrEqualVerify
  | ErrNumEqualVerify
  | ErrCheckSigVerify
  | ErrCheckMultiSigVerify
  | ErrDisabledOpcode
  | ErrReservedOpcode
  | ErrMalformedPush
  | ErrInvalidStackOperation
  | ErrUnbalancedConditional
  | ErrMinimalData
  | ErrInvalidSigHashType
  | ErrSigDER
  | ErrSigHighS
  | ErrNotPushOnly
  | ErrSigNullDummy
  | ErrPubKeyType
  | ErrCleanStack
  | ErrNullFail
  | ErrWitnessMalleated
  | ErrWitnessMalleatedP2SH
  | ErrDiscourageUpgradableNOPs
  | ErrNegativeLockTime
  | ErrUnsatisfiedLockTime
  | ErrMinimalIf
  | ErrDiscourageUpgradableWitnessProgram
  | ErrWitnessProgramEmpty
  | ErrWitnessProgramMismatch
  | ErrWitnessProgramWrongLength
  | ErrWitnessUnexpected
  | ErrWitnessPubKeyType.

#[export] Instance ErrorCode_eq_dec : EqDecision ErrorCode.
Proof. solve_decision. Defined.

(** [ErrorCode.String]: the map [errorCodeStrings] has an entry for every code. *)

Definition ErrorCode_String (e : ErrorCode) : string :=
  match e with
  | ErrInternal => "ErrInternal"
  | ErrInvalidFlags => "ErrInvalidFlags"
  | ErrInvalidIndex => "ErrInvalidIndex"
  | ErrUnsupportedAddress => "ErrUnsupportedAddress"
  | ErrNotMultisigScript => "ErrNotMultisigScript"
  | ErrTooManyRequiredSigs => "ErrTooManyRequiredSigs"
  | ErrTooMuchNullData => "ErrTooMuchNullData"
  | ErrEarlyReturn => "ErrEarlyReturn"
  | ErrEmptyStack => "ErrEmptyStack"
  | ErrEvalFalse => "ErrEvalFalse"
  | ErrScriptUnfinished => "ErrScriptUnfinished"
  | ErrInvalidProgramCounter => "ErrInvalidProgramCounter"
  | ErrScriptTooBig => "ErrScriptTooBig"
  | ErrElementTooBig => "ErrElementTooBig"
  | ErrTooManyOperations => "ErrTooManyOperations"
  | ErrStackOverflow => "ErrStackOverflow"
  | ErrInvalidPubKeyCount => "ErrInvalidPubKeyCount"
  | ErrInvalidSignatureCount => "ErrInvalidSignatureCount"
  | ErrNumberTooBig => "ErrNumberTooBig"
  | ErrVerify => "ErrVerify"
  | ErrEqualVerify => "ErrEqualVerify"
  | ErrNumEqualVerify => "ErrNumEqualVerify"
  | ErrCheckSigVerify => "ErrCheckSigVerify"
  | ErrCheckMultiSigVerify => "ErrCheckMultiSigVerify"
  | ErrDisabledOpcode => "ErrDisabledOpcode"
  | ErrReservedOpcode => "ErrReservedOpcode"
  | ErrMalformedPush => "ErrMalformedPush"
  | ErrInvalidStackOperation => "ErrInvalidStackOperation"
  | ErrUnbalancedConditional => "ErrUnbalancedConditional"
  | ErrMinimalData => "ErrMinimalData"
  | ErrInvalidSigHashType => "ErrInvalidSigHashType"
  | ErrSigDER => "ErrSigDER"
  | ErrSigHighS => "ErrSigHighS"
  | ErrNotPushOnly => "ErrNotPushOnly"
  | ErrSigNullDummy => "ErrSigNullDummy"
  | ErrPubKeyType => "ErrPubKeyType"
  | ErrCleanStack => "ErrCleanStack"
  | ErrNullFail => "ErrNullFail"
  | ErrWitnessMalleated => "ErrWitnessMalleated"
  | ErrWitnessMalleatedP2SH => "ErrWitnessMalleatedP2SH"
  | ErrDiscourageUpgradableNOPs => "ErrDiscourageUpgradableNOPs"
  | ErrNegativeLockTime => "ErrNegativeLockTime"
  | ErrUnsatisfiedLockTime => "ErrUnsatisfiedLockTime"
  | ErrMinimalIf => "ErrMinimalIf"
  | ErrDiscourageUpgradableWitnessProgram => "ErrDiscourageUpgradableWitnessProgram"
  | ErrWitnessProgramEmpty => "ErrWitnessProgramEmpty"
  | ErrWitnessProgramMismatch => "ErrWitnessProgramMismatch"
  | ErrWitnessProgramWrongLength => "ErrWitnessProgramWrongLength"
  | ErrWitnessUnexpected => "ErrWitnessUnexpected"
  | ErrWitnessPubKeyType => "ErrWitnessPubKeyType"
  end.

(** [IsErrorCode] on a script error. *)

Definition IsErrorCode (err c : ErrorCode) : bool := bool_decide (err = c).

Lemma IsErrorCode_spec err c : IsErrorCode err c = true <-> err = c.
Proof. unfold IsErrorCode. apply bool_decide_eq_true. Qed.
