(* ===== verification/ScriptNum.v ===== *)
(** * Script numbers

    [tokenengine/internal/txscript/scriptnum.go]: the numbers of the script
    engine are [int64] values serialised as little endian magnitude with a sign
    bit in the most significant byte.  [Bytes] serialises, [makeScriptNum]
    parses.  The theorems relate both to the reference value [sm_val] of a byte
    string, show that they are mutually inverse on minimal encodings, and give
    the range a parse of [k] bytes can produce. *)

From S2P Require Import Prelude Digits ScriptErrors.

#[local] Open Scope Z_scope.

Abbreviation maxInt32 := (Z.shiftl 1 31 - 1) (only parsing).
Abbreviation minInt32 := (Z.shiftl (-1) 31) (only parsing).
Definition defaultScriptNumLen : Z := 4.

(** [scriptNum] is [int64]. *)

Definition is_int64 (n : Z) : Prop := - 2 ^ 63 <= n < 2 ^ 63.

Definition checkMinimalDataEncoding (v : bytes) : outcome ErrorCode unit :=
  if decide (zlen v = 0) then Ok () else
  last ← goidx v (zlen v - 1);
  if decide (Z.land last 0x7f = 0) then
    if decide (zlen v = 1) then Err ErrMinimalData else
    prev ← goidx v (zlen v - 2);
    if decide (Z.land prev 0x80 = 0) then Err ErrMinimalData else Ok ()
  else Ok ().

(** The loop [for n > 0 { result = append(result, byte(n&0xff)); n >>= 8 }]. *)

Fixpoint le_bytes (fuel : nat) (n : Z) : bytes :=
  match fuel with
  | O => []
  | S fuel =>
      if decide (0 < n) then u8 (Z.land n 0xff) :: le_bytes fuel (Z.shiftr n 8) else []
  end.

(** [scriptNum.Bytes].  A positive [int64] has at most 8 bytes, so 8 rounds of
    the loop are enough ([le_bytes_val]). *)

Definition scriptNum_Bytes (n : Z) : outcome ErrorCode bytes :=
  if decide (n = 0) then Ok [] else
  let isNegative := bool_decide (n < 0) in
  let n := if isNegative then i64 (- n) else n in
  let result := le_bytes 8 n in
  top ← goidx result (zlen result - 1);
  if decide (Z.land top 0x80 <> 0) then
    Ok (result ++ [if isNegative then 0x80 else 0x00])
  else if isNegative then
    Ok (<[Z.to_nat (zlen result - 1) := Z.lor top 0x80]> result)
  else Ok result.

(** [scriptNum.Int32]. *)

Definition scriptNum_Int32 (n : Z) : Z :=
  if decide (n > maxInt32) then maxInt32
  else if decide (n < minInt32) then minInt32
  else i32 n.

(** The loop [for i, val := range v { result |= int64(val) << uint8(8*i) }]. *)

Fixpoint le_accum (i : Z) (v : bytes) (result : Z) : Z :=
  match v with
  | [] => result
  | val :: v => le_accum (i + 1) v (Z.lor result (i64 (Z.shiftl val (u8 (8 * i)))))
  end.

Definition makeScriptNum (v : bytes) (requireMinimal : bool) (scriptNumLen : Z)
    : outcome ErrorCode Z :=
  if decide (zlen v > scriptNumLen) then Err ErrNumberTooBig else
  (if requireMinimal then checkMinimalDataEncoding v else Ok ()) ;;
  if decide (zlen v = 0) then Ok 0 else
  let result := le_accum 0 v 0 in
  last ← goidx v (zlen v - 1);
  if decide (Z.land last 0x80 <> 0) then
    let result := Z.land result (Z.lnot (i64 (Z.shiftl 0x80 (u8 (8 * (zlen v - 1)))))) in
    Ok (i64 (- result))
  else Ok result.

(** ** Reference value of a byte string

    Sign and magnitude: the top bit of the last byte is the sign. *)

Definition sm_val (v : bytes) : Z :=
  match last v with
  | Some b => if decide (128 <= b) then - (le_val v - 128 * 256 ^ (zlen v - 1)) else le_val v
  | None => 0
  end.

(** ** Bit arithmetic *)

Lemma byte_high_bit b : is_byte b -> Z.land b 0x80 <> 0 <-> 128 <= b.
Proof.
  intros Hb.
  pose proof (byte_exhaust (fun b => bool_decide (Z.land b 0x80 <> 0 <-> 128 <= b))) as H.
  apply (bool_decide_unpack _), Is_true_true. apply H; [by vm_compute|done].
Qed.

Lemma byte_low_bits b : is_byte b -> Z.land b 0x7f = 0 <-> b = 0 \/ b = 128.
Proof.
  intros Hb.
  pose proof (byte_exhaust (fun b => bool_decide (Z.land b 0x7f = 0 <-> b = 0 \/ b = 128))) as H.
  apply (bool_decide_unpack _), Is_true_true. apply H; [by vm_compute|done].
Qed.

Lemma byte_set_high b : is_byte b -> b < 128 -> Z.lor b 0x80 = b + 128.
Proof.
  intros Hb Hlt. change 0x80 with (1 * 2 ^ 7). apply lor_disjoint; unfold is_byte in Hb; lia.
Qed.

(** ** The reference value *)

Lemma sm_val_snoc v b :
  sm_val (v ++ [b]) =
    if decide (128 <= b) then - (le_val v + (b - 128) * 256 ^ zlen v)
    else le_val v + b * 256 ^ zlen v.
Proof.
  unfold sm_val. rewrite last_snoc, le_val_snoc, zlen_snoc.
  replace (zlen v + 1 - 1) with (zlen v) by lia. case_decide; lia.
Qed.

Lemma sm_val_bound v : wf_bytes v -> v <> [] -> Z.abs (sm_val v) < 2 ^ (8 * zlen v - 1).
Proof.
  intros Hwf Hne. destruct (list_snoc_cases v) as [->|(k & b & ->)]; [done|].
  apply wf_bytes_app in Hwf as [Hk Hb]. apply wf_bytes_1 in Hb. unfold is_byte in Hb.
  rewrite sm_val_snoc, zlen_snoc.
  pose proof (le_val_bound k Hk) as Hbd. pose proof (zlen_nonneg k).
  replace (8 * (zlen k + 1) - 1) with (8 * zlen k + 7) by lia.
  rewrite Z.pow_add_r, <- pow256 by lia. change (2 ^ 7) with 128.
  set (P := 256 ^ zlen k) in *. clearbody P.
  case_decide.
  - pose proof (Z.mul_le_mono_nonneg_r (b - 128) 127 P). pose proof (Z.mul_nonneg_nonneg (b - 128) P). lia.
  - pose proof (Z.mul_le_mono_nonneg_r b 127 P). pose proof (Z.mul_nonneg_nonneg b P). lia.
Qed.

(** The loop of [Bytes] produces the base 256 digits of the magnitude. *)

Lemma le_bytes_wf fuel n : wf_bytes (le_bytes fuel n).
Proof.
  revert n; induction fuel as [|fuel IH]; intros n; cbn; [constructor|].
  case_decide; [|constructor]. constructor; [apply u8_byte|apply IH].
Qed.

Lemma le_bytes_step fuel n :
  0 < n -> le_bytes (S fuel) n = n mod 256 :: le_bytes fuel (n / 256).
Proof.
  intros Hn. cbn. rewrite decide_True by done.
  change 0xff with (Z.ones 8). rewrite Z.land_ones by lia. rewrite Z.shiftr_div_pow2 by lia.
  change (2 ^ 8) with 256. f_equal. apply u8_id. unfold is_byte.
  apply Z.mod_pos_bound. lia.
Qed.

Lemma le_bytes_val fuel n : 0 <= n < 256 ^ Z.of_nat fuel -> le_val (le_bytes fuel n) = n.
Proof.
  revert n; induction fuel as [|fuel IH]; intros n Hn; [cbn in *; lia|].
  destruct (decide (n = 0)) as [->|Hne]; [done|].
  rewrite le_bytes_step by lia. cbn [le_val].
  rewrite IH; [pose proof (Z.div_mod n 256); lia|].
  rewrite Nat2Z.inj_succ, Z.pow_succ_r in Hn by lia.
  split; [apply Z.div_pos; lia|]. apply Z.div_lt_upper_bound; lia.
Qed.

(** The digits have no leading zero. *)

Lemma le_bytes_top fuel n b :
  0 <= n < 256 ^ Z.of_nat fuel -> last (le_bytes fuel n) = Some b -> 0 < b.
Proof.
  revert n; induction fuel as [|fuel IH]; intros n Hn; [done|].
  destruct (decide (n = 0)) as [->|Hne]; [done|].
  rewrite le_bytes_step by lia.
  rewrite Nat2Z.inj_succ, Z.pow_succ_r in Hn by lia.
  assert (Hdiv : 0 <= n / 256 < 256 ^ Z.of_nat fuel).
  { split; [apply Z.div_pos; lia|]. apply Z.div_lt_upper_bound; lia. }
  rewrite last_cons. destruct (last (le_bytes fuel (n / 256))) as [c|] eqn:Hl.
  - intros [= <-]. by eapply IH.
  - intros [= <-]. apply last_None in Hl.
    pose proof (le_bytes_val fuel (n / 256) Hdiv) as Hv. rewrite Hl in Hv. cbn in Hv.
    pose proof (Z.mod_pos_bound n 256). pose proof (Z.div_mod n 256). lia.
Qed.

(** Digit strings without a leading zero are determined by their value. *)

Lemma le_val_inj_top v w b c :
  wf_bytes (v ++ [b]) -> wf_bytes (w ++ [c]) -> 0 < b -> 0 < c ->
  le_val (v ++ [b]) = le_val (w ++ [c]) -> v ++ [b] = w ++ [c].
Proof.
  revert w; induction v as [|x v IH]; intros w Hv Hw Hb Hc He.
  - destruct w as [|y w]; cbn in He |- *.
    + f_equal. lia.
    + exfalso. apply wf_bytes_cons in Hw as [Hy Hw]. apply wf_bytes_1 in Hv.
      unfold is_byte in *. rewrite le_val_snoc in He.
      apply wf_bytes_app in Hw as [Hw _]. pose proof (le_val_bound w Hw).
      assert (0 < 256 ^ zlen w) by (apply Z.pow_pos_nonneg; [lia|apply zlen_nonneg]). nia.
  - apply wf_bytes_cons in Hv as [Hx Hv]. destruct w as [|y w]; cbn in He.
    + exfalso. apply wf_bytes_1 in Hw. unfold is_byte in *. rewrite le_val_snoc in He.
      apply wf_bytes_app in Hv as [Hv _]. pose proof (le_val_bound v Hv).
      assert (0 < 256 ^ zlen v) by (apply Z.pow_pos_nonneg; [lia|apply zlen_nonneg]). nia.
    + apply wf_bytes_cons in Hw as [Hy Hw]. unfold is_byte in Hx, Hy.
      assert (x = y /\ le_val (v ++ [b]) = le_val (w ++ [c])) as [-> He'] by lia.
      cbn. f_equal. by apply IH.
Qed.

(** ** Minimal encodings *)

Definition minimal (v : bytes) : Prop :=
  match last v with
  | None => True
  | Some b =>
      (b <> 0 /\ b <> 128) \/ exists c, last (take (length v - 1) v) = Some c /\ 128 <= c
  end.

Lemma minimal_snoc k b :
  minimal (k ++ [b]) <-> (b <> 0 /\ b <> 128) \/ exists c, last k = Some c /\ 128 <= c.
Proof.
  unfold minimal. rewrite last_snoc, length_app. cbn [length].
  replace (length k + 1 - 1)%nat with (length k) by lia. by rewrite take_app_length.
Qed.

Lemma checkMinimalDataEncoding_ok v :
  wf_bytes v -> checkMinimalDataEncoding v = Ok () <-> minimal v.
Proof.
  intros Hwf. destruct (list_snoc_cases v) as [->|(k & b & ->)]; [done|].
  apply wf_bytes_app in Hwf as [Hk Hb]. apply wf_bytes_1 in Hb.
  unfold checkMinimalDataEncoding. rewrite minimal_snoc.
  rewrite zlen_snoc. pose proof (zlen_nonneg k).
  rewrite decide_False by lia.
  replace (zlen k + 1 - 1) with (zlen k) by lia. rewrite goidx_last. cbn.
  pose proof (byte_low_bits b Hb) as Hlow.
  destruct (decide (Z.land b 127 = 0)) as [E|E]; [|split; [intros _; left; lia|done]].
  destruct (list_snoc_cases k) as [->|(k' & c & ->)].
  { rewrite decide_True by done. split; [done|]. intros [?|(c & Hc & _)]; [lia|done]. }
  rewrite zlen_snoc in *. pose proof (zlen_nonneg k').
  rewrite decide_False by lia.
  replace (zlen k' + 1 + 1 - 2) with (zlen k') by lia.
  rewrite goidx_app_l by (rewrite zlen_snoc; lia).
  rewrite goidx_last. cbn. rewrite last_snoc.
  apply wf_bytes_app in Hk as [_ Hc]. apply wf_bytes_1 in Hc.
  pose proof (byte_high_bit c Hc) as Hhigh.
  case_decide; split; try done.
  - intros [?|(c' & [= <-] & ?)]; lia.
  - intros _. right. exists c. split; [done|]. apply Hhigh. lia.
Qed.

Lemma checkMinimalDataEncoding_err v :
  wf_bytes v -> ~ minimal v -> checkMinimalDataEncoding v = Err ErrMinimalData.
Proof.
  intros Hwf Hm. pose proof (checkMinimalDataEncoding_ok v Hwf) as Hok.
  destruct (checkMinimalDataEncoding v) as [[]|e|] eqn:E.
  - destruct Hm. by apply Hok.
  - clear Hok Hm Hwf. revert E. unfold checkMinimalDataEncoding, goidx.
    repeat (case_decide || case_match; cbn); naive_solver.
  - revert E. unfold checkMinimalDataEncoding. case_decide; [done|]. pose proof (zlen_nonneg v).
    destruct (goidx_in_range (E := ErrorCode) v (zlen v - 1)) as (a & -> & _); [lia|]. cbn.
    case_decide; [|done]. case_decide; [done|].
    destruct (goidx_in_range (E := ErrorCode) v (zlen v - 2)) as (c & -> & _); [lia|]. cbn.
    by case_decide.
Qed.

(** Two minimal encodings of the same number are the same string. *)

Lemma le_val_pos v : wf_bytes v -> (exists c, last v = Some c /\ 0 < c) -> 0 < le_val v.
Proof.
  intros Hwf (c & Hl & Hc). apply last_Some in Hl as [k ->].
  apply wf_bytes_app in Hwf as [Hk _]. rewrite le_val_snoc.
  pose proof (le_val_bound k Hk).
  assert (0 < 256 ^ zlen k) by (apply Z.pow_pos_nonneg; [lia|apply zlen_nonneg]). nia.
Qed.

(** The magnitude digits of a minimal encoding. *)

Definition magnitude (v : bytes) : bytes :=
  match last v with
  | None => []
  | Some b =>
      let k := take (length v - 1) v in
      let b' := if decide (128 <= b) then b - 128 else b in
      if decide (b' = 0) then k else k ++ [b']
  end.

Lemma magnitude_snoc k b :
  magnitude (k ++ [b]) =
    let b' := if decide (128 <= b) then b - 128 else b in
    if decide (b' = 0) then k else k ++ [b'].
Proof.
  unfold magnitude. rewrite last_snoc, length_app. cbn [length].
  replace (length k + 1 - 1)%nat with (length k) by lia. by rewrite take_app_length.
Qed.

Lemma magnitude_props v :
  wf_bytes v -> minimal v -> v <> [] ->
  wf_bytes (magnitude v) /\ le_val (magnitude v) = Z.abs (sm_val v) /\
  0 < le_val (magnitude v) /\ exists t, last (magnitude v) = Some t /\ 0 < t.
Proof.
  intros Hwf Hm Hne. destruct (list_snoc_cases v) as [->|(k & b & ->)]; [done|].
  rewrite minimal_snoc in Hm. rewrite magnitude_snoc, sm_val_snoc.
  apply wf_bytes_app in Hwf as [Hk Hb]. apply wf_bytes_1 in Hb. unfold is_byte in Hb.
  pose proof (le_val_bound k Hk) as Hbd. cbn zeta.
  assert (0 < 256 ^ zlen k) as HP by (apply Z.pow_pos_nonneg; [lia|apply zlen_nonneg]).
  set (b' := if decide (128 <= b) then b - 128 else b).
  assert (Hb' : 0 <= b' < 128) by (subst b'; case_decide; lia).
  assert (Habs : Z.abs (if decide (128 <= b) then - (le_val k + (b - 128) * 256 ^ zlen k)
                        else le_val k + b * 256 ^ zlen k) = le_val k + b' * 256 ^ zlen k).
  { subst b'. case_decide; rewrite ?Z.abs_opp; apply Z.abs_eq; nia. }
  rewrite Habs. destruct (decide (b' = 0)) as [E|E].
  - destruct Hm as [Hm|(c & Hc & Hc128)]; [subst b'; case_decide; lia|].
    split; [done|]. assert (exists t, last k = Some t /\ 0 < t) as Ht by (exists c; split; [done|lia]).
    pose proof (le_val_pos k Hk Ht). rewrite E. split_and!; [lia|lia|done].
  - assert (Hwf' : wf_bytes (k ++ [b'])).
    { apply wf_bytes_app. split; [done|]. apply wf_bytes_1. unfold is_byte. lia. }
    split; [done|]. rewrite le_val_snoc. split; [lia|]. split; [nia|].
    exists b'. rewrite last_snoc. split; [done|lia].
Qed.

Lemma magnitude_inj k l b c :
  0 <= b < 128 -> 0 <= c < 128 ->
  (b = 0 -> exists x, last k = Some x /\ 128 <= x) ->
  (c = 0 -> exists x, last l = Some x /\ 128 <= x) ->
  (if decide (b = 0) then k else k ++ [b]) = (if decide (c = 0) then l else l ++ [c]) ->
  k = l /\ b = c.
Proof.
  intros Hb Hc Hk Hl He. repeat case_decide.
  - by subst.
  - destruct Hk as (x & Hx & ?); [done|]. rewrite He, last_snoc in Hx. simplify_eq. lia.
  - destruct Hl as (x & Hx & ?); [done|]. rewrite <- He, last_snoc in Hx. simplify_eq. lia.
  - by apply app_inj_tail in He.
Qed.

Lemma sm_val_sign k b :
  wf_bytes (k ++ [b]) -> minimal (k ++ [b]) -> sm_val (k ++ [b]) < 0 <-> 128 <= b.
Proof.
  intros Hwf Hm. destruct (magnitude_props _ Hwf Hm) as (_ & Hm1 & Hm2 & _); [by destruct k|].
  rewrite Hm1 in Hm2. rewrite sm_val_snoc in *.
  apply wf_bytes_app in Hwf as [Hk Hb]. apply wf_bytes_1 in Hb. unfold is_byte in Hb.
  pose proof (le_val_bound k Hk).
  assert (0 < 256 ^ zlen k) by (apply Z.pow_pos_nonneg; [lia|apply zlen_nonneg]).
  case_decide as E.
  - pose proof (Z.mul_nonneg_nonneg (b - 128) (256 ^ zlen k)). lia.
  - pose proof (Z.mul_nonneg_nonneg b (256 ^ zlen k)). lia.
Qed.

Lemma sm_val_minimal_inj v w :
  wf_bytes v -> wf_bytes w -> minimal v -> minimal w -> sm_val v = sm_val w -> v = w.
Proof.
  intros Hv Hw Mv Mw He.
  destruct (decide (v = [])) as [->|Nv]; destruct (decide (w = [])) as [->|Nw]; [done| | |].
  { destruct (magnitude_props w Hw Mw Nw) as (_ & E & Hp & _). cbn in He. lia. }
  { destruct (magnitude_props v Hv Mv Nv) as (_ & E & Hp & _). cbn in He. lia. }
  destruct (magnitude_props v Hv Mv Nv) as (Wv & Ev & _ & tv & Lv & Pv).
  destruct (magnitude_props w Hw Mw Nw) as (Ww & Ew & _ & tw & Lw & Pw).
  assert (Hmag : magnitude v = magnitude w).
  { apply last_Some in Lv as [kv Lv]. apply last_Some in Lw as [kw Lw]. rewrite Lv, Lw in *.
    apply le_val_inj_top; try done. lia. }
  destruct (list_snoc_cases v) as [->|(k & b & ->)]; [done|].
  destruct (list_snoc_cases w) as [->|(l & c & ->)]; [done|].
  pose proof (sm_val_sign k b Hv Mv) as Sb. pose proof (sm_val_sign l c Hw Mw) as Sc.
  rewrite !magnitude_snoc in Hmag. cbn zeta in Hmag. rewrite minimal_snoc in Mv, Mw.
  apply wf_bytes_app in Hv as [_ Hb]. apply wf_bytes_1 in Hb. unfold is_byte in Hb.
  apply wf_bytes_app in Hw as [_ Hc]. apply wf_bytes_1 in Hc. unfold is_byte in Hc.
  apply magnitude_inj in Hmag as [-> Hbc].
  - f_equal. f_equal. repeat case_decide; lia.
  - destruct (decide (128 <= b)); lia.
  - destruct (decide (128 <= c)); lia.
  - intros E. destruct Mv as [?|?]; [destruct (decide (128 <= b)); lia|done].
  - intros E. destruct Mw as [?|?]; [destruct (decide (128 <= c)); lia|done].
Qed.

(** ** [Bytes] *)

Lemma scriptNum_Bytes_spec n :
  is_int64 n -> n <> - 2 ^ 63 ->
  exists b, scriptNum_Bytes n = Ok b /\ wf_bytes b /\ minimal b /\ sm_val b = n.
Proof.
  unfold is_int64. intros Hn Hmin. unfold scriptNum_Bytes.
  destruct (decide (n = 0)) as [->|Hn0].
  { exists []. split_and!; done || constructor. }
  assert (Hmag : (if bool_decide (n < 0) then i64 (- n) else n) = Z.abs n).
  { case_bool_decide; [rewrite i64_id by lia|]; lia. }
  cbn zeta. rewrite Hmag. set (m := Z.abs n) in *.
  assert (Hm : 0 <= m < 256 ^ Z.of_nat 8) by (change (256 ^ Z.of_nat 8) with (2 ^ 64); lia).
  pose proof (le_bytes_val 8 m Hm) as Hval. pose proof (le_bytes_wf 8 m) as Hwf.
  pose proof (fun b => le_bytes_top 8 m b Hm) as Htop.
  destruct (list_snoc_cases (le_bytes 8 m)) as [E|(k & t & E)]; rewrite E in *.
  { cbn in Hval. lia. }
  specialize (Htop t ltac:(apply last_snoc)).
  pose proof Hwf as Hwf'. apply wf_bytes_app in Hwf' as [Hk Ht]. apply wf_bytes_1 in Ht.
  rewrite zlen_snoc.
  replace (zlen k + 1 - 1) with (zlen k) by lia. rewrite goidx_last. cbn.
  pose proof (byte_high_bit t Ht) as Hhigh. rewrite le_val_snoc in Hval.
  unfold is_byte in Ht. destruct (decide (Z.land t 128 <> 0)) as [Hset|Hclr].
  - eexists; split; [done|]. split_and!.
    + apply wf_bytes_app. split; [done|]. apply wf_bytes_1. unfold is_byte. case_bool_decide; lia.
    + apply minimal_snoc. right. exists t. rewrite last_snoc. split; [done|]. by apply Hhigh.
    + rewrite sm_val_snoc, le_val_snoc. case_bool_decide; case_decide; lia.
  - assert (Htlt : t < 128) by (destruct (decide (128 <= t)); [by destruct Hclr; apply Hhigh|lia]).
    case_bool_decide as Hneg.
    + eexists; split; [done|].
      replace (Z.to_nat (zlen k)) with (length k + 0)%nat by (unfold zlen; lia).
      rewrite insert_app_r. cbn. rewrite byte_set_high by (done || lia). split_and!.
      * apply wf_bytes_app. split; [done|]. apply wf_bytes_1. unfold is_byte. lia.
      * apply minimal_snoc. left. lia.
      * rewrite sm_val_snoc, decide_True by lia. lia.
    + eexists; split; [done|]. split_and!; [done| |].
      * apply minimal_snoc. left. lia.
      * rewrite sm_val_snoc, decide_False by lia. lia.
Qed.

(** The only [int64] whose serialisation panics: [-n] wraps to [n], the loop
    appends nothing and [result[len(result)-1]] is out of range. *)

Lemma scriptNum_Bytes_min : scriptNum_Bytes (- 2 ^ 63) = Panic.
Proof. vm_compute. reflexivity. Qed.

(** ** [makeScriptNum] *)

Lemma i64_shift_byte i b :
  0 <= i <= 7 -> is_byte b ->
  exists w, i64 (Z.shiftl b (u8 (8 * i))) = w * 2 ^ (8 * i) /\
            (w = b /\ (i < 7 \/ b < 128) \/ i = 7 /\ 128 <= b /\ w = b - 256).
Proof.
  intros Hi Hb. rewrite u8_id by (unfold is_byte; lia). unfold is_byte in Hb.
  rewrite Z.shiftl_mul_pow2 by lia.
  destruct (decide (i = 7 /\ 128 <= b)) as [[-> H128]|Hno].
  - exists (b - 256). split; [|lia]. change (2 ^ (8 * 7)) with (2 ^ 56).
    unfold i64. replace (b * 2 ^ 56 + 2 ^ 63) with ((b - 128) * 2 ^ 56 + 1 * 2 ^ 64) by lia.
    rewrite Z.mod_add, Z.mod_small by lia. lia.
  - exists b. split; [|lia]. apply i64_id.
    pose proof (Z.pow_pos_nonneg 2 (8 * i)).
    destruct (decide (i = 7)) as [->|]; [change (2 ^ (8 * 7)) with (2 ^ 56); lia|].
    assert (2 ^ (8 * i) <= 2 ^ 48) by (apply Z.pow_le_mono_r; lia).
    pose proof (mul_bound b (2 ^ (8 * i)) 255 (2 ^ 48)). lia.
Qed.

Lemma le_accum_val v pre :
  wf_bytes pre -> wf_bytes v -> zlen pre <= 7 -> zlen pre + zlen v <= 8 ->
  le_accum (zlen pre) v (le_val pre) = i64 (le_val (pre ++ v)).
Proof.
  revert pre; induction v as [|b v IH]; intros pre Hpre Hv H7 H8.
  - cbn. rewrite app_nil_r. pose proof (le_val_bound pre Hpre) as Hbd.
    assert (256 ^ zlen pre <= 256 ^ 7) by (apply Z.pow_le_mono_r; lia).
    rewrite i64_id by lia. done.
  - apply wf_bytes_cons in Hv as [Hb Hv]. rewrite zlen_cons in H8.
    pose proof (zlen_nonneg pre). pose proof (zlen_nonneg v). cbn [le_accum].
    destruct (i64_shift_byte (zlen pre) b) as (w & -> & Hw); [lia|done|].
    pose proof (le_val_bound pre Hpre) as Hbd. rewrite pow256 in Hbd by lia.
    rewrite lor_disjoint by lia. unfold is_byte in Hb.
    assert (Hpb : wf_bytes (pre ++ [b])) by (apply wf_bytes_app; split; [done|by apply wf_bytes_1]).
    assert (Hsnoc : le_val (pre ++ [b]) = le_val pre + b * 2 ^ (8 * zlen pre)).
    { by rewrite le_val_snoc, pow256 by lia. }
    assert (Hlen : zlen (pre ++ [b]) = zlen pre + 1) by apply zlen_snoc.
    destruct v as [|c v].
    + cbn. rewrite Hsnoc. destruct Hw as [[-> Hw]|(E7 & Hb128 & ->)].
      * rewrite i64_id; [done|]. pose proof (Z.pow_pos_nonneg 2 (8 * zlen pre)).
        destruct Hw as [Hw|Hw].
        -- assert (2 ^ (8 * zlen pre) <= 2 ^ 48) by (apply Z.pow_le_mono_r; lia).
           pose proof (mul_bound b (2 ^ (8 * zlen pre)) 255 (2 ^ 48)). lia.
        -- assert (2 ^ (8 * zlen pre) <= 2 ^ 56) by (apply Z.pow_le_mono_r; lia).
           pose proof (mul_bound b (2 ^ (8 * zlen pre)) 127 (2 ^ 56)). lia.
      * rewrite E7 in *. change (2 ^ (8 * 7)) with (2 ^ 56) in *. unfold i64.
        replace (le_val pre + b * 2 ^ 56 + 2 ^ 63)
          with (le_val pre + (b - 128) * 2 ^ 56 + 1 * 2 ^ 64) by lia.
        rewrite Z.mod_add, Z.mod_small by lia. lia.
    + pose proof (zlen_cons c v). pose proof (zlen_nonneg v).
      destruct Hw as [[-> _]|?]; [|lia].
      rewrite <- Hsnoc, <- Hlen, IH by (done || lia). by rewrite <- app_assoc.
Qed.

Lemma land_clear_sign x m :
  0 <= m -> Z.testbit x m = true -> Z.land x (Z.lnot (2 ^ m)) = x - 2 ^ m.
Proof.
  intros Hm Hbit. rewrite <- Z.ldiff_land. symmetry. apply Z.sub_nocarry_ldiff.
  apply Z.bits_inj'. intros n Hn. rewrite Z.ldiff_spec, Z.bits_0, Z.pow2_bits_eqb by lia.
  destruct (Z.eqb_spec m n) as [->|]; [by rewrite Hbit|done].
Qed.

Lemma sign_bit_set k b :
  wf_bytes k -> is_byte b -> 128 <= b ->
  Z.testbit (le_val k + b * 2 ^ (8 * zlen k)) (8 * zlen k + 7) = true.
Proof.
  intros Hk Hb H128. unfold is_byte in Hb. pose proof (zlen_nonneg k).
  pose proof (le_val_bound k Hk) as Hbd. rewrite pow256 in Hbd by lia.
  set (N := 8 * zlen k) in *. rewrite Z.testbit_true by lia.
  replace (le_val k + b * 2 ^ N) with (le_val k + (b - 128) * 2 ^ N + 1 * 2 ^ (N + 7))
    by (rewrite Z.pow_add_r by lia; lia).
  rewrite Z.div_add by (apply Z.pow_nonzero; lia).
  rewrite Z.div_small; [done|]. rewrite Z.pow_add_r by lia.
  pose proof (mul_bound (b - 128) (2 ^ N) 127 (2 ^ N)). lia.
Qed.

(** Parsing yields the sign-magnitude value of the bytes. *)

Lemma makeScriptNum_value v requireMinimal scriptNumLen :
  wf_bytes v -> zlen v <= scriptNumLen -> scriptNumLen <= 8 ->
  (requireMinimal = true -> minimal v) ->
  makeScriptNum v requireMinimal scriptNumLen = Ok (sm_val v).
Proof.
  intros Hwf Hlen H8 Hmin. unfold makeScriptNum. rewrite decide_False by lia.
  assert (Hchk : (if requireMinimal then checkMinimalDataEncoding v else Ok ()) = Ok ()).
  { destruct requireMinimal; [|done]. apply checkMinimalDataEncoding_ok; auto. }
  rewrite Hchk. cbn. clear Hchk Hmin.
  destruct (list_snoc_cases v) as [->|(k & b & ->)]; [done|].
  pose proof Hwf as Hwf'. apply wf_bytes_app in Hwf' as [Hk Hb]. apply wf_bytes_1 in Hb.
  rewrite zlen_snoc in *. pose proof (zlen_nonneg k).
  rewrite decide_False by lia.
  replace (zlen k + 1 - 1) with (zlen k) by lia.
  pose proof (le_accum_val (k ++ [b]) []) as Hacc. cbn [le_val] in Hacc.
  rewrite (@zlen_nil Z) in Hacc. cbn [app] in Hacc.
  rewrite Hacc by (auto with width; rewrite ?zlen_snoc, ?(@zlen_nil Z); lia).
  rewrite goidx_last. cbn. pose proof (byte_high_bit b Hb) as Hhigh.
  rewrite sm_val_snoc, le_val_snoc, pow256 by lia.
  pose proof (le_val_bound k Hk) as Hbd. rewrite pow256 in Hbd by lia.
  destruct (decide (128 <= b)) as [H128|Hlt].
  - rewrite decide_True by tauto. f_equal.
    set (m := le_val k + (b - 128) * 2 ^ (8 * zlen k)).
    unfold is_byte in Hb.
    assert (Hm : 0 <= m < 2 ^ 63).
    { assert (2 ^ (8 * zlen k) <= 2 ^ 56) by (apply Z.pow_le_mono_r; lia). subst m.
      pose proof (mul_bound (b - 128) (2 ^ (8 * zlen k)) 127 (2 ^ 56)). lia. }
    enough (Z.land (i64 (le_val k + b * 2 ^ (8 * zlen k)))
              (Z.lnot (i64 (Z.shiftl 128 (u8 (8 * zlen k))))) = m) as ->.
    { apply i64_id. lia. }
    destruct (decide (zlen k = 7)) as [E7|].
    + rewrite E7 in *. change (Z.lnot (i64 (Z.shiftl 128 (u8 (8 * 7))))) with (Z.ones 63).
      rewrite Z.land_ones by lia. change (2 ^ (8 * 7)) with (2 ^ 56) in *. unfold i64.
      replace (le_val k + b * 2 ^ 56 + 2 ^ 63) with (m + 1 * 2 ^ 64)
        by (subst m; rewrite E7; change (2 ^ (8 * 7)) with (2 ^ 56); lia).
      rewrite Z.mod_add, (Z.mod_small m) by lia.
      replace (m - 2 ^ 63) with (m + (-1) * 2 ^ 63) by lia.
      rewrite Z.mod_add, Z.mod_small by lia. done.
    + assert (2 ^ (8 * zlen k) <= 2 ^ 48) by (apply Z.pow_le_mono_r; lia).
      pose proof (Z.pow_pos_nonneg 2 (8 * zlen k)).
      pose proof (mul_bound b (2 ^ (8 * zlen k)) 255 (2 ^ 48)).
      rewrite u8_id, Z.shiftl_mul_pow2 by (unfold is_byte; lia). rewrite !i64_id by lia.
      replace (128 * 2 ^ (8 * zlen k)) with (2 ^ (8 * zlen k + 7)) by (rewrite Z.pow_add_r by lia; lia).
      rewrite land_clear_sign by (lia || by apply sign_bit_set).
      subst m. rewrite Z.pow_add_r by lia. lia.
  - rewrite decide_False by tauto. f_equal. apply i64_id. unfold is_byte in Hb.
    assert (2 ^ (8 * zlen k) <= 2 ^ 56) by (apply Z.pow_le_mono_r; lia).
    pose proof (mul_bound b (2 ^ (8 * zlen k)) 127 (2 ^ 56)). lia.
Qed.

#[export] Instance minimal_dec v : Decision (minimal v).
Proof.
  unfold minimal. destruct (last v) as [b|]; [|apply _].
  apply or_dec; [apply _|].
  destruct (last (take (length v - 1) v)) as [c|].
  - destruct (decide (128 <= c)); [left|right]; [by exists c|].
    intros (x & [= <-] & ?). lia.
  - right. intros (x & ? & _). done.
Defined.

Lemma sm_val_small v n : wf_bytes v -> 0 < n -> zlen v <= n -> Z.abs (sm_val v) < 2 ^ (8 * n - 1).
Proof.
  intros Hwf Hn Hl. destruct v as [|b v]; [cbn; lia|].
  eapply Z.lt_le_trans; [by apply sm_val_bound|]. apply Z.pow_le_mono_r; lia.
Qed.

Lemma makeScriptNum_cases v requireMinimal scriptNumLen :
  wf_bytes v -> scriptNumLen <= 8 ->
  makeScriptNum v requireMinimal scriptNumLen =
    if decide (scriptNumLen < zlen v) then Err ErrNumberTooBig
    else if decide (requireMinimal = true /\ ~ minimal v) then Err ErrMinimalData
    else Ok (sm_val v).
Proof.
  intros Hwf H8. destruct (decide (scriptNumLen < zlen v)) as [Hlong|Hshort].
  { unfold makeScriptNum. by rewrite decide_True by lia. }
  case_decide as Hm.
  - destruct Hm as [-> Hm]. unfold makeScriptNum. rewrite decide_False by lia.
    by rewrite checkMinimalDataEncoding_err.
  - apply makeScriptNum_value; try (done || lia).
    intros ->. destruct (decide (minimal v)); [done|]. by destruct Hm.
Qed.

(** ** Main theorems *)

(** [makeScriptNum] on every branch, for the byte limits up to 8 (the code
    uses 4 and 5): too long input is [ErrNumberTooBig], a non-minimal encoding is
    [ErrMinimalData] exactly when minimality is required, and otherwise the result
    is the sign-magnitude value of the bytes, which is below [2^(8n-1)] in absolute
    value; it never panics. *)
Theorem makeScriptNum_spec v requireMinimal scriptNumLen :
  wf_bytes v -> 0 < scriptNumLen <= 8 ->
  makeScriptNum v requireMinimal scriptNumLen =
    (if decide (scriptNumLen < zlen v) then Err ErrNumberTooBig
     else if decide (requireMinimal = true /\ ~ minimal v) then Err ErrMinimalData
     else Ok (sm_val v)) /\
  (zlen v <= scriptNumLen -> Z.abs (sm_val v) < 2 ^ (8 * scriptNumLen - 1)).
Proof.
  intros Hwf H8. split; [apply makeScriptNum_cases; [done|lia]|]. intros Hl.
  apply sm_val_small; (done || lia).
Qed.

Lemma makeScriptNum_spec_witness :
  makeScriptNum [0xff; 0x80] true 4 = Ok (-255) /\
  makeScriptNum [0x7f; 0x00] true 4 = Err ErrMinimalData.
Proof.
  split; [destruct (makeScriptNum_spec [0xff; 0x80] true 4) as [-> _]
         |destruct (makeScriptNum_spec [0x7f; 0x00] true 4) as [-> _]];
    try lia; try (unfold wf_bytes; apply (bool_decide_unpack _); exact I);
    vm_compute; reflexivity.
Defined.

(** A minimal encoding is no longer than its magnitude needs. *)

Lemma minimal_length b k :
  wf_bytes b -> minimal b -> 0 < k -> Z.abs (sm_val b) < 2 ^ (8 * k - 1) -> zlen b <= k.
Proof.
  intros Hwf Hmin Hk Hn. destruct (decide (zlen b <= k)) as [|Hgt]; [done|exfalso].
  destruct (list_snoc_cases b) as [->|(d & t & ->)];
    [change (zlen (@nil Z)) with 0 in Hgt; lia|].
  rewrite zlen_snoc in Hgt.
  destruct (magnitude_props (d ++ [t]) Hwf Hmin) as (_ & Hm1 & _); [by destruct d|].
  rewrite magnitude_snoc in Hm1. cbn zeta in Hm1. rewrite <- Hm1 in Hn. clear Hm1.
  apply wf_bytes_app in Hwf as [Hd Ht]. apply wf_bytes_1 in Ht. unfold is_byte in Ht.
  rewrite minimal_snoc in Hmin. pose proof (zlen_nonneg d).
  set (t' := if decide (128 <= t) then t - 128 else t) in *.
  assert (0 <= t') by (subst t'; destruct (decide (128 <= t)); lia).
  pose proof (le_val_bound d Hd).
  destruct (decide (t' = 0)) as [E|E].
  - destruct Hmin as [?|(c & Hc & Hc128)]; [subst t'; destruct (decide (128 <= t)); lia|].
    apply last_Some in Hc as [d' ->]. rewrite zlen_snoc in *. rewrite le_val_snoc in Hn.
    apply wf_bytes_app in Hd as [Hd' _]. pose proof (le_val_bound d' Hd').
    pose proof (zlen_nonneg d').
    assert (2 ^ (8 * k - 1) <= 128 * 256 ^ zlen d').
    { rewrite pow256 by lia. change 128 with (2 ^ 7). rewrite <- Z.pow_add_r by lia.
      apply Z.pow_le_mono_r; lia. }
    nia.
  - rewrite le_val_snoc in Hn.
    assert (2 ^ (8 * k - 1) <= 256 ^ zlen d).
    { rewrite pow256 by lia. apply Z.pow_le_mono_r; lia. }
    nia.
Qed.

Lemma scriptNum_decode n k requireMinimal :
  0 < k <= 8 -> Z.abs n < 2 ^ (8 * k - 1) ->
  exists b, scriptNum_Bytes n = Ok b /\ wf_bytes b /\ zlen b <= k /\
            makeScriptNum b requireMinimal k = Ok n.
Proof.
  intros Hk Hn.
  assert (2 ^ (8 * k - 1) <= 2 ^ 63) by (apply Z.pow_le_mono_r; lia).
  destruct (scriptNum_Bytes_spec n) as (b & Hb & Hwf & Hmin & Hval); [unfold is_int64; lia|lia|].
  assert (zlen b <= k) by (apply minimal_length; rewrite ?Hval; done || lia).
  exists b. split_and!; [done..|]. rewrite <- Hval. apply makeScriptNum_value; done || lia.
Qed.

(** a number that fits a sign bit and [k <= 8] bytes survives a round trip:
    [Bytes] succeeds, yields at most [k] bytes, and [makeScriptNum] of them with
    limit [k] gives the number back, whether or not minimality is required. *)
Theorem scriptNum_roundtrip n k requireMinimal :
  0 < k <= 8 -> Z.abs n < 2 ^ (8 * k - 1) ->
  exists b, scriptNum_Bytes n = Ok b /\ wf_bytes b /\ zlen b <= k /\
            makeScriptNum b requireMinimal k = Ok n.
Proof. apply scriptNum_decode. Qed.

Lemma scriptNum_roundtrip_witness :
  exists b, scriptNum_Bytes (-32768) = Ok b /\ makeScriptNum b true 4 = Ok (-32768).
Proof.
  destruct (scriptNum_roundtrip (-32768) 4 true) as (b & H1 & _ & _ & H2); [lia|lia|].
  exists b. split; [exact H1|exact H2].
Defined.

(** under required minimality every accepted byte string is the one that
    [Bytes] produces: script numbers have a unique encoding. *)
Theorem makeScriptNum_canonical v k n :
  wf_bytes v -> k <= 8 -> makeScriptNum v true k = Ok n -> scriptNum_Bytes n = Ok v.
Proof.
  intros Hwf Hk Hm. unfold makeScriptNum in Hm.
  destruct (decide (zlen v > k)) as [|Hlen]; [done|].
  destruct (decide (minimal v)) as [Hmin|Hmin];
    [|by rewrite checkMinimalDataEncoding_err in Hm].
  pose proof (makeScriptNum_value v true k Hwf ltac:(lia) Hk (fun _ => Hmin)) as Hv.
  unfold makeScriptNum in Hv. rewrite decide_False in Hv by lia. rewrite Hv in Hm.
  simplify_eq. clear Hv.
  destruct (decide (v = [])) as [->|Hne]; [done|].
  pose proof (sm_val_bound v Hwf Hne) as Hbd.
  assert (2 ^ (8 * zlen v - 1) <= 2 ^ 63) by (apply Z.pow_le_mono_r; lia).
  destruct (scriptNum_Bytes_spec (sm_val v)) as (b & -> & Wb & Mb & Vb);
    [unfold is_int64; lia|lia|].
  f_equal. by apply sm_val_minimal_inj.
Qed.

Lemma makeScriptNum_canonical_witness : scriptNum_Bytes (-255) = Ok [0xff; 0x80].
Proof.
  apply (makeScriptNum_canonical [0xff; 0x80] 4).
  - unfold wf_bytes. apply (bool_decide_unpack _). exact I.
  - lia.
  - vm_compute. reflexivity.
Defined.

(** serialising an [int64] panics exactly for the smallest one, whose
    negation wraps around. *)
Theorem scriptNum_Bytes_panics_iff n :
  is_int64 n -> scriptNum_Bytes n = Panic <-> n = - 2 ^ 63.
Proof.
  intros Hn. split; [|intros ->; apply scriptNum_Bytes_min].
  intros Hp. destruct (decide (n = - 2 ^ 63)) as [|Hne]; [done|].
  destruct (scriptNum_Bytes_spec n Hn Hne) as (b & Hb & _). congruence.
Qed.

Lemma scriptNum_Bytes_panics_iff_witness : scriptNum_Bytes 300 <> Panic.
Proof.
  intros H. apply (scriptNum_Bytes_panics_iff 300) in H; [lia|unfold is_int64; lia].
Defined.

(** The clamping conversion used for stack indices and key counts. *)

Lemma scriptNum_Int32_spec n :
  scriptNum_Int32 n = Z.max (- 2 ^ 31) (Z.min (2 ^ 31 - 1) n).
Proof.
  unfold scriptNum_Int32. change maxInt32 with (2 ^ 31 - 1). change minInt32 with (- 2 ^ 31).
  repeat case_decide; [lia|lia|]. rewrite i32_id; lia.
Qed.
