(* ===== verification/ScriptStack.v ===== *)
(** * The data stack of the script engine

    [tokenengine/internal/txscript/stack.go].  A stack is a slice of byte strings
    whose last element is the top, together with the flag that requires minimally
    encoded numbers.  Every method is a computation on a mutable stack: when it
    returns an error, what it had already popped stays popped.

    The theorems give the effect of each operation on a stack written
    [bottom ++ top], for every count [n] and every underflow. *)

From S2P Require Import Prelude Digits ScriptErrors ScriptNum.

#[local] Open Scope Z_scope.

(** [asBool]: the loop stops at the first non-zero byte. *)

Fixpoint asBool_loop (n i : Z) (t : bytes) : bool :=
  match t with
  | [] => false
  | b :: t =>
      if decide (b <> 0) then
        if decide (i = n - 1 /\ b = 0x80) then false else true
      else asBool_loop n (i + 1) t
  end.

Definition asBool (t : bytes) : bool := asBool_loop (zlen t) 0 t.

Definition fromBool (v : bool) : bytes := if v then [1] else [].

Record stack := mkStack {
  stk : list bytes;
  verifyMinimalData : bool
}.

Definition set_stk (l : list bytes) (s : stack) : stack :=
  mkStack l (verifyMinimalData s).

Abbreviation StackM := (go stack ErrorCode).

Definition Depth (s : stack) : Z := i32 (zlen (stk s)).

Definition PushByteArray (so : bytes) : StackM unit :=
  modify (fun s => set_stk (stk s ++ [so]) s).

Definition PushInt (val : Z) : StackM unit :=
  b ← lift (scriptNum_Bytes val);
  PushByteArray b.

Definition PushBool (val : bool) : StackM unit := PushByteArray (fromBool val).

(** [nipN]: removes the item [idx] places below the top and returns it. *)

Definition nipN (idx : Z) : StackM bytes :=
  s ← get;
  let sz := i32 (zlen (stk s)) in
  if decide (idx < 0 \/ idx > sz - 1) then fail ErrInvalidStackOperation else
  so ← lift (goidx (stk s) (sz - idx - 1));
  (if decide (idx = 0) then
     l ← lift (goslice (stk s) 0 (sz - 1));
     put (set_stk l s)
   else if decide (idx = sz - 1) then
     l ← lift (goslice (stk s) 1 (zlen (stk s)));
     put (set_stk (gocopy (replicate (Z.to_nat (sz - 1)) []) l) s)
   else
     s1 ← lift (goslice (stk s) (sz - idx) sz);
     l ← lift (goslice (stk s) 0 (sz - idx - 1));
     put (set_stk (l ++ s1) s)) ;;
  mret so.

Definition PopByteArray : StackM bytes := nipN 0.

Definition PopInt : StackM Z :=
  so ← PopByteArray;
  s ← get;
  lift (makeScriptNum so (verifyMinimalData s) defaultScriptNumLen).

Definition PopBool : StackM bool :=
  so ← PopByteArray;
  mret (asBool so).

Definition PeekByteArray (idx : Z) : StackM bytes :=
  s ← get;
  let sz := i32 (zlen (stk s)) in
  if decide (idx < 0 \/ idx >= sz) then fail ErrInvalidStackOperation else
  lift (goidx (stk s) (sz - idx - 1)).

Definition PeekInt (idx : Z) : StackM Z :=
  so ← PeekByteArray idx;
  s ← get;
  lift (makeScriptNum so (verifyMinimalData s) defaultScriptNumLen).

Definition PeekBool (idx : Z) : StackM bool :=
  so ← PeekByteArray idx;
  mret (asBool so).

Definition NipN (idx : Z) : StackM unit := nipN idx ;; mret ().

Definition Tuck : StackM unit :=
  so2 ← PopByteArray;
  so1 ← PopByteArray;
  PushByteArray so2 ;;
  PushByteArray so1 ;;
  PushByteArray so2.

(** [for ; n > 0; n-- { body }]: the body runs [n] times. *)

Fixpoint repeatM {S E} (n : nat) (body : go S E unit) : go S E unit :=
  match n with
  | O => mret ()
  | S n => body ;; repeatM n body
  end.

Definition DropN (n : Z) : StackM unit :=
  if decide (n < 1) then fail ErrInvalidStackOperation else
  repeatM (Z.to_nat n) (PopByteArray ;; mret ()).

Definition DupN (n : Z) : StackM unit :=
  if decide (n < 1) then fail ErrInvalidStackOperation else
  repeatM (Z.to_nat n) (so ← PeekByteArray (i32 (n - 1)); PushByteArray so).

Definition RotN (n : Z) : StackM unit :=
  if decide (n < 1) then fail ErrInvalidStackOperation else
  let entry := i32 (i32 (3 * n) - 1) in
  repeatM (Z.to_nat n) (so ← nipN entry; PushByteArray so).

Definition SwapN (n : Z) : StackM unit :=
  if decide (n < 1) then fail ErrInvalidStackOperation else
  let entry := i32 (i32 (2 * n) - 1) in
  repeatM (Z.to_nat n) (so ← nipN entry; PushByteArray so).

Definition OverN (n : Z) : StackM unit :=
  if decide (n < 1) then fail ErrInvalidStackOperation else
  let entry := i32 (i32 (2 * n) - 1) in
  repeatM (Z.to_nat n) (so ← PeekByteArray entry; PushByteArray so).

Definition PickN (n : Z) : StackM unit :=
  so ← PeekByteArray n;
  PushByteArray so.

Definition RollN (n : Z) : StackM unit :=
  so ← nipN n;
  PushByteArray so.

(** [getStack] and [setStack] of engine.go.  [getStack] copies the stack into
    a fresh slice, bottom first. *)

Fixpoint getStack_loop (n : nat) (s : stack) (array : list bytes) : outcome ErrorCode (list bytes) :=
  match n with
  | O => Ok array
  | S n =>
      let i := zlen array - Z.of_nat (S n) in
      match PeekByteArray (i32 i) s with
      | (Panic, _) => Panic
      | (Err _, _) => getStack_loop n s (<[Z.to_nat (zlen array - i - 1) := []]> array)
      | (Ok so, _) => getStack_loop n s (<[Z.to_nat (zlen array - i - 1) := so]> array)
      end
  end.

Definition getStack (s : stack) : outcome ErrorCode (list bytes) :=
  if decide (Depth s < 0) then Panic else
  getStack_loop (Z.to_nat (Depth s)) s (replicate (Z.to_nat (Depth s)) []).

Definition setStack (data : list bytes) : StackM unit :=
  s ← get;
  ignore_err (DropN (Depth s)) ;;
  foldr (fun d m => PushByteArray d ;; m) (mret ()) data.

(** ** Depth and well-formedness

    The code stores the depth in an [int32]; a stack is well formed when its
    length is representable. *)

Definition wf_stack (s : stack) : Prop := zlen (stk s) < 2 ^ 31.

Lemma Depth_spec s : wf_stack s -> Depth s = zlen (stk s).
Proof. intros H. apply i32_id. pose proof (zlen_nonneg (stk s)). unfold wf_stack in H. lia. Qed.

(** ** Single-step lemmas *)

Lemma goidx_mid {E A} (l r : list A) x : goidx (E := E) (l ++ x :: r) (zlen l) = Ok x.
Proof. replace (zlen l) with (zlen l + 0) by lia. by rewrite goidx_app_r by lia. Qed.

Lemma nipN_ok l x r m :
  zlen (l ++ x :: r) < 2 ^ 31 ->
  nipN (zlen r) (mkStack (l ++ x :: r) m) = (Ok x, mkStack (l ++ r) m).
Proof.
  intros Hsz. pose proof (zlen_nonneg l). pose proof (zlen_nonneg r).
  assert (Hlen : zlen (l ++ x :: r) = zlen l + 1 + zlen r).
  { rewrite zlen_app, zlen_cons. lia. }
  unfold nipN, mbind, go_bind, get, lift, put, mret, go_ret. cbn [stk verifyMinimalData].
  rewrite i32_id by lia. rewrite decide_False by lia.
  replace (zlen (l ++ x :: r) - zlen r - 1) with (zlen l) by lia. rewrite goidx_mid.
  case_decide as E0; [|case_decide as E1].
  - apply zlen_0 in E0 as ->. replace (zlen (l ++ [x]) - 1) with (zlen l) by (rewrite zlen_snoc; lia).
    rewrite goslice_prefix. by rewrite app_nil_r.
  - assert (l = []) as -> by (apply zlen_0; lia). cbn [app].
    change (x :: r) with ([x] ++ r). change 1 with (zlen [x]).
    rewrite goslice_suffix. cbn [app]. unfold set_stk, gocopy. cbn.
    rewrite length_replicate. do 2 f_equal.
    change (zlen [x]) with 1. rewrite zlen_cons.
    replace (Z.to_nat (1 + zlen r - 1)) with (length r) by (unfold zlen; lia).
    rewrite take_ge by lia. rewrite drop_ge by (rewrite length_replicate; lia). apply app_nil_r.
  - replace (zlen (l ++ x :: r) - zlen r) with (zlen (l ++ [x])) by (rewrite zlen_snoc; lia).
    replace (l ++ x :: r) with ((l ++ [x]) ++ r) by by rewrite <- app_assoc.
    rewrite goslice_suffix. rewrite <- app_assoc. by rewrite goslice_prefix.
Qed.

Lemma nipN_underflow idx s :
  wf_stack s -> idx < 0 \/ zlen (stk s) <= idx -> nipN idx s = (Err ErrInvalidStackOperation, s).
Proof.
  unfold wf_stack. intros Hsz Hidx. pose proof (zlen_nonneg (stk s)).
  unfold nipN, mbind, go_bind, get. rewrite i32_id by lia. by rewrite decide_True by lia.
Qed.

Lemma PeekByteArray_ok l x r m :
  zlen (l ++ x :: r) < 2 ^ 31 ->
  PeekByteArray (zlen r) (mkStack (l ++ x :: r) m) = (Ok x, mkStack (l ++ x :: r) m).
Proof.
  intros Hsz. pose proof (zlen_nonneg l). pose proof (zlen_nonneg r).
  assert (Hlen : zlen (l ++ x :: r) = zlen l + 1 + zlen r).
  { rewrite zlen_app, zlen_cons. lia. }
  unfold PeekByteArray, mbind, go_bind, get, lift. cbn [stk].
  rewrite i32_id by lia. rewrite decide_False by lia.
  replace (zlen (l ++ x :: r) - zlen r - 1) with (zlen l) by lia. by rewrite goidx_mid.
Qed.

Lemma PeekByteArray_underflow idx s :
  wf_stack s -> idx < 0 \/ zlen (stk s) <= idx ->
  PeekByteArray idx s = (Err ErrInvalidStackOperation, s).
Proof.
  unfold wf_stack. intros Hsz Hidx. pose proof (zlen_nonneg (stk s)).
  unfold PeekByteArray, mbind, go_bind, get. rewrite i32_id by lia. by rewrite decide_True by lia.
Qed.

Lemma PopByteArray_ok l x m :
  zlen (l ++ [x]) < 2 ^ 31 -> PopByteArray (mkStack (l ++ [x]) m) = (Ok x, mkStack l m).
Proof.
  intros Hsz. unfold PopByteArray. change 0 with (zlen (@nil bytes)).
  rewrite nipN_ok by done. by rewrite app_nil_r.
Qed.

Lemma PopByteArray_empty m :
  PopByteArray (mkStack [] m) = (Err ErrInvalidStackOperation, mkStack [] m).
Proof. apply nipN_underflow; [done|]. right. done. Qed.

(** ** Repeated moves and copies

    [RotN] and [SwapN] repeat "move the item at [entry] to the top"; [DupN] and
    [OverN] repeat "copy the item at [entry] to the top". *)

Lemma repeat_nip_ok a l r m entry :
  entry + 1 = zlen (a ++ r) -> zlen (l ++ a ++ r) < 2 ^ 31 ->
  repeatM (length a) (so ← nipN entry; PushByteArray so) (mkStack (l ++ a ++ r) m)
    = (Ok (), mkStack (l ++ r ++ a) m).
Proof.
  revert r. induction a as [|x a IH]; intros r He Hsz; cbn [repeatM length].
  - by rewrite !app_nil_r.
  - assert (Hent : entry = zlen (a ++ r)) by (cbn [app] in He; rewrite zlen_cons in He; lia).
    cbn [app]. erewrite go_bind_ok.
    2: { erewrite go_bind_ok; [|rewrite Hent; by apply nipN_ok]. done. }
    unfold set_stk. cbn [stk verifyMinimalData]. rewrite <- app_assoc. 
    replace ((a ++ r) ++ [x]) with (a ++ (r ++ [x])) by by rewrite app_assoc.
    rewrite IH.
    + by rewrite <- app_assoc.
    + zlen_lia.
    + zlen_lia.
Qed.

Lemma repeat_peek_ok a l r m entry :
  entry + 1 = zlen (a ++ r) -> zlen (l ++ a ++ r ++ a) < 2 ^ 31 ->
  repeatM (length a) (so ← PeekByteArray entry; PushByteArray so) (mkStack (l ++ a ++ r) m)
    = (Ok (), mkStack (l ++ a ++ r ++ a) m).
Proof.
  revert l r. induction a as [|x a IH]; intros l r He Hsz; cbn [repeatM length].
  - by rewrite !app_nil_r.
  - assert (Hent : entry = zlen (a ++ r)) by (cbn [app] in He; rewrite zlen_cons in He; lia).
    cbn [app] in *. erewrite go_bind_ok.
    2: { erewrite go_bind_ok; [|rewrite Hent; apply PeekByteArray_ok].
         - done.
         - zlen_lia. }
    unfold set_stk. cbn [stk verifyMinimalData].
    replace ((l ++ x :: a ++ r) ++ [x]) with ((l ++ [x]) ++ a ++ (r ++ [x]))
      by (by app_norm).
    rewrite IH.
    + by app_norm.
    + zlen_lia.
    + zlen_lia.
Qed.

Lemma repeat_first_err {S E} n (body : go S E unit) s e s' :
  (0 < n)%nat -> body s = (Err e, s') -> repeatM n body s = (Err e, s').
Proof. intros Hn Hb. destruct n; [lia|]. cbn. by apply go_bind_err. Qed.

(** ** The operations on a stack given as [bottom ++ top] *)

Lemma DupN_ok l top m :
  0 < zlen top -> zlen (l ++ top ++ top) < 2 ^ 31 ->
  DupN (zlen top) (mkStack (l ++ top) m) = (Ok (), mkStack (l ++ top ++ top) m).
Proof.
  intros Hn Hsz. unfold DupN. rewrite decide_False by lia. rewrite i32_id by zlen_lia.
  unfold zlen at 1. rewrite Nat2Z.id.
  pose proof (repeat_peek_ok top l [] m (zlen top - 1)) as H0. rewrite !app_nil_r in H0.
  apply H0; zlen_lia.
Qed.

Lemma OverN_ok l a b m :
  0 < zlen a -> zlen b = zlen a -> zlen (l ++ a ++ b ++ a) < 2 ^ 31 ->
  OverN (zlen a) (mkStack (l ++ a ++ b) m) = (Ok (), mkStack (l ++ a ++ b ++ a) m).
Proof.
  intros Hn Hb Hsz. unfold OverN. rewrite decide_False by lia.
  rewrite (i32_id (2 * zlen a)) by zlen_lia. rewrite i32_id by zlen_lia.
  unfold zlen at 1. rewrite Nat2Z.id. apply repeat_peek_ok; zlen_lia.
Qed.

Lemma RotN_ok l a b c m :
  0 < zlen a -> zlen b = zlen a -> zlen c = zlen a -> zlen (l ++ a ++ b ++ c) < 2 ^ 31 ->
  RotN (zlen a) (mkStack (l ++ a ++ b ++ c) m) = (Ok (), mkStack (l ++ b ++ c ++ a) m).
Proof.
  intros Hn Hb Hc Hsz. unfold RotN. rewrite decide_False by lia.
  rewrite (i32_id (3 * zlen a)) by zlen_lia. rewrite i32_id by zlen_lia.
  unfold zlen at 1. rewrite Nat2Z.id. rewrite repeat_nip_ok by zlen_lia. by app_norm.
Qed.

Lemma SwapN_ok l a b m :
  0 < zlen a -> zlen b = zlen a -> zlen (l ++ a ++ b) < 2 ^ 31 ->
  SwapN (zlen a) (mkStack (l ++ a ++ b) m) = (Ok (), mkStack (l ++ b ++ a) m).
Proof.
  intros Hn Hb Hsz. unfold SwapN. rewrite decide_False by lia.
  rewrite (i32_id (2 * zlen a)) by zlen_lia. rewrite i32_id by zlen_lia.
  unfold zlen at 1. rewrite Nat2Z.id. apply repeat_nip_ok; zlen_lia.
Qed.

Lemma DropN_loop_ok l top m :
  zlen (l ++ top) < 2 ^ 31 ->
  repeatM (length top) (PopByteArray ;; mret ()) (mkStack (l ++ top) m) = (Ok (), mkStack l m).
Proof.
  induction top as [|x top IH] using rev_ind; intros Hsz; [by rewrite app_nil_r|].
  rewrite length_app, Nat.add_comm. cbn [Nat.add length repeatM].
  rewrite app_assoc. erewrite go_bind_ok.
  2: { erewrite go_bind_ok; [|apply PopByteArray_ok; by rewrite <- app_assoc]. done. }
  apply IH. zlen_lia.
Qed.

Lemma DropN_ok l top m :
  0 < zlen top -> zlen (l ++ top) < 2 ^ 31 ->
  DropN (zlen top) (mkStack (l ++ top) m) = (Ok (), mkStack l m).
Proof.
  intros Hn Hsz. unfold DropN. rewrite decide_False by lia.
  unfold zlen at 1. rewrite Nat2Z.id. by apply DropN_loop_ok.
Qed.

(** A drop of more items than there are empties the stack before failing. *)

Lemma DropN_loop_underflow n l m :
  zlen l < 2 ^ 31 -> (length l < n)%nat ->
  repeatM n (PopByteArray ;; mret ()) (mkStack l m)
    = (Err ErrInvalidStackOperation, mkStack [] m).
Proof.
  revert n. induction l as [|x l IH] using rev_ind; intros n Hsz Hn.
  - apply repeat_first_err; [lia|]. apply go_bind_err, PopByteArray_empty.
  - rewrite length_app in Hn. cbn in Hn. destruct n as [|n]; [lia|]. cbn [repeatM].
    erewrite go_bind_ok.
    2: { erewrite go_bind_ok; [|by apply PopByteArray_ok]. done. }
    apply IH; [zlen_lia|lia].
Qed.

Lemma PushByteArray_ok x l m : PushByteArray x (mkStack l m) = (Ok (), mkStack (l ++ [x]) m).
Proof. reflexivity. Qed.

Lemma PickN_ok l x r m :
  zlen (l ++ x :: r) < 2 ^ 31 ->
  PickN (zlen r) (mkStack (l ++ x :: r) m) = (Ok (), mkStack (l ++ x :: r ++ [x]) m).
Proof.
  intros Hsz. unfold PickN. erewrite go_bind_ok by by apply PeekByteArray_ok.
  rewrite PushByteArray_ok. by app_norm.
Qed.

Lemma RollN_ok l x r m :
  zlen (l ++ x :: r) < 2 ^ 31 ->
  RollN (zlen r) (mkStack (l ++ x :: r) m) = (Ok (), mkStack (l ++ r ++ [x]) m).
Proof.
  intros Hsz. unfold RollN. erewrite go_bind_ok by by apply nipN_ok.
  rewrite PushByteArray_ok. by app_norm.
Qed.

Lemma Tuck_ok l x1 x2 m :
  zlen (l ++ [x1; x2]) < 2 ^ 31 ->
  Tuck (mkStack (l ++ [x1; x2]) m) = (Ok (), mkStack (l ++ [x2; x1; x2]) m).
Proof.
  intros Hsz. unfold Tuck. change [x1; x2] with ([x1] ++ [x2]) in *. rewrite app_assoc in *.
  erewrite go_bind_ok by by apply PopByteArray_ok.
  erewrite go_bind_ok by (apply PopByteArray_ok; zlen_lia).
  unfold mbind, go_bind. rewrite !PushByteArray_ok. by app_norm.
Qed.

(** the copying operations.  On a stack [l ++ a ++ b] with [n] items in each
    of [a] and [b], [DupN n] copies the top [n] items in order and [OverN n] copies
    the [n] items below them; [PickN] copies the item [n] places down; [Tuck] puts
    a copy of the top item below the second. *)
Theorem stack_copy_ops l a b m :
  0 < zlen a -> zlen b = zlen a -> zlen (l ++ a ++ b ++ a) < 2 ^ 31 ->
  DupN (zlen a) (mkStack (l ++ b) m) = (Ok (), mkStack (l ++ b ++ b) m) /\
  OverN (zlen a) (mkStack (l ++ a ++ b) m) = (Ok (), mkStack (l ++ a ++ b ++ a) m) /\
  (forall x, PickN (zlen a) (mkStack (l ++ x :: a) m) = (Ok (), mkStack (l ++ x :: a ++ [x]) m)) /\
  (forall x y, Tuck (mkStack (l ++ [x; y]) m) = (Ok (), mkStack (l ++ [y; x; y]) m)).
Proof.
  intros Hn Hb Hsz. split_and!.
  - rewrite <- Hb. apply DupN_ok; zlen_lia.
  - by apply OverN_ok.
  - intros x. apply PickN_ok. zlen_lia.
  - intros x y. apply Tuck_ok. zlen_lia.
Qed.

Lemma stack_copy_ops_witness :
  OverN 2 (mkStack [[1]; [2]; [3]; [4]; [5]] true)
    = (Ok (), mkStack [[1]; [2]; [3]; [4]; [5]; [2]; [3]] true).
Proof.
  destruct (stack_copy_ops [[1]] [[2]; [3]] [[4]; [5]] true) as (_ & H & _);
    [vm_compute; reflexivity..|]. exact H.
Defined.

(** the moving operations.  [RotN n] rotates the top [3n] items left by [n],
    [SwapN n] exchanges the top two groups of [n] items, [RollN] moves the item [n]
    places down to the top, [NipN] removes it, and [DropN n] removes the top [n]. *)
Theorem stack_move_ops l a b c m :
  0 < zlen a -> zlen b = zlen a -> zlen c = zlen a -> zlen (l ++ a ++ b ++ c) < 2 ^ 31 ->
  RotN (zlen a) (mkStack (l ++ a ++ b ++ c) m) = (Ok (), mkStack (l ++ b ++ c ++ a) m) /\
  SwapN (zlen a) (mkStack (l ++ a ++ b) m) = (Ok (), mkStack (l ++ b ++ a) m) /\
  (forall x, RollN (zlen a) (mkStack (l ++ x :: a) m) = (Ok (), mkStack (l ++ a ++ [x]) m)) /\
  (forall x, NipN (zlen a) (mkStack (l ++ x :: a) m) = (Ok (), mkStack (l ++ a) m)) /\
  DropN (zlen a) (mkStack (l ++ a) m) = (Ok (), mkStack l m).
Proof.
  intros Hn Hb Hc Hsz. split_and!.
  - by apply RotN_ok.
  - apply SwapN_ok; zlen_lia.
  - intros x. apply RollN_ok. zlen_lia.
  - intros x. unfold NipN. erewrite go_bind_ok by (apply nipN_ok; zlen_lia). done.
  - apply DropN_ok; zlen_lia.
Qed.

Lemma stack_move_ops_witness :
  RotN 2 (mkStack [[1]; [2]; [3]; [4]; [5]; [6]] false)
    = (Ok (), mkStack [[3]; [4]; [5]; [6]; [1]; [2]] false).
Proof.
  destruct (stack_move_ops [] [[1]; [2]] [[3]; [4]] [[5]; [6]] false) as (H & _);
    [vm_compute; reflexivity..|]. exact H.
Defined.

(** ** Underflow *)

Lemma move_underflow n entry s :
  wf_stack s -> (0 < n)%nat -> zlen (stk s) <= entry ->
  repeatM n (so ← nipN entry; PushByteArray so) s = (Err ErrInvalidStackOperation, s).
Proof.
  intros Hwf Hn He. apply repeat_first_err; [done|]. apply go_bind_err, nipN_underflow; [done|lia].
Qed.

Lemma copy_underflow n entry s :
  wf_stack s -> (0 < n)%nat -> zlen (stk s) <= entry ->
  repeatM n (so ← PeekByteArray entry; PushByteArray so) s = (Err ErrInvalidStackOperation, s).
Proof.
  intros Hwf Hn He. apply repeat_first_err; [done|].
  apply go_bind_err, PeekByteArray_underflow; [done|lia].
Qed.

(** underflow.  With fewer items than an operation needs, every operation
    returns [ErrInvalidStackOperation]; the copying and moving ones leave the
    stack as it was, while [DropN] has emptied it and [Tuck] has popped the only
    item. *)
Theorem stack_underflow n s :
  wf_stack s -> 0 < n -> 3 * n < 2 ^ 31 ->
  (zlen (stk s) < n -> DupN n s = (Err ErrInvalidStackOperation, s) /\
                       DropN n s = (Err ErrInvalidStackOperation, set_stk [] s)) /\
  (zlen (stk s) < 2 * n -> SwapN n s = (Err ErrInvalidStackOperation, s) /\
                           OverN n s = (Err ErrInvalidStackOperation, s)) /\
  (zlen (stk s) < 3 * n -> RotN n s = (Err ErrInvalidStackOperation, s)) /\
  (zlen (stk s) <= n -> PickN n s = (Err ErrInvalidStackOperation, s) /\
                        RollN n s = (Err ErrInvalidStackOperation, s) /\
                        NipN n s = (Err ErrInvalidStackOperation, s)) /\
  (zlen (stk s) <= 1 -> Tuck s = (Err ErrInvalidStackOperation, set_stk [] s)).
Proof.
  intros Hwf Hn H3. unfold DupN, DropN, SwapN, OverN, RotN, PickN, RollN, NipN.
  rewrite !decide_False by lia. rewrite !(i32_id (_ * n)) by lia. rewrite !i32_id by lia.
  split_and!; intros Hlen; split_and?; try (apply move_underflow; [done|lia|lia]);
    try (apply copy_underflow; [done|lia|lia]);
    try (apply go_bind_err; first [apply nipN_underflow|apply PeekByteArray_underflow];
         [done|lia]).
  - destruct s as [l m]. apply DropN_loop_underflow; [done|]. unfold zlen in Hlen. cbn in *. lia.
  - destruct s as [l m]. cbn [stk] in Hlen. unfold Tuck, set_stk. cbn [verifyMinimalData].
    destruct l as [|x [|y l]].
    + apply go_bind_err, PopByteArray_empty.
    + erewrite go_bind_ok by (by apply (PopByteArray_ok [])).
      apply go_bind_err, PopByteArray_empty.
    + exfalso. zlen_lia.
Qed.

Lemma stack_underflow_witness :
  DropN 3 (mkStack [[1]; [2]] true) = (Err ErrInvalidStackOperation, mkStack [] true) /\
  RotN 1 (mkStack [[1]; [2]] true) = (Err ErrInvalidStackOperation, mkStack [[1]; [2]] true).
Proof.
  split.
  - destruct (stack_underflow 3 (mkStack [[1]; [2]] true)) as (H & _);
      [done..|]. by apply H.
  - destruct (stack_underflow 1 (mkStack [[1]; [2]] true)) as (_ & _ & H & _);
      [done..|]. by apply H.
Defined.

(** ** Saving and restoring a whole stack *)

Lemma getStack_loop_spec n s done_ :
  wf_stack s -> (length (stk s) = n + length done_)%nat ->
  getStack_loop n s (replicate n [] ++ done_) =
    Ok (take n (stk s) ++ done_).
Proof.
  intros Hwf. revert done_. induction n as [|n IH]; intros d Hlen; [done|].
  destruct s as [l m]. cbn [stk] in *.
  assert (exists a x r, l = a ++ x :: r /\ length a = n /\ length r = length d) as (a & x & r & -> & Ha & Hr).
  { destruct (lookup_lt_is_Some_2 l n) as [x Hx]; [lia|].
    exists (take n l), x, (drop (S n) l). rewrite take_drop_middle by done.
    rewrite length_take, length_drop. split_and!; [done|lia|lia]. }
  unfold wf_stack in Hwf. cbn [stk] in Hwf.
  cbn [getStack_loop].
  assert (Hz : zlen (replicate (S n) (@nil Z) ++ d) = Z.of_nat (S n) + zlen d)
    by (unfold zlen; rewrite length_app, length_replicate; lia).
  rewrite Hz. assert (Hd : zlen d = zlen r) by (unfold zlen; by rewrite Hr).
  rewrite i32_id by zlen_lia.
  replace (Z.of_nat (S n) + zlen d - Z.of_nat (S n)) with (zlen r) by lia.
  rewrite PeekByteArray_ok by done.
  replace (Z.to_nat _) with (n + 0)%nat by lia.
  rewrite replicate_S_end, <- app_assoc, insert_app_r_alt by (rewrite length_replicate; lia).
  rewrite length_replicate, Nat.add_0_r, Nat.sub_diag. cbn [insert list_insert app].
  rewrite IH by (rewrite length_app; cbn; lia).
  f_equal. subst n. rewrite take_app_length. 
  replace (S (length a)) with (length (a ++ [x])) by (rewrite length_app; cbn; lia).
  replace (a ++ x :: r) with ((a ++ [x]) ++ r) by by app_norm.
  rewrite take_app_length. by app_norm.
Qed.

Lemma getStack_spec s : wf_stack s -> getStack s = Ok (stk s).
Proof.
  intros Hwf. unfold getStack. rewrite Depth_spec by done.
  pose proof (zlen_nonneg (stk s)). rewrite decide_False by lia.
  unfold zlen. rewrite Nat2Z.id.
  pose proof (getStack_loop_spec (length (stk s)) s []) as H0.
  rewrite !app_nil_r in H0. rewrite H0 by (done || cbn; lia). by rewrite take_ge by lia.
Qed.

Lemma push_all_spec data l m :
  foldr (fun d k => PushByteArray d ;; k) (mret ()) data (mkStack l m)
    = (Ok (), mkStack (l ++ data) m).
Proof.
  revert l. induction data as [|d data IH]; intros l; cbn [foldr].
  - by rewrite app_nil_r.
  - erewrite go_bind_ok by apply PushByteArray_ok. rewrite IH. by app_norm.
Qed.

Lemma setStack_spec data s : wf_stack s -> setStack data s = (Ok (), set_stk data s).
Proof.
  intros Hwf. unfold setStack. erewrite (go_bind_ok get) by done.
  rewrite Depth_spec by done. destruct s as [l m].
  erewrite go_bind_ok; [apply (push_all_spec data [])|].
  unfold ignore_err. cbn [stk]. destruct l as [|x l]; [done|].
  rewrite (DropN_ok []); [done|zlen_lia|done].
Qed.

(** ** Booleans and numbers on the stack *)

Lemma asBool_loop_spec n i k b :
  wf_bytes k -> n = i + zlen (k ++ [b]) ->
  asBool_loop n i (k ++ [b]) = true <-> le_val k <> 0 \/ (b <> 0 /\ b <> 128).
Proof.
  intros Hwf. revert i. induction Hwf as [|x k Hx Hk IH]; intros i Hn; cbn [asBool_loop app].
  - destruct (decide (b <> 0)); [destruct (decide (i = n - 1 /\ b = 128))|];
      cbn [le_val]; split; try done; try lia. intros _. right. zlen_lia.
  - cbn [le_val]. pose proof (le_val_bound k Hk). unfold is_byte in Hx.
    destruct (decide (x <> 0)) as [Hb|Hb].
    + rewrite decide_False by (intros [? ?]; zlen_lia). split; [|done]. lia.
    + rewrite IH by zlen_lia. lia.
Qed.

(** a stack item is true exactly when the number it encodes is not zero: zero
    of any length, and negative zero of any length, are false. *)
Theorem asBool_numeric t : wf_bytes t -> asBool t = bool_decide (sm_val t <> 0).
Proof.
  intros Hwf. destruct (list_snoc_cases t) as [->|(k & b & ->)]; [done|].
  apply wf_bytes_app in Hwf as [Hk Hb]. apply wf_bytes_1 in Hb. unfold is_byte in Hb.
  unfold asBool. pose proof (asBool_loop_spec (zlen (k ++ [b])) 0 k b Hk eq_refl) as Hiff.
  pose proof (le_val_bound k Hk) as Hbd. assert (0 < 256 ^ zlen k) by lia.
  assert (Hsm : sm_val (k ++ [b]) <> 0 <-> le_val k <> 0 \/ (b <> 0 /\ b <> 128)).
  { rewrite sm_val_snoc. destruct (decide (128 <= b)); nia. }
  rewrite <- Hiff in Hsm. destruct (asBool_loop _ _ _).
  - by rewrite bool_decide_true by by apply Hsm.
  - rewrite bool_decide_false; [done|]. intros H1. by apply Hsm in H1.
Qed.

Lemma asBool_numeric_witness :
  wf_bytes [0; 0; 0x80] /\ asBool [0; 0; 0x80] = bool_decide (sm_val [0; 0; 0x80] <> 0).
Proof.
  split; [by apply (bool_decide_unpack _)|].
  apply asBool_numeric. by apply (bool_decide_unpack _).
Defined.
