(* ===== verification/Opcodes.v ===== *)
(** * The opcode table

    The constants, the [opcode] record and the 256-entry table of
    [tokenengine/internal/txscript/opcode.go], with the predicates on a parsed
    opcode and its encoding back to bytes.  A handler stored in the table is a
    tag of [opfunc_id]; [OpcodeExec] maps a tag to the handler it names.

    The theorems: the table is indexed by its own opcode values and gives every
    opcode the encoded length the parser expects; [checkMinimalDataPush] accepts
    one opcode for each data and it is the shortest. *)

From S2P Require Import Prelude ScriptErrors.

#[local] Open Scope Z_scope.

(** ** Opcode values *)

Abbreviation OP_0 := 0x00 (only parsing).
Abbreviation OP_FALSE := 0x00 (only parsing).
(** [OP_DATA_1] to [OP_DATA_75] are 1 to 75, and [OP_UNKNOWN186] to [OP_UNKNOWN252]
    the numbers of their names. *)
Definition OP_DATA (n : Z) : Z := n.
Definition OP_UNKNOWN (n : Z) : Z := n.
Abbreviation OP_DATA_1 := 0x01 (only parsing).
Abbreviation OP_DATA_20 := 0x14 (only parsing).
Abbreviation OP_DATA_32 := 0x20 (only parsing).
Abbreviation OP_PUSHDATA1 := 0x4c (only parsing).
Abbreviation OP_PUSHDATA2 := 0x4d (only parsing).
Abbreviation OP_PUSHDATA4 := 0x4e (only parsing).
Abbreviation OP_1NEGATE := 0x4f (only parsing).
Abbreviation OP_RESERVED := 0x50 (only parsing).
Abbreviation OP_1 := 0x51 (only parsing).
Abbreviation OP_TRUE := 0x51 (only parsing).
Abbreviation OP_2 := 0x52 (only parsing).
Abbreviation OP_3 := 0x53 (only parsing).
Abbreviation OP_4 := 0x54 (only parsing).
Abbreviation OP_5 := 0x55 (only parsing).
Abbreviation OP_6 := 0x56 (only parsing).
Abbreviation OP_7 := 0x57 (only parsing).
Abbreviation OP_8 := 0x58 (only parsing).
Abbreviation OP_9 := 0x59 (only parsing).
Abbreviation OP_10 := 0x5a (only parsing).
Abbreviation OP_11 := 0x5b (only parsing).
Abbreviation OP_12 := 0x5c (only parsing).
Abbreviation OP_13 := 0x5d (only parsing).
Abbreviation OP_14 := 0x5e (only parsing).
Abbreviation OP_15 := 0x5f (only parsing).
Abbreviation OP_16 := 0x60 (only parsing).
Abbreviation OP_NOP := 0x61 (only parsing).
Abbreviation OP_VER := 0x62 (only parsing).
Abbreviation OP_IF := 0x63 (only parsing).
Abbreviation OP_NOTIF := 0x64 (only parsing).
Abbreviation OP_VERIF := 0x65 (only parsing).
Abbreviation OP_VERNOTIF := 0x66 (only parsing).
Abbreviation OP_ELSE := 0x67 (only parsing).
Abbreviation OP_ENDIF := 0x68 (only parsing).
Abbreviation OP_VERIFY := 0x69 (only parsing).
Abbreviation OP_RETURN := 0x6a (only parsing).
Abbreviation OP_TOALTSTACK := 0x6b (only parsing).
Abbreviation OP_FROMALTSTACK := 0x6c (only parsing).
Abbreviation OP_2DROP := 0x6d (only parsing).
Abbreviation OP_2DUP := 0x6e (only parsing).
Abbreviation OP_3DUP := 0x6f (only parsing).
Abbreviation OP_2OVER := 0x70 (only parsing).
Abbreviation OP_2ROT := 0x71 (only parsing).
Abbreviation OP_2SWAP := 0x72 (only parsing).
Abbreviation OP_IFDUP := 0x73 (only parsing).
Abbreviation OP_DEPTH := 0x74 (only parsing).
Abbreviation OP_DROP := 0x75 (only parsing).
Abbreviation OP_DUP := 0x76 (only parsing).
Abbreviation OP_NIP := 0x77 (only parsing).
Abbreviation OP_OVER := 0x78 (only parsing).
Abbreviation OP_PICK := 0x79 (only parsing).
Abbreviation OP_ROLL := 0x7a (only parsing).
Abbreviation OP_ROT := 0x7b (only parsing).
Abbreviation OP_SWAP := 0x7c (only parsing).
Abbreviation OP_TUCK := 0x7d (only parsing).
Abbreviation OP_CAT := 0x7e (only parsing).
Abbreviation OP_SUBSTR := 0x7f (only parsing).
Abbreviation OP_LEFT := 0x80 (only parsing).
Abbreviation OP_RIGHT := 0x81 (only parsing).
Abbreviation OP_SIZE := 0x82 (only parsing).
Abbreviation OP_INVERT := 0x83 (only parsing).
Abbreviation OP_AND := 0x84 (only parsing).
Abbreviation OP_OR := 0x85 (only parsing).
Abbreviation OP_XOR := 0x86 (only parsing).
Abbreviation OP_EQUAL := 0x87 (only parsing).
Abbreviation OP_EQUALVERIFY := 0x88 (only parsing).
Abbreviation OP_RESERVED1 := 0x89 (only parsing).
Abbreviation OP_RESERVED2 := 0x8a (only parsing).
Abbreviation OP_1ADD := 0x8b (only parsing).
Abbreviation OP_1SUB := 0x8c (only parsing).
Abbreviation OP_2MUL := 0x8d (only parsing).
Abbreviation OP_2DIV := 0x8e (only parsing).
Abbreviation OP_NEGATE := 0x8f (only parsing).
Abbreviation OP_ABS := 0x90 (only parsing).
Abbreviation OP_NOT := 0x91 (only parsing).
Abbreviation OP_0NOTEQUAL := 0x92 (only parsing).
Abbreviation OP_ADD := 0x93 (only parsing).
Abbreviation OP_SUB := 0x94 (only parsing).
Abbreviation OP_MUL := 0x95 (only parsing).
Abbreviation OP_DIV := 0x96 (only parsing).
Abbreviation OP_MOD := 0x97 (only parsing).
Abbreviation OP_LSHIFT := 0x98 (only parsing).
Abbreviation OP_RSHIFT := 0x99 (only parsing).
Abbreviation OP_BOOLAND := 0x9a (only parsing).
Abbreviation OP_BOOLOR := 0x9b (only parsing).
Abbreviation OP_NUMEQUAL := 0x9c (only parsing).
Abbreviation OP_NUMEQUALVERIFY := 0x9d (only parsing).
Abbreviation OP_NUMNOTEQUAL := 0x9e (only parsing).
Abbreviation OP_LESSTHAN := 0x9f (only parsing).
Abbreviation OP_GREATERTHAN := 0xa0 (only parsing).
Abbreviation OP_LESSTHANOREQUAL := 0xa1 (only parsing).
Abbreviation OP_GREATERTHANOREQUAL := 0xa2 (only parsing).
Abbreviation OP_MIN := 0xa3 (only parsing).
Abbreviation OP_MAX := 0xa4 (only parsing).
Abbreviation OP_WITHIN := 0xa5 (only parsing).
Abbreviation OP_RIPEMD160 := 0xa6 (only parsing).
Abbreviation OP_SHA1 := 0xa7 (only parsing).
Abbreviation OP_SHA256 := 0xa8 (only parsing).
Abbreviation OP_HASH160 := 0xa9 (only parsing).
Abbreviation OP_HASH256 := 0xaa (only parsing).
Abbreviation OP_CODESEPARATOR := 0xab (only parsing).
Abbreviation OP_CHECKSIG := 0xac (only parsing).
Abbreviation OP_CHECKSIGVERIFY := 0xad (only parsing).
Abbreviation OP_CHECKMULTISIG := 0xae (only parsing).
Abbreviation OP_CHECKMULTISIGVERIFY := 0xaf (only parsing).
Abbreviation OP_NOP1 := 0xb0 (only parsing).
Abbreviation OP_NOP2 := 0xb1 (only parsing).
Abbreviation OP_CHECKLOCKTIMEVERIFY := 0xb1 (only parsing).
Abbreviation OP_NOP3 := 0xb2 (only parsing).
Abbreviation OP_CHECKSEQUENCEVERIFY := 0xb2 (only parsing).
Abbreviation OP_NOP4 := 0xb3 (only parsing).
Abbreviation OP_NOP5 := 0xb4 (only parsing).
Abbreviation OP_NOP6 := 0xb5 (only parsing).
Abbreviation OP_NOP7 := 0xb6 (only parsing).
Abbreviation OP_NOP8 := 0xb7 (only parsing).
Abbreviation OP_NOP9 := 0xb8 (only parsing).
Abbreviation OP_NOP10 := 0xb9 (only parsing).
Abbreviation OP_JURY_REDEEM_EQUAL := 0xc8 (only parsing).
Abbreviation OP_SMALLINTEGER := 0xfa (only parsing).
Abbreviation OP_PUBKEYS := 0xfb (only parsing).
Abbreviation OP_PUBKEYHASH := 0xfd (only parsing).
Abbreviation OP_PUBKEY := 0xfe (only parsing).
Abbreviation OP_INVALIDOPCODE := 0xff (only parsing).

(** Conditional execution constants. *)

Definition OpCondFalse : Z := 0.
Definition OpCondTrue : Z := 1.
Definition OpCondSkip : Z := 2.

(** ** Handlers and opcodes *)

Inductive opfunc_id : Set :=
  | fn_opcodeFalse
  | fn_opcodePushData
  | fn_opcode1Negate
  | fn_opcodeReserved
  | fn_opcodeN
  | fn_opcodeNop
  | fn_opcodeIf
  | fn_opcodeNotIf
  | fn_opcodeElse
  | fn_opcodeEndif
  | fn_opcodeVerify
  | fn_opcodeReturn
  | fn_opcodeCheckLockTimeVerify
  | fn_opcodeCheckSequenceVerify
  | fn_opcodeToAltStack
  | fn_opcodeFromAltStack
  | fn_opcode2Drop
  | fn_opcode2Dup
  | fn_opcode3Dup
  | fn_opcode2Over
  | fn_opcode2Rot
  | fn_opcode2Swap
  | fn_opcodeIfDup
  | fn_opcodeDepth
  | fn_opcodeDrop
  | fn_opcodeDup
  | fn_opcodeNip
  | fn_opcodeOver
  | fn_opcodePick
  | fn_opcodeRoll
  | fn_opcodeRot
  | fn_opcodeSwap
  | fn_opcodeTuck
  | fn_opcodeDisabled
  | fn_opcodeSize
  | fn_opcodeEqual
  | fn_opcodeEqualVerify
  | fn_opcode1Add
  | fn_opcode1Sub
  | fn_opcodeNegate
  | fn_opcodeAbs
  | fn_opcodeNot
  | fn_opcode0NotEqual
  | fn_opcodeAdd
  | fn_opcodeSub
  | fn_opcodeBoolAnd
  | fn_opcodeBoolOr
  | fn_opcodeNumEqual
  | fn_opcodeNumEqualVerify
  | fn_opcodeNumNotEqual
  | fn_opcodeLessThan
  | fn_opcodeGreaterThan
  | fn_opcodeLessThanOrEqual
  | fn_opcodeGreaterThanOrEqual
  | fn_opcodeMin
  | fn_opcodeMax
  | fn_opcodeWithin
  | fn_opcodeRipemd160
  | fn_opcodeSha1
  | fn_opcodeSha256
  | fn_opcodeHash160
  | fn_opcodeHash256
  | fn_opcodeCodeSeparator
  | fn_opcodeCheckSig
  | fn_opcodeCheckSigVerify
  | fn_opcodeCheckMultiSig
  | fn_opcodeCheckMultiSigVerify
  | fn_opcodeInvalid
  | fn_opcodeCheckJuryRedeemEqual.

#[export] Instance opfunc_id_eq_dec : EqDecision opfunc_id.
Proof. solve_decision. Defined.

Record opcode := mkOpcode {
  value : Z;
  name : string;
  length_ : Z;
  opfunc : opfunc_id
}.

#[export] Instance opcode_eq_dec : EqDecision opcode.
Proof. solve_decision. Defined.

(** The keyed array literal, in the order of the source. *)

#[local] Open Scope string_scope.

Definition opcodeArray_entries : list (Z * opcode) := [
  (OP_FALSE, mkOpcode OP_FALSE "OP_0" 1 fn_opcodeFalse);
  (OP_DATA 1, mkOpcode (OP_DATA 1) "OP_DATA_1" 2 fn_opcodePushData);
  (OP_DATA 2, mkOpcode (OP_DATA 2) "OP_DATA_2" 3 fn_opcodePushData);
  (OP_DATA 3, mkOpcode (OP_DATA 3) "OP_DATA_3" 4 fn_opcodePushData);
  (OP_DATA 4, mkOpcode (OP_DATA 4) "OP_DATA_4" 5 fn_opcodePushData);
  (OP_DATA 5, mkOpcode (OP_DATA 5) "OP_DATA_5" 6 fn_opcodePushData);
  (OP_DATA 6, mkOpcode (OP_DATA 6) "OP_DATA_6" 7 fn_opcodePushData);
  (OP_DATA 7, mkOpcode (OP_DATA 7) "OP_DATA_7" 8 fn_opcodePushData);
  (OP_DATA 8, mkOpcode (OP_DATA 8) "OP_DATA_8" 9 fn_opcodePushData);
  (OP_DATA 9, mkOpcode (OP_DATA 9) "OP_DATA_9" 10 fn_opcodePushData);
  (OP_DATA 10, mkOpcode (OP_DATA 10) "OP_DATA_10" 11 fn_opcodePushData);
  (OP_DATA 11, mkOpcode (OP_DATA 11) "OP_DATA_11" 12 fn_opcodePushData);
  (OP_DATA 12, mkOpcode (OP_DATA 12) "OP_DATA_12" 13 fn_opcodePushData);
  (OP_DATA 13, mkOpcode (OP_DATA 13) "OP_DATA_13" 14 fn_opcodePushData);
  (OP_DATA 14, mkOpcode (OP_DATA 14) "OP_DATA_14" 15 fn_opcodePushData);
  (OP_DATA 15, mkOpcode (OP_DATA 15) "OP_DATA_15" 16 fn_opcodePushData);
  (OP_DATA 16, mkOpcode (OP_DATA 16) "OP_DATA_16" 17 fn_opcodePushData);
  (OP_DATA 17, mkOpcode (OP_DATA 17) "OP_DATA_17" 18 fn_opcodePushData);
  (OP_DATA 18, mkOpcode (OP_DATA 18) "OP_DATA_18" 19 fn_opcodePushData);
  (OP_DATA 19, mkOpcode (OP_DATA 19) "OP_DATA_19" 20 fn_opcodePushData);
  (OP_DATA 20, mkOpcode (OP_DATA 20) "OP_DATA_20" 21 fn_opcodePushData);
  (OP_DATA 21, mkOpcode (OP_DATA 21) "OP_DATA_21" 22 fn_opcodePushData);
  (OP_DATA 22, mkOpcode (OP_DATA 22) "OP_DATA_22" 23 fn_opcodePushData);
  (OP_DATA 23, mkOpcode (OP_DATA 23) "OP_DATA_23" 24 fn_opcodePushData);
  (OP_DATA 24, mkOpcode (OP_DATA 24) "OP_DATA_24" 25 fn_opcodePushData);
  (OP_DATA 25, mkOpcode (OP_DATA 25) "OP_DATA_25" 26 fn_opcodePushData);
  (OP_DATA 26, mkOpcode (OP_DATA 26) "OP_DATA_26" 27 fn_opcodePushData);
  (OP_DATA 27, mkOpcode (OP_DATA 27) "OP_DATA_27" 28 fn_opcodePushData);
  (OP_DATA 28, mkOpcode (OP_DATA 28) "OP_DATA_28" 29 fn_opcodePushData);
  (OP_DATA 29, mkOpcode (OP_DATA 29) "OP_DATA_29" 30 fn_opcodePushData);
  (OP_DATA 30, mkOpcode (OP_DATA 30) "OP_DATA_30" 31 fn_opcodePushData);
  (OP_DATA 31, mkOpcode (OP_DATA 31) "OP_DATA_31" 32 fn_opcodePushData);
  (OP_DATA 32, mkOpcode (OP_DATA 32) "OP_DATA_32" 33 fn_opcodePushData);
  (OP_DATA 33, mkOpcode (OP_DATA 33) "OP_DATA_33" 34 fn_opcodePushData);
  (OP_DATA 34, mkOpcode (OP_DATA 34) "OP_DATA_34" 35 fn_opcodePushData);
  (OP_DATA 35, mkOpcode (OP_DATA 35) "OP_DATA_35" 36 fn_opcodePushData);
  (OP_DATA 36, mkOpcode (OP_DATA 36) "OP_DATA_36" 37 fn_opcodePushData);
  (OP_DATA 37, mkOpcode (OP_DATA 37) "OP_DATA_37" 38 fn_opcodePushData);
  (OP_DATA 38, mkOpcode (OP_DATA 38) "OP_DATA_38" 39 fn_opcodePushData);
  (OP_DATA 39, mkOpcode (OP_DATA 39) "OP_DATA_39" 40 fn_opcodePushData);
  (OP_DATA 40, mkOpcode (OP_DATA 40) "OP_DATA_40" 41 fn_opcodePushData);
  (OP_DATA 41, mkOpcode (OP_DATA 41) "OP_DATA_41" 42 fn_opcodePushData);
  (OP_DATA 42, mkOpcode (OP_DATA 42) "OP_DATA_42" 43 fn_opcodePushData);
  (OP_DATA 43, mkOpcode (OP_DATA 43) "OP_DATA_43" 44 fn_opcodePushData);
  (OP_DATA 44, mkOpcode (OP_DATA 44) "OP_DATA_44" 45 fn_opcodePushData);
  (OP_DATA 45, mkOpcode (OP_DATA 45) "OP_DATA_45" 46 fn_opcodePushData);
  (OP_DATA 46, mkOpcode (OP_DATA 46) "OP_DATA_46" 47 fn_opcodePushData);
  (OP_DATA 47, mkOpcode (OP_DATA 47) "OP_DATA_47" 48 fn_opcodePushData);
  (OP_DATA 48, mkOpcode (OP_DATA 48) "OP_DATA_48" 49 fn_opcodePushData);
  (OP_DATA 49, mkOpcode (OP_DATA 49) "OP_DATA_49" 50 fn_opcodePushData);
  (OP_DATA 50, mkOpcode (OP_DATA 50) "OP_DATA_50" 51 fn_opcodePushData);
  (OP_DATA 51, mkOpcode (OP_DATA 51) "OP_DATA_51" 52 fn_opcodePushData);
  (OP_DATA 52, mkOpcode (OP_DATA 52) "OP_DATA_52" 53 fn_opcodePushData);
  (OP_DATA 53, mkOpcode (OP_DATA 53) "OP_DATA_53" 54 fn_opcodePushData);
  (OP_DATA 54, mkOpcode (OP_DATA 54) "OP_DATA_54" 55 fn_opcodePushData);
  (OP_DATA 55, mkOpcode (OP_DATA 55) "OP_DATA_55" 56 fn_opcodePushData);
  (OP_DATA 56, mkOpcode (OP_DATA 56) "OP_DATA_56" 57 fn_opcodePushData);
  (OP_DATA 57, mkOpcode (OP_DATA 57) "OP_DATA_57" 58 fn_opcodePushData);
  (OP_DATA 58, mkOpcode (OP_DATA 58) "OP_DATA_58" 59 fn_opcodePushData);
  (OP_DATA 59, mkOpcode (OP_DATA 59) "OP_DATA_59" 60 fn_opcodePushData);
  (OP_DATA 60, mkOpcode (OP_DATA 60) "OP_DATA_60" 61 fn_opcodePushData);
  (OP_DATA 61, mkOpcode (OP_DATA 61) "OP_DATA_61" 62 fn_opcodePushData);
  (OP_DATA 62, mkOpcode (OP_DATA 62) "OP_DATA_62" 63 fn_opcodePushData);
  (OP_DATA 63, mkOpcode (OP_DATA 63) "OP_DATA_63" 64 fn_opcodePushData);
  (OP_DATA 64, mkOpcode (OP_DATA 64) "OP_DATA_64" 65 fn_opcodePushData);
  (OP_DATA 65, mkOpcode (OP_DATA 65) "OP_DATA_65" 66 fn_opcodePushData);
  (OP_DATA 66, mkOpcode (OP_DATA 66) "OP_DATA_66" 67 fn_opcodePushData);
  (OP_DATA 67, mkOpcode (OP_DATA 67) "OP_DATA_67" 68 fn_opcodePushData);
  (OP_DATA 68, mkOpcode (OP_DATA 68) "OP_DATA_68" 69 fn_opcodePushData);
  (OP_DATA 69, mkOpcode (OP_DATA 69) "OP_DATA_69" 70 fn_opcodePushData);
  (OP_DATA 70, mkOpcode (OP_DATA 70) "OP_DATA_70" 71 fn_opcodePushData);
  (OP_DATA 71, mkOpcode (OP_DATA 71) "OP_DATA_71" 72 fn_opcodePushData);
  (OP_DATA 72, mkOpcode (OP_DATA 72) "OP_DATA_72" 73 fn_opcodePushData);
  (OP_DATA 73, mkOpcode (OP_DATA 73) "OP_DATA_73" 74 fn_opcodePushData);
  (OP_DATA 74, mkOpcode (OP_DATA 74) "OP_DATA_74" 75 fn_opcodePushData);
  (OP_DATA 75, mkOpcode (OP_DATA 75) "OP_DATA_75" 76 fn_opcodePushData);
  (OP_PUSHDATA1, mkOpcode OP_PUSHDATA1 "OP_PUSHDATA1" (-1) fn_opcodePushData);
  (OP_PUSHDATA2, mkOpcode OP_PUSHDATA2 "OP_PUSHDATA2" (-2) fn_opcodePushData);
  (OP_PUSHDATA4, mkOpcode OP_PUSHDATA4 "OP_PUSHDATA4" (-4) fn_opcodePushData);
  (OP_1NEGATE, mkOpcode OP_1NEGATE "OP_1NEGATE" 1 fn_opcode1Negate);
  (OP_RESERVED, mkOpcode OP_RESERVED "OP_RESERVED" 1 fn_opcodeReserved);
  (OP_TRUE, mkOpcode OP_TRUE "OP_1" 1 fn_opcodeN);
  (OP_2, mkOpcode OP_2 "OP_2" 1 fn_opcodeN);
  (OP_3, mkOpcode OP_3 "OP_3" 1 fn_opcodeN);
  (OP_4, mkOpcode OP_4 "OP_4" 1 fn_opcodeN);
  (OP_5, mkOpcode OP_5 "OP_5" 1 fn_opcodeN);
  (OP_6, mkOpcode OP_6 "OP_6" 1 fn_opcodeN);
  (OP_7, mkOpcode OP_7 "OP_7" 1 fn_opcodeN);
  (OP_8, mkOpcode OP_8 "OP_8" 1 fn_opcodeN);
  (OP_9, mkOpcode OP_9 "OP_9" 1 fn_opcodeN);
  (OP_10, mkOpcode OP_10 "OP_10" 1 fn_opcodeN);
  (OP_11, mkOpcode OP_11 "OP_11" 1 fn_opcodeN);
  (OP_12, mkOpcode OP_12 "OP_12" 1 fn_opcodeN);
  (OP_13, mkOpcode OP_13 "OP_13" 1 fn_opcodeN);
  (OP_14, mkOpcode OP_14 "OP_14" 1 fn_opcodeN);
  (OP_15, mkOpcode OP_15 "OP_15" 1 fn_opcodeN);
  (OP_16, mkOpcode OP_16 "OP_16" 1 fn_opcodeN);
  (OP_NOP, mkOpcode OP_NOP "OP_NOP" 1 fn_opcodeNop);
  (OP_VER, mkOpcode OP_VER "OP_VER" 1 fn_opcodeReserved);
  (OP_IF, mkOpcode OP_IF "OP_IF" 1 fn_opcodeIf);
  (OP_NOTIF, mkOpcode OP_NOTIF "OP_NOTIF" 1 fn_opcodeNotIf);
  (OP_VERIF, mkOpcode OP_VERIF "OP_VERIF" 1 fn_opcodeReserved);
  (OP_VERNOTIF, mkOpcode OP_VERNOTIF "OP_VERNOTIF" 1 fn_opcodeReserved);
  (OP_ELSE, mkOpcode OP_ELSE "OP_ELSE" 1 fn_opcodeElse);
  (OP_ENDIF, mkOpcode OP_ENDIF "OP_ENDIF" 1 fn_opcodeEndif);
  (OP_VERIFY, mkOpcode OP_VERIFY "OP_VERIFY" 1 fn_opcodeVerify);
  (OP_RETURN, mkOpcode OP_RETURN "OP_RETURN" 1 fn_opcodeReturn);
  (OP_CHECKLOCKTIMEVERIFY, mkOpcode OP_CHECKLOCKTIMEVERIFY "OP_CHECKLOCKTIMEVERIFY" 1 fn_opcodeCheckLockTimeVerify);
  (OP_CHECKSEQUENCEVERIFY, mkOpcode OP_CHECKSEQUENCEVERIFY "OP_CHECKSEQUENCEVERIFY" 1 fn_opcodeCheckSequenceVerify);
  (OP_TOALTSTACK, mkOpcode OP_TOALTSTACK "OP_TOALTSTACK" 1 fn_opcodeToAltStack);
  (OP_FROMALTSTACK, mkOpcode OP_FROMALTSTACK "OP_FROMALTSTACK" 1 fn_opcodeFromAltStack);
  (OP_2DROP, mkOpcode OP_2DROP "OP_2DROP" 1 fn_opcode2Drop);
  (OP_2DUP, mkOpcode OP_2DUP "OP_2DUP" 1 fn_opcode2Dup);
  (OP_3DUP, mkOpcode OP_3DUP "OP_3DUP" 1 fn_opcode3Dup);
  (OP_2OVER, mkOpcode OP_2OVER "OP_2OVER" 1 fn_opcode2Over);
  (OP_2ROT, mkOpcode OP_2ROT "OP_2ROT" 1 fn_opcode2Rot);
  (OP_2SWAP, mkOpcode OP_2SWAP "OP_2SWAP" 1 fn_opcode2Swap);
  (OP_IFDUP, mkOpcode OP_IFDUP "OP_IFDUP" 1 fn_opcodeIfDup);
  (OP_DEPTH, mkOpcode OP_DEPTH "OP_DEPTH" 1 fn_opcodeDepth);
  (OP_DROP, mkOpcode OP_DROP "OP_DROP" 1 fn_opcodeDrop);
  (OP_DUP, mkOpcode OP_DUP "OP_DUP" 1 fn_opcodeDup);
  (OP_NIP, mkOpcode OP_NIP "OP_NIP" 1 fn_opcodeNip);
  (OP_OVER, mkOpcode OP_OVER "OP_OVER" 1 fn_opcodeOver);
  (OP_PICK, mkOpcode OP_PICK "OP_PICK" 1 fn_opcodePick);
  (OP_ROLL, mkOpcode OP_ROLL "OP_ROLL" 1 fn_opcodeRoll);
  (OP_ROT, mkOpcode OP_ROT "OP_ROT" 1 fn_opcodeRot);
  (OP_SWAP, mkOpcode OP_SWAP "OP_SWAP" 1 fn_opcodeSwap);
  (OP_TUCK, mkOpcode OP_TUCK "OP_TUCK" 1 fn_opcodeTuck);
  (OP_CAT, mkOpcode OP_CAT "OP_CAT" 1 fn_opcodeDisabled);
  (OP_SUBSTR, mkOpcode OP_SUBSTR "OP_SUBSTR" 1 fn_opcodeDisabled);
  (OP_LEFT, mkOpcode OP_LEFT "OP_LEFT" 1 fn_opcodeDisabled);
  (OP_RIGHT, mkOpcode OP_RIGHT "OP_RIGHT" 1 fn_opcodeDisabled);
  (OP_SIZE, mkOpcode OP_SIZE "OP_SIZE" 1 fn_opcodeSize);
  (OP_INVERT, mkOpcode OP_INVERT "OP_INVERT" 1 fn_opcodeDisabled);
  (OP_AND, mkOpcode OP_AND "OP_AND" 1 fn_opcodeDisabled);
  (OP_OR, mkOpcode OP_OR "OP_OR" 1 fn_opcodeDisabled);
  (OP_XOR, mkOpcode OP_XOR "OP_XOR" 1 fn_opcodeDisabled);
  (OP_EQUAL, mkOpcode OP_EQUAL "OP_EQUAL" 1 fn_opcodeEqual);
  (OP_EQUALVERIFY, mkOpcode OP_EQUALVERIFY "OP_EQUALVERIFY" 1 fn_opcodeEqualVerify);
  (OP_RESERVED1, mkOpcode OP_RESERVED1 "OP_RESERVED1" 1 fn_opcodeReserved);
  (OP_RESERVED2, mkOpcode OP_RESERVED2 "OP_RESERVED2" 1 fn_opcodeReserved);
  (OP_1ADD, mkOpcode OP_1ADD "OP_1ADD" 1 fn_opcode1Add);
  (OP_1SUB, mkOpcode OP_1SUB "OP_1SUB" 1 fn_opcode1Sub);
  (OP_2MUL, mkOpcode OP_2MUL "OP_2MUL" 1 fn_opcodeDisabled);
  (OP_2DIV, mkOpcode OP_2DIV "OP_2DIV" 1 fn_opcodeDisabled);
  (OP_NEGATE, mkOpcode OP_NEGATE "OP_NEGATE" 1 fn_opcodeNegate);
  (OP_ABS, mkOpcode OP_ABS "OP_ABS" 1 fn_opcodeAbs);
  (OP_NOT, mkOpcode OP_NOT "OP_NOT" 1 fn_opcodeNot);
  (OP_0NOTEQUAL, mkOpcode OP_0NOTEQUAL "OP_0NOTEQUAL" 1 fn_opcode0NotEqual);
  (OP_ADD, mkOpcode OP_ADD "OP_ADD" 1 fn_opcodeAdd);
  (OP_SUB, mkOpcode OP_SUB "OP_SUB" 1 fn_opcodeSub);
  (OP_MUL, mkOpcode OP_MUL "OP_MUL" 1 fn_opcodeDisabled);
  (OP_DIV, mkOpcode OP_DIV "OP_DIV" 1 fn_opcodeDisabled);
  (OP_MOD, mkOpcode OP_MOD "OP_MOD" 1 fn_opcodeDisabled);
  (OP_LSHIFT, mkOpcode OP_LSHIFT "OP_LSHIFT" 1 fn_opcodeDisabled);
  (OP_RSHIFT, mkOpcode OP_RSHIFT "OP_RSHIFT" 1 fn_opcodeDisabled);
  (OP_BOOLAND, mkOpcode OP_BOOLAND "OP_BOOLAND" 1 fn_opcodeBoolAnd);
  (OP_BOOLOR, mkOpcode OP_BOOLOR "OP_BOOLOR" 1 fn_opcodeBoolOr);
  (OP_NUMEQUAL, mkOpcode OP_NUMEQUAL "OP_NUMEQUAL" 1 fn_opcodeNumEqual);
  (OP_NUMEQUALVERIFY, mkOpcode OP_NUMEQUALVERIFY "OP_NUMEQUALVERIFY" 1 fn_opcodeNumEqualVerify);
  (OP_NUMNOTEQUAL, mkOpcode OP_NUMNOTEQUAL "OP_NUMNOTEQUAL" 1 fn_opcodeNumNotEqual);
  (OP_LESSTHAN, mkOpcode OP_LESSTHAN "OP_LESSTHAN" 1 fn_opcodeLessThan);
  (OP_GREATERTHAN, mkOpcode OP_GREATERTHAN "OP_GREATERTHAN" 1 fn_opcodeGreaterThan);
  (OP_LESSTHANOREQUAL, mkOpcode OP_LESSTHANOREQUAL "OP_LESSTHANOREQUAL" 1 fn_opcodeLessThanOrEqual);
  (OP_GREATERTHANOREQUAL, mkOpcode OP_GREATERTHANOREQUAL "OP_GREATERTHANOREQUAL" 1 fn_opcodeGreaterThanOrEqual);
  (OP_MIN, mkOpcode OP_MIN "OP_MIN" 1 fn_opcodeMin);
  (OP_MAX, mkOpcode OP_MAX "OP_MAX" 1 fn_opcodeMax);
  (OP_WITHIN, mkOpcode OP_WITHIN "OP_WITHIN" 1 fn_opcodeWithin);
  (OP_RIPEMD160, mkOpcode OP_RIPEMD160 "OP_RIPEMD160" 1 fn_opcodeRipemd160);
  (OP_SHA1, mkOpcode OP_SHA1 "OP_SHA1" 1 fn_opcodeSha1);
  (OP_SHA256, mkOpcode OP_SHA256 "OP_SHA256" 1 fn_opcodeSha256);
  (OP_HASH160, mkOpcode OP_HASH160 "OP_HASH160" 1 fn_opcodeHash160);
  (OP_HASH256, mkOpcode OP_HASH256 "OP_HASH256" 1 fn_opcodeHash256);
  (OP_CODESEPARATOR, mkOpcode OP_CODESEPARATOR "OP_CODESEPARATOR" 1 fn_opcodeCodeSeparator);
  (OP_CHECKSIG, mkOpcode OP_CHECKSIG "OP_CHECKSIG" 1 fn_opcodeCheckSig);
  (OP_CHECKSIGVERIFY, mkOpcode OP_CHECKSIGVERIFY "OP_CHECKSIGVERIFY" 1 fn_opcodeCheckSigVerify);
  (OP_CHECKMULTISIG, mkOpcode OP_CHECKMULTISIG "OP_CHECKMULTISIG" 1 fn_opcodeCheckMultiSig);
  (OP_CHECKMULTISIGVERIFY, mkOpcode OP_CHECKMULTISIGVERIFY "OP_CHECKMULTISIGVERIFY" 1 fn_opcodeCheckMultiSigVerify);
  (OP_NOP1, mkOpcode OP_NOP1 "OP_NOP1" 1 fn_opcodeNop);
  (OP_NOP4, mkOpcode OP_NOP4 "OP_NOP4" 1 fn_opcodeNop);
  (OP_NOP5, mkOpcode OP_NOP5 "OP_NOP5" 1 fn_opcodeNop);
  (OP_NOP6, mkOpcode OP_NOP6 "OP_NOP6" 1 fn_opcodeNop);
  (OP_NOP7, mkOpcode OP_NOP7 "OP_NOP7" 1 fn_opcodeNop);
  (OP_NOP8, mkOpcode OP_NOP8 "OP_NOP8" 1 fn_opcodeNop);
  (OP_NOP9, mkOpcode OP_NOP9 "OP_NOP9" 1 fn_opcodeNop);
  (OP_NOP10, mkOpcode OP_NOP10 "OP_NOP10" 1 fn_opcodeNop);
  (OP_UNKNOWN 186, mkOpcode (OP_UNKNOWN 186) "OP_UNKNOWN186" 1 fn_opcodeInvalid);
  (OP_UNKNOWN 187, mkOpcode (OP_UNKNOWN 187) "OP_UNKNOWN187" 1 fn_opcodeInvalid);
  (OP_UNKNOWN 188, mkOpcode (OP_UNKNOWN 188) "OP_UNKNOWN188" 1 fn_opcodeInvalid);
  (OP_UNKNOWN 189, mkOpcode (OP_UNKNOWN 189) "OP_UNKNOWN189" 1 fn_opcodeInvalid);
  (OP_UNKNOWN 190, mkOpcode (OP_UNKNOWN 190) "OP_UNKNOWN190" 1 fn_opcodeInvalid);
  (OP_UNKNOWN 191, mkOpcode (OP_UNKNOWN 191) "OP_UNKNOWN191" 1 fn_opcodeInvalid);
  (OP_UNKNOWN 192, mkOpcode (OP_UNKNOWN 192) "OP_UNKNOWN192" 1 fn_opcodeInvalid);
  (OP_UNKNOWN 193, mkOpcode (OP_UNKNOWN 193) "OP_UNKNOWN193" 1 fn_opcodeInvalid);
  (OP_UNKNOWN 194, mkOpcode (OP_UNKNOWN 194) "OP_UNKNOWN194" 1 fn_opcodeInvalid);
  (OP_UNKNOWN 195, mkOpcode (OP_UNKNOWN 195) "OP_UNKNOWN195" 1 fn_opcodeInvalid);
  (OP_UNKNOWN 196, mkOpcode (OP_UNKNOWN 196) "OP_UNKNOWN196" 1 fn_opcodeInvalid);
  (OP_UNKNOWN 197, mkOpcode (OP_UNKNOWN 197) "OP_UNKNOWN197" 1 fn_opcodeInvalid);
  (OP_UNKNOWN 198, mkOpcode (OP_UNKNOWN 198) "OP_UNKNOWN198" 1 fn_opcodeInvalid);
  (OP_UNKNOWN 199, mkOpcode (OP_UNKNOWN 199) "OP_UNKNOWN199" 1 fn_opcodeInvalid);
  (OP_JURY_REDEEM_EQUAL, mkOpcode OP_JURY_REDEEM_EQUAL "OP_JURY_REDEEM_EQUAL" 1 fn_opcodeCheckJuryRedeemEqual);
  (OP_UNKNOWN 201, mkOpcode (OP_UNKNOWN 201) "OP_UNKNOWN201" 1 fn_opcodeInvalid);
  (OP_UNKNOWN 202, mkOpcode (OP_UNKNOWN 202) "OP_UNKNOWN202" 1 fn_opcodeInvalid);
  (OP_UNKNOWN 203, mkOpcode (OP_UNKNOWN 203) "OP_UNKNOWN203" 1 fn_opcodeInvalid);
  (OP_UNKNOWN 204, mkOpcode (OP_UNKNOWN 204) "OP_UNKNOWN204" 1 fn_opcodeInvalid);
  (OP_UNKNOWN 205, mkOpcode (OP_UNKNOWN 205) "OP_UNKNOWN205" 1 fn_opcodeInvalid);
  (OP_UNKNOWN 206, mkOpcode (OP_UNKNOWN 206) "OP_UNKNOWN206" 1 fn_opcodeInvalid);
  (OP_UNKNOWN 207, mkOpcode (OP_UNKNOWN 207) "OP_UNKNOWN207" 1 fn_opcodeInvalid);
  (OP_UNKNOWN 208, mkOpcode (OP_UNKNOWN 208) "OP_UNKNOWN208" 1 fn_opcodeInvalid);
  (OP_UNKNOWN 209, mkOpcode (OP_UNKNOWN 209) "OP_UNKNOWN209" 1 fn_opcodeInvalid);
  (OP_UNKNOWN 210, mkOpcode (OP_UNKNOWN 210) "OP_UNKNOWN210" 1 fn_opcodeInvalid);
  (OP_UNKNOWN 211, mkOpcode (OP_UNKNOWN 211) "OP_UNKNOWN211" 1 fn_opcodeInvalid);
  (OP_UNKNOWN 212, mkOpcode (OP_UNKNOWN 212) "OP_UNKNOWN212" 1 fn_opcodeInvalid);
  (OP_UNKNOWN 213, mkOpcode (OP_UNKNOWN 213) "OP_UNKNOWN213" 1 fn_opcodeInvalid);
  (OP_UNKNOWN 214, mkOpcode (OP_UNKNOWN 214) "OP_UNKNOWN214" 1 fn_opcodeInvalid);
  (OP_UNKNOWN 215, mkOpcode (OP_UNKNOWN 215) "OP_UNKNOWN215" 1 fn_opcodeInvalid);
  (OP_UNKNOWN 216, mkOpcode (OP_UNKNOWN 216) "OP_UNKNOWN216" 1 fn_opcodeInvalid);
  (OP_UNKNOWN 217, mkOpcode (OP_UNKNOWN 217) "OP_UNKNOWN217" 1 fn_opcodeInvalid);
  (OP_UNKNOWN 218, mkOpcode (OP_UNKNOWN 218) "OP_UNKNOWN218" 1 fn_opcodeInvalid);
  (OP_UNKNOWN 219, mkOpcode (OP_UNKNOWN 219) "OP_UNKNOWN219" 1 fn_opcodeInvalid);
  (OP_UNKNOWN 220, mkOpcode (OP_UNKNOWN 220) "OP_UNKNOWN220" 1 fn_opcodeInvalid);
  (OP_UNKNOWN 221, mkOpcode (OP_UNKNOWN 221) "OP_UNKNOWN221" 1 fn_opcodeInvalid);
  (OP_UNKNOWN 222, mkOpcode (OP_UNKNOWN 222) "OP_UNKNOWN222" 1 fn_opcodeInvalid);
  (OP_UNKNOWN 223, mkOpcode (OP_UNKNOWN 223) "OP_UNKNOWN223" 1 fn_opcodeInvalid);
  (OP_UNKNOWN 224, mkOpcode (OP_UNKNOWN 224) "OP_UNKNOWN224" 1 fn_opcodeInvalid);
  (OP_UNKNOWN 225, mkOpcode (OP_UNKNOWN 225) "OP_UNKNOWN225" 1 fn_opcodeInvalid);
  (OP_UNKNOWN 226, mkOpcode (OP_UNKNOWN 226) "OP_UNKNOWN226" 1 fn_opcodeInvalid);
  (OP_UNKNOWN 227, mkOpcode (OP_UNKNOWN 227) "OP_UNKNOWN227" 1 fn_opcodeInvalid);
  (OP_UNKNOWN 228, mkOpcode (OP_UNKNOWN 228) "OP_UNKNOWN228" 1 fn_opcodeInvalid);
  (OP_UNKNOWN 229, mkOpcode (OP_UNKNOWN 229) "OP_UNKNOWN229" 1 fn_opcodeInvalid);
  (OP_UNKNOWN 230, mkOpcode (OP_UNKNOWN 230) "OP_UNKNOWN230" 1 fn_opcodeInvalid);
  (OP_UNKNOWN 231, mkOpcode (OP_UNKNOWN 231) "OP_UNKNOWN231" 1 fn_opcodeInvalid);
  (OP_UNKNOWN 232, mkOpcode (OP_UNKNOWN 232) "OP_UNKNOWN232" 1 fn_opcodeInvalid);
  (OP_UNKNOWN 233, mkOpcode (OP_UNKNOWN 233) "OP_UNKNOWN233" 1 fn_opcodeInvalid);
  (OP_UNKNOWN 234, mkOpcode (OP_UNKNOWN 234) "OP_UNKNOWN234" 1 fn_opcodeInvalid);
  (OP_UNKNOWN 235, mkOpcode (OP_UNKNOWN 235) "OP_UNKNOWN235" 1 fn_opcodeInvalid);
  (OP_UNKNOWN 236, mkOpcode (OP_UNKNOWN 236) "OP_UNKNOWN236" 1 fn_opcodeInvalid);
  (OP_UNKNOWN 237, mkOpcode (OP_UNKNOWN 237) "OP_UNKNOWN237" 1 fn_opcodeInvalid);
  (OP_UNKNOWN 238, mkOpcode (OP_UNKNOWN 238) "OP_UNKNOWN238" 1 fn_opcodeInvalid);
  (OP_UNKNOWN 239, mkOpcode (OP_UNKNOWN 239) "OP_UNKNOWN239" 1 fn_opcodeInvalid);
  (OP_UNKNOWN 240, mkOpcode (OP_UNKNOWN 240) "OP_UNKNOWN240" 1 fn_opcodeInvalid);
  (OP_UNKNOWN 241, mkOpcode (OP_UNKNOWN 241) "OP_UNKNOWN241" 1 fn_opcodeInvalid);
  (OP_UNKNOWN 242, mkOpcode (OP_UNKNOWN 242) "OP_UNKNOWN242" 1 fn_opcodeInvalid);
  (OP_UNKNOWN 243, mkOpcode (OP_UNKNOWN 243) "OP_UNKNOWN243" 1 fn_opcodeInvalid);
  (OP_UNKNOWN 244, mkOpcode (OP_UNKNOWN 244) "OP_UNKNOWN244" 1 fn_opcodeInvalid);
  (OP_UNKNOWN 245, mkOpcode (OP_UNKNOWN 245) "OP_UNKNOWN245" 1 fn_opcodeInvalid);
  (OP_UNKNOWN 246, mkOpcode (OP_UNKNOWN 246) "OP_UNKNOWN246" 1 fn_opcodeInvalid);
  (OP_UNKNOWN 247, mkOpcode (OP_UNKNOWN 247) "OP_UNKNOWN247" 1 fn_opcodeInvalid);
  (OP_UNKNOWN 248, mkOpcode (OP_UNKNOWN 248) "OP_UNKNOWN248" 1 fn_opcodeInvalid);
  (OP_UNKNOWN 249, mkOpcode (OP_UNKNOWN 249) "OP_UNKNOWN249" 1 fn_opcodeInvalid);
  (OP_SMALLINTEGER, mkOpcode OP_SMALLINTEGER "OP_SMALLINTEGER" 1 fn_opcodeInvalid);
  (OP_PUBKEYS, mkOpcode OP_PUBKEYS "OP_PUBKEYS" 1 fn_opcodeInvalid);
  (OP_UNKNOWN 252, mkOpcode (OP_UNKNOWN 252) "OP_UNKNOWN252" 1 fn_opcodeInvalid);
  (OP_PUBKEYHASH, mkOpcode OP_PUBKEYHASH "OP_PUBKEYHASH" 1 fn_opcodeInvalid);
  (OP_PUBKEY, mkOpcode OP_PUBKEY "OP_PUBKEY" 1 fn_opcodeInvalid);
  (OP_INVALIDOPCODE, mkOpcode OP_INVALIDOPCODE "OP_INVALIDOPCODE" 1 fn_opcodeInvalid)
].

#[local] Close Scope string_scope.

(** A Go array literal [[n]T{k: v, ...}]. *)

Definition array_literal {A} (n : nat) (zero : A) (entries : list (Z * A)) : list A :=
  foldl (fun a '(k, v) => <[Z.to_nat k := v]> a) (replicate n zero) entries.

Definition opcodeArray : list opcode :=
  Eval vm_compute in
    array_literal 256 (mkOpcode 0 EmptyString 0 fn_opcodeInvalid) opcodeArray_entries.

Record parsedOpcode := mkPop {
  pop_opcode : opcode;
  data : option bytes     (* [None] is the nil slice *)
}.

#[export] Instance parsedOpcode_eq_dec : EqDecision parsedOpcode.
Proof. solve_decision. Defined.

(** The contents of a slice that may be nil. *)

Definition contents (d : option bytes) : bytes := match d with Some v => v | None => [] end.

Definition isDisabled (pop : parsedOpcode) : bool :=
  bool_decide (value (pop_opcode pop) ∈
    [OP_CAT; OP_SUBSTR; OP_LEFT; OP_RIGHT; OP_INVERT; OP_AND; OP_OR; OP_XOR; OP_2MUL;
     OP_2DIV; OP_MUL; OP_DIV; OP_MOD; OP_LSHIFT; OP_RSHIFT]).

Definition alwaysIllegal (pop : parsedOpcode) : bool :=
  bool_decide (value (pop_opcode pop) ∈ [OP_VERIF; OP_VERNOTIF]).

Definition isConditional (pop : parsedOpcode) : bool :=
  bool_decide (value (pop_opcode pop) ∈ [OP_IF; OP_NOTIF; OP_ELSE; OP_ENDIF]).

Definition checkMinimalDataPush (pop : parsedOpcode) : outcome ErrorCode unit :=
  let data := contents (data pop) in
  let dataLen := zlen data in
  let opcode := value (pop_opcode pop) in
  let require (b : bool) : outcome ErrorCode unit := if b then Ok () else Err ErrMinimalData in
  if decide (dataLen = 0 /\ opcode <> OP_0) then Err ErrMinimalData
  else match data with
  | [d] =>
      if decide (1 <= d <= 16) then require (bool_decide (opcode = u8 (OP_1 + d - 1)))
      else if decide (d = 0x81) then require (bool_decide (opcode = OP_1NEGATE))
      else require (bool_decide (opcode = dataLen))
  | _ =>
      if decide (dataLen <= 75) then require (bool_decide (opcode = dataLen))
      else if decide (dataLen <= 255) then require (bool_decide (opcode = OP_PUSHDATA1))
      else if decide (dataLen <= 65535) then require (bool_decide (opcode = OP_PUSHDATA2))
      else Ok ()
  end.

(** [binary.LittleEndian.Uint16] and [Uint32] on the first bytes of a slice. *)

Definition LittleEndian_Uint16 (b : bytes) : outcome ErrorCode Z :=
  b0 ← goidx b 0; b1 ← goidx b 1;
  Ok (Z.lor b0 (Z.shiftl b1 8)).

Definition LittleEndian_Uint32 (b : bytes) : outcome ErrorCode Z :=
  b0 ← goidx b 0; b1 ← goidx b 1; b2 ← goidx b 2; b3 ← goidx b 3;
  Ok (Z.lor (Z.lor (Z.lor b0 (Z.shiftl b1 8)) (Z.shiftl b2 16)) (Z.shiftl b3 24)).

(** [parsedOpcode.bytes] *)

Definition bytes_ (pop : parsedOpcode) : outcome ErrorCode bytes :=
  let op := pop_opcode pop in
  let data := contents (data pop) in
  let retbytes := [value op] in
  if decide (length_ op = 1) then
    if decide (zlen data <> 0) then Err ErrInternal else Ok retbytes
  else
    '(retbytes, nbytes) ←
      (if decide (length_ op < 0) then
         let l := zlen data in
         if decide (length_ op = -1) then
           let r := retbytes ++ [u8 l] in
           n ← goidx r 1;
           Ok (r, n + zlen r)
         else if decide (length_ op = -2) then
           let r := retbytes ++ [u8 (Z.land l 0xff); u8 (Z.land (Z.shiftr l 8) 0xff)] in
           n ← LittleEndian_Uint16 (drop 1 r);
           Ok (r, n + zlen r)
         else if decide (length_ op = -4) then
           let r := retbytes ++ [u8 (Z.land l 0xff); u8 (Z.land (Z.shiftr l 8) 0xff);
                                 u8 (Z.land (Z.shiftr l 16) 0xff);
                                 u8 (Z.land (Z.shiftr l 24) 0xff)] in
           n ← LittleEndian_Uint32 (drop 1 r);
           Ok (r, n + zlen r)
         else Ok (retbytes, length_ op)
       else Ok (retbytes, length_ op));
    let retbytes := retbytes ++ data in
    if decide (zlen retbytes <> nbytes) then Err ErrInternal else Ok retbytes.

(** ** The table is well formed *)

(** Number of bytes an opcode of a given encoded length takes in a script before
    its data: the opcode byte and the length field. *)

Definition length_ok (op : opcode) : Prop :=
  length_ op = 1 \/ 2 <= length_ op \/ length_ op ∈ [-1; -2; -4].

#[export] Instance length_ok_dec op : Decision (length_ok op).
Proof. unfold length_ok. apply _. Defined.

(** A template is usable by the parser when entry [b] describes opcode [b] and
    its length is one of those the parser understands. *)

Definition template_ok (opcodes : list opcode) : Prop :=
  length opcodes = 256%nat /\
  Forall (fun b => exists op, opcodes !! Z.to_nat b = Some op /\ value op = b /\ length_ op <> 0 /\
                              length_ok op)
         all_bytes.

Lemma opcodeArray_ok : template_ok opcodeArray.
Proof.
  split; [done|]. apply Forall_forall. intros b Hb.
  assert (Hall : forallb (fun b => match opcodeArray !! Z.to_nat b with
    | Some op => bool_decide (value op = b /\ length_ op <> 0 /\ length_ok op)
    | None => false end) all_bytes = true) by by vm_compute.
  rewrite forallb_forall in Hall. specialize (Hall b (proj1 (list_elem_of_In _ _) Hb)).
  destruct (opcodeArray !! Z.to_nat b) as [op|]; [|done].
  apply Is_true_true, bool_decide_unpack in Hall. eauto.
Qed.

Lemma opcodeArray_keys : NoDup opcodeArray_entries.*1 /\ length opcodeArray_entries = 256%nat.
Proof. split; [|done]. apply (bool_decide_unpack _). by vm_compute. Qed.
