(* ===== verification/ScriptParse.v ===== *)
(** * Parsing and unparsing scripts

    [tokenengine/internal/txscript/script.go]: [parseScript] and its inverse
    [unparseScript], and the functions on parsed scripts (pattern predicates,
    removal of opcodes, signature operation counts).

    [parseScriptTemplate] walks the script with an index; the model walks the
    remaining suffix.  It takes fuel, because a template with an opcode of length
    zero makes the Go loop spin; [None] is "does not return".  [parse_total] shows
    that with a well-formed template it always returns.  The other theorems: both
    round trips between scripts and opcode lists, what is returned on a parse
    error, and that parsing distributes over concatenation. *)

From S2P Require Import Prelude Digits ScriptErrors ScriptNum Opcodes.

#[local] Open Scope Z_scope.

(** ** Constants of script.go and consensus.go *)

Abbreviation SigHashOld := 0x0 (only parsing).
Abbreviation SigHashAll := 0x1 (only parsing).
Abbreviation SigHashNone := 0x2 (only parsing).
Abbreviation SigHashSingle := 0x3 (only parsing).
Abbreviation SigHashAnyOneCanPay := 0x80 (only parsing).
Abbreviation sigHashMask := 0x1f (only parsing).

Definition MaxOpsPerScript : Z := 201.
Definition MaxPubKeysPerMultiSig : Z := 20.
Definition MaxScriptElementSize : Z := 520.

(** ** The parser *)

(** The little-endian length after an OP_PUSHDATA opcode. *)

Definition parse_len (op : opcode) (rest : bytes) (off : Z) : outcome ErrorCode Z :=
  if decide (length_ op = -1) then goidx rest off
  else if decide (length_ op = -2) then
    b1 ← goidx rest (off + 1); b0 ← goidx rest off;
    Ok (Z.lor (Z.shiftl b1 8) b0)
  else if decide (length_ op = -4) then
    b3 ← goidx rest (off + 3); b2 ← goidx rest (off + 2);
    b1 ← goidx rest (off + 1); b0 ← goidx rest off;
    Ok (Z.lor (Z.lor (Z.lor (Z.shiftl b3 24) (Z.shiftl b2 16)) (Z.shiftl b1 8)) b0)
  else Err ErrMalformedPush.

(** One iteration of the loop of [parseScriptTemplate] at a suffix of the script:
    the opcode parsed and how far the index advances.  An opcode of length zero
    advances nothing. *)

Definition parse_one (opcodes : list opcode) (rest : bytes)
    : outcome ErrorCode (parsedOpcode * Z) :=
  instr ← goidx rest 0;
  op ← goidx opcodes instr;
  if decide (length_ op = 1) then Ok (mkPop op None, 1)
  else if decide (length_ op > 1) then
    if decide (zlen rest < length_ op) then Err ErrMalformedPush else
    d ← goslice rest 1 (length_ op);
    Ok (mkPop op (Some d), length_ op)
  else if decide (length_ op < 0) then
    let off := 1 in
    if decide (zlen (drop 1 rest) < - length_ op) then Err ErrMalformedPush else
    l ← parse_len op rest off;
    let off := off + - length_ op in
    if decide (i64 l > zlen (drop (Z.to_nat off) rest) \/ i64 l < 0) then Err ErrMalformedPush
    else
      d ← goslice rest off (off + i64 l);
      Ok (mkPop op (Some d), 1 - length_ op + i64 l)
  else Ok (mkPop op None, 0).

Fixpoint parse_loop (fuel : nat) (opcodes : list opcode) (rest : bytes)
    (retScript : list parsedOpcode) : option (list parsedOpcode * option ErrorCode) :=
  match fuel with
  | O => None
  | S fuel =>
      if decide (rest = []) then Some (retScript, None) else
      match parse_one opcodes rest with
      | Ok (pop, n) => parse_loop fuel opcodes (drop (Z.to_nat n) rest) (retScript ++ [pop])
      | Err e => Some (retScript, Some e)
      | Panic => None
      end
  end.

Definition parseScriptTemplate (script : bytes) (opcodes : list opcode) :=
  parse_loop (S (length script)) opcodes script [].

Definition parseScript (script : bytes) := parseScriptTemplate script opcodeArray.

(** [pops, err := parseScript(script); if err != nil { return err }] *)

Definition parseScript_or_err (script : bytes) : outcome ErrorCode (list parsedOpcode) :=
  match parseScript script with
  | Some (pops, None) => Ok pops
  | Some (_, Some e) => Err e
  | None => Panic
  end.

(** [pops, _ := parseScript(script)] *)

Definition parseScript_prefix (script : bytes) : outcome ErrorCode (list parsedOpcode) :=
  match parseScript script with
  | Some (pops, _) => Ok pops
  | None => Panic
  end.

Fixpoint unparse_loop (pops : list parsedOpcode) (script : bytes) : outcome ErrorCode bytes :=
  match pops with
  | [] => Ok script
  | pop :: pops => b ← bytes_ pop; unparse_loop pops (script ++ b)
  end.

Definition unparseScript (pops : list parsedOpcode) : outcome ErrorCode bytes :=
  unparse_loop pops [].

(** ** Functions on parsed scripts *)

Definition value_at (pops : list parsedOpcode) (i : nat) : option Z :=
  (fun p => value (pop_opcode p)) <$> pops !! i.

Definition isSmallInt (op : opcode) : bool :=
  bool_decide (value op = OP_0 \/ (value op >= OP_1 /\ value op <= OP_16)).

(** [len(pops) == n && pops[0].opcode.value == v0 && ...] *)

Definition values_are (pops : list parsedOpcode) (vs : list Z) : bool :=
  bool_decide ((fun p => value (pop_opcode p)) <$> pops = vs).

Definition isScriptHash (pops : list parsedOpcode) : bool :=
  values_are pops [OP_HASH160; OP_DATA_20; OP_EQUAL].

Definition isContractHash (pops : list parsedOpcode) : bool :=
  values_are pops [OP_DATA_20; OP_JURY_REDEEM_EQUAL].

(** [pops, err := parseScript(script); if err != nil { return false }; return p(pops)] *)

Definition when_parsed (script : bytes) (p : list parsedOpcode -> bool) : outcome ErrorCode bool :=
  match parseScript_or_err script with
  | Ok pops => Ok (p pops)
  | Err _ => Ok false
  | Panic => Panic
  end.

Definition IsPayToScriptHash (script : bytes) := when_parsed script isScriptHash.

Definition IsPayToContractHash (script : bytes) := when_parsed script isContractHash.

Definition isWitnessScriptHash (pops : list parsedOpcode) : bool :=
  values_are pops [OP_0; OP_DATA_32].

Definition IsPayToWitnessScriptHash (script : bytes) := when_parsed script isWitnessScriptHash.

Definition isWitnessPubKeyHash (pops : list parsedOpcode) : bool :=
  values_are pops [OP_0; OP_DATA_20].

Definition IsPayToWitnessPubKeyHash (script : bytes) := when_parsed script isWitnessPubKeyHash.

Definition canonicalPush (pop : parsedOpcode) : bool :=
  let opcode := value (pop_opcode pop) in
  let data := contents (data pop) in
  let dataLen := zlen data in
  if decide (opcode > OP_16) then true else
  if decide (opcode < OP_PUSHDATA1 /\ opcode > OP_0 /\ (dataLen = 1 /\ hd 0 data <= 16)) then false else
  if decide (opcode = OP_PUSHDATA1 /\ dataLen < OP_PUSHDATA1) then false else
  if decide (opcode = OP_PUSHDATA2 /\ dataLen <= 0xff) then false else
  if decide (opcode = OP_PUSHDATA4 /\ dataLen <= 0xffff) then false else true.

Definition isWitnessProgram (pops : list parsedOpcode) : bool :=
  match pops with
  | [p0; p1] =>
      isSmallInt (pop_opcode p0) && canonicalPush p1 &&
      bool_decide (2 <= zlen (contents (data p1)) <= 40)
  | _ => false
  end.

Definition IsWitnessProgram (script : bytes) : outcome ErrorCode bool :=
  if decide (zlen script < 4 \/ zlen script > 42) then Ok false
  else when_parsed script isWitnessProgram.

Definition asSmallInt (op : opcode) : Z :=
  if decide (value op = OP_0) then 0 else u8 (value op - (OP_1 - 1)).

(** An error here is [Some] code from the parser or [None], a plain [fmt.Errorf]. *)

Definition ExtractWitnessProgramInfo (script : bytes) : outcome (option ErrorCode) (Z * bytes) :=
  match parseScript_or_err script with
  | Panic => Panic
  | Err e => Err (Some e)
  | Ok pops =>
      if negb (isWitnessProgram pops) then Err None else
      p0 ← goidx pops 0;
      p1 ← goidx pops 1;
      Ok (asSmallInt (pop_opcode p0), contents (data p1))
  end.

Definition isPushOnly (pops : list parsedOpcode) : bool :=
  forallb (fun pop => bool_decide (value (pop_opcode pop) <= OP_16)) pops.

Definition IsPushOnlyScript (script : bytes) := when_parsed script isPushOnly.

Definition removeOpcode (pkscript : list parsedOpcode) (opcode : Z) : list parsedOpcode :=
  filter (fun pop => value (pop_opcode pop) <> opcode) pkscript.

(** [bytes.Contains(s, sub)]: some suffix of [s] starts with [sub]. *)

Fixpoint Contains (s sub : bytes) : bool :=
  bool_decide (take (length sub) s = sub) ||
  match s with
  | [] => false
  | _ :: s => Contains s sub
  end.

Definition removeOpcodeByData (pkscript : list parsedOpcode) (d : bytes) : list parsedOpcode :=
  filter (fun pop => negb (canonicalPush pop) || negb (Contains (contents (data pop)) d) = true) pkscript.

(** The loop of [getSigOpCount]: what one opcode adds, [prev] being the opcode
    before it. *)

Definition sigops_of (prev : option opcode) (pop : parsedOpcode) (precise : bool) : Z :=
  let v := value (pop_opcode pop) in
  if decide (v = OP_CHECKSIG \/ v = OP_CHECKSIGVERIFY) then 1
  else if decide (v = OP_CHECKMULTISIG \/ v = OP_CHECKMULTISIGVERIFY) then
    match precise, prev with
    | true, Some op =>
        if decide (value op >= OP_1 /\ value op <= OP_16) then asSmallInt op
        else MaxPubKeysPerMultiSig
    | _, _ => MaxPubKeysPerMultiSig
    end
  else 0.

Fixpoint sigop_loop (prev : option opcode) (pops : list parsedOpcode) (precise : bool) (nSigs : Z) : Z :=
  match pops with
  | [] => nSigs
  | pop :: pops =>
      sigop_loop (Some (pop_opcode pop)) pops precise (nSigs + sigops_of prev pop precise)
  end.

Definition getSigOpCount (pops : list parsedOpcode) (precise : bool) : Z :=
  sigop_loop None pops precise 0.

Definition GetSigOpCount (script : bytes) : outcome ErrorCode Z :=
  pops ← parseScript_prefix script;
  Ok (getSigOpCount pops false).

Definition GetPreciseSigOpCount (scriptSig scriptPubKey : bytes) (bip16 : bool) : outcome ErrorCode Z :=
  pops ← parseScript_prefix scriptPubKey;
  if negb (bip16 && isScriptHash pops) then Ok (getSigOpCount pops true) else
  match parseScript_or_err scriptSig with
  | Panic => Panic
  | Err _ => Ok 0
  | Ok sigPops =>
      if negb (isPushOnly sigPops) || bool_decide (zlen sigPops = 0) then Ok 0 else
      lastPop ← goidx sigPops (zlen sigPops - 1);
      let shScript := contents (data lastPop) in
      if decide (zlen shScript = 0) then Ok 0 else
      shPops ← parseScript_prefix shScript;
      Ok (getSigOpCount shPops true)
  end.

Definition IsUnspendable (pkScript : bytes) : outcome ErrorCode bool :=
  match parseScript_or_err pkScript with
  | Ok pops => Ok (bool_decide (zlen pops > 0 /\ value_at pops 0 = Some OP_RETURN))
  | Err _ => Ok true
  | Panic => Panic
  end.

(** ** Well-formed opcodes and their encoding *)

Definition encode (pop : parsedOpcode) : bytes :=
  value (pop_opcode pop) ::
  le_field (Z.to_nat (- length_ (pop_opcode pop))) (zlen (contents (data pop))) ++
  contents (data pop).

Definition encode_all (pops : list parsedOpcode) : bytes := concat (encode <$> pops).

(** The data of an opcode is what its length field can describe. *)

Definition data_ok (op : opcode) (d : option bytes) : Prop :=
  if decide (length_ op = 1) then d = None
  else exists v, d = Some v /\ wf_bytes v /\
    if decide (length_ op > 1) then zlen v = length_ op - 1
    else zlen v < 256 ^ (- length_ op).

Definition wf_pop (opcodes : list opcode) (pop : parsedOpcode) : Prop :=
  is_byte (value (pop_opcode pop)) /\
  opcodes !! Z.to_nat (value (pop_opcode pop)) = Some (pop_opcode pop) /\
  length_ok (pop_opcode pop) /\ length_ (pop_opcode pop) <> 0 /\
  data_ok (pop_opcode pop) (data pop).

(** The shifts and masks of the source compute the digits of [le_field], and the
    disjunctions of shifted bytes compute [le_val]. *)

Lemma digit_eq l k : 0 <= k -> u8 (Z.land (Z.shiftr l k) 0xff) = (l / 2 ^ k) mod 256.
Proof.
  intros Hk. change 0xff with (Z.ones 8). rewrite Z.land_ones, Z.shiftr_div_pow2 by lia.
  apply u8_id. unfold is_byte. change 256 with (2 ^ 8). apply Z.mod_pos_bound. lia.
Qed.

Lemma digit0_eq l : u8 (Z.land l 0xff) = l mod 256.
Proof. rewrite <- (Z.shiftr_0_r l) at 1. rewrite digit_eq by lia. by rewrite Z.div_1_r. Qed.

Lemma le_field_2 l :
  [u8 (Z.land l 0xff); u8 (Z.land (Z.shiftr l 8) 0xff)] = le_field 2 l.
Proof. by rewrite digit0_eq, digit_eq by lia. Qed.

Lemma le_field_4 l :
  [u8 (Z.land l 0xff); u8 (Z.land (Z.shiftr l 8) 0xff); u8 (Z.land (Z.shiftr l 16) 0xff);
   u8 (Z.land (Z.shiftr l 24) 0xff)] = le_field 4 l.
Proof.
  rewrite digit0_eq, !digit_eq by lia. cbn [le_field]. rewrite !Z.div_div by lia. done.
Qed.

Lemma Uint16_val b0 b1 :
  is_byte b0 -> Z.lor b0 (Z.shiftl b1 8) = le_val [b0; b1].
Proof.
  unfold is_byte. intros H0. rewrite lor_shift_byte by lia. cbn [le_val]. lia.
Qed.

Lemma Uint32_val b0 b1 b2 b3 :
  is_byte b0 -> is_byte b1 -> is_byte b2 ->
  Z.lor (Z.lor (Z.lor b0 (Z.shiftl b1 8)) (Z.shiftl b2 16)) (Z.shiftl b3 24)
    = le_val [b0; b1; b2; b3].
Proof.
  unfold is_byte. intros H0 H1 H2. rewrite (lor_shift_byte b0 b1), (lor_shift_byte _ b2), lor_shift_byte by lia.
  cbn [le_val]. lia.
Qed.

Lemma lor4_rev a b c d : Z.lor (Z.lor (Z.lor a b) c) d = Z.lor (Z.lor (Z.lor d c) b) a.
Proof.
  apply Z.bits_inj'. intros n _. rewrite !Z.lor_spec.
  by destruct (Z.testbit a n), (Z.testbit b n), (Z.testbit c n), (Z.testbit d n).
Qed.

(** ** [bytes] computes the encoding *)

Lemma length_ok_cases op :
  length_ok op -> length_ op <> 0 ->
  length_ op = 1 \/ length_ op > 1 \/ length_ op = -1 \/ length_ op = -2 \/ length_ op = -4.
Proof. unfold length_ok. rewrite !elem_of_cons. intros [H|[H|H]] _; [lia..|].
  destruct H as [->|[->|[->|H]]]; [lia..|]. by apply not_elem_of_nil in H.
Qed.

Ltac decide_lengths :=
  repeat match goal with
  | |- context [decide (?P)] => first [rewrite (decide_True (P := P)) by lia | rewrite (decide_False (P := P)) by lia]
  end.

Lemma data_ok_negative op d :
  data_ok op d -> length_ op < 0 ->
  exists v, d = Some v /\ wf_bytes v /\ zlen v < 256 ^ (- length_ op).
Proof.
  unfold data_ok. intros Hd Hneg. rewrite decide_False in Hd by lia.
  destruct Hd as (v & -> & Hv & Hl).
  rewrite decide_False in Hl by lia. eauto.
Qed.

Lemma le_field_bytes2 l : exists b0 b1, le_field 2 l = [b0; b1] /\ is_byte b0.
Proof. do 2 eexists. split; [reflexivity|]. apply Z.mod_pos_bound. lia. Qed.

Lemma le_field_bytes4 l : exists b0 b1 b2 b3,
  le_field 4 l = [b0; b1; b2; b3] /\ is_byte b0 /\ is_byte b1 /\ is_byte b2.
Proof.
  do 4 eexists. split; [reflexivity|]. split_and!; apply Z.mod_pos_bound; lia.
Qed.

Lemma bytes_encode opcodes pop : wf_pop opcodes pop -> bytes_ pop = Ok (encode pop).
Proof.
  destruct pop as [op d]. unfold wf_pop, bytes_, encode. cbn [pop_opcode data].
  intros (Hb & _ & Hlen & Hnz & Hd).
  destruct (length_ok_cases op Hlen Hnz) as [E|[E|E]].
  - unfold data_ok in Hd. decide_lengths. rewrite decide_True in Hd by lia.
    by rewrite Hd, E.
  - unfold data_ok in Hd. rewrite decide_False in Hd by lia. destruct Hd as (v & -> & Hv & Hl).
    rewrite decide_True in Hl by lia. decide_lengths. cbn -[zlen]. 
    rewrite decide_False by zlen_lia. by replace (Z.to_nat (- length_ op)) with O by lia.
  - destruct (data_ok_negative op d Hd) as (v & -> & Hv & Hl); [lia|]. pose proof (zlen_nonneg v).
    cbn [contents].
    destruct E as [E|[E|E]]; rewrite E in *; decide_lengths.
    + change (Z.to_nat (- -1)) with 1%nat. cbn [app le_field]. rewrite goidx_1. cbn -[zlen].
      rewrite u8_id, Z.mod_small by (unfold is_byte; lia).
      by rewrite decide_False by zlen_lia.
    + rewrite le_field_2. change (Z.to_nat (- -2)) with 2%nat.
      destruct (le_field_bytes2 (zlen v)) as (b0 & b1 & Hf & H0). rewrite Hf. cbn [app drop].
      unfold LittleEndian_Uint16. autorewrite with goindex. cbn -[zlen Z.lor Z.shiftl].
      rewrite Uint16_val by done. apply (f_equal le_val) in Hf.
      rewrite le_field_val in Hf by (cbn; lia). rewrite <- Hf.
      by rewrite decide_False by zlen_lia.
    + rewrite le_field_4. change (Z.to_nat (- -4)) with 4%nat.
      destruct (le_field_bytes4 (zlen v)) as (b0 & b1 & b2 & b3 & Hf & H0 & H1 & H2).
      rewrite Hf. cbn [app drop].
      unfold LittleEndian_Uint32. autorewrite with goindex. cbn -[zlen Z.lor Z.shiftl].
      rewrite Uint32_val by done. apply (f_equal le_val) in Hf.
      rewrite le_field_val in Hf by (cbn; lia). rewrite <- Hf.
      by rewrite decide_False by zlen_lia.
Qed.

(** ** One step of the parser on an encoded opcode *)

Lemma parse_len_field op b f k :
  length_ op = -1 \/ length_ op = -2 \/ length_ op = -4 ->
  zlen f = - length_ op -> wf_bytes f -> parse_len op (b :: f ++ k) 1 = Ok (le_val f).
Proof.
  intros E Hf Hfw. unfold parse_len. destruct E as [E|[E|E]]; rewrite E in *; decide_lengths.
  - destruct f as [|b0 [|]]; [exfalso; zlen_lia| |exfalso; zlen_lia].
    cbn [app]. rewrite goidx_1. f_equal. cbn [le_val]. lia.
  - destruct f as [|b0 [|b1 [|]]]; [exfalso; zlen_lia..| |exfalso; zlen_lia].
    cbn [app Z.add]. autorewrite with goindex. f_equal.
    rewrite !wf_bytes_cons in Hfw. rewrite Z.lor_comm. by rewrite Uint16_val by tauto.
  - destruct f as [|b0 [|b1 [|b2 [|b3 [|]]]]]; [exfalso; zlen_lia..| |exfalso; zlen_lia].
    cbn [app]. autorewrite with goindex. f_equal.
    rewrite !wf_bytes_cons in Hfw. rewrite <- Uint32_val by tauto. by rewrite lor4_rev.
Qed.

Lemma push_len_64 op l :
  length_ op = -1 \/ length_ op = -2 \/ length_ op = -4 -> l < 256 ^ (- length_ op) -> l < 2 ^ 63.
Proof. intros [E|[E|E]]; rewrite E; lia. Qed.

Lemma parse_one_encode opcodes pop k :
  wf_pop opcodes pop -> parse_one opcodes (encode pop ++ k) = Ok (pop, zlen (encode pop)).
Proof.
  destruct pop as [op d]. unfold wf_pop, parse_one, encode. cbn [pop_opcode data].
  intros (Hb & Hop & Hlen & Hnz & Hd). unfold is_byte in Hb.
  cbn [app]. rewrite goidx_0, outcome_bind_ok.
  rewrite (goidx_lookup _ _ op), outcome_bind_ok by (lia || done).
  destruct (length_ok_cases op Hlen Hnz) as [E|[E|E]].
  - unfold data_ok in Hd. rewrite decide_True in Hd by lia. decide_lengths. by rewrite Hd, E.
  - unfold data_ok in Hd. rewrite decide_False in Hd by lia. destruct Hd as (v & -> & Hv & Hl).
    rewrite decide_True in Hl by lia. decide_lengths.
    replace (Z.to_nat (- length_ op)) with O by lia. cbn [le_field app contents].
    rewrite decide_False by zlen_lia.
    change (value op :: v ++ k) with ([value op] ++ v ++ k).
    rewrite goslice_mid by (done || (change (zlen [value op]) with 1; lia)).
    cbn -[zlen]. by rewrite zlen_cons, Hl, Zplus_minus.
  - destruct (data_ok_negative op d Hd) as (v & -> & Hv & Hl); [lia|]. pose proof (zlen_nonneg v).
    cbn [contents]. rewrite <- app_assoc. decide_lengths.
    assert (Hlf : zlen (le_field (Z.to_nat (- length_ op)) (zlen v)) = - length_ op)
      by (unfold zlen; rewrite le_field_length; lia).
    assert (Hlval : le_val (le_field (Z.to_nat (- length_ op)) (zlen v)) = zlen v)
      by (apply le_field_val; rewrite Z2Nat.id by lia; lia).
    pose proof (le_field_wf (Z.to_nat (- length_ op)) (zlen v)) as Hfw.
    set (f := le_field _ _) in *. cbn [drop]. rewrite skipn_O.
    rewrite decide_False by zlen_lia.
    pose proof (push_len_64 op _ E Hl).
    rewrite parse_len_field, Hlval, outcome_bind_ok, i64_id by (done || lia).
    change (value op :: f ++ v ++ k) with ((value op :: f) ++ v ++ k).
    rewrite zlen_drop by zlen_lia. rewrite decide_False by zlen_lia.
    rewrite goslice_mid by zlen_lia. cbn -[zlen]. do 2 f_equal. zlen_lia.
Qed.

Lemma split_prefix {A} (l : list A) n :
  0 <= n <= zlen l -> exists a b, l = a ++ b /\ zlen a = n.
Proof.
  intros Hn. exists (take (Z.to_nat n) l), (drop (Z.to_nat n) l).
  rewrite take_drop. split; [done|]. unfold zlen in *. rewrite length_take. lia.
Qed.

Lemma parse_one_inv opcodes rest pop n :
  template_ok opcodes -> wf_bytes rest -> parse_one opcodes rest = Ok (pop, n) ->
  wf_pop opcodes pop /\ n = zlen (encode pop) /\ exists k, rest = encode pop ++ k.
Proof.
  intros [_ Ht] Hwf. destruct rest as [|b rest]; [done|]. apply wf_bytes_cons in Hwf as [Hb Hwf].
  rewrite Forall_forall in Ht. destruct (Ht b) as (op & Hop & Hv & Hnz & Hlen).
  { apply elem_of_seqZ. unfold is_byte in Hb. lia. }
  unfold is_byte in Hb. subst b. unfold parse_one, wf_pop, encode, data_ok.
  rewrite goidx_0, outcome_bind_ok.
  rewrite (goidx_lookup _ _ op), outcome_bind_ok by (lia || done).
  destruct (length_ok_cases op Hlen Hnz) as [E|[E|E]]; decide_lengths.
  - intros [= <- <-]. cbn [pop_opcode data]. rewrite decide_True, E by lia.
    cbn -[zlen]. split_and!; try done; try lia. by exists rest.
  - case_decide as Hr; [done|].
    destruct (split_prefix rest (length_ op - 1)) as (d & k & -> & Hd); [zlen_lia|].
    change (value op :: d ++ k) with ([value op] ++ d ++ k).
    rewrite goslice_mid by zlen_lia. intros [= <- <-].
    apply wf_bytes_app in Hwf as [Hd' _]. cbn [pop_opcode data contents].
    replace (Z.to_nat (- length_ op)) with O by lia. cbn [le_field app]. decide_lengths.
    split_and!; try done; [exists d; split_and!; try done; decide_lengths; lia|zlen_lia|by exists k].
  - cbn [drop]. rewrite skipn_O. case_decide as Hr; [done|].
    destruct (split_prefix rest (- length_ op)) as (f & r & -> & Hf); [lia|].
    apply wf_bytes_app in Hwf as [Hfw Hrw]. rewrite parse_len_field, outcome_bind_ok by done.
    pose proof (le_val_bound f Hfw) as Hbd. rewrite Hf in Hbd.
    pose proof (push_len_64 op _ E (proj2 Hbd)). rewrite i64_id by lia.
    change (value op :: f ++ r) with ((value op :: f) ++ r).
    rewrite zlen_drop by zlen_lia. case_decide as Hl; [done|].
    destruct (split_prefix r (le_val f)) as (d & k & -> & Hd); [zlen_lia|].
    rewrite goslice_mid by zlen_lia. intros [= <- <-]. cbn [pop_opcode data contents].
    apply wf_bytes_app in Hrw as [Hdw _]. rewrite Hd.
    replace (Z.to_nat (- length_ op)) with (length f) by (unfold zlen in Hf; lia).
    rewrite le_field_of_bytes by done. decide_lengths.
    split_and!; try done; [exists d; split_and!; try done; decide_lengths; lia|zlen_lia|].
    exists k. by app_norm.
Qed.

Lemma parse_one_no_panic opcodes rest :
  template_ok opcodes -> wf_bytes rest -> rest <> [] ->
  (exists pop n, parse_one opcodes rest = Ok (pop, n)) \/
  parse_one opcodes rest = Err ErrMalformedPush.
Proof.
  intros [_ Ht] Hwf Hne. destruct rest as [|b rest]; [done|]. apply wf_bytes_cons in Hwf as [Hb Hwf].
  rewrite Forall_forall in Ht. destruct (Ht b) as (op & Hop & Hv & Hnz & Hlen).
  { apply elem_of_seqZ. unfold is_byte in Hb. lia. }
  unfold is_byte in Hb. subst b. unfold parse_one. rewrite goidx_0, outcome_bind_ok.
  rewrite (goidx_lookup _ _ op), outcome_bind_ok by (lia || done).
  destruct (length_ok_cases op Hlen Hnz) as [E|[E|E]]; decide_lengths; [eauto|..].
  - case_decide as Hr; [by right|]. left.
    destruct (goslice_ok (E := ErrorCode) (value op :: rest) 1 (length_ op)) as (a & d & k & _ & _ & _ & ->); [lia..|].
    cbn. eauto.
  - cbn [drop]. rewrite skipn_O. case_decide as Hr; [by right|].
    destruct (split_prefix rest (- length_ op)) as (f & r & -> & Hf); [lia|].
    apply wf_bytes_app in Hwf as [Hfw Hrw]. rewrite parse_len_field, outcome_bind_ok by done.
    rewrite zlen_drop by zlen_lia. case_decide as Hl; [by right|]. left.
    destruct (goslice_ok (E := ErrorCode) (value op :: f ++ r) (1 + - length_ op)
      (1 + - length_ op + i64 (le_val f))) as (? & ? & ? & _ & _ & _ & ->); [zlen_lia..|].
    cbn. eauto.
Qed.

(** ** The whole parser *)

Lemma encode_all_cons pop pops : encode_all (pop :: pops) = encode pop ++ encode_all pops.
Proof. done. Qed.

Lemma encode_all_app p q : encode_all (p ++ q) = encode_all p ++ encode_all q.
Proof. unfold encode_all. by rewrite fmap_app, concat_app. Qed.

Lemma encode_nonempty pop : 1 <= zlen (encode pop).
Proof. unfold encode. rewrite zlen_cons. zlen_lia. Qed.

Lemma drop_zlen {A} (l k : list A) : drop (Z.to_nat (zlen l)) (l ++ k) = k.
Proof. unfold zlen. by rewrite Nat2Z.id, drop_app_length. Qed.

Lemma encode_all_1 pop : encode_all [pop] = encode pop.
Proof. unfold encode_all. cbn [fmap list_fmap concat]. apply app_nil_r. Qed.

Lemma parse_loop_step opcodes fuel pop k acc :
  wf_pop opcodes pop ->
  parse_loop (S fuel) opcodes (encode pop ++ k) acc = parse_loop fuel opcodes k (acc ++ [pop]).
Proof.
  intros Hp. cbn [parse_loop]. rewrite decide_False by (unfold encode; done).
  by rewrite parse_one_encode, drop_zlen by done.
Qed.

Lemma parse_loop_encode opcodes fuel pops k acc :
  Forall (wf_pop opcodes) pops ->
  parse_loop (length pops + fuel) opcodes (encode_all pops ++ k) acc
    = parse_loop fuel opcodes k (acc ++ pops).
Proof.
  intros Hp. revert acc. induction Hp as [|pop pops Hpop Hp IH]; intros acc; cbn [length Nat.add].
  - by rewrite app_nil_r.
  - rewrite encode_all_cons, <- app_assoc, parse_loop_step, IH by done. by app_norm.
Qed.

(** What a run of the parser leaves: the opcodes of a prefix of the script, and,
    when it stops early, the suffix at which [parse_one] failed. *)

Definition parse_post opcodes (rest : bytes) (pops : list parsedOpcode) (e : option ErrorCode) : Prop :=
  Forall (wf_pop opcodes) pops /\
  match e with
  | None => rest = encode_all pops
  | Some e =>
      e = ErrMalformedPush /\
      exists k, k <> [] /\ rest = encode_all pops ++ k /\ parse_one opcodes k = Err ErrMalformedPush
  end.

Lemma parse_loop_spec opcodes fuel rest acc :
  template_ok opcodes -> wf_bytes rest -> (length rest < fuel)%nat ->
  exists pops e, parse_loop fuel opcodes rest acc = Some (acc ++ pops, e) /\
                 parse_post opcodes rest pops e.
Proof.
  intros Ht. revert rest acc. induction fuel as [|fuel IH]; intros rest acc Hwf Hf; [lia|].
  cbn [parse_loop]. destruct (decide (rest = [])) as [->|Hne].
  { exists [], None. rewrite app_nil_r. split; [done|]. by split; [constructor|]. }
  destruct (parse_one_no_panic opcodes rest Ht Hwf Hne) as [(pop & n & Hp)|Hp]; rewrite Hp.
  - destruct (parse_one_inv opcodes rest pop n Ht Hwf Hp) as (Hpop & -> & k & ->).
    rewrite drop_zlen. apply wf_bytes_app in Hwf as [_ Hk].
    pose proof (encode_nonempty pop) as Hl. unfold zlen in Hl. rewrite length_app in Hf.
    destruct (IH k (acc ++ [pop]) Hk) as (pops & e & -> & Hall & Hpost); [lia|].
    exists (pop :: pops), e. split; [by app_norm|]. split; [by constructor|].
    destruct e as [e|]; [|by rewrite encode_all_cons, Hpost].
    destruct Hpost as (-> & k' & Hk' & -> & Herr). split; [done|].
    exists k'. by rewrite encode_all_cons, app_assoc.
  - exists [], (Some ErrMalformedPush). rewrite app_nil_r. split; [done|].
    split; [constructor|]. split; [done|]. by exists rest.
Qed.

Lemma parse_loop_mono opcodes fuel n rest acc r :
  parse_loop fuel opcodes rest acc = Some r -> parse_loop (fuel + n) opcodes rest acc = Some r.
Proof.
  revert rest acc. induction fuel as [|fuel IH]; intros rest acc; cbn [parse_loop Nat.add]; [done|].
  case_decide; [done|]. destruct (parse_one _ _) as [[pop m]|e|]; [|done..]. apply IH.
Qed.

Lemma encode_all_length pops : (length pops <= length (encode_all pops))%nat.
Proof.
  induction pops as [|pop pops IH]; [done|]. rewrite encode_all_cons, length_app. cbn [length].
  pose proof (encode_nonempty pop). unfold zlen in *. lia.
Qed.

Lemma parse_loop_acc opcodes fuel rest acc :
  parse_loop fuel opcodes rest acc =
    (fun r => (acc ++ r.1, r.2)) <$> parse_loop fuel opcodes rest [].
Proof.
  revert rest acc. induction fuel as [|fuel IH]; intros rest acc; cbn [parse_loop]; [done|].
  case_decide; [cbn; by rewrite app_nil_r|].
  destruct (parse_one _ _) as [[pop m]|e|]; [|cbn; by rewrite app_nil_r|done].
  rewrite (IH _ (acc ++ [pop])), (IH _ ([] ++ [pop])).
  destruct (parse_loop _ _ _ []) as [[p e]|]; cbn; [by app_norm|done].
Qed.

(** A script that is an encoded opcode list followed by [k] parses to that list
    followed by what [k] parses to. *)

Lemma parse_encode_app opcodes pops k :
  template_ok opcodes -> wf_bytes k -> Forall (wf_pop opcodes) pops ->
  parseScriptTemplate (encode_all pops ++ k) opcodes =
    (fun r => (pops ++ r.1, r.2)) <$> parseScriptTemplate k opcodes.
Proof.
  intros Ht Hk Hp. unfold parseScriptTemplate.
  replace (S (length (encode_all pops ++ k)))
    with (length pops + (S (length k) + (length (encode_all pops) - length pops)))%nat
    by (rewrite length_app; pose proof (encode_all_length pops); lia).
  rewrite parse_loop_encode, parse_loop_acc by done. cbn [app]. f_equal.
  destruct (parse_loop_spec opcodes (S (length k)) k [] Ht Hk) as (pops' & e & Hpk & _); [lia|].
  rewrite Hpk. by apply parse_loop_mono.
Qed.

Lemma parse_encode_all opcodes pops :
  Forall (wf_pop opcodes) pops -> parseScriptTemplate (encode_all pops) opcodes = Some (pops, None).
Proof.
  intros Hp. unfold parseScriptTemplate.
  replace (S (length (encode_all pops)))
    with (length pops + (1 + (length (encode_all pops) - length pops)))%nat
    by (pose proof (encode_all_length pops); lia).
  pose proof (parse_loop_encode opcodes (1 + (length (encode_all pops) - length pops)) pops [] [] Hp) as H.
  rewrite app_nil_r in H. by rewrite H.
Qed.

Lemma unparse_loop_encode opcodes pops script :
  Forall (wf_pop opcodes) pops -> unparse_loop pops script = Ok (script ++ encode_all pops).
Proof.
  intros Hp. revert script. induction Hp as [|pop pops Hpop Hp IH]; intros script; cbn [unparse_loop].
  - by rewrite app_nil_r.
  - rewrite (bytes_encode opcodes), outcome_bind_ok, IH by done. by rewrite encode_all_cons, app_assoc.
Qed.

Lemma unparse_encode opcodes pops :
  Forall (wf_pop opcodes) pops -> unparseScript pops = Ok (encode_all pops).
Proof. intros Hp. unfold unparseScript. by rewrite (unparse_loop_encode opcodes). Qed.

Lemma parse_spec opcodes script :
  template_ok opcodes -> wf_bytes script ->
  exists pops e, parseScriptTemplate script opcodes = Some (pops, e) /\
                 parse_post opcodes script pops e.
Proof.
  intros Ht Hwf. destruct (parse_loop_spec opcodes (S (length script)) script [] Ht Hwf)
    as (pops & e & Hp & Hpost); [lia|]. eauto.
Qed.

Lemma encode_all_wf opcodes pops : Forall (wf_pop opcodes) pops -> wf_bytes (encode_all pops).
Proof.
  intros Hp. apply Forall_concat, Forall_fmap. eapply Forall_impl; [done|].
  intros pop (Hb & _ & _ & _ & Hd). cbn. unfold encode. constructor; [done|].
  apply Forall_app. split; [apply le_field_wf|].
  unfold data_ok in Hd. destruct (decide _); [by rewrite Hd|]. by destruct Hd as (v & -> & Hv & _).
Qed.

(** [parseScript] as a total function on byte strings, for the clients. *)

Lemma parseScript_or_err_spec script :
  wf_bytes script ->
  (exists pops, parseScript_or_err script = Ok pops /\ Forall (wf_pop opcodeArray) pops /\
                script = encode_all pops) \/
  parseScript_or_err script = Err ErrMalformedPush.
Proof.
  intros Hwf. destruct (parse_spec opcodeArray script opcodeArray_ok Hwf) as (pops & e & Hp & Hall & Hpost).
  unfold parseScript_or_err, parseScript. rewrite Hp.
  destruct e as [e|]; [right; by destruct Hpost as [-> _]|left; eauto].
Qed.

Lemma parseScript_or_err_encode pops :
  Forall (wf_pop opcodeArray) pops -> parseScript_or_err (encode_all pops) = Ok pops.
Proof. intros Hp. unfold parseScript_or_err, parseScript. by rewrite parse_encode_all. Qed.

(** ** The language of scripts

    An instruction, described by its bytes alone: an opcode without data, a push of 1 to
    75 bytes, or OP_PUSHDATA1, 2 or 4 with a little-endian length of 1, 2 or 4 bytes and
    as many bytes of data.  A truncated instruction ends before its length or its data
    does. *)

Definition length_fields : list (Z * Z) := [(76, 1); (77, 2); (78, 4)].

Inductive instruction : bytes -> Prop :=
  | plain_instruction c : c = 0 \/ 79 <= c -> instruction [c]
  | push_instruction n d : 1 <= n <= 75 -> zlen d = n -> instruction (n :: d)
  | pushdata_instruction c w f d :
      (c, w) ∈ length_fields -> zlen f = w -> zlen d = le_val f -> instruction (c :: f ++ d).

Inductive truncated : bytes -> Prop :=
  | truncated_push n d : 1 <= n <= 75 -> zlen d < n -> truncated (n :: d)
  | truncated_length c w f : (c, w) ∈ length_fields -> zlen f < w -> truncated (c :: f)
  | truncated_data c w f d :
      (c, w) ∈ length_fields -> zlen f = w -> zlen d < le_val f -> truncated (c :: f ++ d).

Lemma length_fields_cases c w : (c, w) ∈ length_fields -> c = 76 /\ w = 1 \/ c = 77 /\ w = 2 \/ c = 78 /\ w = 4.
Proof. unfold length_fields. rewrite !elem_of_cons, elem_of_nil. intros [[= -> ->]|[[= -> ->]|[[= -> ->]|[]]]]; tauto. Qed.

Lemma app_inj_zlen {A} (a b c d : list A) : zlen a = zlen b -> a ++ c = b ++ d -> a = b /\ c = d.
Proof. unfold zlen. intros Hl. apply app_inj_1. lia. Qed.

Ltac field_cases :=
  repeat match goal with H : (_, _) ∈ length_fields |- _ => apply length_fields_cases in H end.

(** No instruction is a proper prefix of another, or the start of a truncated one. *)

Lemma instruction_unique i j k l : instruction i -> instruction j -> i ++ k = j ++ l -> i = j.
Proof.
  intros [c Hc|n d Hn Hd|c w f d Hc Hf Hd] [c' Hc'|n' d' Hn' Hd'|c' w' f' d' Hc' Hf' Hd']; cbn [app]; intros [= <- E];
    field_cases; try lia; try done.
  - by apply app_inj_zlen in E as [-> _]; [|lia].
  - rewrite <- !app_assoc in E. apply app_inj_zlen in E as [<- E]; [|lia]. by apply app_inj_zlen in E as [-> _]; [|lia].
Qed.

Lemma truncated_no_instruction i k : instruction i -> ~ truncated (i ++ k).
Proof.
  intros [c Hc|n d Hn Hd|c w f d Hc Hf Hd]; cbn [app]; inversion 1 as [n' d' Hn' Hd'|c' w' f' Hc' Hf'|c' w' f' d' Hc' Hf' Hd' [E1 E2]];
    subst; field_cases; try lia; try (rewrite ?zlen_app in *; zlen_facts; lia).
  rewrite <- app_assoc in E2. apply app_inj_zlen in E2 as [-> ->]; [|lia]. rewrite zlen_app in *. zlen_facts. lia.
Qed.

Lemma script_not_truncated l l' k :
  Forall instruction l -> Forall instruction l' -> truncated k -> concat l <> concat l' ++ k.
Proof.
  intros Hl Hl' Hk. revert l Hl. induction Hl' as [|j l' Hj _ IH]; intros l Hl; cbn [concat app].
  - destruct Hl as [|i l Hi _]; cbn [concat]; intros <-; [by inversion Hk|]. by apply truncated_no_instruction in Hk.
  - destruct Hl as [|i l Hi Hl]; cbn [concat]; [by destruct Hj|]. rewrite <- app_assoc. intros E.
    pose proof (instruction_unique _ _ _ _ Hi Hj E) as ->. apply app_inv_head in E. by apply (IH l).
Qed.

(** The parser reads exactly the instructions. *)

Definition length_of (c : Z) : Z :=
  if decide (1 <= c <= 75) then c + 1 else if decide (c = 76) then -1 else if decide (c = 77) then -2
  else if decide (c = 78) then -4 else 1.

Lemma opcodeArray_length c : is_byte c -> exists op, opcodeArray !! Z.to_nat c = Some op /\ value op = c /\ length_ op = length_of c.
Proof.
  intros Hc. assert (forallb (fun b => match opcodeArray !! Z.to_nat b with
    | Some op => bool_decide (value op = b /\ length_ op = length_of b) | None => false end) all_bytes = true) as Hall by by vm_compute.
  rewrite forallb_forall in Hall. specialize (Hall c). destruct (opcodeArray !! Z.to_nat c) as [op|].
  - exists op. split; [done|]. apply (bool_decide_eq_true_1 _), Hall, list_elem_of_In, elem_of_seqZ. unfold is_byte in Hc. lia.
  - discriminate Hall. apply list_elem_of_In, elem_of_seqZ. unfold is_byte in Hc. lia.
Qed.

Lemma length_of_cases c : is_byte c ->
  (length_of c = 1 /\ (c = 0 \/ 79 <= c)) \/ (length_of c = c + 1 /\ 1 <= c <= 75) \/ (c, - length_of c) ∈ length_fields.
Proof.
  unfold is_byte, length_of. intros Hc. repeat case_decide; subst; try (left; lia); try (right; left; lia); right; right;
    by apply (bool_decide_unpack _).
Qed.

Lemma encode_instruction pop : wf_pop opcodeArray pop -> instruction (encode pop).
Proof.
  destruct pop as [op d]. unfold wf_pop, encode, data_ok. cbn [pop_opcode data]. intros (Hb & Hop & _ & _ & Hd).
  destruct (opcodeArray_length _ Hb) as (op' & Hop' & _ & Hl). rewrite Hop in Hop'. injection Hop' as <-. rewrite Hl in *.
  destruct (length_of_cases _ Hb) as [[E Hc]|[[E Hc]|Hc]].
  - rewrite decide_True in Hd by done. rewrite Hd, E. by apply plain_instruction.
  - rewrite decide_False in Hd by lia. destruct Hd as (v & -> & _ & Hv). rewrite decide_True in Hv by lia.
    replace (Z.to_nat (- length_of (value op))) with O by lia. cbn [le_field app contents]. apply push_instruction; [done|lia].
  - pose proof (length_fields_cases _ _ Hc) as Hw. rewrite decide_False in Hd by lia. destruct Hd as (v & -> & _ & Hv).
    rewrite decide_False in Hv by lia. cbn [contents]. apply (pushdata_instruction _ _ _ _ Hc).
    + unfold zlen. rewrite le_field_length. lia.
    + rewrite le_field_val; [done|]. zlen_facts. rewrite Z2Nat.id by lia. lia.
Qed.

Lemma malformed_truncated k e : wf_bytes k -> k <> [] -> parse_one opcodeArray k = Err e -> truncated k.
Proof.
  intros Hk Hne. destruct k as [|c k]; [done|]. apply wf_bytes_cons in Hk as [Hb Hk].
  destruct (opcodeArray_length _ Hb) as (op & Hop & Hv & Hl). pose proof Hb as Hb'. unfold is_byte in Hb'.
  unfold parse_one. rewrite goidx_0, outcome_bind_ok, (goidx_lookup _ _ op), outcome_bind_ok by (lia || done). rewrite Hl.
  destruct (length_of_cases _ Hb) as [[E Hc]|[[E Hc]|Hc]].
  - by rewrite decide_True.
  - rewrite E. decide_lengths. case_decide as Hr; [|unfold goslice; by case_decide]. intros _. apply truncated_push; [done|].
    rewrite zlen_cons in Hr. lia.
  - pose proof (length_fields_cases _ _ Hc) as Hw. decide_lengths. cbn [drop]. rewrite skipn_O.
    case_decide as Hr; [intros _; by apply (truncated_length _ _ _ Hc)|].
    destruct (split_prefix k (- length_of c)) as (f & r & -> & Hf); [lia|]. apply wf_bytes_app in Hk as [Hfw _].
    rewrite <- Hl in *. rewrite parse_len_field, outcome_bind_ok by (done || lia).
    pose proof (le_val_bound f Hfw) as Hbd. rewrite Hf in Hbd. pose proof (push_len_64 op (le_val f) ltac:(lia) ltac:(lia)). rewrite i64_id by lia.
    change (c :: f ++ r) with ((c :: f) ++ r). rewrite zlen_drop by zlen_lia.
    case_decide as Hd; [|unfold goslice; by case_decide]. intros _. apply (truncated_data _ _ _ _ Hc Hf). zlen_lia.
Qed.

(** C26: the parser returns on every byte string: enough fuel is one more than the
    length of the script.  It succeeds if and only if the script is a sequence of
    instructions, and then what it returns unparses to the script.  Otherwise the error
    is [ErrMalformedPush], and the script is a sequence of instructions, to which the
    opcodes returned unparse, followed by a truncated instruction. *)
Theorem parse_total script :
  wf_bytes script ->
  exists pops e, parseScript script = Some (pops, e) /\
    (e = None <-> exists l, Forall instruction l /\ script = concat l) /\
    match e with
    | None => unparseScript pops = Ok script
    | Some e =>
        e = ErrMalformedPush /\
        exists l k, script = concat l ++ k /\ Forall instruction l /\ truncated k /\ unparseScript pops = Ok (concat l)
    end.
Proof.
  intros Hwf. destruct (parse_spec opcodeArray script opcodeArray_ok Hwf) as (pops & e & Hp & Hall & Hpost).
  exists pops, e. split; [done|]. pose proof (unparse_encode _ _ Hall) as Hu.
  assert (Forall instruction (encode <$> pops)) as Hi by (apply Forall_fmap; eapply Forall_impl; [exact Hall|apply encode_instruction]).
  destruct e as [e|]; [|rewrite Hpost; split; [split; [|done]|done]; by exists (encode <$> pops)].
  destruct Hpost as (-> & k & Hk & -> & Herr). apply wf_bytes_app in Hwf as [_ Hwf].
  pose proof (malformed_truncated k _ Hwf Hk Herr) as Ht. split.
  - split; [done|]. intros (l & Hl & E). by destruct (script_not_truncated _ _ _ Hl Hi Ht).
  - split; [done|]. by exists (encode <$> pops), k.
Qed.

Lemma parse_total_witness :
  wf_bytes [0x51; 0x4c; 0x05; 0x01] /\
  exists pops e, parseScript [0x51; 0x4c; 0x05; 0x01] = Some (pops, e) /\
    e = Some ErrMalformedPush /\ unparseScript pops = Ok [0x51].
Proof.
  assert (H : wf_bytes [0x51; 0x4c; 0x05; 0x01]) by by apply (bool_decide_unpack _).
  split; [done|]. destruct (parse_total [0x51; 0x4c; 0x05; 0x01] H) as (pops & e & Hp & _).
  vm_compute in Hp. injection Hp as <- <-. eexists _, _. split; [vm_compute; reflexivity|].
  split; vm_compute; reflexivity.
Defined.

(** C27: parsing and unparsing are inverse, for any template the parser accepts: every
    list of well-formed opcodes is unparsed to a script that parses to the same list,
    and what a script parses to is a list of well-formed opcodes that unparses to the
    script. *)
Theorem parse_unparse opcodes :
  template_ok opcodes ->
  (forall pops, Forall (wf_pop opcodes) pops ->
     exists script, unparseScript pops = Ok script /\ wf_bytes script /\ parseScriptTemplate script opcodes = Some (pops, None)) /\
  (forall script pops, wf_bytes script -> parseScriptTemplate script opcodes = Some (pops, None) ->
     Forall (wf_pop opcodes) pops /\ unparseScript pops = Ok script).
Proof.
  intros Ht. split.
  - intros pops Hp. exists (encode_all pops). split_and!; [by apply (unparse_encode opcodes)|by apply (encode_all_wf opcodes)|].
    by apply parse_encode_all.
  - intros script pops Hw Hp. destruct (parse_spec opcodes script Ht Hw) as (pops' & e & Hp' & Hall & Hpost).
    rewrite Hp in Hp'. injection Hp' as <- <-. rewrite Hpost. split; [done|]. by apply (unparse_encode opcodes).
Qed.

Definition pushdata2_pop : parsedOpcode :=
  mkPop (mkOpcode OP_PUSHDATA2 "OP_PUSHDATA2" (-2) fn_opcodePushData) (Some [7; 8; 9]).

Lemma pushdata2_pop_wf : wf_pop opcodeArray pushdata2_pop.
Proof.
  split_and!; try done; [by right; right; right; left|].
  exists [7; 8; 9]. split_and!; try done. by apply (bool_decide_unpack _).
Qed.

Lemma parse_unparse_witness :
  exists script, unparseScript [pushdata2_pop; pushdata2_pop] = Ok script /\ wf_bytes script /\
    parseScriptTemplate script opcodeArray = Some ([pushdata2_pop; pushdata2_pop], None).
Proof.
  apply (proj1 (parse_unparse opcodeArray opcodeArray_ok)).
  repeat constructor; apply pushdata2_pop_wf.
Defined.

(** parsing distributes over concatenation: when [a] parses completely, [a ++ b]
    parses to the opcodes of [a] followed by what [b] parses to, error included. *)
Theorem parse_app a b pops :
  wf_bytes a -> wf_bytes b -> parseScript a = Some (pops, None) ->
  parseScript (a ++ b) = (fun r => (pops ++ r.1, r.2)) <$> parseScript b.
Proof.
  intros Ha Hb Hp. unfold parseScript in *.
  destruct (parse_spec opcodeArray a opcodeArray_ok Ha) as (pops' & e & Hp' & Hall & Hpost).
  rewrite Hp in Hp'. injection Hp' as <- <-. rewrite Hpost.
  by apply parse_encode_app; [apply opcodeArray_ok|..].
Qed.

Lemma parse_app_witness :
  exists pops, parseScript [0x02; 0x0a; 0x0b] = Some (pops, None) /\
    parseScript ([0x02; 0x0a; 0x0b] ++ [0xac; 0x4c]) =
      (fun r => (pops ++ r.1, r.2)) <$> parseScript [0xac; 0x4c].
Proof.
  eexists. split; [vm_compute; reflexivity|].
  apply parse_app; [by apply (bool_decide_unpack _)..|]. vm_compute. reflexivity.
Defined.

(** ** Signature operation counts *)

Lemma asSmallInt_range op : OP_1 <= value op <= OP_16 -> 1 <= asSmallInt op <= 16.
Proof.
  unfold asSmallInt. intros H. rewrite decide_False by lia.
  rewrite u8_id; unfold is_byte; lia.
Qed.

Lemma sigops_of_bounds prev1 prev2 pop :
  0 <= sigops_of prev1 pop true <= sigops_of prev2 pop false /\
  sigops_of prev2 pop false <= MaxPubKeysPerMultiSig.
Proof.
  unfold sigops_of, MaxPubKeysPerMultiSig. case_decide; [lia|]. case_decide; [|lia].
  destruct prev1 as [op|]; [|lia]. case_decide as Hv; [|lia].
  pose proof (asSmallInt_range op). lia.
Qed.

Lemma sigop_loop_bounds pops prev1 prev2 n1 n2 :
  n1 <= n2 ->
  n1 <= sigop_loop prev1 pops true n1 /\
  sigop_loop prev1 pops true n1 - n1 <= sigop_loop prev2 pops false n2 - n2 /\
  sigop_loop prev2 pops false n2 <= n2 + MaxPubKeysPerMultiSig * zlen pops.
Proof.
  revert prev1 prev2 n1 n2. induction pops as [|pop pops IH]; intros prev1 prev2 n1 n2 Hn;
    cbn [sigop_loop].
  - rewrite (@zlen_nil parsedOpcode). lia.
  - pose proof (sigops_of_bounds prev1 prev2 pop).
    destruct (IH (Some (pop_opcode pop)) (Some (pop_opcode pop)) 
      (n1 + sigops_of prev1 pop true) (n2 + sigops_of prev2 pop false)) as (H1 & H2 & H3);
      [lia|].
    unfold MaxPubKeysPerMultiSig in *. rewrite zlen_cons. lia.
Qed.

(** counting precisely never counts more signature operations than the quick
    count, which counts at most 20 per opcode. *)
Theorem getSigOpCount_precise_le pops :
  0 <= getSigOpCount pops true <= getSigOpCount pops false /\
  getSigOpCount pops false <= MaxPubKeysPerMultiSig * zlen pops.
Proof.
  pose proof (sigop_loop_bounds pops None None 0 0). unfold getSigOpCount. lia.
Qed.
