(* ===== verification/HexUtil.v ===== *)
(** * Hexadecimal encoding

    [common/hexutil/hexutil.go]: byte strings, [uint64] quantities and big
    integers as 0x-prefixed hexadecimal text.  A Go string is its byte string.

    The theorems: [Decode] inverts [Encode], so [Encode] is injective (the script
    engine uses it for map keys); [DecodeUint64] inverts [EncodeUint64] and rejects
    the text of numbers outside the range; [DecodeBig] inverts [EncodeBig] up to 256
    bits. *)

From S2P Require Import Prelude.

#[local] Open Scope Z_scope.

Inductive decError : Set :=
  | ErrEmptyString
  | ErrSyntax
  | ErrMissingPrefix
  | ErrOddLength
  | ErrEmptyNumber
  | ErrLeadingZero
  | ErrUint64Range
  | ErrUintRange
  | ErrBig256Range.

#[export] Instance decError_eq_dec : EqDecision decError.
Proof. solve_decision. Defined.

(** ** Characters *)

Definition chr_0 : Z := 48.
Definition chr_9 : Z := 57.
Definition chr_A : Z := 65.
Definition chr_F : Z := 70.
Definition chr_X : Z := 88.
Definition chr_a : Z := 97.
Definition chr_f : Z := 102.
Definition chr_x : Z := 120.

(** [has0xPrefix] *)

Definition has0xPrefix (input : bytes) : bool :=
  match input with
  | c0 :: c1 :: _ => bool_decide (c0 = chr_0 /\ (c1 = chr_x \/ c1 = chr_X))
  | _ => false
  end.

(** [decodeNibble]; [badNibble], the largest [uint64], is [None]. *)

Definition decodeNibble (c : Z) : option Z :=
  if decide (chr_0 <= c <= chr_9) then Some (c - chr_0)
  else if decide (chr_A <= c <= chr_F) then Some (c - chr_A + 10)
  else if decide (chr_a <= c <= chr_f) then Some (c - chr_a + 10)
  else None.

(** ** encoding/hex

    [hex.Encode] writes two lower-case digits per byte; [hex.DecodeString] reads
    them back, returning what it decoded before the first error. *)

Definition hexDigit (n : Z) : Z := if decide (n < 10) then chr_0 + n else chr_a + (n - 10).

Fixpoint hex_Encode (b : bytes) : bytes :=
  match b with
  | [] => []
  | v :: b => hexDigit (Z.shiftr v 4) :: hexDigit (Z.land v 0x0f) :: hex_Encode b
  end.

Inductive hexError : Set := InvalidByteError | ErrLength.

Fixpoint hex_DecodeString (s : bytes) : bytes * option hexError :=
  match s with
  | [] => ([], None)
  | [c] => match decodeNibble c with
           | None => ([], Some InvalidByteError)
           | Some _ => ([], Some ErrLength)
           end
  | c0 :: c1 :: s =>
      match decodeNibble c0, decodeNibble c1 with
      | Some n0, Some n1 =>
          let '(b, err) := hex_DecodeString s in (Z.lor (Z.shiftl n0 4) n1 :: b, err)
      | _, _ => ([], Some InvalidByteError)
      end
  end.

Definition mapError (err : hexError) : decError :=
  match err with InvalidByteError => ErrSyntax | ErrLength => ErrOddLength end.

(** ** Byte strings *)

Definition Decode (input : bytes) : bytes * option decError :=
  if decide (zlen input = 0) then ([], Some ErrEmptyString)
  else if negb (has0xPrefix input) then ([], Some ErrMissingPrefix)
  else let '(b, err) := hex_DecodeString (drop 2 input) in (b, mapError <$> err).

Definition Encode (b : bytes) : bytes := chr_0 :: chr_x :: hex_Encode b.

(** ** Quantities *)

Definition checkNumber (input : bytes) : outcome decError bytes :=
  if decide (zlen input = 0) then Err ErrEmptyString
  else if negb (has0xPrefix input) then Err ErrMissingPrefix
  else
    let input := drop 2 input in
    if decide (zlen input = 0) then Err ErrEmptyNumber
    else if decide (zlen input > 1 /\ hd 0 input = chr_0) then Err ErrLeadingZero
    else Ok input.

(** [strconv.ParseUint(raw, 16, 64)]: a digit that is not hexadecimal is a
    syntax error, a value of 2^64 or more a range error. *)

Fixpoint parse_hex (raw : bytes) (acc : Z) : outcome decError Z :=
  match raw with
  | [] => Ok acc
  | c :: raw =>
      match decodeNibble c with
      | None => Err ErrSyntax
      | Some d =>
          let acc := 16 * acc + d in
          if decide (2 ^ 64 <= acc) then Err ErrUint64Range else parse_hex raw acc
      end
  end.

Definition ParseUint16 (raw : bytes) : outcome decError Z :=
  if decide (raw = []) then Err ErrSyntax else parse_hex raw 0.

Definition DecodeUint64 (input : bytes) : outcome decError Z :=
  raw ← checkNumber input;
  ParseUint16 raw.

(** [strconv.AppendUint(enc, i, 16)] and the [%x] verb: the digits of [i], most
    significant first, [0] for zero. *)

Fixpoint hex_digits (fuel : nat) (i : Z) (acc : bytes) : bytes :=
  match fuel with
  | O => acc
  | S fuel =>
      let acc := hexDigit (i mod 16) :: acc in
      if decide (i / 16 = 0) then acc else hex_digits fuel (i / 16) acc
  end.

Definition FormatHex (i : Z) : bytes := hex_digits (Z.to_nat (Z.log2 i + 1)) i [].

Definition EncodeUint64 (i : Z) : bytes := chr_0 :: chr_x :: FormatHex i.

Definition EncodeBig (bigint : Z) : bytes :=
  if decide (bigint = 0) then [chr_0; chr_x; chr_0]
  else (if decide (bigint < 0) then [45] else []) ++ chr_0 :: chr_x :: FormatHex (Z.abs bigint).

(** [DecodeBig] fills 64-bit words of 16 digits each from the end of the text. *)

Definition bigWordNibbles : Z := 16.

Fixpoint word_loop (raw : bytes) (w : Z) : outcome decError Z :=
  match raw with
  | [] => Ok w
  | c :: raw =>
      match decodeNibble c with
      | None => Err ErrSyntax
      | Some nib => word_loop raw (u64 (u64 (w * 16) + nib))
      end
  end.

Fixpoint words_loop (n : nat) (raw : bytes) (end_ : Z) : outcome decError (list Z) :=
  match n with
  | O => Ok []
  | S n =>
      let start := end_ - bigWordNibbles in
      let start := if decide (start < 0) then 0 else start in
      digits ← goslice raw start end_;
      w ← word_loop digits 0;
      ws ← words_loop n raw start;
      Ok (w :: ws)
  end.

(** [new(big.Int).SetBits(words)] *)

Definition SetBits (words : list Z) : Z := foldr (fun w z => w + 2 ^ 64 * z) 0 words.

Definition DecodeBig (input : bytes) : outcome decError Z :=
  raw ← checkNumber input;
  if decide (zlen raw > 64) then Err ErrBig256Range else
  words ← words_loop (Z.to_nat (Z.quot (zlen raw) bigWordNibbles + 1)) raw (zlen raw);
  Ok (SetBits words).

(** ** Digits *)

Lemma decode_hexDigit n : 0 <= n < 16 -> decodeNibble (hexDigit n) = Some n.
Proof.
  intros Hn. unfold decodeNibble, hexDigit, chr_0, chr_9, chr_A, chr_F, chr_a, chr_f.
  destruct (decide (n < 10)).
  - rewrite decide_True by lia. f_equal. lia.
  - rewrite !decide_False by lia. rewrite decide_True by lia. f_equal. lia.
Qed.

Lemma decodeNibble_range c n : decodeNibble c = Some n -> 0 <= n < 16.
Proof.
  unfold decodeNibble, chr_0, chr_9, chr_A, chr_F, chr_a, chr_f. intros H.
  repeat case_decide; simplify_eq; lia.
Qed.

Lemma nibbles_byte v :
  is_byte v ->
  0 <= Z.shiftr v 4 < 16 /\ 0 <= Z.land v 0x0f < 16 /\
  Z.lor (Z.shiftl (Z.shiftr v 4) 4) (Z.land v 0x0f) = v.
Proof.
  intros Hv.
  pose proof (byte_exhaust (fun v => bool_decide (0 <= Z.shiftr v 4 < 16 /\ 0 <= Z.land v 0x0f < 16 /\
    Z.lor (Z.shiftl (Z.shiftr v 4) 4) (Z.land v 0x0f) = v))) as H.
  apply (bool_decide_unpack _), Is_true_true. apply H; [by vm_compute|done].
Qed.

Lemma hex_roundtrip b : wf_bytes b -> hex_DecodeString (hex_Encode b) = (b, None).
Proof.
  induction 1 as [|v b Hv Hb IH]; [done|]. cbn [hex_Encode hex_DecodeString].
  destruct (nibbles_byte v Hv) as (H0 & H1 & H2).
  by rewrite !decode_hexDigit, IH, H2 by done.
Qed.

Lemma Decode_Encode b : wf_bytes b -> Decode (Encode b) = (b, None).
Proof.
  intros Hb. unfold Decode, Encode. rewrite decide_False by (rewrite zlen_cons; zlen_lia).
  cbn [has0xPrefix negb]. rewrite bool_decide_true by (split; [done|by left]). cbn [negb].
  change (drop 2 (chr_0 :: chr_x :: hex_Encode b)) with (hex_Encode b).
  by rewrite hex_roundtrip.
Qed.

Lemma Encode_inj b c : wf_bytes b -> wf_bytes c -> Encode b = Encode c -> b = c.
Proof.
  intros Hb Hc He. apply (f_equal Decode) in He. rewrite !Decode_Encode in He by done. by simplify_eq.
Qed.

(** ** Quantities

    [hex_val] is the number a digit string denotes. *)

Definition nibble (c : Z) : Z := match decodeNibble c with Some n => n | None => 0 end.

Lemma nibble_eq c n : decodeNibble c = Some n -> nibble c = n.
Proof. unfold nibble. by intros ->. Qed.

Fixpoint hex_val (acc : Z) (raw : bytes) : Z :=
  match raw with
  | [] => acc
  | c :: raw => hex_val (16 * acc + nibble c) raw
  end.

Definition hex_ok (raw : bytes) : Prop := Forall (fun c => is_Some (decodeNibble c)) raw.

Lemma hex_val_acc acc raw : hex_val acc raw = acc * 16 ^ zlen raw + hex_val 0 raw.
Proof.
  revert acc. induction raw as [|c raw IH]; intros acc; cbn [hex_val].
  - change (zlen (@nil Z)) with 0. lia.
  - rewrite IH, (IH (16 * 0 + _)), zlen_cons, Z.pow_add_r by (try apply zlen_nonneg; lia). lia.
Qed.

Lemma hex_val_app raw k : hex_val 0 (raw ++ k) = hex_val 0 raw * 16 ^ zlen k + hex_val 0 k.
Proof.
  assert (H : forall acc, hex_val acc (raw ++ k) = hex_val (hex_val acc raw) k).
  { induction raw as [|c raw IH]; intros acc; cbn [app hex_val]; [done|apply IH]. }
  rewrite H. apply hex_val_acc.
Qed.

Lemma hex_val_bound raw : hex_ok raw -> 0 <= hex_val 0 raw < 16 ^ zlen raw.
Proof.
  induction raw as [|c raw IH] using rev_ind; intros Hok; [rewrite (@zlen_nil Z); cbn; lia|].
  apply Forall_app in Hok as [Hr Hc]. specialize (IH Hr).
  apply Forall_singleton in Hc as [n Hn]. pose proof (decodeNibble_range c n Hn).
  rewrite hex_val_app, zlen_snoc, Z.pow_add_r by (try apply zlen_nonneg; lia).
  cbn [hex_val]. rewrite (nibble_eq c n Hn). change (zlen [c]) with 1. lia.
Qed.

Lemma hex_digits_spec fuel i acc :
  0 <= i < 16 ^ Z.of_nat fuel -> (0 < fuel)%nat ->
  exists d, hex_digits fuel i acc = d ++ acc /\ hex_ok d /\ hex_val 0 d = i /\
    d <> [] /\ (i <> 0 -> hd 0 d <> chr_0) /\ (i = 0 -> d = [chr_0]).
Proof.
  revert i acc. induction fuel as [|fuel IH]; intros i acc Hi Hf; [lia|]. cbn [hex_digits].
  pose proof (Z.mod_pos_bound i 16) as Hm. pose proof (Z.div_mod i 16) as Hdm.
  assert (Hd : decodeNibble (hexDigit (i mod 16)) = Some (i mod 16)) by (apply decode_hexDigit; lia).
  destruct (decide (i / 16 = 0)) as [Hz|Hz].
  - exists [hexDigit (i mod 16)]. cbn [hex_val]. rewrite (nibble_eq _ _ Hd). split_and!; try done; [|cbn; lia|..].
    + constructor; [|constructor]. by rewrite Hd.
    + intros Hne. cbn. unfold hexDigit, chr_0, chr_a. case_decide; lia.
    + intros ->. done.
  - rewrite Nat2Z.inj_succ, Z.pow_succ_r in Hi by lia.
    assert (Hfuel : (0 < fuel)%nat) by (destruct fuel; [cbn in Hi; lia|lia]).
    destruct (IH (i / 16) (hexDigit (i mod 16) :: acc)) as (d & -> & Hok & Hv & Hne & Hh & _);
      [split; [apply Z.div_pos; lia|apply Z.div_lt_upper_bound; lia]|done|].
    exists (d ++ [hexDigit (i mod 16)]). split_and!.
    + by app_norm.
    + apply Forall_app. split; [done|]. constructor; [|constructor]. by rewrite Hd.
    + rewrite hex_val_app, Hv. cbn [hex_val]. rewrite (nibble_eq _ _ Hd). change (zlen [_]) with 1. lia.
    + by destruct d.
    + intros _. destruct d; [done|]. by apply Hh.
    + intros ->. by rewrite Z.div_0_l in Hz.
Qed.

Lemma FormatHex_spec i :
  0 <= i ->
  hex_ok (FormatHex i) /\ hex_val 0 (FormatHex i) = i /\ FormatHex i <> [] /\
  (zlen (FormatHex i) > 1 -> hd 0 (FormatHex i) <> chr_0).
Proof.
  intros Hi. unfold FormatHex.
  destruct (hex_digits_spec (Z.to_nat (Z.log2 i + 1)) i []) as (d & -> & Hok & Hv & Hne & Hh & H0).
  - split; [lia|]. pose proof (Z.log2_nonneg i). rewrite Z2Nat.id by lia.
    destruct (decide (i = 0)) as [->|]; [cbn; lia|].
    pose proof (Z.log2_spec i ltac:(lia)). 
    apply Z.lt_le_trans with (2 ^ (Z.log2 i + 1)); [rewrite Z.add_1_r; lia|].
    apply Z.pow_le_mono_l. lia.
  - pose proof (Z.log2_nonneg i). lia.
  - rewrite app_nil_r. split_and!; try done. intros Hl.
    destruct (decide (i = 0)) as [->|]; [|by apply Hh].
    rewrite H0 in Hl by done. change (zlen [chr_0]) with 1 in Hl. lia.
Qed.

Lemma checkNumber_ok d :
  d <> [] -> (zlen d > 1 -> hd 0 d <> chr_0) -> checkNumber (chr_0 :: chr_x :: d) = Ok d.
Proof.
  intros Hne Hh. unfold checkNumber. rewrite decide_False by (rewrite zlen_cons; zlen_lia).
  cbn [has0xPrefix]. rewrite bool_decide_true by (split; [done|by left]). cbn [negb].
  change (drop 2 (chr_0 :: chr_x :: d)) with d.
  rewrite decide_False by (intros Hz; by apply zlen_0 in Hz). by rewrite decide_False by tauto.
Qed.

Lemma hex_val_mono acc raw : 0 <= acc -> hex_ok raw -> acc <= hex_val acc raw.
Proof.
  intros Hacc Hok. rewrite hex_val_acc. pose proof (hex_val_bound raw Hok).
  pose proof (Z.pow_pos_nonneg 16 (zlen raw) ltac:(lia) (zlen_nonneg raw)). nia.
Qed.

Lemma parse_hex_spec raw acc :
  hex_ok raw -> 0 <= acc < 2 ^ 64 ->
  parse_hex raw acc =
    if decide (2 ^ 64 <= hex_val acc raw) then Err ErrUint64Range else Ok (hex_val acc raw).
Proof.
  intros Hok. revert acc. induction Hok as [|c raw [n Hn] Hok IH]; intros acc Hacc; cbn [parse_hex hex_val].
  { by rewrite decide_False by lia. }
  rewrite Hn, (nibble_eq c n Hn). pose proof (decodeNibble_range c n Hn).
  pose proof (hex_val_mono (16 * acc + n) raw ltac:(lia) Hok).
  destruct (decide (2 ^ 64 <= 16 * acc + n)) as [Hr|Hr]; [by rewrite decide_True by lia|].
  by rewrite IH by lia.
Qed.

Lemma DecodeUint64_spec d :
  hex_ok d -> d <> [] -> (zlen d > 1 -> hd 0 d <> chr_0) ->
  DecodeUint64 (chr_0 :: chr_x :: d) =
    if decide (2 ^ 64 <= hex_val 0 d) then Err ErrUint64Range else Ok (hex_val 0 d).
Proof.
  intros Hok Hne Hh. unfold DecodeUint64, ParseUint16.
  by rewrite checkNumber_ok, outcome_bind_ok, decide_False, parse_hex_spec by (done || lia).
Qed.

(** ** Big integers *)

Lemma word_loop_spec raw w :
  hex_ok raw -> 0 <= w -> hex_val w raw < 2 ^ 64 -> word_loop raw w = Ok (hex_val w raw).
Proof.
  intros Hok. revert w. induction Hok as [|c raw [n Hn] Hok IH]; intros w Hw Hb; cbn [word_loop hex_val]; [done|].
  cbn [hex_val] in Hb. rewrite Hn. rewrite (nibble_eq c n Hn) in *. pose proof (decodeNibble_range c n Hn).
  pose proof (hex_val_mono (16 * w + n) raw ltac:(lia) Hok).
  rewrite (u64_id (w * 16)), u64_id by lia. replace (w * 16 + n) with (16 * w + n) by lia.
  by apply IH; [lia|].
Qed.

Lemma word_16_digits d : hex_ok d -> zlen d <= 16 -> word_loop d 0 = Ok (hex_val 0 d).
Proof.
  intros Hok Hl. apply word_loop_spec; [done..|lia|]. pose proof (hex_val_bound d Hok) as [_ H].
  eapply Z.lt_le_trans; [exact H|]. change (2 ^ 64) with (16 ^ 16). apply Z.pow_le_mono_r; lia.
Qed.

Lemma words_loop_spec n d k :
  hex_ok (d ++ k) -> zlen d <= 16 * Z.of_nat n ->
  exists ws, words_loop n (d ++ k) (zlen d) = Ok ws /\ SetBits ws = hex_val 0 d.
Proof.
  revert d k. induction n as [|n IH]; intros d k Hok Hl.
  - assert (d = []) as -> by (apply zlen_0; zlen_lia). by exists [].
  - cbn [words_loop]. unfold bigWordNibbles. 
    destruct (decide (zlen d - 16 < 0)) as [Hs|Hs].
    + rewrite (goslice_mid [] d k) by (rewrite (@zlen_nil Z); lia).
      apply Forall_app in Hok as [Hd Hk].
      rewrite outcome_bind_ok, word_16_digits, outcome_bind_ok by (done || lia).
      destruct (IH [] (d ++ k)) as (ws & Hw & Hv); [cbn [app]; by apply Forall_app|rewrite (@zlen_nil Z); lia|].
      cbn [app] in Hw. rewrite (@zlen_nil Z) in Hw. rewrite Hw.
      exists (hex_val 0 d :: ws). split; [done|]. cbn [SetBits foldr]. fold (SetBits ws). rewrite Hv. cbn; lia.
    + destruct (goslice_ok (E := decError) d (zlen d - 16) (zlen d)) as (a & b & c & Hd & Ha & Hb & _); [lia..|].
      assert (c = []) as -> by (apply zlen_0; apply (f_equal zlen) in Hd; zlen_lia).
      rewrite app_nil_r in Hd. subst d. rewrite <- app_assoc in *.
      rewrite goslice_mid by zlen_lia. 
      pose proof Hok as Hok'. apply Forall_app in Hok' as [Hoa [Hob Hok']%Forall_app].
      rewrite outcome_bind_ok, word_16_digits, outcome_bind_ok by (done || zlen_lia).
      rewrite zlen_app in Ha, Hl, Hb |- *.
      destruct (IH a (b ++ k)) as (ws & Hw & Hv); [done|lia|].
      replace (zlen a + zlen b - 16) with (zlen a) by lia. rewrite Hw.
      exists (hex_val 0 b :: ws). split; [done|]. cbn [SetBits foldr]. fold (SetBits ws).
      rewrite Hv, hex_val_app. replace (zlen b) with 16 by lia. change (16 ^ 16) with (2 ^ 64). lia.
Qed.

Lemma DecodeBig_spec d :
  hex_ok d -> d <> [] -> (zlen d > 1 -> hd 0 d <> chr_0) -> zlen d <= 64 ->
  DecodeBig (chr_0 :: chr_x :: d) = Ok (hex_val 0 d).
Proof.
  intros Hok Hne Hh Hl. unfold DecodeBig. rewrite checkNumber_ok, outcome_bind_ok, decide_False by (done || lia).
  unfold bigWordNibbles. pose proof (zlen_nonneg d). rewrite Z.quot_div_nonneg by lia.
  destruct (words_loop_spec (Z.to_nat (zlen d / 16 + 1)) d []) as (ws & Hw & Hv);
    [by rewrite app_nil_r| |].
  { pose proof (Z.div_mod (zlen d) 16). pose proof (Z.mod_pos_bound (zlen d) 16). lia. }
  rewrite app_nil_r in Hw. by rewrite Hw, outcome_bind_ok, Hv.
Qed.

Lemma FormatHex_length i n : 0 <= i < 16 ^ n -> 1 <= n -> zlen (FormatHex i) <= n.
Proof.
  intros Hi Hn. destruct (FormatHex_spec i) as (Hok & Hv & Hne & Hh); [lia|].
  destruct (decide (zlen (FormatHex i) <= n)) as [|Hgt]; [done|].
  destruct (FormatHex i) as [|c d] eqn:E; [done|]. rewrite zlen_cons in *. 
  specialize (Hh ltac:(lia)). cbn [hd] in Hh.
  assert (1 <= nibble c).
  { apply Forall_cons in Hok as [[m Hm] _]. rewrite (nibble_eq c m Hm). 
    pose proof (decodeNibble_range c m Hm). destruct (decide (m = 0)) as [->|]; [|lia].
    exfalso. revert Hm Hh. unfold decodeNibble, chr_0, chr_9, chr_A, chr_F, chr_a, chr_f.
    repeat case_decide; intros; simplify_eq; lia. }
  cbn [hex_val] in Hv. rewrite hex_val_acc in Hv.
  apply Forall_cons in Hok as [_ Hok]. pose proof (hex_val_bound d Hok).
  assert (16 ^ n <= 16 ^ zlen d) by (apply Z.pow_le_mono_r; lia). nia.
Qed.

(** ** The properties *)

(** decoding the hexadecimal text of a byte string gives the byte string back,
    and no two byte strings have the same text. *)
Theorem hexutil_bytes_roundtrip b c :
  wf_bytes b -> wf_bytes c ->
  Decode (Encode b) = (b, None) /\ (Encode b = Encode c -> b = c).
Proof. intros Hb Hc. split; [by apply Decode_Encode|by apply Encode_inj]. Qed.

Lemma hexutil_bytes_roundtrip_witness :
  Decode (Encode [0; 0xab; 0xff]) = ([0; 0xab; 0xff], None) /\
  (Encode [0; 0xab; 0xff] = Encode [1] -> [0; 0xab; 0xff] = [1]).
Proof.
  apply (hexutil_bytes_roundtrip [0; 0xab; 0xff] [1]); by apply (bool_decide_unpack _).
Defined.

(** quantities.  [DecodeUint64] inverts [EncodeUint64] on every [uint64], and
    rejects with the range error the text of every larger number; [DecodeBig]
    inverts [EncodeBig] on every number of at most 256 bits. *)
Theorem hexutil_quantity_roundtrip i :
  0 <= i ->
  DecodeUint64 (EncodeUint64 i) = (if decide (i < 2 ^ 64) then Ok i else Err ErrUint64Range) /\
  (i < 2 ^ 256 -> DecodeBig (EncodeBig i) = Ok i).
Proof.
  intros Hi. destruct (FormatHex_spec i Hi) as (Hok & Hv & Hne & Hh). split.
  - unfold EncodeUint64. rewrite DecodeUint64_spec, Hv by done.
    destruct (decide (i < 2 ^ 64)); [by rewrite decide_False by lia|by rewrite decide_True by lia].
  - intros Hi'. unfold EncodeBig. destruct (decide (i = 0)) as [->|Hnz]; [done|].
    rewrite decide_False by lia. cbn [app]. rewrite Z.abs_eq by done.
    rewrite DecodeBig_spec, Hv; try done. apply FormatHex_length; [|lia].
    change (16 ^ 64) with (2 ^ 256). lia.
Qed.

Lemma hexutil_quantity_roundtrip_witness :
  DecodeUint64 (EncodeUint64 (2 ^ 64)) = Err ErrUint64Range /\
  DecodeBig (EncodeBig (2 ^ 64)) = Ok (2 ^ 64).
Proof.
  destruct (hexutil_quantity_roundtrip (2 ^ 64)) as [H1 H2]; [lia|].
  split; [exact H1|apply H2; lia].
Defined.
