(* ===== verification/Transaction.v ===== *)
(** * Transactions

    The transaction types of [dag/modules] (message.go, transaction.go, utxo.go)
    and the two ways a transaction is copied or serialised when a signature is
    checked: [Clone], which goes through [common/obj.DeepCopy] and encoding/gob,
    and [rlp.EncodeToBytes] applied to a transaction value.

    A [Payload] is the value of a Go interface: nil, a payment, or a payload of
    another message type, given by the values of its serialised fields. *)

From S2P Require Import Prelude Rlp RlpEncode.

#[local] Open Scope Z_scope.

Definition HashLength : Z := 32.

(** ** Types *)

Record Asset := mkAsset {
  AssetId : bytes;
  UniqueId : bytes;
  ChainId : Z
}.

Record OutPoint := mkOutPoint {
  op_TxHash : bytes;
  MessageIndex : Z;
  OutIndex : Z
}.

Record Output := mkOutput {
  Value : Z;
  PkScript : bytes;
  out_Asset : option Asset
}.

Record Input := mkInput {
  PreviousOutPoint : option OutPoint;
  SignatureScript : option bytes;   (* [None] is nil *)
  Extra : option bytes
}.

Record PaymentPayload := mkPaymentPayload {
  Inputs : list Input;
  Outputs : list Output;
  LockTime : Z
}.

#[export] Instance Asset_eq_dec : EqDecision Asset.
Proof. solve_decision. Defined.
#[export] Instance OutPoint_eq_dec : EqDecision OutPoint.
Proof. solve_decision. Defined.
#[export] Instance Output_eq_dec : EqDecision Output.
Proof. solve_decision. Defined.
#[export] Instance Input_eq_dec : EqDecision Input.
Proof. solve_decision. Defined.
#[export] Instance PaymentPayload_eq_dec : EqDecision PaymentPayload.
Proof. solve_decision. Defined.

(** [MessageType] *)

Abbreviation APP_PAYMENT := 0 (only parsing).
Abbreviation APP_CONTRACT_TPL := 1 (only parsing).
Abbreviation APP_CONTRACT_DEPLOY := 2 (only parsing).
Abbreviation APP_CONTRACT_INVOKE := 3 (only parsing).
Abbreviation APP_CONTRACT_INVOKE_REQUEST := 4 (only parsing).
Abbreviation APP_CONFIG := 5 (only parsing).
Abbreviation APP_TEXT := 6 (only parsing).
Abbreviation APP_VOTE := 7 (only parsing).
Abbreviation APP_SIGNATURE := 8 (only parsing).
Abbreviation OP_MEDIATOR_CREATE := 9 (only parsing).

(** The concrete types a payload interface holds. *)

Inductive PayloadType : Set :=
  | T_PaymentPayload
  | T_ContractTplPayload
  | T_ContractDeployPayload
  | T_ContractInvokePayload
  | T_ContractInvokeRequestPayload
  | T_ConfigPayload
  | T_TextPayload
  | T_VotePayload
  | T_SignaturePayload
  | T_MediatorCreateOperation.

#[export] Instance PayloadType_eq_dec : EqDecision PayloadType.
Proof. solve_decision. Defined.

Inductive Payload :=
  | NilPayload
  | Payment (p : PaymentPayload)
  | OtherPayload (t : PayloadType) (fields : rval).

Definition payload_type (p : Payload) : option PayloadType :=
  match p with
  | NilPayload => None
  | Payment _ => Some T_PaymentPayload
  | OtherPayload t _ => Some t
  end.

Record Message := mkMessage {
  App : Z;
  payload : Payload
}.

Record Transaction := mkTransaction {
  TxHash : bytes;
  TxMessages : list Message
}.

(** The zero value of the Go struct. *)

Definition zero_Hash : bytes := replicate 32 0.
Definition zero_Transaction : Transaction := mkTransaction zero_Hash [].

Definition NewOutPoint (hash : bytes) (messageindex outindex : Z) : OutPoint :=
  mkOutPoint hash messageindex outindex.

Definition NewTxIn (prevOut : option OutPoint) (signatureScript : option bytes) : Input :=
  mkInput prevOut signatureScript None.

Definition NewTxOut (value : Z) (pkScript : bytes) (asset : option Asset) : Output :=
  mkOutput value pkScript asset.

(** ** Copying through encoding/gob

    gob refuses an interface value whose concrete type was not passed to
    [gob.Register].  [gob_registry] is the list of types the program registers:
    no file of the repository calls [gob.Register], so it is empty.

    A value that gob accepts comes back as it was, except that an empty slice
    comes back nil. *)

Definition gob_registry : list PayloadType := [].

Definition gob_encodable (registry : list PayloadType) (p : Payload) : bool :=
  match payload_type p with
  | None => true
  | Some t => bool_decide (t ∈ registry)
  end.

Definition gob_slice (d : option bytes) : option bytes :=
  match d with Some [] => None | _ => d end.

Definition gob_input (i : Input) : Input :=
  mkInput (PreviousOutPoint i) (gob_slice (SignatureScript i)) (gob_slice (Extra i)).

Definition gob_payload (p : Payload) : Payload :=
  match p with
  | Payment pay => Payment (mkPaymentPayload (gob_input <$> Inputs pay) (Outputs pay) (LockTime pay))
  | _ => p
  end.

(** [DeepCopy(dst, src)]: the new contents of [dst]; an encoding error leaves
    [dst] as it was, and every caller ignores the error. *)

Definition DeepCopy (registry : list PayloadType) (dst src : Transaction) : Transaction :=
  if forallb (fun m => gob_encodable registry (payload m)) (TxMessages src) then
    mkTransaction (TxHash src) ((fun m => mkMessage (App m) (gob_payload (payload m))) <$> TxMessages src)
  else dst.

Definition Clone (registry : list PayloadType) (tx : Transaction) : Transaction :=
  DeepCopy registry zero_Transaction tx.

(** ** The serialised types

    Each payload type as the serialiser sees it; the execution time of a deployed
    contract is tagged ["-"] and left out. *)

Definition asset_type : rtype := TStruct [(no_tags, TByteArray 16); (no_tags, TByteArray 16); (no_tags, TUint 64)].

Definition outpoint_type : rtype := TStruct [(no_tags, TByteArray 32); (no_tags, TUint 32); (no_tags, TUint 32)].

Definition input_type : rtype := TStruct [(no_tags, TPtr outpoint_type); (no_tags, TByteSlice); (no_tags, TByteSlice)].

Definition output_type : rtype := TStruct [(no_tags, TUint 64); (no_tags, TByteSlice); (no_tags, TPtr asset_type)].

Definition version_type : rtype :=
  TStruct [(no_tags, TStruct [(no_tags, TByteArray 16); (no_tags, TBool); (no_tags, TUint 64)]); (no_tags, TUint 32)].

Definition read_set : rtype := TStruct [(no_tags, TString); (no_tags, TPtr version_type); (no_tags, TByteSlice)].

Definition write_set : rtype := TStruct [(no_tags, TBool); (no_tags, TString); (no_tags, TByteSlice)].

Definition payload_struct (t : PayloadType) : rtype :=
  TStruct (pair no_tags <$>
    match t with
    | T_PaymentPayload => [TSlice (TPtr input_type); TSlice (TPtr output_type); TUint 32]
    | T_ContractTplPayload => [TByteSlice; TString; TString; TString; TUint 16; TByteSlice]
    | T_ContractDeployPayload =>
        [TByteSlice; TByteSlice; TString; TSlice TByteSlice; TSlice (TByteArray 21); TSlice read_set; TSlice write_set]
    | T_ContractInvokePayload =>
        [TByteSlice; TString; TSlice TByteSlice; TInt 64; TSlice read_set; TSlice write_set; TByteSlice]
    | T_ContractInvokeRequestPayload => [TByteSlice; TString; TSlice TByteSlice]
    | T_ConfigPayload => [TSlice write_set]
    | T_TextPayload => [TByteSlice]
    | T_VotePayload => [TSlice TByteSlice; TUint 8; TUint 8]
    | T_SignaturePayload => [TSlice (TStruct [(no_tags, TByteSlice); (no_tags, TByteSlice)])]
    | T_MediatorCreateOperation => [TString; TString; TString; TString]
    end).

(** A nil pointer is [VNil]; a nil slice is serialised as an empty one. *)

Definition asset_to (a : option Asset) : rval :=
  match a with Some a => VPtr (VList [VBytes (AssetId a); VBytes (UniqueId a); VInt (ChainId a)]) | None => VNil end.

Definition outpoint_to (o : OutPoint) : rval := VList [VBytes (op_TxHash o); VInt (MessageIndex o); VInt (OutIndex o)].

Definition input_to (i : Input) : rval :=
  VPtr (VList [match PreviousOutPoint i with Some o => VPtr (outpoint_to o) | None => VNil end;
               VBytes (default [] (SignatureScript i)); VBytes (default [] (Extra i))]).

Definition output_to (o : Output) : rval := VPtr (VList [VInt (Value o); VBytes (PkScript o); asset_to (out_Asset o)]).

Definition payment_to (p : PaymentPayload) : rval :=
  VList [VList (input_to <$> Inputs p); VList (output_to <$> Outputs p); VInt (LockTime p)].

(** ** Serialising a transaction

    [tx2Temp] serialises every payload on its own: an error leaves no data, and a nil
    interface has no type to be asked for. *)

Record messageTemp := mkMessageTemp { mt_App : Z; mt_Data : bytes }.
Record transactionTemp := mkTransactionTemp { tt_TxHash : bytes; tt_TxMessages : list messageTemp }.

Definition payload_data (p : Payload) : outcome rlp_error bytes :=
  let data t v := match EncodeToBytes new_encbuf (TPtr (payload_struct t)) (VPtr v) with Err _ => Ok [] | o => o end in
  match p with
  | NilPayload => Panic
  | Payment pay => data T_PaymentPayload (payment_to pay)
  | OtherPayload t v => data t v
  end.

Fixpoint messages2Temp (msgs : list Message) : outcome rlp_error (list messageTemp) :=
  match msgs with
  | [] => Ok []
  | m :: msgs =>
      data ← payload_data (payload m);
      temps ← messages2Temp msgs;
      Ok (mkMessageTemp (App m) data :: temps)
  end.

Definition tx2Temp (tx : Transaction) : outcome rlp_error transactionTemp :=
  msgs ← messages2Temp (TxMessages tx);
  Ok (mkTransactionTemp (TxHash tx) msgs).

Definition transactionTemp_type : rtype :=
  TStruct [(no_tags, TByteArray 32); (no_tags, TSlice (TStruct [(no_tags, TUint 8); (no_tags, TByteSlice)]))].

Definition temp_to (temp : transactionTemp) : rval :=
  VList [VBytes (tt_TxHash temp); VList ((fun m => VList [VInt (mt_App m); VBytes (mt_Data m)]) <$> tt_TxMessages temp)].

(** What [EncodeRLP] writes for a pointer to a transaction. *)

Definition EncodeRLP (tx : Transaction) : outcome rlp_error bytes :=
  temp ← tx2Temp tx; EncodeToBytes new_encbuf transactionTemp_type (temp_to temp).

(** [EncodeRLP] is declared on the pointer type, so the encoder that
    [rlp.makeWriter] selects for the value type is [writeEncoderNoPtr], which
    needs an addressable value.  A value passed to [rlp.EncodeToBytes] in an
    interface is not addressable. *)

Inductive rlpError : Type := ErrUnaddressable | ErrEncode (e : rlp_error).

Definition writeEncoderNoPtr (canAddr : bool) (encodeRLP : outcome rlp_error bytes) : outcome rlpError bytes :=
  if negb canAddr then Err ErrUnaddressable
  else match encodeRLP with Ok b => Ok b | Err e => Err (ErrEncode e) | Panic => Panic end.

(** [txBytes, _ := rlp.EncodeToBytes(txCopy)] with [txCopy] of type
    [modules.Transaction]. *)

Definition EncodeToBytes_value (tx : Transaction) : bytes :=
  match writeEncoderNoPtr false (EncodeRLP tx) with
  | Ok b => b
  | _ => []
  end.

(** ** What copying does *)

Definition has_payload (tx : Transaction) : Prop :=
  Exists (fun m => payload m <> NilPayload) (TxMessages tx).

(** Cloning a transaction that carries any payload yields the zero transaction,
    not a copy. *)

Lemma Clone_is_zero tx : has_payload tx -> Clone gob_registry tx = zero_Transaction.
Proof.
  intros Hp. unfold Clone, DeepCopy.
  destruct (forallb _ _) eqn:Hall; [|done]. exfalso.
  rewrite forallb_forall in Hall. apply Exists_exists in Hp as (m & Hin & Hne).
  specialize (Hall m (proj1 (list_elem_of_In _ _) Hin)). revert Hall.
  unfold gob_encodable, gob_registry. destruct (payload m); [done|..]; cbn; done.
Qed.
