(* ===== verification/Crypto.v ===== *)
(** * Cryptographic primitives

    [common/crypto]: [Hash160] (hash160.go), [Sign], [VerifySignature] and
    [CompressPubkey] (signature_nocgo.go), the address constructors' hash (crypto.go).
    The hash functions and the curve operations they call are library code
    (crypto/sha256, crypto/sha1, golang.org/x/crypto/ripemd160, the Keccak sponge,
    github.com/btcsuite/btcd/btcec), so they are operations of the class [Crypto].

    [CryptoLaws] states what the engine relies on, that digests have their
    documented length; [SignatureLaws] what signing relies on, that a signature
    made with a key is canonical and verifies under its public key, and that a
    serialised public key parses back.  [toy_crypto] is an instance of both, used
    to evaluate concrete scripts. *)

From S2P Require Import Prelude Transaction.

#[local] Open Scope Z_scope.

Class Crypto := {
  sha256_Sum256 : bytes -> bytes;
  sha1_Sum : bytes -> bytes;
  ripemd160_Sum : bytes -> bytes;
  Keccak256 : bytes -> bytes;
  PublicKey : Type;
  PrivateKey : Type;
  (** The [PublicKey] field of a private key, and whether its [Curve] is secp256k1. *)
  PrivateKey_PublicKey : PrivateKey -> PublicKey;
  PrivateKey_onS256 : PrivateKey -> bool;
  (** [btcec.ParsePubKey]; [None] is an error. *)
  ParsePubKey : bytes -> option PublicKey;
  SerializeCompressed : PublicKey -> bytes;
  SerializeUncompressed : PublicKey -> bytes;
  (** [(&btcec.Signature{R, S}).Verify(hash, key)] *)
  Signature_Verify : Z -> Z -> bytes -> PublicKey -> bool;
  (** [btcec.SignCompact(S256(), key, hash, false)] *)
  SignCompact : PrivateKey -> bytes -> option bytes
}.

(** [new(big.Int).SetBytes(b)]: big-endian. *)

Definition SetBytes_big (b : bytes) : Z := foldl (fun z x => 256 * z + x) 0 b.

Definition secp256k1_N : Z := 0xfffffffffffffffffffffffffffffffebaaedce6af48a03bbfd25e8cd0364141.
Definition secp256k1_halfN : Z := secp256k1_N / 2.

Section Functions.
Context `{Crypto}.

Definition Hash160 (b : bytes) : bytes := ripemd160_Sum (sha256_Sum256 b).

Definition VerifySignature (pubkey hash signature : bytes) : bool :=
  if decide (zlen signature <> 64) then false else
  let R := SetBytes_big (take 32 signature) in
  let S := SetBytes_big (drop 32 signature) in
  match ParsePubKey pubkey with
  | None => false
  | Some key => if decide (S > secp256k1_halfN) then false else Signature_Verify R S hash key
  end.

Definition CompressPubkey (pubkey : PublicKey) : bytes := SerializeCompressed pubkey.

(** [Sign]; the error is one of three texts. *)

Inductive signError : Set := ErrHashLength | ErrCurve | ErrSignCompact.

(** [copy(sig, sig[1:]); sig[64] = v]: the recovery code moves to the end. *)

Definition Sign (hash : bytes) (prv : PrivateKey) : outcome signError bytes :=
  if decide (zlen hash <> 32) then Err ErrHashLength else
  if negb (PrivateKey_onS256 prv) then Err ErrCurve else
  match SignCompact prv hash with
  | None => Err ErrSignCompact
  | Some sig =>
      v ← (b ← goidx sig 0; Ok (u8 (b - 27)));
      let sig := gocopy sig (drop 1 sig) in
      if decide (zlen sig <= 64) then Panic else Ok (<[64%nat := v]> sig)
  end.

End Functions.

Definition digest_ok (n : Z) (h : bytes) : Prop := zlen h = n /\ wf_bytes h.

Class CryptoLaws `{Crypto} : Prop := {
  sha256_ok b : digest_ok 32 (sha256_Sum256 b);
  sha1_ok b : digest_ok 20 (sha1_Sum b);
  ripemd160_ok b : digest_ok 20 (ripemd160_Sum b);
  Keccak256_ok b : digest_ok 32 (Keccak256 b)
}.

(** A compact signature is the recovery code, [R] and [S] in 32 bytes each. *)

Class SignatureLaws `{Crypto} : Prop := {
  ParsePubKey_Compressed k : ParsePubKey (SerializeCompressed k) = Some k;
  ParsePubKey_Uncompressed k : ParsePubKey (SerializeUncompressed k) = Some k;
  Compressed_ok k : digest_ok 33 (SerializeCompressed k);
  Uncompressed_ok k : digest_ok 65 (SerializeUncompressed k);
  SignCompact_ok k h : PrivateKey_onS256 k = true -> digest_ok 32 h ->
    exists v r s, SignCompact k h = Some (v :: r ++ s) /\
      digest_ok 32 r /\ digest_ok 32 s /\ SetBytes_big s <= secp256k1_halfN /\
      Signature_Verify (SetBytes_big r) (SetBytes_big s) h (PrivateKey_PublicKey k) = true
}.

Lemma insert_snoc {A} n (l : list A) a b : length l = n -> <[n := b]> (l ++ [a]) = l ++ [b].
Proof. intros <-. by rewrite insert_app_r_alt, Nat.sub_diag by lia. Qed.

(** What [Sign] yields, cut to 64 bytes, verifies. *)

Lemma Sign_verifies `{C : Crypto} `{L : !SignatureLaws} k h :
  PrivateKey_onS256 k = true -> digest_ok 32 h ->
  exists sig, Sign h k = Ok sig /\ zlen sig = 65 /\ wf_bytes (take 64 sig) /\
    VerifySignature (SerializeCompressed (PrivateKey_PublicKey k)) h (take 64 sig) = true /\
    VerifySignature (SerializeUncompressed (PrivateKey_PublicKey k)) h (take 64 sig) = true.
Proof.
  intros Hk Hh. destruct (SignCompact_ok k h Hk Hh) as (v & r & s & Hc & [Hr Hrw] & [Hs Hsw] & Hhalf & Hv).
  unfold Sign. rewrite (decide_False (P := zlen h <> 32)) by (destruct Hh; lia). rewrite Hk, Hc.
  cbn [negb]. rewrite goidx_0, outcome_bind_ok. cbn [mbind outcome_bind].
  change (drop 1 (v :: r ++ s)) with (r ++ s).
  assert (Hcopy : exists w, gocopy (v :: r ++ s) (r ++ s) = (r ++ s) ++ [w]).
  { unfold gocopy. rewrite take_ge by (cbn; lia).
    destruct (list_snoc_cases (v :: r ++ s)) as [?|(l & w & Hl)]; [done|]. rewrite Hl.
    exists w. f_equal. apply (f_equal length) in Hl as Hlen. rewrite length_app in Hlen. cbn [length] in Hlen.
    rewrite drop_app_ge by lia. by replace (_ - _)%nat with O by lia. }
  destruct Hcopy as [w ->]. unfold zlen in Hr, Hs.
  assert (length (r ++ s) = 64%nat) as H64 by (rewrite length_app; lia).
  rewrite decide_False by (rewrite zlen_snoc; unfold zlen; lia).
  rewrite (insert_snoc 64) by done.
  exists ((r ++ s) ++ [u8 (v - 27)]). rewrite <- H64, take_app_length.
  split_and!; [done|rewrite zlen_snoc; unfold zlen; lia|by apply wf_bytes_app|..];
    (unfold VerifySignature; rewrite decide_False by (unfold zlen; lia);
     replace 32%nat with (length r) by lia; rewrite take_app_length, drop_app_length;
     rewrite ?ParsePubKey_Compressed, ?ParsePubKey_Uncompressed, decide_False by lia; done).
Qed.

(** ** A concrete instance

    The digest is the input cut or padded to the digest length.  There are two
    keys; a signature is the serialised public key and the hash, cut to fit, and the
    last byte of its first half is free. *)

Definition toy_digest (n : nat) (b : bytes) : bytes := take n ((u8 <$> b) ++ replicate n 0).

Definition toy_compressed (k : bool) : bytes := (if k then 3 else 2) :: replicate 32 7.

Definition toy_ParsePubKey (b : bytes) : option bool :=
  if decide (zlen b = 33 \/ zlen b = 65) then
    if decide (take 33 b = toy_compressed true) then Some true
    else if decide (take 33 b = toy_compressed false) then Some false else None
  else None.

Definition toy_R (k : bool) (hash : bytes) : bytes := toy_digest 32 (toy_compressed k).
Definition toy_S (k : bool) (hash : bytes) : bytes := 0 :: toy_digest 31 hash.

Definition toy_crypto : Crypto := {|
  sha256_Sum256 := toy_digest 32;
  sha1_Sum := toy_digest 20;
  ripemd160_Sum := toy_digest 20;
  Keccak256 := toy_digest 32;
  PublicKey := bool;
  PrivateKey := bool;
  PrivateKey_PublicKey k := k;
  PrivateKey_onS256 _ := true;
  ParsePubKey := toy_ParsePubKey;
  SerializeCompressed := toy_compressed;
  SerializeUncompressed k := toy_compressed k ++ replicate 32 9;
  Signature_Verify R S hash k :=
    bool_decide (R / 256 = SetBytes_big (toy_R k hash) / 256 /\ S = SetBytes_big (toy_S k hash));
  SignCompact k hash := Some (27 :: toy_R k hash ++ toy_S k hash)
|}.

Lemma toy_digest_ok n b : digest_ok (Z.of_nat n) (toy_digest n b).
Proof.
  unfold toy_digest. split.
  - unfold zlen. rewrite length_take, length_app, length_replicate. lia.
  - apply Forall_take, Forall_app. split.
    + apply Forall_fmap, Forall_true. intros z. apply u8_byte.
    + apply Forall_replicate. unfold is_byte. lia.
Qed.

Lemma toy_crypto_laws : @CryptoLaws toy_crypto.
Proof.
  split; intros b; [apply (toy_digest_ok 32)|apply (toy_digest_ok 20)..|apply (toy_digest_ok 32)].
Qed.

Lemma SetBytes_big_bound b acc :
  wf_bytes b -> 0 <= acc -> 0 <= foldl (fun z x => 256 * z + x) acc b < (acc + 1) * 256 ^ zlen b.
Proof.
  intros Hb. revert acc. induction Hb as [|x b Hx Hb IH]; intros acc Hacc; cbn [foldl].
  - rewrite (@zlen_nil Z). lia.
  - unfold is_byte in Hx. specialize (IH (256 * acc + x) ltac:(lia)).
    rewrite zlen_cons, Z.pow_add_r by zlen_lia. pose proof (Z.pow_nonneg 256 (zlen b)). nia.
Qed.

Lemma toy_signature_laws : @SignatureLaws toy_crypto.
Proof.
  split; [by intros []|by intros []|intros []; (split; [done|by apply (bool_decide_unpack _)])..|].
  intros k h _ _. exists 27, (toy_R k h), (toy_S k h). cbn [toy_crypto SignCompact Signature_Verify PrivateKey_PublicKey].
  pose proof (toy_digest_ok 31 h) as [Hl Hw]. split_and!.
  - done.
  - apply (toy_digest_ok 32).
  - split; [unfold toy_S; rewrite zlen_cons, Hl; done|by constructor].
  - unfold SetBytes_big, toy_S. cbn [foldl].
    pose proof (SetBytes_big_bound (toy_digest 31 h) 0 Hw ltac:(lia)) as Hb. rewrite Hl in Hb.
    eapply Z.le_trans; [apply Z.lt_le_incl, Hb|]. by vm_compute.
  - by apply bool_decide_true.
Qed.
