(* ===== verification/Address.v ===== *)
(** * Addresses, hashes and byte helpers

    [common/address.go], [common/hash.go] and [common/bytes.go].  An address is an
    array of 21 bytes, a 20-byte hash and a type; a hash is an array of 32 bytes.
    Arrays are lists whose length [wf_address] and [wf_hash] fix.

    Base58Check is library code (github.com/btcsuite/btcutil/base58) and an
    operation of the class [Base58]; its law is that decoding inverts encoding. *)

From S2P Require Import Prelude HexUtil Transaction Crypto.

#[local] Open Scope Z_scope.

Definition AddressLength : Z := 21.

Abbreviation ErrorAddress := 0xff (only parsing).
Definition PublicKeyHash : Z := 0.
Definition ScriptHash : Z := 5.
Definition ContractHash : Z := 28.

Abbreviation Address := bytes (only parsing).

Definition zero_Address : Address := replicate 21 0.
Definition wf_address (a : Address) : Prop := zlen a = AddressLength /\ wf_bytes a.

(** [copy(a[k:], b)] on an array. *)

Definition copy_at (k : Z) (a b : bytes) : bytes :=
  take (Z.to_nat k) a ++ gocopy (drop (Z.to_nat k) a) b.

(** [SetBytes]: the last 21 bytes of a longer slice, right-aligned otherwise. *)

Definition Address_SetBytes (a : Address) (b : bytes) : Address :=
  let b := if decide (zlen b > zlen a) then drop (Z.to_nat (zlen b - AddressLength)) b else b in
  copy_at (AddressLength - zlen b) a b.

Definition BytesToAddress (b : bytes) : Address := Address_SetBytes zero_Address b.

Definition GetType (a : Address) : Z := nth 20 a 0.

Definition NewAddress (hash160 : bytes) (ty : Z) : Address :=
  let newBytes := gocopy (replicate 21 0) hash160 in
  let newBytes := <[20%nat := ty]> newBytes in
  BytesToAddress newBytes.

(** [Address.Bytes], the hash without the type. *)

Definition Address_Bytes (a : Address) : bytes := take 20 a.

(** [Address.Equal]: the loop over the 21 elements. *)

Fixpoint Equal_loop (a b : bytes) : bool :=
  match a, b with
  | v :: a, w :: b => if decide (v <> w) then false else Equal_loop a b
  | _, _ => true
  end.

Definition Address_Equal (a b : Address) : bool := Equal_loop a b.

(** ** Numbers

    [binary.BigEndian.PutUint32] and [Uint32], which panics on fewer than four bytes. *)

Definition EncodeNumberUint32 (number : Z) : bytes :=
  (fun k => u8 (Z.shiftr number k)) <$> [24; 16; 8; 0].

Definition DecodeNumberUint32 {E} (key : bytes) : outcome E Z :=
  if decide (zlen key < 4) then Panic else Ok (SetBytes_big (take 4 key)).

(** ** Hashes *)

Definition wf_hash (h : bytes) : Prop := zlen h = HashLength /\ wf_bytes h.

Definition Hash_SetBytes (h b : bytes) : bytes :=
  let b := if decide (zlen b > zlen h) then drop (Z.to_nat (zlen b - HashLength)) b else b in
  copy_at (HashLength - zlen b) h b.

Definition Hash_Hex (h : bytes) : bytes := Encode h.

(** [strings.HasPrefix] *)

Definition HasPrefix (s prefix : bytes) : bool := bool_decide (take (length prefix) s = prefix).

(** ** Addresses as text *)

Definition chr_P : Z := 80.

Class Base58 := {
  CheckEncode : bytes -> Z -> bytes;
  CheckDecode : bytes -> option (bytes * Z)
}.

Class Base58Laws `{Base58} : Prop := {
  CheckDecode_Encode b v : wf_bytes b -> is_byte v -> CheckDecode (CheckEncode b v) = Some (b, v)
}.

Section Text.
Context `{Base58}.

(** [a[0]] panics on the empty string. *)

Inductive addressError : Set := ErrNotP | ErrBase58 | ErrInvalidType.

Definition StringToAddress (a : bytes) : outcome addressError Address :=
  c ← goidx a 0;
  if decide (c <> chr_P) then Err ErrNotP else
  match CheckDecode (drop 1 a) with
  | None => Err ErrBase58
  | Some (addrb, version) =>
      if decide (version = 0) then Ok (BytesToAddress (addrb ++ [PublicKeyHash]))
      else if decide (version = 5) then Ok (BytesToAddress (addrb ++ [ScriptHash]))
      else if decide (version = 28) then Ok (BytesToAddress (addrb ++ [ContractHash]))
      else Err ErrInvalidType
  end.

Definition Address_Str (a : Address) : bytes := chr_P :: CheckEncode (take 20 a) (nth 20 a 0).

End Text.

(** ** Constructors of common/crypto *)

Section Constructors.
Context `{Crypto}.

Definition PubkeyBytesToAddress (pubKeyCompressBytes : bytes) : Address :=
  NewAddress (Hash160 pubKeyCompressBytes) PublicKeyHash.

Definition PubkeyToAddress (p : PublicKey) : Address := PubkeyBytesToAddress (CompressPubkey p).

Definition ScriptToAddress (redeemScript : bytes) : Address :=
  NewAddress (Hash160 redeemScript) ScriptHash.

Definition ScriptHashToAddress (scriptHash : bytes) : Address := NewAddress scriptHash ScriptHash.

Definition ContractIdToAddress (contractId : bytes) : Address :=
  NewAddress (Hash160 contractId) ContractHash.

End Constructors.

(** ** Properties *)

Lemma copy_at_full (a b : bytes) : zlen a = zlen b -> copy_at 0 a b = b.
Proof.
  intros Hl. unfold copy_at, gocopy, zlen in *. cbn [take drop app].
  rewrite drop_0, take_0. cbn [app]. by rewrite take_ge, drop_ge, app_nil_r by lia.
Qed.

Lemma BytesToAddress_id b : zlen b = AddressLength -> BytesToAddress b = b.
Proof.
  intros Hb. unfold BytesToAddress, Address_SetBytes. rewrite decide_False by (rewrite Hb; by vm_compute).
  rewrite Hb, Z.sub_diag. by apply copy_at_full.
Qed.

Lemma NewAddress_eq h ty : zlen h = 20 -> NewAddress h ty = h ++ [ty].
Proof.
  intros Hh. unfold NewAddress. unfold zlen in Hh.
  assert (gocopy (replicate 21 0) h = h ++ [0]) as ->.
  { unfold gocopy. rewrite take_ge by (rewrite length_replicate; lia). by replace (length h) with 20%nat by lia. }
  rewrite insert_snoc by lia. apply BytesToAddress_id. rewrite zlen_snoc. unfold zlen, AddressLength. lia.
Qed.

Lemma wf_address_split a : wf_address a -> a = Address_Bytes a ++ [GetType a] /\ zlen (Address_Bytes a) = 20.
Proof.
  intros [Hl _]. unfold Address_Bytes, GetType, zlen, AddressLength in *. rewrite length_take. split; [|lia].
  rewrite <- (take_drop 20 a) at 1. f_equal.
  destruct (lookup_lt_is_Some_2 a 20) as [t Ht]; [lia|]. rewrite (drop_S a t 20) by done.
  rewrite drop_ge by lia. by rewrite (nth_lookup_Some _ _ _ _ Ht).
Qed.

Lemma NewAddress_split a : wf_address a -> NewAddress (Address_Bytes a) (GetType a) = a.
Proof. intros Ha. destruct (wf_address_split a Ha) as [He Hl]. by rewrite NewAddress_eq, <- He. Qed.

Lemma Hash160_length `{C : Crypto} `{L : !CryptoLaws} b : zlen (Hash160 b) = 20.
Proof. by destruct (ripemd160_ok (sha256_Sum256 b)). Qed.

Lemma Address_Equal_spec a b : zlen a = zlen b -> Address_Equal a b = true <-> a = b.
Proof.
  unfold Address_Equal. revert b. induction a as [|v a IH]; intros [|w b] Hl; try done;
    rewrite ?zlen_cons in Hl; try zlen_lia.
  cbn [Equal_loop]. case_decide as Hvw; [split; [done|congruence]|].
  rewrite IH by lia. assert (v = w) as -> by (by destruct (decide (v = w))). split; congruence.
Qed.

Lemma StringToAddress_Str `{B : Base58} `{L : !Base58Laws} a :
  wf_address a -> GetType a ∈ [PublicKeyHash; ScriptHash; ContractHash] ->
  StringToAddress (Address_Str a) = Ok a.
Proof.
  intros Ha Ht. pose proof Ha as [_ Hwf]. destruct (wf_address_split a Ha) as [He Hl].
  unfold StringToAddress, Address_Str. rewrite goidx_0, outcome_bind_ok, decide_False by congruence.
  change (drop 1 (chr_P :: ?x)) with x. fold (GetType a).
  assert (is_byte (GetType a)) as Hb.
  { rewrite He in Hwf. apply wf_bytes_app in Hwf as [_ Hwf]. by apply wf_bytes_1. }
  rewrite CheckDecode_Encode by (done || by apply Forall_take). unfold PublicKeyHash, ScriptHash, ContractHash in *.
  rewrite !elem_of_cons, elem_of_nil in Ht. fold (Address_Bytes a).
  destruct Ht as [Ht|[Ht|[Ht|[]]]]; rewrite Ht in *; rewrite ?(decide_False (P := _ = _)) by done;
    rewrite decide_True by done; rewrite <- He; f_equal; apply BytesToAddress_id; by destruct Ha.
Qed.

(** the text of an address of a known type parses back to the address. *)
Theorem address_text_roundtrip `{B : Base58} `{L : !Base58Laws} a :
  wf_address a -> GetType a ∈ [PublicKeyHash; ScriptHash; ContractHash] ->
  StringToAddress (Address_Str a) = Ok a.
Proof. apply StringToAddress_Str. Qed.

Definition toy_base58 : Base58 := {|
  CheckEncode b v := v :: b;
  CheckDecode s := match s with v :: b => Some (b, v) | [] => None end
|}.

Lemma toy_base58_laws : @Base58Laws toy_base58.
Proof. by split. Qed.

Lemma address_text_roundtrip_witness :
  @StringToAddress toy_base58 (@Address_Str toy_base58 (NewAddress (replicate 20 7) ScriptHash))
    = Ok (NewAddress (replicate 20 7) ScriptHash).
Proof.
  apply (@address_text_roundtrip toy_base58 toy_base58_laws).
  - split; [reflexivity|]. by apply (bool_decide_unpack _).
  - by apply (bool_decide_unpack _).
Defined.
