(* ===== verification/OpcodeExec.v ===== *)
(** * The script engine: state and opcode handlers

    The [Engine] of [tokenengine/internal/txscript/engine.go] and the handlers of
    opcode.go, one definition per handler, each a method on a mutable engine.
    [exec_opfunc] maps the handler tags of the opcode table to them.

    Fields of the Go struct that no live code reads (the signature cache and the
    hash cache, whose uses are commented out) are left out.  Error texts are left
    out; the error code is kept. *)

From S2P Require Import Prelude Digits ScriptErrors ScriptNum ScriptStack Opcodes ScriptParse.
From S2P Require Import HexUtil Transaction Crypto.

#[local] Open Scope Z_scope.

(** ** Flags and limits of engine.go *)

Abbreviation ScriptBip16 := (Z.shiftl 1 0) (only parsing).
Abbreviation ScriptStrictMultiSig := (Z.shiftl 1 1) (only parsing).
Abbreviation ScriptDiscourageUpgradableNops := (Z.shiftl 1 2) (only parsing).
Abbreviation ScriptVerifyCheckLockTimeVerify := (Z.shiftl 1 3) (only parsing).
Abbreviation ScriptVerifyCheckSequenceVerify := (Z.shiftl 1 4) (only parsing).
Abbreviation ScriptVerifyCleanStack := (Z.shiftl 1 5) (only parsing).
Abbreviation ScriptVerifyDERSignatures := (Z.shiftl 1 6) (only parsing).
Abbreviation ScriptVerifyLowS := (Z.shiftl 1 7) (only parsing).
Abbreviation ScriptVerifyMinimalData := (Z.shiftl 1 8) (only parsing).
Abbreviation ScriptVerifyNullFail := (Z.shiftl 1 9) (only parsing).
Abbreviation ScriptVerifySigPushOnly := (Z.shiftl 1 10) (only parsing).
Abbreviation ScriptVerifyStrictEncoding := (Z.shiftl 1 11) (only parsing).
Abbreviation ScriptVerifyWitness := (Z.shiftl 1 12) (only parsing).
Abbreviation ScriptVerifyDiscourageUpgradeableWitnessProgram := (Z.shiftl 1 13) (only parsing).
Abbreviation ScriptVerifyMinimalIf := (Z.shiftl 1 14) (only parsing).
Abbreviation ScriptVerifyWitnessPubKeyType := (Z.shiftl 1 15) (only parsing).

Definition MaxStackSize : Z := 1000.
Definition MaxScriptSize : Z := 10000.
Abbreviation payToWitnessPubKeyHashDataSize := 20 (only parsing).
Abbreviation payToWitnessScriptHashDataSize := 32 (only parsing).

Abbreviation LockTimeThreshold := 500000000 (only parsing).

(** ** The engine *)

Record Engine := mkEngine {
  scripts : list (list parsedOpcode);
  scriptIdx : Z;
  scriptOff : Z;
  lastCodeSep : Z;
  dstack : stack;
  astack : stack;
  tx : Transaction;
  msgIdx : Z;
  txIdx : Z;
  condStack : list Z;
  numOps : Z;
  flags : Z;
  bip16 : bool;
  savedFirstStack : list bytes;
  witnessVersion : Z;
  witnessProgram : option bytes;
  inputAmount : Z
}.

Definition set_scripts x v := mkEngine x (scriptIdx v) (scriptOff v) (lastCodeSep v) (dstack v)
  (astack v) (tx v) (msgIdx v) (txIdx v) (condStack v) (numOps v) (flags v) (bip16 v)
  (savedFirstStack v) (witnessVersion v) (witnessProgram v) (inputAmount v).
Definition set_scriptIdx x v := mkEngine (scripts v) x (scriptOff v) (lastCodeSep v) (dstack v)
  (astack v) (tx v) (msgIdx v) (txIdx v) (condStack v) (numOps v) (flags v) (bip16 v)
  (savedFirstStack v) (witnessVersion v) (witnessProgram v) (inputAmount v).
Definition set_scriptOff x v := mkEngine (scripts v) (scriptIdx v) x (lastCodeSep v) (dstack v)
  (astack v) (tx v) (msgIdx v) (txIdx v) (condStack v) (numOps v) (flags v) (bip16 v)
  (savedFirstStack v) (witnessVersion v) (witnessProgram v) (inputAmount v).
Definition set_lastCodeSep x v := mkEngine (scripts v) (scriptIdx v) (scriptOff v) x (dstack v)
  (astack v) (tx v) (msgIdx v) (txIdx v) (condStack v) (numOps v) (flags v) (bip16 v)
  (savedFirstStack v) (witnessVersion v) (witnessProgram v) (inputAmount v).
Definition set_dstack x v := mkEngine (scripts v) (scriptIdx v) (scriptOff v) (lastCodeSep v) x
  (astack v) (tx v) (msgIdx v) (txIdx v) (condStack v) (numOps v) (flags v) (bip16 v)
  (savedFirstStack v) (witnessVersion v) (witnessProgram v) (inputAmount v).
Definition set_astack x v := mkEngine (scripts v) (scriptIdx v) (scriptOff v) (lastCodeSep v)
  (dstack v) x (tx v) (msgIdx v) (txIdx v) (condStack v) (numOps v) (flags v) (bip16 v)
  (savedFirstStack v) (witnessVersion v) (witnessProgram v) (inputAmount v).
Definition set_condStack x v := mkEngine (scripts v) (scriptIdx v) (scriptOff v) (lastCodeSep v)
  (dstack v) (astack v) (tx v) (msgIdx v) (txIdx v) x (numOps v) (flags v) (bip16 v)
  (savedFirstStack v) (witnessVersion v) (witnessProgram v) (inputAmount v).
Definition set_numOps x v := mkEngine (scripts v) (scriptIdx v) (scriptOff v) (lastCodeSep v)
  (dstack v) (astack v) (tx v) (msgIdx v) (txIdx v) (condStack v) x (flags v) (bip16 v)
  (savedFirstStack v) (witnessVersion v) (witnessProgram v) (inputAmount v).
Definition set_savedFirstStack x v := mkEngine (scripts v) (scriptIdx v) (scriptOff v)
  (lastCodeSep v) (dstack v) (astack v) (tx v) (msgIdx v) (txIdx v) (condStack v) (numOps v)
  (flags v) (bip16 v) x (witnessVersion v) (witnessProgram v) (inputAmount v).
Definition set_witnessProgram x v := mkEngine (scripts v) (scriptIdx v) (scriptOff v)
  (lastCodeSep v) (dstack v) (astack v) (tx v) (msgIdx v) (txIdx v) (condStack v) (numOps v)
  (flags v) (bip16 v) (savedFirstStack v) (witnessVersion v) x (inputAmount v).

Abbreviation EngineM := (go Engine ErrorCode).

(** Stack methods of the engine's two stacks. *)

Definition on_dstack {A} (m : StackM A) : EngineM A := zoom dstack set_dstack m.
Definition on_astack {A} (m : StackM A) : EngineM A := zoom astack set_astack m.

Definition hasFlag (vm : Engine) (flag : Z) : bool := bool_decide (Z.land (flags vm) flag = flag).

Definition isBranchExecuting (vm : Engine) : bool :=
  match last (condStack vm) with
  | None => true
  | Some c => bool_decide (c = OpCondTrue)
  end.

Definition isWitnessVersionActive (vm : Engine) (version : Z) : bool :=
  bool_decide (is_Some (witnessProgram vm) /\ u64 (witnessVersion vm) = version).

Definition subScript (vm : Engine) : outcome ErrorCode (list parsedOpcode) :=
  script ← goidx (scripts vm) (scriptIdx vm);
  goslice script (lastCodeSep vm) (zlen script).

(** ** The signature hash (script.go) *)

Definition set_SignatureScript (s : option bytes) (i : Input) : Input :=
  mkInput (PreviousOutPoint i) s (Extra i).

(** [inputs[k].SignatureScript = s] *)

Definition assign_script (inputs : list Input) (k : Z) (s : option bytes) : outcome ErrorCode (list Input) :=
  inp ← goidx inputs k;
  Ok (<[Z.to_nat k := set_SignatureScript s inp]> inputs).

(** [sigScript, _ := unparseScript(script)] *)

Definition unparse_or_nil (script : list parsedOpcode) : outcome ErrorCode (option bytes) :=
  match unparseScript script with
  | Ok b => Ok (Some b)
  | Err _ => Ok None
  | Panic => Panic
  end.

(** The loop over the inputs of message [i], from input [j] on ([n] remain).
    The other inputs are cleared at the index of the message, as in the source. *)

Fixpoint sighash_inputs (n : nat) (j i msgIdx idx : Z) (script : list parsedOpcode)
    (inputs : list Input) : outcome ErrorCode (list Input) :=
  match n with
  | O => Ok inputs
  | S n =>
      inputs ←
        (if decide (i = msgIdx /\ j = idx) then
           sigScript ← unparse_or_nil script;
           assign_script inputs idx sigScript
         else assign_script inputs i None);
      sighash_inputs n (j + 1) i msgIdx idx script inputs
  end.

Fixpoint sighash_messages (i msgIdx idx : Z) (script : list parsedOpcode)
    (msgs : list Message) : outcome ErrorCode (list Message) :=
  match msgs with
  | [] => Ok []
  | msg :: msgs =>
      msg ←
        (if decide (App msg = APP_PAYMENT) then
           match payload msg with
           | Payment p =>
               inputs ← sighash_inputs (length (Inputs p)) 0 i msgIdx idx script (Inputs p);
               Ok (mkMessage (App msg) (Payment (mkPaymentPayload inputs (Outputs p) (LockTime p))))
           | _ => Panic
           end
         else Ok msg);
      msgs ← sighash_messages (i + 1) msgIdx idx script msgs;
      Ok (msg :: msgs)
  end.

Section Handlers.
Context {C : Crypto}.

Definition calcSignatureHash (script : list parsedOpcode) (hashType : Z) (t : Transaction)
    (msgIdx idx : Z) : outcome ErrorCode bytes :=
  let script := removeOpcode script OP_CODESEPARATOR in
  let txCopy := Clone gob_registry t in
  msgs ← sighash_messages 0 msgIdx idx script (TxMessages txCopy);
  let txCopy := mkTransaction zero_Hash msgs in
  let txBytes := EncodeToBytes_value txCopy in
  Ok (Keccak256 txBytes).

(** [CalcSignatureHash]; a parse failure is a plain error. *)

Definition CalcSignatureHash (script : bytes) (hashType : Z) (t : Transaction) (msgIdx idx : Z)
    : outcome ErrorCode bytes :=
  parsedScript ← parseScript_or_err script;
  calcSignatureHash parsedScript hashType t msgIdx idx.

(** ** Constants and flow control *)

Definition opcodeDisabled (op : parsedOpcode) : EngineM unit := fail ErrDisabledOpcode.

Definition opcodeReserved (op : parsedOpcode) : EngineM unit := fail ErrReservedOpcode.

Definition opcodeInvalid (op : parsedOpcode) : EngineM unit := fail ErrReservedOpcode.

Definition opcodeFalse (op : parsedOpcode) : EngineM unit := on_dstack (PushByteArray []).

Definition opcodePushData (op : parsedOpcode) : EngineM unit :=
  on_dstack (PushByteArray (contents (data op))).

Definition opcode1Negate (op : parsedOpcode) : EngineM unit := on_dstack (PushInt (-1)).

Definition opcodeN (op : parsedOpcode) : EngineM unit :=
  on_dstack (PushInt (u8 (value (pop_opcode op) - (OP_1 - 1)))).

Definition opcodeNop (op : parsedOpcode) : EngineM unit :=
  vm ← get;
  if decide (value (pop_opcode op) ∈
      [OP_NOP1; OP_NOP4; OP_NOP5; OP_NOP6; OP_NOP7; OP_NOP8; OP_NOP9; OP_NOP10]) then
    if hasFlag vm ScriptDiscourageUpgradableNops then fail ErrDiscourageUpgradableNOPs else mret ()
  else mret ().

Definition popIfBool : EngineM bool :=
  vm ← get;
  if negb (isWitnessVersionActive vm 0) || negb (hasFlag vm ScriptVerifyMinimalIf)
  then on_dstack PopBool
  else
    so ← on_dstack PopByteArray;
    if decide (zlen so > 1) then fail ErrMinimalIf else
    if decide (zlen so = 1 /\ hd 0 so <> 0x01) then fail ErrMinimalIf else
    mret (asBool so).

Definition opcodeIf (op : parsedOpcode) : EngineM unit :=
  vm ← get;
  condVal ←
    (if isBranchExecuting vm then
       ok ← popIfBool;
       mret (if (ok : bool) then OpCondTrue else OpCondFalse)
     else mret OpCondSkip);
  modify (fun vm => set_condStack (condStack vm ++ [condVal]) vm).

Definition opcodeNotIf (op : parsedOpcode) : EngineM unit :=
  vm ← get;
  condVal ←
    (if isBranchExecuting vm then
       ok ← popIfBool;
       mret (if negb ok then OpCondTrue else OpCondFalse)
     else mret OpCondSkip);
  modify (fun vm => set_condStack (condStack vm ++ [condVal]) vm).

Definition opcodeElse (op : parsedOpcode) : EngineM unit :=
  vm ← get;
  if decide (zlen (condStack vm) = 0) then fail ErrUnbalancedConditional else
  let conditionalIdx := zlen (condStack vm) - 1 in
  c ← lift (goidx (condStack vm) conditionalIdx);
  let assign v := modify (fun vm => set_condStack (<[Z.to_nat conditionalIdx := v]> (condStack vm)) vm) in
  if decide (c = OpCondTrue) then assign OpCondFalse
  else if decide (c = OpCondFalse) then assign OpCondTrue
  else mret ().

Definition opcodeEndif (op : parsedOpcode) : EngineM unit :=
  vm ← get;
  if decide (zlen (condStack vm) = 0) then fail ErrUnbalancedConditional else
  c ← lift (goslice (condStack vm) 0 (zlen (condStack vm) - 1));
  modify (set_condStack c).

Definition abstractVerify (op : parsedOpcode) (c : ErrorCode) : EngineM unit :=
  verified ← on_dstack PopBool;
  if negb verified then fail c else mret ().

Definition opcodeVerify (op : parsedOpcode) : EngineM unit := abstractVerify op ErrVerify.

Definition opcodeReturn (op : parsedOpcode) : EngineM unit := fail ErrEarlyReturn.

Definition verifyLockTime (txLockTime threshold lockTime : Z) : outcome ErrorCode unit :=
  if decide (~ ((txLockTime < threshold /\ lockTime < threshold) \/
               (txLockTime >= threshold /\ lockTime >= threshold))) then Err ErrUnsatisfiedLockTime else
  if decide (lockTime > txLockTime) then Err ErrUnsatisfiedLockTime else Ok ().

(** [vm.tx.TxMessages[vm.msgIdx].Payload.( *PaymentPayload)] *)

Definition current_payment (vm : Engine) : outcome ErrorCode PaymentPayload :=
  msg ← goidx (TxMessages (tx vm)) (msgIdx vm);
  match payload msg with Payment p => Ok p | _ => Panic end.

Definition opcodeCheckLockTimeVerify (op : parsedOpcode) : EngineM unit :=
  vm ← get;
  if negb (hasFlag vm ScriptVerifyCheckLockTimeVerify) then
    if hasFlag vm ScriptDiscourageUpgradableNops then fail ErrDiscourageUpgradableNOPs else mret ()
  else
    so ← on_dstack (PeekByteArray 0);
    lockTime ← lift (makeScriptNum so (verifyMinimalData (dstack vm)) 5);
    if decide (lockTime < 0) then fail ErrNegativeLockTime else
    payment ← lift (current_payment vm);
    lift (verifyLockTime (LockTime payment) LockTimeThreshold lockTime).

Definition opcodeCheckSequenceVerify (op : parsedOpcode) : EngineM unit :=
  vm ← get;
  if negb (hasFlag vm ScriptVerifyCheckSequenceVerify) then
    if hasFlag vm ScriptDiscourageUpgradableNops then fail ErrDiscourageUpgradableNOPs else mret ()
  else
    so ← on_dstack (PeekByteArray 0);
    stackSequence ← lift (makeScriptNum so (verifyMinimalData (dstack vm)) 5);
    if decide (stackSequence < 0) then fail ErrNegativeLockTime else mret ().

(** ** Stack *)

Definition opcodeToAltStack (op : parsedOpcode) : EngineM unit :=
  so ← on_dstack PopByteArray;
  on_astack (PushByteArray so).

Definition opcodeFromAltStack (op : parsedOpcode) : EngineM unit :=
  so ← on_astack PopByteArray;
  on_dstack (PushByteArray so).

Definition opcode2Drop (op : parsedOpcode) : EngineM unit := on_dstack (DropN 2).
Definition opcode2Dup (op : parsedOpcode) : EngineM unit := on_dstack (DupN 2).
Definition opcode3Dup (op : parsedOpcode) : EngineM unit := on_dstack (DupN 3).
Definition opcode2Over (op : parsedOpcode) : EngineM unit := on_dstack (OverN 2).
Definition opcode2Rot (op : parsedOpcode) : EngineM unit := on_dstack (RotN 2).
Definition opcode2Swap (op : parsedOpcode) : EngineM unit := on_dstack (SwapN 2).

Definition opcodeIfDup (op : parsedOpcode) : EngineM unit :=
  so ← on_dstack (PeekByteArray 0);
  if asBool so then on_dstack (PushByteArray so) else mret ().

Definition opcodeDepth (op : parsedOpcode) : EngineM unit :=
  vm ← get;
  on_dstack (PushInt (Depth (dstack vm))).

Definition opcodeDrop (op : parsedOpcode) : EngineM unit := on_dstack (DropN 1).
Definition opcodeDup (op : parsedOpcode) : EngineM unit := on_dstack (DupN 1).
Definition opcodeNip (op : parsedOpcode) : EngineM unit := on_dstack (NipN 1).
Definition opcodeOver (op : parsedOpcode) : EngineM unit := on_dstack (OverN 1).

Definition opcodePick (op : parsedOpcode) : EngineM unit :=
  val ← on_dstack PopInt;
  on_dstack (PickN (scriptNum_Int32 val)).

Definition opcodeRoll (op : parsedOpcode) : EngineM unit :=
  val ← on_dstack PopInt;
  on_dstack (RollN (scriptNum_Int32 val)).

Definition opcodeRot (op : parsedOpcode) : EngineM unit := on_dstack (RotN 1).
Definition opcodeSwap (op : parsedOpcode) : EngineM unit := on_dstack (SwapN 1).
Definition opcodeTuck (op : parsedOpcode) : EngineM unit := on_dstack Tuck.

Definition opcodeSize (op : parsedOpcode) : EngineM unit :=
  so ← on_dstack (PeekByteArray 0);
  on_dstack (PushInt (zlen so)).

Definition opcodeEqual (op : parsedOpcode) : EngineM unit :=
  a ← on_dstack PopByteArray;
  b ← on_dstack PopByteArray;
  on_dstack (PushBool (bool_decide (a = b))).

Definition opcodeEqualVerify (op : parsedOpcode) : EngineM unit :=
  opcodeEqual op ;;
  abstractVerify op ErrEqualVerify.

(** ** Arithmetic: operands are popped as [scriptNum], results wrap to [int64] *)

(** [vm.dstack.PushInt(scriptNum(1))] when the condition holds, else 0. *)

Definition push_cond (b : bool) : EngineM unit := on_dstack (PushInt (if b then 1 else 0)).

Definition opcode1Add (op : parsedOpcode) : EngineM unit :=
  m ← on_dstack PopInt;
  on_dstack (PushInt (i64 (m + 1))).

Definition opcode1Sub (op : parsedOpcode) : EngineM unit :=
  m ← on_dstack PopInt;
  on_dstack (PushInt (i64 (m - 1))).

Definition opcodeNegate (op : parsedOpcode) : EngineM unit :=
  m ← on_dstack PopInt;
  on_dstack (PushInt (i64 (- m))).

Definition opcodeAbs (op : parsedOpcode) : EngineM unit :=
  m ← on_dstack PopInt;
  on_dstack (PushInt (if decide (m < 0) then i64 (- m) else m)).

Definition opcodeNot (op : parsedOpcode) : EngineM unit :=
  m ← on_dstack PopInt;
  push_cond (bool_decide (m = 0)).

Definition opcode0NotEqual (op : parsedOpcode) : EngineM unit :=
  m ← on_dstack PopInt;
  on_dstack (PushInt (if decide (m <> 0) then 1 else m)).

Definition opcodeAdd (op : parsedOpcode) : EngineM unit :=
  v0 ← on_dstack PopInt;
  v1 ← on_dstack PopInt;
  on_dstack (PushInt (i64 (v0 + v1))).

Definition opcodeSub (op : parsedOpcode) : EngineM unit :=
  v0 ← on_dstack PopInt;
  v1 ← on_dstack PopInt;
  on_dstack (PushInt (i64 (v1 - v0))).

Definition opcodeBoolAnd (op : parsedOpcode) : EngineM unit :=
  v0 ← on_dstack PopInt;
  v1 ← on_dstack PopInt;
  push_cond (bool_decide (v0 <> 0 /\ v1 <> 0)).

Definition opcodeBoolOr (op : parsedOpcode) : EngineM unit :=
  v0 ← on_dstack PopInt;
  v1 ← on_dstack PopInt;
  push_cond (bool_decide (v0 <> 0 \/ v1 <> 0)).

Definition opcodeNumEqual (op : parsedOpcode) : EngineM unit :=
  v0 ← on_dstack PopInt;
  v1 ← on_dstack PopInt;
  push_cond (bool_decide (v0 = v1)).

Definition opcodeNumEqualVerify (op : parsedOpcode) : EngineM unit :=
  opcodeNumEqual op ;;
  abstractVerify op ErrNumEqualVerify.

Definition opcodeNumNotEqual (op : parsedOpcode) : EngineM unit :=
  v0 ← on_dstack PopInt;
  v1 ← on_dstack PopInt;
  push_cond (bool_decide (v0 <> v1)).

Definition opcodeLessThan (op : parsedOpcode) : EngineM unit :=
  v0 ← on_dstack PopInt;
  v1 ← on_dstack PopInt;
  push_cond (bool_decide (v1 < v0)).

Definition opcodeGreaterThan (op : parsedOpcode) : EngineM unit :=
  v0 ← on_dstack PopInt;
  v1 ← on_dstack PopInt;
  push_cond (bool_decide (v1 > v0)).

Definition opcodeLessThanOrEqual (op : parsedOpcode) : EngineM unit :=
  v0 ← on_dstack PopInt;
  v1 ← on_dstack PopInt;
  push_cond (bool_decide (v1 <= v0)).

Definition opcodeGreaterThanOrEqual (op : parsedOpcode) : EngineM unit :=
  v0 ← on_dstack PopInt;
  v1 ← on_dstack PopInt;
  push_cond (bool_decide (v1 >= v0)).

Definition opcodeMin (op : parsedOpcode) : EngineM unit :=
  v0 ← on_dstack PopInt;
  v1 ← on_dstack PopInt;
  on_dstack (PushInt (if decide (v1 < v0) then v1 else v0)).

Definition opcodeMax (op : parsedOpcode) : EngineM unit :=
  v0 ← on_dstack PopInt;
  v1 ← on_dstack PopInt;
  on_dstack (PushInt (if decide (v1 > v0) then v1 else v0)).

Definition opcodeWithin (op : parsedOpcode) : EngineM unit :=
  maxVal ← on_dstack PopInt;
  minVal ← on_dstack PopInt;
  x ← on_dstack PopInt;
  push_cond (bool_decide (x >= minVal /\ x < maxVal)).

(** ** Hashes *)

Definition opcodeRipemd160 (op : parsedOpcode) : EngineM unit :=
  buf ← on_dstack PopByteArray;
  on_dstack (PushByteArray (ripemd160_Sum buf)).

Definition opcodeSha1 (op : parsedOpcode) : EngineM unit :=
  buf ← on_dstack PopByteArray;
  on_dstack (PushByteArray (sha1_Sum buf)).

Definition opcodeSha256 (op : parsedOpcode) : EngineM unit :=
  buf ← on_dstack PopByteArray;
  on_dstack (PushByteArray (sha256_Sum256 buf)).

Definition opcodeHash160 (op : parsedOpcode) : EngineM unit :=
  buf ← on_dstack PopByteArray;
  let hash := sha256_Sum256 buf in
  on_dstack (PushByteArray (ripemd160_Sum hash)).

Definition opcodeHash256 (op : parsedOpcode) : EngineM unit :=
  buf ← on_dstack PopByteArray;
  on_dstack (PushByteArray (Keccak256 buf)).

Definition opcodeCodeSeparator (op : parsedOpcode) : EngineM unit :=
  modify (fun vm => set_lastCodeSep (scriptOff vm) vm).

(** ** Signatures *)

Definition opcodeCheckSig (op : parsedOpcode) : EngineM unit :=
  pkBytes ← on_dstack PopByteArray;
  fullSigBytes ← on_dstack PopByteArray;
  if decide (zlen fullSigBytes < 1) then on_dstack (PushBool false) else
  vm ← get;
  subScript ← lift (subScript vm);
  let subScript := removeOpcodeByData subScript fullSigBytes in
  hash ← lift (calcSignatureHash subScript SigHashAll (tx vm) (msgIdx vm) (txIdx vm));
  let valid := VerifySignature pkBytes hash fullSigBytes in
  on_dstack (PushBool valid).

Definition opcodeCheckSigVerify (op : parsedOpcode) : EngineM unit :=
  opcodeCheckSig op ;;
  abstractVerify op ErrCheckSigVerify.

(** [for i := 0; i < n; i++ { so := pop(); ... }]: the items in the order popped. *)

Fixpoint popN (n : nat) : EngineM (list bytes) :=
  match n with
  | O => mret []
  | S n => so ← on_dstack PopByteArray; rest ← popN n; mret (so :: rest)
  end.

(** The map from the hexadecimal text of each signature to [false]. *)

Definition signature_map (sigs : list bytes) : gmap bytes bool :=
  foldl (fun m sig => <[Encode sig := false]> m) ∅ sigs.

(** The nested loops: every (signature, public key) pair that verifies counts.
    [order] is the order in which the map is enumerated. *)

Definition count_valid (order : list bytes) (pubKeys : list bytes) (hash : bytes) : Z :=
  foldl (fun validCount signStr =>
    foldl (fun validCount pubKey =>
      let '(rawSig, _) := Decode signStr in
      if VerifySignature pubKey hash rawSig then validCount + 1 else validCount)
      validCount pubKeys)
    0 order.

Definition opcodeCheckMultiSig (op : parsedOpcode) : EngineM unit :=
  numKeys ← on_dstack PopInt;
  let numPubKeys := scriptNum_Int32 numKeys in
  if decide (numPubKeys < 0) then fail ErrInvalidPubKeyCount else
  if decide (numPubKeys > MaxPubKeysPerMultiSig) then fail ErrInvalidPubKeyCount else
  modify (fun vm => set_numOps (numOps vm + numPubKeys) vm) ;;
  vm ← get;
  if decide (numOps vm > MaxOpsPerScript) then fail ErrTooManyOperations else
  pubKeys ← popN (Z.to_nat numPubKeys);
  numSigs ← on_dstack PopInt;
  let numSignatures := scriptNum_Int32 numSigs in
  if decide (numSignatures < 0) then fail ErrInvalidSignatureCount else
  if decide (numSignatures > numPubKeys) then fail ErrInvalidSignatureCount else
  sigs ← popN (Z.to_nat numSignatures);
  let signatures := signature_map sigs in
  dummy ← on_dstack PopByteArray;
  vm ← get;
  if hasFlag vm ScriptStrictMultiSig && bool_decide (zlen dummy <> 0) then fail ErrSigNullDummy else
  script ← lift (subScript vm);
  hash ← lift (calcSignatureHash script SigHashAll (tx vm) (msgIdx vm) (txIdx vm));
  let validCount := count_valid (map_to_list signatures).*1 pubKeys hash in
  let success := bool_decide (validCount >= numSignatures) in
  if negb success && hasFlag vm ScriptVerifyNullFail then fail ErrNullFail else
  on_dstack (PushBool success).

Definition opcodeCheckJuryRedeemEqual (op : parsedOpcode) : EngineM unit :=
  contractHash ← on_dstack PopByteArray;
  versionData ← on_dstack PopInt;
  let version := scriptNum_Int32 versionData in
  if decide (version < 0) then fail ErrInvalidPubKeyCount else
  redeemScript ← on_dstack PopByteArray;
  let result := true in
  on_dstack (PushBool result).

Definition opcodeCheckMultiSigVerify (op : parsedOpcode) : EngineM unit :=
  opcodeCheckMultiSig op ;;
  abstractVerify op ErrCheckMultiSigVerify.

(** ** The handler a tag of the opcode table stands for *)

Definition exec_opfunc (f : opfunc_id) : parsedOpcode -> EngineM unit :=
  match f with
  | fn_opcodeFalse => opcodeFalse
  | fn_opcodePushData => opcodePushData
  | fn_opcode1Negate => opcode1Negate
  | fn_opcodeReserved => opcodeReserved
  | fn_opcodeN => opcodeN
  | fn_opcodeNop => opcodeNop
  | fn_opcodeIf => opcodeIf
  | fn_opcodeNotIf => opcodeNotIf
  | fn_opcodeElse => opcodeElse
  | fn_opcodeEndif => opcodeEndif
  | fn_opcodeVerify => opcodeVerify
  | fn_opcodeReturn => opcodeReturn
  | fn_opcodeCheckLockTimeVerify => opcodeCheckLockTimeVerify
  | fn_opcodeCheckSequenceVerify => opcodeCheckSequenceVerify
  | fn_opcodeToAltStack => opcodeToAltStack
  | fn_opcodeFromAltStack => opcodeFromAltStack
  | fn_opcode2Drop => opcode2Drop
  | fn_opcode2Dup => opcode2Dup
  | fn_opcode3Dup => opcode3Dup
  | fn_opcode2Over => opcode2Over
  | fn_opcode2Rot => opcode2Rot
  | fn_opcode2Swap => opcode2Swap
  | fn_opcodeIfDup => opcodeIfDup
  | fn_opcodeDepth => opcodeDepth
  | fn_opcodeDrop => opcodeDrop
  | fn_opcodeDup => opcodeDup
  | fn_opcodeNip => opcodeNip
  | fn_opcodeOver => opcodeOver
  | fn_opcodePick => opcodePick
  | fn_opcodeRoll => opcodeRoll
  | fn_opcodeRot => opcodeRot
  | fn_opcodeSwap => opcodeSwap
  | fn_opcodeTuck => opcodeTuck
  | fn_opcodeDisabled => opcodeDisabled
  | fn_opcodeSize => opcodeSize
  | fn_opcodeEqual => opcodeEqual
  | fn_opcodeEqualVerify => opcodeEqualVerify
  | fn_opcode1Add => opcode1Add
  | fn_opcode1Sub => opcode1Sub
  | fn_opcodeNegate => opcodeNegate
  | fn_opcodeAbs => opcodeAbs
  | fn_opcodeNot => opcodeNot
  | fn_opcode0NotEqual => opcode0NotEqual
  | fn_opcodeAdd => opcodeAdd
  | fn_opcodeSub => opcodeSub
  | fn_opcodeBoolAnd => opcodeBoolAnd
  | fn_opcodeBoolOr => opcodeBoolOr
  | fn_opcodeNumEqual => opcodeNumEqual
  | fn_opcodeNumEqualVerify => opcodeNumEqualVerify
  | fn_opcodeNumNotEqual => opcodeNumNotEqual
  | fn_opcodeLessThan => opcodeLessThan
  | fn_opcodeGreaterThan => opcodeGreaterThan
  | fn_opcodeLessThanOrEqual => opcodeLessThanOrEqual
  | fn_opcodeGreaterThanOrEqual => opcodeGreaterThanOrEqual
  | fn_opcodeMin => opcodeMin
  | fn_opcodeMax => opcodeMax
  | fn_opcodeWithin => opcodeWithin
  | fn_opcodeRipemd160 => opcodeRipemd160
  | fn_opcodeSha1 => opcodeSha1
  | fn_opcodeSha256 => opcodeSha256
  | fn_opcodeHash160 => opcodeHash160
  | fn_opcodeHash256 => opcodeHash256
  | fn_opcodeCodeSeparator => opcodeCodeSeparator
  | fn_opcodeCheckSig => opcodeCheckSig
  | fn_opcodeCheckSigVerify => opcodeCheckSigVerify
  | fn_opcodeCheckMultiSig => opcodeCheckMultiSig
  | fn_opcodeCheckMultiSigVerify => opcodeCheckMultiSigVerify
  | fn_opcodeInvalid => opcodeInvalid
  | fn_opcodeCheckJuryRedeemEqual => opcodeCheckJuryRedeemEqual
  end.

End Handlers.
