(* ===== verification/ScriptEngine.v ===== *)
(** * The script engine: execution

    [tokenengine/internal/txscript/engine.go]: one instruction ([executeOpcode],
    [Step]), the whole run ([Execute]), the construction of an engine
    ([NewEngine]) and [ScriptValidate] of tokenengine/api.go.

    [Execute] loops until [Step] reports the end of the last script; the model
    takes fuel.  The disassembly that [Execute] and [CheckErrorCondition] compute
    for logging has no effect and is left out. *)

From S2P Require Import Prelude Digits ScriptErrors ScriptNum ScriptStack Opcodes ScriptParse.
From S2P Require Import HexUtil Transaction Crypto OpcodeExec.

#[local] Open Scope Z_scope.

(** [StandardVerifyFlags] of standard.go *)

Definition StandardVerifyFlags : Z :=
  foldl Z.lor 0
    [ScriptBip16; ScriptVerifyDERSignatures; ScriptVerifyStrictEncoding; ScriptVerifyMinimalData;
     ScriptStrictMultiSig; ScriptDiscourageUpgradableNops; ScriptVerifyCleanStack;
     ScriptVerifyNullFail; ScriptVerifyCheckLockTimeVerify; ScriptVerifyCheckSequenceVerify;
     ScriptVerifyLowS; ScriptStrictMultiSig; ScriptVerifyWitness;
     ScriptVerifyDiscourageUpgradeableWitnessProgram; ScriptVerifyMinimalIf;
     ScriptVerifyWitnessPubKeyType].

Section Engine.
Context {C : Crypto}.

Definition executeOpcode (pop : parsedOpcode) : EngineM unit :=
  if isDisabled pop then fail ErrDisabledOpcode else
  if alwaysIllegal pop then fail ErrReservedOpcode else
  (if decide (value (pop_opcode pop) > OP_16) then
     modify (fun vm => set_numOps (numOps vm + 1) vm) ;;
     vm ← get;
     if decide (numOps vm > MaxOpsPerScript) then fail ErrTooManyOperations else mret ()
   else if decide (zlen (contents (data pop)) > MaxScriptElementSize) then fail ErrElementTooBig
   else mret ()) ;;
  vm ← get;
  if negb (isBranchExecuting vm) && negb (isConditional pop) then mret () else
  (if verifyMinimalData (dstack vm) && isBranchExecuting vm &&
      bool_decide (value (pop_opcode pop) >= 0 /\ value (pop_opcode pop) <= OP_PUSHDATA4)
   then lift (checkMinimalDataPush pop) else mret ()) ;;
  exec_opfunc (opfunc (pop_opcode pop)) pop.

(** [validPC]: nil when the position is valid. *)

Definition validPC (vm : Engine) : outcome ErrorCode unit :=
  if decide (scriptIdx vm >= zlen (scripts vm)) then Err ErrInvalidProgramCounter else
  script ← goidx (scripts vm) (scriptIdx vm);
  if decide (scriptOff vm >= zlen script) then Err ErrInvalidProgramCounter else Ok ().

Definition GetStack (vm : Engine) : outcome ErrorCode (list bytes) := getStack (dstack vm).
Definition SetStack (data : list bytes) : EngineM unit := on_dstack (setStack data).

Definition CheckErrorCondition (finalScript : bool) : EngineM unit :=
  vm ← get;
  if decide (scriptIdx vm < zlen (scripts vm)) then fail ErrScriptUnfinished else
  if finalScript && isWitnessVersionActive vm 0 && bool_decide (Depth (dstack vm) <> 1)
  then fail ErrEvalFalse else
  if finalScript && hasFlag vm ScriptVerifyCleanStack && bool_decide (Depth (dstack vm) <> 1)
  then fail ErrCleanStack
  else if decide (Depth (dstack vm) < 1) then fail ErrEmptyStack else
  v ← on_dstack PopBool;
  if negb v then fail ErrEvalFalse else mret ().

(** The end of [Step] once a script has ended: the next script, and the script
    taken from the saved stack for pay-to-script-hash, then the skip of an empty
    script. *)

Definition load_script : EngineM unit :=
  vm ← get;
  if decide (scriptIdx vm = 0 /\ bip16 vm = true) then
    modify (fun vm => set_scriptIdx (scriptIdx vm + 1) vm) ;;
    vm ← get;
    saved ← lift (GetStack vm);
    modify (set_savedFirstStack saved)
  else if decide (scriptIdx vm = 1 /\ bip16 vm = true) then
    modify (fun vm => set_scriptIdx (scriptIdx vm + 1) vm) ;;
    CheckErrorCondition false ;;
    vm ← get;
    script ← lift (goidx (savedFirstStack vm) (zlen (savedFirstStack vm) - 1));
    pops ← lift (parseScript_or_err script);
    modify (fun vm => set_scripts (scripts vm ++ [pops]) vm) ;;
    rest ← lift (goslice (savedFirstStack vm) 0 (zlen (savedFirstStack vm) - 1));
    SetStack rest
  else if decide ((scriptIdx vm = 1 /\ is_Some (witnessProgram vm)) \/
                  (scriptIdx vm = 2 /\ is_Some (witnessProgram vm) /\ bip16 vm = true)) then
    modify (fun vm => set_scriptIdx (scriptIdx vm + 1) vm)
  else
    modify (fun vm => set_scriptIdx (scriptIdx vm + 1) vm).

Definition skip_empty_script : EngineM bool :=
  vm ← get;
  (if decide (scriptIdx vm < zlen (scripts vm)) then
     script ← lift (goidx (scripts vm) (scriptIdx vm));
     if decide (scriptOff vm >= zlen script)
     then modify (fun vm => set_scriptIdx (scriptIdx vm + 1) vm) else mret ()
   else mret ()) ;;
  modify (set_lastCodeSep 0) ;;
  vm ← get;
  mret (bool_decide (scriptIdx vm >= zlen (scripts vm))).

Definition next_script : EngineM bool :=
  vm ← get;
  if decide (zlen (condStack vm) <> 0) then fail ErrUnbalancedConditional else
  ignore_err (on_astack (DropN (Depth (astack vm)))) ;;
  modify (fun vm => set_scriptOff 0 (set_numOps 0 vm)) ;;
  load_script ;;
  skip_empty_script.

(** [Step]: the boolean is [done]. *)

Definition Step : EngineM bool :=
  vm ← get;
  lift (validPC vm) ;;
  script ← lift (goidx (scripts vm) (scriptIdx vm));
  opcode ← lift (goidx script (scriptOff vm));
  modify (fun vm => set_scriptOff (scriptOff vm + 1) vm) ;;
  executeOpcode opcode ;;
  vm ← get;
  if decide (i32 (Depth (dstack vm) + Depth (astack vm)) > MaxStackSize) then fail ErrStackOverflow else
  script ← lift (goidx (scripts vm) (scriptIdx vm));
  if decide (scriptOff vm >= zlen script) then next_script else mret false.

(** [Execute]: [None] when the fuel runs out. *)

Fixpoint Execute_loop (fuel : nat) (vm : Engine) : option (outcome ErrorCode unit) :=
  match fuel with
  | O => None
  | S fuel =>
      match Step vm with
      | (Ok true, vm) => Some (CheckErrorCondition true vm).1
      | (Ok false, vm) => Execute_loop fuel vm
      | (Err e, _) => Some (Err e)
      | (Panic, _) => Some Panic
      end
  end.

(** Both scripts are at most [MaxScriptSize] bytes long and the script of a
    pay-to-script-hash output is a stack element, at most [MaxScriptElementSize]
    bytes; each step executes at least one byte of them. *)

Definition Execute_fuel : nat := Z.to_nat 20600.

Definition Execute (vm : Engine) : option (outcome ErrorCode unit) := Execute_loop Execute_fuel vm.

(** ** Construction *)

Definition parse_checked (scr : bytes) : outcome ErrorCode (list parsedOpcode) :=
  if decide (zlen scr > MaxScriptSize) then Err ErrScriptTooBig else parseScript_or_err scr.

Definition flagSet (flags flag : Z) : bool := bool_decide (Z.land flags flag = flag).

Definition NewEngine (scriptPubKey : bytes) (t : Transaction) (msgIdx txIdx flags inputAmount : Z)
    : outcome ErrorCode Engine :=
  if decide (txIdx < 0 \/ msgIdx < 0 \/ msgIdx >= zlen (TxMessages t)) then Err ErrInvalidIndex else
  msg ← goidx (TxMessages t) msgIdx;
  if decide (App msg <> APP_PAYMENT) then Err ErrInvalidIndex else
  payment ← match payload msg with Payment p => Ok p | _ => Panic end;
  inp ← goidx (Inputs payment) txIdx;
  let scriptSig := contents (SignatureScript inp) in
  if decide (zlen scriptSig = 0 /\ zlen scriptPubKey = 0) then Err ErrEvalFalse else
  if flagSet flags ScriptVerifyCleanStack &&
     (negb (flagSet flags ScriptBip16) && negb (flagSet flags ScriptVerifyWitness))
  then Err ErrInvalidFlags else
  pushOnly ← (if flagSet flags ScriptVerifySigPushOnly then IsPushOnlyScript scriptSig else Ok true);
  if negb pushOnly then Err ErrNotPushOnly else
  s0 ← parse_checked scriptSig;
  s1 ← parse_checked scriptPubKey;
  let scriptIdx := if decide (zlen scriptSig = 0) then 1 else 0 in
  let isP2SH := flagSet flags ScriptBip16 && isScriptHash s1 in
  if isP2SH && negb (isPushOnly s0) then Err ErrNotPushOnly else
  let minimal := flagSet flags ScriptVerifyMinimalData in
  if flagSet flags ScriptVerifyWitness && negb (flagSet flags ScriptBip16) then Err ErrInvalidFlags else
  if flagSet flags ScriptVerifyWitness && isWitnessProgram s1 && bool_decide (zlen scriptSig <> 0)
  then Err ErrWitnessMalleated else
  Ok (mkEngine [s0; s1] scriptIdx 0 0 (mkStack [] minimal) (mkStack [] minimal) t msgIdx txIdx
        [] 0 flags isP2SH [] 0 None inputAmount).

(** [ScriptValidate] of tokenengine/api.go *)

Definition ScriptValidate (utxoLockScript : bytes) (t : Transaction) (msgIdx inputIndex : Z)
    : option (outcome ErrorCode unit) :=
  match NewEngine utxoLockScript t msgIdx inputIndex StandardVerifyFlags 0 with
  | Ok vm => Execute vm
  | Err e => Some (Err e)
  | Panic => Some Panic
  end.

End Engine.
