(* ===== verification/EngineSafety.v ===== *)
(** * Safety of the script engine

    Every instruction keeps the engine's resource invariant and none panics:

    - at most 1000 items on the two stacks together after each step, each item at
      most 520 bytes, at most 201 counted operations per script, a program counter
      and a code-separator position inside the current script;
    - [Execute] always returns: the fuel of [Execute] is enough for every engine
      that [NewEngine] returns. *)

From S2P Require Import Prelude Digits ScriptErrors ScriptNum ScriptStack Opcodes ScriptParse.
From S2P Require Import HexUtil Transaction Crypto OpcodeExec ScriptEngine.

#[local] Open Scope Z_scope.

(** ** Stacks *)

Definition elem_ok (e : bytes) : Prop := wf_bytes e /\ zlen e <= MaxScriptElementSize.

(** A stack of at most [k] items. *)

Definition S_ok (k : Z) (s : stack) : Prop := zlen (stk s) <= k /\ Forall elem_ok (stk s).

(** The bound under which depths fit [int32]. *)

Abbreviation small k := (k <= 100000) (only parsing).

Lemma S_ok_wf k s : small k -> S_ok k s -> wf_stack s.
Proof. intros Hk [Hl _]. unfold wf_stack. lia. Qed.

Lemma S_ok_weaken k k' s : S_ok k s -> k <= k' -> S_ok k' s.
Proof. intros [Hl Hf] Hk. split; [lia|done]. Qed.

(** An index is out of range or splits the stack. *)

Lemma stack_split {A} idx (st : list A) :
  0 <= idx < zlen st -> exists l x r, st = l ++ x :: r /\ zlen r = idx.
Proof.
  intros Hi.
  destruct (lookup_lt_is_Some_2 st (Z.to_nat (zlen st - idx - 1))) as [x Hx]; [unfold zlen in *; lia|].
  exists (take (Z.to_nat (zlen st - idx - 1)) st), x, (drop (S (Z.to_nat (zlen st - idx - 1))) st).
  rewrite take_drop_middle by done. split; [done|].
  unfold zlen in *. rewrite length_drop. lia.
Qed.

Lemma nipN_triple k idx :
  small k -> triple (S_ok k) (nipN idx) (fun a s => elem_ok a /\ S_ok (k - 1) s).
Proof.
  intros Hk s Hs. pose proof (S_ok_wf k s Hk Hs) as Hwf.
  destruct (decide (0 <= idx < zlen (stk s))) as [Hi|Hi].
  - destruct s as [st m]. destruct (stack_split idx st Hi) as (l & x & r & -> & <-).
    destruct Hs as [Hl Hf]. cbn [stk] in *. rewrite nipN_ok by done.
    apply Forall_app in Hf as [Hfl [Hx Hfr]%Forall_cons].
    split; [done|]. split; cbn [stk]; [zlen_lia|by apply Forall_app].
  - by rewrite nipN_underflow by (done || lia).
Qed.

Lemma PeekByteArray_triple k idx :
  small k -> triple (S_ok k) (PeekByteArray idx) (fun a s => elem_ok a /\ S_ok k s).
Proof.
  intros Hk s Hs. pose proof (S_ok_wf k s Hk Hs) as Hwf.
  destruct (decide (0 <= idx < zlen (stk s))) as [Hi|Hi].
  - destruct s as [st m]. destruct (stack_split idx st Hi) as (l & x & r & -> & <-). cbn [stk] in *.
    rewrite PeekByteArray_ok by done. split; [|done].
    destruct Hs as [_ [_ [Hx _]%Forall_cons]%Forall_app]. done.
  - by rewrite PeekByteArray_underflow by (done || lia).
Qed.

Lemma PopByteArray_triple k :
  small k -> triple (S_ok k) PopByteArray (fun a s => elem_ok a /\ S_ok (k - 1) s).
Proof. apply nipN_triple. Qed.

Lemma PushByteArray_triple k so :
  elem_ok so -> triple (S_ok k) (PushByteArray so) (fun _ => S_ok (k + 1)).
Proof.
  intros Hso. apply triple_modify. intros s [Hl Hf]. split; cbn.
  - zlen_lia.
  - apply Forall_app. split; [done|]. by constructor.
Qed.

(** Numbers the engine pushes are far from the smallest [int64]. *)

Definition num_ok (n : Z) : Prop := Z.abs n < 2 ^ 40.

Lemma scriptNum_Bytes_elem n : num_ok n -> exists b, scriptNum_Bytes n = Ok b /\ elem_ok b.
Proof.
  unfold num_ok. intros Hn. destruct (scriptNum_Bytes_spec n) as (b & Hb & Hwf & Hmin & Hv);
    [unfold is_int64; lia..|].
  exists b. split; [done|]. split; [done|]. unfold MaxScriptElementSize.
  assert (zlen b <= 8); [|lia]. apply minimal_length; [done..|lia|]. rewrite Hv. lia.
Qed.

Lemma PushInt_triple k n : num_ok n -> triple (S_ok k) (PushInt n) (fun _ => S_ok (k + 1)).
Proof.
  intros Hn. destruct (scriptNum_Bytes_elem n Hn) as (b & Hb & He). unfold PushInt. rewrite Hb.
  eapply triple_bind; [apply (triple_lift _ _ (fun a s => a = b /\ S_ok k s)); auto|].
  intros a. apply triple_pure. intros ->. by apply PushByteArray_triple.
Qed.

Lemma PushBool_triple k v : triple (S_ok k) (PushBool v) (fun _ => S_ok (k + 1)).
Proof. apply PushByteArray_triple. by destruct v; apply (bool_decide_unpack _). Qed.

Lemma makeScriptNum_triple {S} (P : S -> Prop) so m n :
  elem_ok so -> 0 < n <= 5 ->
  triple P (lift (makeScriptNum so m n)) (fun a s => Z.abs a < 2 ^ (8 * n - 1) /\ P s).
Proof.
  intros [Hwf _] Hn. apply triple_lift. intros s Hs.
  rewrite makeScriptNum_cases by (done || lia). case_decide; [done|]. case_decide; [done|].
  split; [|done]. by apply sm_val_small; [|lia..].
Qed.

Lemma PopInt_triple k :
  small k -> triple (S_ok k) PopInt (fun a s => Z.abs a < 2 ^ 31 /\ S_ok (k - 1) s).
Proof.
  intros Hk. eapply triple_bind; [by apply PopByteArray_triple|]. intros so.
  apply triple_pure. intros Hso. apply triple_get. intros s0 Hs0.
  eapply triple_conseq; [by apply (makeScriptNum_triple (fun s => s = s0))|done|].
  intros a s [Ha ->]. done.
Qed.

Lemma PopBool_triple k : small k -> triple (S_ok k) PopBool (fun _ => S_ok (k - 1)).
Proof.
  intros Hk. eapply triple_bind; [by apply PopByteArray_triple|]. intros so.
  apply triple_pure. intros _. by apply triple_ret.
Qed.

(** The counted operations: moving keeps the size, copying adds [n]. *)

Lemma repeat_triple k g n (body : StackM unit) :
  0 <= g -> small (k + g * Z.of_nat n) ->
  (forall k', small k' -> triple (S_ok k') body (fun _ => S_ok (k' + g))) ->
  triple (S_ok k) (repeatM n body) (fun _ => S_ok (k + g * Z.of_nat n)).
Proof.
  intros Hg. revert k. induction n as [|n IH]; intros k Hk Hb; cbn [repeatM].
  - apply triple_ret. intros s Hs. eapply S_ok_weaken; [done|lia].
  - rewrite Nat2Z.inj_succ, Z.mul_succ_r in *.
    assert (0 <= g * Z.of_nat n) by (apply Z.mul_nonneg_nonneg; lia).
    eapply triple_bind; [apply Hb; lia|]. intros [].
    eapply triple_conseq; [apply (IH (k + g)); [lia|done]|done|]. intros [] s Hs. cbn beta in Hs.
    eapply S_ok_weaken; [done|lia].
Qed.

Lemma move_triple k n entry :
  small k -> triple (S_ok k) (repeatM n (so ← nipN entry; PushByteArray so)) (fun _ => S_ok k).
Proof.
  intros Hk. eapply triple_conseq; [apply (repeat_triple k 0)|done|]; [lia|lia|..].
  - intros k' Hk'. eapply triple_bind; [by apply nipN_triple|]. intros so.
    apply triple_pure. intros Hso.
    eapply triple_conseq; [by apply PushByteArray_triple|done|]. intros [] s Hs.
    eapply S_ok_weaken; [done|lia].
  - intros [] s Hs. eapply S_ok_weaken; [done|lia].
Qed.

Lemma copy_triple k n entry :
  small (k + Z.of_nat n) ->
  triple (S_ok k) (repeatM n (so ← PeekByteArray entry; PushByteArray so))
    (fun _ => S_ok (k + Z.of_nat n)).
Proof.
  intros Hk. eapply triple_conseq; [apply (repeat_triple k 1 n)|done|]; [lia|lia|..].
  - intros k' Hk'. eapply triple_bind; [by apply PeekByteArray_triple|]. intros so.
    apply triple_pure. intros Hso. by apply PushByteArray_triple.
  - intros [] s Hs. eapply S_ok_weaken; [done|lia].
Qed.

Lemma DropN_triple k n : small k -> triple (S_ok k) (DropN n) (fun _ => S_ok k).
Proof.
  intros Hk. unfold DropN. case_decide; [apply triple_fail|].
  eapply triple_conseq; [apply (repeat_triple k 0)|done|]; [lia|lia|..].
  - intros k' Hk'. eapply triple_bind; [by apply PopByteArray_triple|]. intros so.
    apply triple_ret. intros s [_ Hs]. eapply S_ok_weaken; [done|lia].
  - intros [] s Hs. eapply S_ok_weaken; [done|lia].
Qed.

Lemma DupN_triple k n : 0 <= n -> small (k + n) -> triple (S_ok k) (DupN n) (fun _ => S_ok (k + n)).
Proof.
  intros Hn Hk. unfold DupN. case_decide; [apply triple_fail|].
  replace (k + n) with (k + Z.of_nat (Z.to_nat n)) in * by lia. by apply copy_triple.
Qed.

Lemma OverN_triple k n : 0 <= n -> small (k + n) -> triple (S_ok k) (OverN n) (fun _ => S_ok (k + n)).
Proof.
  intros Hn Hk. unfold OverN. case_decide; [apply triple_fail|].
  replace (k + n) with (k + Z.of_nat (Z.to_nat n)) in * by lia. by apply copy_triple.
Qed.

Lemma RotN_triple k n : small k -> triple (S_ok k) (RotN n) (fun _ => S_ok k).
Proof. intros Hk. unfold RotN. case_decide; [apply triple_fail|by apply move_triple]. Qed.

Lemma SwapN_triple k n : small k -> triple (S_ok k) (SwapN n) (fun _ => S_ok k).
Proof. intros Hk. unfold SwapN. case_decide; [apply triple_fail|by apply move_triple]. Qed.

Lemma NipN_triple k n : small k -> triple (S_ok k) (NipN n) (fun _ => S_ok k).
Proof.
  intros Hk. eapply triple_bind; [by apply nipN_triple|]. intros so. apply triple_ret.
  intros s [_ Hs]. eapply S_ok_weaken; [done|lia].
Qed.

Lemma PickN_triple k n : small k -> triple (S_ok k) (PickN n) (fun _ => S_ok (k + 1)).
Proof.
  intros Hk. eapply triple_bind; [by apply PeekByteArray_triple|]. intros so.
  apply triple_pure. intros Hso. by apply PushByteArray_triple.
Qed.

Lemma RollN_triple k n : small k -> triple (S_ok k) (RollN n) (fun _ => S_ok (k - 1 + 1)).
Proof.
  intros Hk. eapply triple_bind; [by apply nipN_triple|]. intros so.
  apply triple_pure. intros Hso. by apply PushByteArray_triple.
Qed.

Lemma Tuck_triple k : small k -> triple (S_ok k) Tuck (fun _ => S_ok (k + 1)).
Proof.
  intros Hk. unfold Tuck. eapply triple_bind; [by apply PopByteArray_triple|]. intros so2.
  apply triple_pure. intros H2. eapply triple_bind; [apply PopByteArray_triple; lia|]. intros so1.
  apply triple_pure. intros H1. do 2 (eapply triple_bind; [by apply PushByteArray_triple|]; intros []).
  eapply triple_conseq; [by apply PushByteArray_triple|done|].
  intros [] s Hs. eapply S_ok_weaken; [done|lia].
Qed.

(** ** The engine between two instructions

    The handlers change only the stacks, the conditional stack, the operation
    count and the code-separator position: [erase] is the rest of the engine. *)

Definition erase (vm : Engine) : Engine :=
  set_dstack (mkStack [] false) (set_astack (mkStack [] false)
    (set_condStack [] (set_numOps 0 (set_lastCodeSep 0 vm)))).

(** The engine [vm] while an instruction of the engine [vm0] executes, with at
    most [n] items on its stacks. *)

Record H_ok (vm0 : Engine) (n : Z) (vm : Engine) : Prop := {
  H_frame : erase vm = erase vm0;
  H_sep : 0 <= lastCodeSep vm <= scriptOff vm;
  H_ops : 0 <= numOps vm <= MaxOpsPerScript;
  H_size : zlen (stk (dstack vm)) + zlen (stk (astack vm)) <= n;
  H_delem : Forall elem_ok (stk (dstack vm));
  H_aelem : Forall elem_ok (stk (astack vm))
}.

(** The program counter, after it moved past the current instruction, and the
    payment the engine validates. *)

Definition payment_of (vm : Engine) (p : PaymentPayload) : Prop :=
  exists app, TxMessages (tx vm) !! Z.to_nat (msgIdx vm) = Some (mkMessage app (Payment p)).

Record pc_ok (vm : Engine) : Prop := {
  pc_idx : 0 <= scriptIdx vm;
  pc_script : exists script, scripts vm !! Z.to_nat (scriptIdx vm) = Some script /\
                             0 <= scriptOff vm <= zlen script;
  pc_msg : 0 <= msgIdx vm;
  pc_payment : exists p, payment_of vm p
}.

Lemma erase_fields vm vm' :
  erase vm = erase vm' ->
  scripts vm = scripts vm' /\ scriptIdx vm = scriptIdx vm' /\ scriptOff vm = scriptOff vm' /\
  tx vm = tx vm' /\ msgIdx vm = msgIdx vm' /\ txIdx vm = txIdx vm' /\ flags vm = flags vm' /\
  bip16 vm = bip16 vm' /\ savedFirstStack vm = savedFirstStack vm' /\
  witnessVersion vm = witnessVersion vm' /\ witnessProgram vm = witnessProgram vm'.
Proof.
  intros H. split_and!;
    [exact (f_equal scripts H)|exact (f_equal scriptIdx H)|exact (f_equal scriptOff H)
    |exact (f_equal tx H)|exact (f_equal msgIdx H)|exact (f_equal txIdx H)|exact (f_equal flags H)
    |exact (f_equal bip16 H)|exact (f_equal savedFirstStack H)|exact (f_equal witnessVersion H)
    |exact (f_equal witnessProgram H)].
Qed.

Lemma erase_pc vm vm' : erase vm = erase vm' -> pc_ok vm' -> pc_ok vm.
Proof.
  intros H. apply erase_fields in H as (H1 & H2 & H3 & H4 & H5 & _). intros [].
  constructor; unfold payment_of; by rewrite ?H1, ?H2, ?H3, ?H4, ?H5.
Qed.

Lemma H_ok_weaken vm0 n n' vm : H_ok vm0 n vm -> n <= n' -> H_ok vm0 n' vm.
Proof. intros [] ?. constructor; try done. lia. Qed.

Section Instructions.
Context {C : Crypto} {L : CryptoLaws}.
Variable vm0 : Engine.
Hypothesis Hpc : pc_ok vm0.

(** *** Stack methods *)

Lemma on_dstack_triple {A} n g (R : A -> Prop) (m : StackM A) :
  small n ->
  (forall k, small k -> k <= n -> triple (S_ok k) m (fun a s => R a /\ S_ok (k + g) s)) ->
  triple (H_ok vm0 n) (on_dstack m) (fun a vm => R a /\ H_ok vm0 (n + g) vm).
Proof.
  intros Hn Hm vm []. pose proof (zlen_nonneg (stk (astack vm))).
  assert (HS : S_ok (n - zlen (stk (astack vm))) (dstack vm)) by (split; [lia|done]).
  assert (Hk : small (n - zlen (stk (astack vm)))) by lia.
  specialize (Hm _ Hk ltac:(lia) (dstack vm) HS). unfold on_dstack, zoom.
  destruct (m (dstack vm)) as [[a|e|] t]; [|done..]. destruct Hm as [HR [Hl Hf]].
  split; [done|]. constructor; try done. cbn. lia.
Qed.

Lemma on_dstack_unit n g (m : StackM unit) :
  small n ->
  (forall k, small k -> k <= n -> triple (S_ok k) m (fun _ => S_ok (k + g))) ->
  triple (H_ok vm0 n) (on_dstack m) (fun _ => H_ok vm0 (n + g)).
Proof.
  intros Hn Hm. eapply triple_conseq; [apply (on_dstack_triple n g (fun _ => True))|done|]; [done|..].
  - intros k Hk Hkn. eapply triple_conseq; [by apply Hm|done|]. done.
  - by intros [] s [_ Hs].
Qed.

(** For an operation whose resulting bound is not literally [k + g]. *)

Lemma on_dstack_op n g (m : StackM unit) :
  small n ->
  (forall k, small k -> k <= n -> exists k', k' <= k + g /\ triple (S_ok k) m (fun _ => S_ok k')) ->
  triple (H_ok vm0 n) (on_dstack m) (fun _ => H_ok vm0 (n + g)).
Proof.
  intros Hn Hm. apply on_dstack_unit; [done|]. intros k Hk Hkn.
  destruct (Hm k Hk Hkn) as (k' & Hk' & Ht).
  eapply triple_conseq; [exact Ht|done|]. intros [] s Hs. by eapply S_ok_weaken.
Qed.

Lemma pop_a n : small n ->
  triple (H_ok vm0 n) (on_astack PopByteArray) (fun a vm => elem_ok a /\ H_ok vm0 (n + -1) vm).
Proof.
  intros Hn vm []. pose proof (zlen_nonneg (stk (dstack vm))).
  assert (HS : S_ok (n - zlen (stk (dstack vm))) (astack vm)) by (split; [lia|done]).
  assert (Hk : small (n - zlen (stk (dstack vm)))) by lia.
  pose proof (PopByteArray_triple _ Hk (astack vm) HS) as Hm. unfold on_astack, zoom.
  destruct (PopByteArray (astack vm)) as [[a|e|] t]; [|done..]. destruct Hm as [HR [Hl Hf]].
  split; [done|]. constructor; try done. cbn. lia.
Qed.

Lemma push_a n so : elem_ok so ->
  triple (H_ok vm0 n) (on_astack (PushByteArray so)) (fun _ => H_ok vm0 (n + 1)).
Proof.
  intros Hso vm []. unfold on_astack, zoom. cbn.
  constructor; try done; cbn; [zlen_lia|]. apply Forall_app. split; [done|]. by constructor.
Qed.

Lemma pop_d n : small n ->
  triple (H_ok vm0 n) (on_dstack PopByteArray) (fun a vm => elem_ok a /\ H_ok vm0 (n + -1) vm).
Proof. intros Hn. apply on_dstack_triple; [done|]. intros k Hk _. by apply PopByteArray_triple. Qed.

Lemma popint_d n : small n ->
  triple (H_ok vm0 n) (on_dstack PopInt) (fun a vm => Z.abs a < 2 ^ 31 /\ H_ok vm0 (n + -1) vm).
Proof. intros Hn. apply on_dstack_triple; [done|]. intros k Hk _. by apply PopInt_triple. Qed.

Lemma popbool_d n : small n ->
  triple (H_ok vm0 n) (on_dstack PopBool) (fun a vm => True /\ H_ok vm0 (n + -1) vm).
Proof.
  intros Hn. apply on_dstack_triple; [done|]. intros k Hk _.
  eapply triple_conseq; [by apply PopBool_triple|done|done].
Qed.

Lemma peek_d n i : small n ->
  triple (H_ok vm0 n) (on_dstack (PeekByteArray i)) (fun a vm => elem_ok a /\ H_ok vm0 (n + 0) vm).
Proof.
  intros Hn. apply on_dstack_triple; [done|]. intros k Hk _. rewrite Z.add_0_r.
  by apply PeekByteArray_triple.
Qed.

Lemma push_d n so : small n -> elem_ok so ->
  triple (H_ok vm0 n) (on_dstack (PushByteArray so)) (fun _ => H_ok vm0 (n + 1)).
Proof. intros Hn Hso. apply on_dstack_unit; [done|]. intros k Hk _. by apply PushByteArray_triple. Qed.

Lemma pushint_d n v : small n -> num_ok v ->
  triple (H_ok vm0 n) (on_dstack (PushInt v)) (fun _ => H_ok vm0 (n + 1)).
Proof. intros Hn Hv. apply on_dstack_unit; [done|]. intros k Hk _. by apply PushInt_triple. Qed.

Lemma pushbool_d n v : small n ->
  triple (H_ok vm0 n) (on_dstack (PushBool v)) (fun _ => H_ok vm0 (n + 1)).
Proof. intros Hn. apply on_dstack_unit; [done|]. intros k Hk _. apply PushBool_triple. Qed.

Lemma push_cond_d n b : small n ->
  triple (H_ok vm0 n) (push_cond b) (fun _ => H_ok vm0 (n + 1)).
Proof. intros Hn. apply pushint_d; [done|]. unfold num_ok. destruct b; lia. Qed.

(** *** Handlers

    A handler starts with at most [MaxStackSize] items and adds at most three. *)

Definition handler_ok (h : EngineM unit) : Prop :=
  triple (H_ok vm0 MaxStackSize) h (fun _ => H_ok vm0 (MaxStackSize + 3)).

Lemma close_triple n n' N (m : EngineM unit) :
  triple (H_ok vm0 n) m (fun _ => H_ok vm0 n') -> n' <= N ->
  triple (H_ok vm0 n) m (fun _ => H_ok vm0 N).
Proof.
  intros Hm Hn. eapply triple_conseq; [exact Hm|done|]. intros [] s Hs. by eapply H_ok_weaken.
Qed.

Lemma ret_triple n N : n <= N -> triple (E := ErrorCode) (H_ok vm0 n) (mret ()) (fun _ => H_ok vm0 N).
Proof. intros Hn. apply triple_ret. intros s Hs. by eapply H_ok_weaken. Qed.

Lemma get_triple {B} n (f : Engine -> EngineM B) Q :
  (forall vm, H_ok vm0 n vm -> triple (H_ok vm0 n) (f vm) Q) -> triple (H_ok vm0 n) (get ≫= f) Q.
Proof. intros H vm Hvm. cbn. by apply (H vm Hvm). Qed.

Lemma cond_triple n N c :
  n <= N ->
  triple (H_ok vm0 n) (modify (fun vm => set_condStack (c vm) vm) : EngineM unit) (fun _ => H_ok vm0 N).
Proof. intros Hn. apply triple_modify. intros s []. constructor; try done. cbn. lia. Qed.

(** Counting [d] operations, or failing past the limit. *)

Lemma charge_triple {A} n d (m : Engine -> EngineM A) Q :
  0 <= d -> (forall vm, triple (H_ok vm0 n) (m vm) Q) ->
  triple (H_ok vm0 n)
    (modify (fun vm => set_numOps (numOps vm + d) vm) ;;
     vm ← get;
     if decide (numOps vm > MaxOpsPerScript) then fail ErrTooManyOperations else m vm) Q.
Proof.
  intros Hd Hm vm []. unfold mbind, go_bind, modify, get. cbn [numOps set_numOps].
  case_decide; [done|]. apply Hm. constructor; try done. cbn. lia.
Qed.

(** [pops] runs the pops at the head of a handler, [pushes] its final push. *)

Ltac pops :=
  repeat (eapply triple_bind;
    [first [apply pop_d|apply popint_d|apply popbool_d|apply peek_d]; unfold MaxStackSize; lia
    |intros ?; apply triple_pure; intros ?]).

Ltac num := unfold num_ok in *; repeat case_decide; rewrite ?i64_id by lia; lia.

Ltac pushes :=
  eapply close_triple;
    [lazymatch goal with
     | |- triple _ (push_cond _) _ => apply push_cond_d; unfold MaxStackSize; lia
     | |- triple _ (on_dstack (PushBool _)) _ => apply pushbool_d; unfold MaxStackSize; lia
     | |- triple _ (on_dstack (PushInt _)) _ =>
         apply pushint_d; [unfold MaxStackSize; lia|try num]
     | |- triple _ (on_dstack (PushByteArray _)) _ =>
         apply push_d; [unfold MaxStackSize; lia|try assumption]
     end
    |unfold MaxStackSize; lia].

Ltac stackop L :=
  eapply close_triple; [eapply (on_dstack_op _ 3)|]; unfold MaxStackSize; [lia| |lia];
  intros k Hk Hkn; eexists; split; [|apply L; unfold MaxStackSize in *; lia];
  unfold MaxStackSize in *; lia.

Lemma stack_handlers_ok op :
  handler_ok (opcodeToAltStack op) /\ handler_ok (opcodeFromAltStack op) /\
  handler_ok (opcode2Drop op) /\ handler_ok (opcode2Dup op) /\ handler_ok (opcode3Dup op) /\
  handler_ok (opcode2Over op) /\ handler_ok (opcode2Rot op) /\ handler_ok (opcode2Swap op) /\
  handler_ok (opcodeIfDup op) /\ handler_ok (opcodeDepth op) /\ handler_ok (opcodeDrop op) /\
  handler_ok (opcodeDup op) /\ handler_ok (opcodeNip op) /\ handler_ok (opcodeOver op) /\
  handler_ok (opcodePick op) /\ handler_ok (opcodeRoll op) /\ handler_ok (opcodeRot op) /\
  handler_ok (opcodeSwap op) /\ handler_ok (opcodeTuck op) /\ handler_ok (opcodeSize op).
Proof.
  unfold handler_ok. split_and!.
  - unfold opcodeToAltStack. pops. eapply close_triple; [by apply push_a|unfold MaxStackSize; lia].
  - unfold opcodeFromAltStack. eapply triple_bind; [by apply pop_a|]. intros so.
    apply triple_pure. intros Hso. pushes.
  - stackop DropN_triple.
  - stackop DupN_triple.
  - stackop DupN_triple.
  - stackop OverN_triple.
  - stackop RotN_triple.
  - stackop SwapN_triple.
  - unfold opcodeIfDup. pops. case_match; [pushes|apply ret_triple; unfold MaxStackSize; lia].
  - unfold opcodeDepth. apply get_triple. intros vm Hvm. pushes.
    destruct Hvm. unfold num_ok, Depth, i32. unfold MaxStackSize in *.
    pose proof (Z.mod_pos_bound (zlen (stk (dstack vm)) + 2 ^ 31) (2 ^ 32)). lia.
  - stackop DropN_triple.
  - stackop DupN_triple.
  - stackop NipN_triple.
  - stackop OverN_triple.
  - unfold opcodePick. pops. eapply close_triple; [eapply (on_dstack_op _ 1)|].
    + unfold MaxStackSize. lia.
    + intros k Hk _. eexists. split; [|by apply PickN_triple]. lia.
    + unfold MaxStackSize. lia.
  - unfold opcodeRoll. pops. eapply close_triple; [eapply (on_dstack_op _ 0)|].
    + unfold MaxStackSize. lia.
    + intros k Hk _. eexists. split; [|by apply RollN_triple]. lia.
    + unfold MaxStackSize. lia.
  - stackop RotN_triple.
  - stackop SwapN_triple.
  - stackop Tuck_triple.
  - unfold opcodeSize. pops. pushes. destruct H as [_ H]. zlen_facts. unfold MaxScriptElementSize in H. num.
Qed.

Lemma arith_handlers_ok op :
  handler_ok (opcode1Add op) /\ handler_ok (opcode1Sub op) /\ handler_ok (opcodeNegate op) /\
  handler_ok (opcodeAbs op) /\ handler_ok (opcodeNot op) /\ handler_ok (opcode0NotEqual op) /\
  handler_ok (opcodeAdd op) /\ handler_ok (opcodeSub op) /\ handler_ok (opcodeBoolAnd op) /\
  handler_ok (opcodeBoolOr op) /\ handler_ok (opcodeNumEqual op) /\
  handler_ok (opcodeNumNotEqual op) /\ handler_ok (opcodeLessThan op) /\
  handler_ok (opcodeGreaterThan op) /\ handler_ok (opcodeLessThanOrEqual op) /\
  handler_ok (opcodeGreaterThanOrEqual op) /\ handler_ok (opcodeMin op) /\
  handler_ok (opcodeMax op) /\ handler_ok (opcodeWithin op).
Proof.
  unfold handler_ok, opcode1Add, opcode1Sub, opcodeNegate, opcodeAbs, opcodeNot, opcode0NotEqual,
    opcodeAdd, opcodeSub, opcodeBoolAnd, opcodeBoolOr, opcodeNumEqual, opcodeNumNotEqual,
    opcodeLessThan, opcodeGreaterThan, opcodeLessThanOrEqual, opcodeGreaterThanOrEqual,
    opcodeMin, opcodeMax, opcodeWithin.
  split_and!; pops; pushes.
Qed.

Lemma digest_elem n h : digest_ok n h -> n <= 32 -> elem_ok h.
Proof. intros [Hl Hw] Hn. split; [done|]. unfold MaxScriptElementSize. lia. Qed.

Lemma hash_handlers_ok op :
  handler_ok (opcodeRipemd160 op) /\ handler_ok (opcodeSha1 op) /\ handler_ok (opcodeSha256 op) /\
  handler_ok (opcodeHash160 op) /\ handler_ok (opcodeHash256 op).
Proof.
  unfold handler_ok, opcodeRipemd160, opcodeSha1, opcodeSha256, opcodeHash160, opcodeHash256.
  split_and!; pops; pushes; (eapply digest_elem;
    [first [apply ripemd160_ok|apply sha1_ok|apply sha256_ok|apply Keccak256_ok]|lia]).
Qed.

(** A handler followed by [abstractVerify]. *)

Lemma verify_triple n N op c :
  small n -> n <= N -> triple (H_ok vm0 n) (abstractVerify op c) (fun _ => H_ok vm0 N).
Proof.
  intros Hn HN. unfold abstractVerify. eapply triple_bind; [by apply popbool_d|].
  intros v. apply triple_pure. intros _. case_match; [apply triple_fail|apply ret_triple; lia].
Qed.

Lemma then_verify (h : EngineM unit) op c : handler_ok h -> handler_ok (h ;; abstractVerify op c).
Proof.
  intros Hh. eapply triple_bind; [exact Hh|]. intros []. apply verify_triple; unfold MaxStackSize; lia.
Qed.

Lemma opcodeEqual_ok op : handler_ok (opcodeEqual op).
Proof. unfold handler_ok, opcodeEqual. pops. pushes. Qed.

Lemma constant_handlers_ok op :
  (opfunc (pop_opcode op) = fn_opcodePushData -> elem_ok (contents (data op))) ->
  handler_ok (opcodeDisabled op) /\ handler_ok (opcodeReserved op) /\ handler_ok (opcodeInvalid op) /\
  handler_ok (opcodeFalse op) /\
  (opfunc (pop_opcode op) = fn_opcodePushData -> handler_ok (opcodePushData op)) /\
  handler_ok (opcode1Negate op) /\ handler_ok (opcodeN op) /\ handler_ok (opcodeNop op) /\
  handler_ok (opcodeReturn op) /\ handler_ok (opcodeVerify op).
Proof.
  intros Hd. unfold handler_ok. split_and!; try apply triple_fail.
  - unfold opcodeFalse. pushes. by apply (bool_decide_unpack _).
  - intros Hf. unfold opcodePushData. pushes. by apply Hd.
  - unfold opcode1Negate. pushes.
  - unfold opcodeN. pushes. pose proof (u8_byte (value (pop_opcode op) - (OP_1 - 1))) as Hb.
    unfold is_byte in Hb. num.
  - unfold opcodeNop. apply get_triple. intros vm _.
    repeat case_match; try apply triple_fail; apply ret_triple; unfold MaxStackSize; lia.
  - apply verify_triple; unfold MaxStackSize; lia.
Qed.

(** *** Conditionals *)

Lemma popIfBool_triple n :
  small n -> triple (H_ok vm0 n) popIfBool (fun _ => H_ok vm0 n).
Proof.
  intros Hn. unfold popIfBool. apply get_triple. intros vm _. case_match.
  - eapply triple_conseq; [by apply popbool_d|done|]. intros b s [_ Hs]. eapply H_ok_weaken; [done|lia].
  - eapply triple_bind; [by apply pop_d|]. intros so. apply triple_pure. intros _.
    do 2 (case_decide; [apply triple_fail|]).
    apply triple_ret. intros s Hs. eapply H_ok_weaken; [done|lia].
Qed.

Lemma cond_value_triple n (f : bool -> Z) (b : bool) :
  small n ->
  triple (H_ok vm0 n) (if b then ok ← popIfBool; mret (f ok) else mret OpCondSkip)
    (fun _ => H_ok vm0 n).
Proof.
  intros Hn. case_match; [|by apply triple_ret].
  eapply triple_bind; [by apply popIfBool_triple|]. intros ok. by apply triple_ret.
Qed.

Lemma conditional_handlers_ok op :
  handler_ok (opcodeIf op) /\ handler_ok (opcodeNotIf op) /\ handler_ok (opcodeElse op) /\
  handler_ok (opcodeEndif op) /\ handler_ok (opcodeCodeSeparator op).
Proof.
  unfold handler_ok. split_and!.
  - unfold opcodeIf. apply get_triple. intros vm _.
    eapply triple_bind; [by apply (cond_value_triple _ (fun ok => if ok then OpCondTrue else OpCondFalse))|].
    intros c. apply cond_triple. unfold MaxStackSize. lia.
  - unfold opcodeNotIf. apply get_triple. intros vm _.
    eapply triple_bind;
      [by apply (cond_value_triple _ (fun ok => if negb ok then OpCondTrue else OpCondFalse))|].
    intros c. apply cond_triple. unfold MaxStackSize. lia.
  - unfold opcodeElse. apply get_triple. intros vm _. case_decide; [apply triple_fail|].
    destruct (goidx_in_range (E := ErrorCode) (condStack vm) (zlen (condStack vm) - 1)) as (c & Hc & _);
      [pose proof (zlen_nonneg (condStack vm)); lia|].
    rewrite Hc. eapply triple_bind; [apply (triple_lift _ _ (fun _ => H_ok vm0 MaxStackSize)); done|].
    intros c'. do 2 (case_decide; [apply cond_triple; unfold MaxStackSize; lia|]).
    apply ret_triple. unfold MaxStackSize. lia.
  - unfold opcodeEndif. apply get_triple. intros vm _. case_decide; [apply triple_fail|].
    destruct (goslice_ok (E := ErrorCode) (condStack vm) 0 (zlen (condStack vm) - 1)) as (? & c & ? & _ & _ & _ & Hc);
      [pose proof (zlen_nonneg (condStack vm)); lia|lia|].
    rewrite Hc. eapply triple_bind; [apply (triple_lift _ _ (fun _ => H_ok vm0 MaxStackSize)); done|].
    intros c'. apply (cond_triple _ _ (fun _ => c')). unfold MaxStackSize. lia.
  - apply triple_modify. intros vm []. constructor; try done; cbn; [lia|]. unfold MaxStackSize in *. lia.
Qed.

(** *** Lock times and signatures *)

Lemma H_ok_pc n vm : H_ok vm0 n vm -> pc_ok vm.
Proof. intros []. by eapply erase_pc. Qed.

Lemma current_payment_ok vm : pc_ok vm -> exists p, current_payment vm = Ok p.
Proof.
  intros [_ _ Hm (p & app & Hp)]. exists p. unfold current_payment.
  by rewrite (goidx_lookup _ _ _ Hm Hp).
Qed.

Lemma subScript_ok n vm : H_ok vm0 n vm -> exists s, subScript vm = Ok s.
Proof.
  intros Hvm. destruct (H_ok_pc n vm Hvm) as [Hi (script & Hs & Ho) _ _]. destruct Hvm.
  unfold subScript. rewrite (goidx_lookup _ _ _ Hi Hs), outcome_bind_ok.
  destruct (goslice_ok (E := ErrorCode) script (lastCodeSep vm) (zlen script)) as (? & s & ? & _ & _ & _ & Hg);
    [lia..|]. eauto.
Qed.

Lemma calcSignatureHash_const script hashType t m i :
  has_payload t -> calcSignatureHash script hashType t m i = Ok (Keccak256 []).
Proof. intros Hp. unfold calcSignatureHash. by rewrite Clone_is_zero. Qed.

Lemma pc_has_payload vm : pc_ok vm -> has_payload (tx vm).
Proof.
  intros [_ _ _ (p & app & Hp)]. apply Exists_exists. eexists. split; [by eapply list_elem_of_lookup_2|]. done.
Qed.

Lemma lift_ok_triple {A} n (o : outcome ErrorCode A) a :
  o = Ok a -> triple (H_ok vm0 n) (lift o) (fun a' vm => a' = a /\ H_ok vm0 n vm).
Proof. intros ->. by apply triple_lift. Qed.

Lemma locktime_handlers_ok op :
  handler_ok (opcodeCheckLockTimeVerify op) /\ handler_ok (opcodeCheckSequenceVerify op).
Proof.
  unfold handler_ok. split.
  - unfold opcodeCheckLockTimeVerify. apply get_triple. intros vm Hvm.
    case_match; [case_match; [apply triple_fail|apply ret_triple; unfold MaxStackSize; lia]|].
    pops. eapply triple_bind; [by apply makeScriptNum_triple; [|lia]|]. intros lt. apply triple_pure.
    intros _. case_decide; [apply triple_fail|].
    destruct (current_payment_ok vm (H_ok_pc _ _ Hvm)) as [p Hp].
    eapply triple_bind; [by eapply lift_ok_triple|]. intros p'. apply triple_pure. intros _.
    apply triple_lift. intros s Hs. unfold verifyLockTime.
    do 2 (case_decide; [done|]). eapply H_ok_weaken; [done|]. unfold MaxStackSize. lia.
  - unfold opcodeCheckSequenceVerify. apply get_triple. intros vm _.
    case_match; [case_match; [apply triple_fail|apply ret_triple; unfold MaxStackSize; lia]|].
    pops. eapply triple_bind; [by apply makeScriptNum_triple; [|lia]|]. intros lt. apply triple_pure.
    intros _. case_decide; [apply triple_fail|]. apply ret_triple. unfold MaxStackSize. lia.
Qed.

Lemma opcodeCheckSig_ok op : handler_ok (opcodeCheckSig op).
Proof.
  unfold handler_ok, opcodeCheckSig. pops. case_decide; [pushes|].
  apply get_triple. intros vm Hvm. destruct (subScript_ok _ vm Hvm) as [sub Hsub].
  eapply triple_bind; [by eapply lift_ok_triple|]. intros sub'. apply triple_pure. intros ->.
  eapply triple_bind; [eapply lift_ok_triple, calcSignatureHash_const, pc_has_payload, H_ok_pc, Hvm|].
  intros h. apply triple_pure. intros ->. pushes.
Qed.

Lemma popN_triple n k :
  small k -> triple (H_ok vm0 k) (popN n) (fun l vm => Forall elem_ok l /\ H_ok vm0 k vm).
Proof.
  revert k. induction n as [|n IH]; intros k Hk; cbn [popN].
  - apply triple_ret. intros s Hs. by split.
  - eapply triple_bind; [by apply pop_d|]. intros so. apply triple_pure. intros Hso.
    eapply triple_bind; [apply IH; lia|]. intros l. apply triple_pure. intros Hl.
    apply triple_ret. intros s Hs. split; [by constructor|]. eapply H_ok_weaken; [done|lia].
Qed.

Lemma opcodeCheckMultiSig_ok op : handler_ok (opcodeCheckMultiSig op).
Proof.
  unfold handler_ok, opcodeCheckMultiSig. pops.
  case_decide; [apply triple_fail|]. case_decide; [apply triple_fail|].
  apply charge_triple; [lia|]. intros vm1.
  eapply triple_bind; [apply popN_triple; unfold MaxStackSize; lia|]. intros pubKeys. apply triple_pure. intros _.
  pops. case_decide; [apply triple_fail|]. case_decide; [apply triple_fail|].
  eapply triple_bind; [apply popN_triple; unfold MaxStackSize; lia|]. intros sigs. apply triple_pure. intros _.
  pops. apply get_triple. intros vm Hvm. case_match; [apply triple_fail|].
  destruct (subScript_ok _ vm Hvm) as [sub Hsub].
  eapply triple_bind; [by eapply lift_ok_triple|]. intros sub'. apply triple_pure. intros ->.
  eapply triple_bind; [eapply lift_ok_triple, calcSignatureHash_const, pc_has_payload, H_ok_pc, Hvm|].
  intros h. apply triple_pure. intros ->. case_match; [apply triple_fail|]. pushes.
Qed.

Lemma opcodeCheckJuryRedeemEqual_ok op : handler_ok (opcodeCheckJuryRedeemEqual op).
Proof.
  unfold handler_ok, opcodeCheckJuryRedeemEqual. pops. case_decide; [apply triple_fail|].
  pops. pushes.
Qed.

(** Every handler of the table. *)

Lemma exec_opfunc_ok op :
  (opfunc (pop_opcode op) = fn_opcodePushData -> elem_ok (contents (data op))) ->
  handler_ok (exec_opfunc (opfunc (pop_opcode op)) op).
Proof.
  intros Hd. pose proof (constant_handlers_ok op Hd). pose proof (stack_handlers_ok op).
  pose proof (arith_handlers_ok op). pose proof (hash_handlers_ok op).
  pose proof (conditional_handlers_ok op). pose proof (locktime_handlers_ok op).
  destruct (opfunc (pop_opcode op)) eqn:E; cbn [exec_opfunc]; try tauto.
  - apply opcodeEqual_ok.
  - apply then_verify, opcodeEqual_ok.
  - apply then_verify. tauto.
  - apply opcodeCheckSig_ok.
  - apply then_verify, opcodeCheckSig_ok.
  - apply opcodeCheckMultiSig_ok.
  - apply then_verify, opcodeCheckMultiSig_ok.
  - apply opcodeCheckJuryRedeemEqual_ok.
Qed.

(** *** One instruction *)

Lemma pushdata_value pop :
  wf_pop opcodeArray pop -> opfunc (pop_opcode pop) = fn_opcodePushData ->
  value (pop_opcode pop) <= OP_16.
Proof.
  intros (Hb & Hop & _) Hf.
  pose proof (byte_exhaust (fun b => match opcodeArray !! Z.to_nat b with
    | Some op => bool_decide (opfunc op = fn_opcodePushData -> b <= OP_16) | None => true end)) as H.
  specialize (H ltac:(by vm_compute) _ Hb). cbn beta in H. rewrite Hop in H.
  by apply Is_true_true, bool_decide_unpack in H; apply H.
Qed.

Lemma wf_pop_data pop : wf_pop opcodeArray pop -> wf_bytes (contents (data pop)).
Proof.
  intros (_ & _ & _ & _ & Hd). unfold data_ok in Hd. case_decide; [rewrite Hd; constructor|].
  by destruct Hd as (v & -> & Hv & _).
Qed.

Lemma checkMinimalDataPush_no_panic pop : checkMinimalDataPush pop <> Panic.
Proof. unfold checkMinimalDataPush. repeat case_match; done. Qed.

Lemma executeOpcode_ok pop : wf_pop opcodeArray pop -> handler_ok (executeOpcode pop).
Proof.
  intros Hwf. unfold handler_ok, executeOpcode.
  case_match; [apply triple_fail|]. case_match; [apply triple_fail|].
  eapply (triple_bind _ (fun _ vm =>
    (value (pop_opcode pop) <= OP_16 -> zlen (contents (data pop)) <= MaxScriptElementSize) /\
    H_ok vm0 MaxStackSize vm)).
  - case_decide as Hv.
    + apply charge_triple; [lia|]. intros vm. apply triple_ret. intros s Hs. split; [lia|done].
    + case_decide; [apply triple_fail|]. apply triple_ret. intros s Hs. split; [lia|done].
  - intros []. apply triple_pure. intros Hlen. apply get_triple. intros vm _.
    case_match; [apply ret_triple; unfold MaxStackSize; lia|].
    eapply (triple_bind _ (fun _ => H_ok vm0 MaxStackSize)).
    + case_match; [|by apply triple_ret]. apply triple_lift. intros s Hs.
      pose proof (checkMinimalDataPush_no_panic pop). by destruct (checkMinimalDataPush pop).
    + intros []. apply exec_opfunc_ok. intros Hf. split; [by apply wf_pop_data|].
      by apply Hlen, pushdata_value.
Qed.

End Instructions.

(** ** The engine between two steps *)

(** While a pay-to-script-hash script pair runs, the public key script is the
    pay-to-script-hash pattern; once it runs, the first stack was saved, and if
    that was empty, the script is still at its first instruction with an empty
    stack (which then fails). *)

Definition p2sh_ok (vm : Engine) : Prop :=
  bip16 vm = true -> scriptIdx vm <= 1 ->
  (exists s1, scripts vm !! 1%nat = Some s1 /\ isScriptHash s1 = true) /\
  (scriptIdx vm = 1 ->
     savedFirstStack vm <> [] \/
     (scriptOff vm = 0 /\ stk (dstack vm) = [] /\ condStack vm = [])).

Record I_ok (vm : Engine) : Prop := {
  I_shape : (length (scripts vm) = 2%nat /\ 0 <= scriptIdx vm <= 1) \/
            (length (scripts vm) = 3%nat /\ scriptIdx vm = 2 /\ bip16 vm = true);
  I_scripts : Forall (Forall (wf_pop opcodeArray)) (scripts vm);
  I_off : exists script, scripts vm !! Z.to_nat (scriptIdx vm) = Some script /\
                         0 <= scriptOff vm < zlen script;
  I_sep : 0 <= lastCodeSep vm <= scriptOff vm;
  I_ops : 0 <= numOps vm <= MaxOpsPerScript;
  I_size : zlen (stk (dstack vm)) + zlen (stk (astack vm)) <= MaxStackSize;
  I_delem : Forall elem_ok (stk (dstack vm));
  I_aelem : Forall elem_ok (stk (astack vm));
  I_saved : Forall elem_ok (savedFirstStack vm) /\ zlen (savedFirstStack vm) <= MaxStackSize;
  I_msg : 0 <= msgIdx vm;
  I_payment : exists p, payment_of vm p;
  I_p2sh : p2sh_ok vm
}.

(** The instructions that remain: those of the current and later scripts, and of
    the script a pay-to-script-hash pair still has to load. *)

Definition remaining (vm : Engine) : Z :=
  zlen (concat (drop (Z.to_nat (scriptIdx vm)) (scripts vm))) - scriptOff vm +
  (if bip16 vm && bool_decide (scriptIdx vm <= 1) then MaxScriptElementSize else 0).

Lemma I_idx vm : I_ok vm -> 0 <= scriptIdx vm < zlen (scripts vm).
Proof. intros [Hs]. unfold zlen. lia. Qed.

Lemma I_pc vm : I_ok vm -> pc_ok (set_scriptOff (scriptOff vm + 1) vm).
Proof.
  intros Hvm. pose proof (I_idx vm Hvm). destruct Hvm as [Hs _ (script & Hl & Ho) _ _ _ _ _ _ Hm Hp _].
  constructor; cbn; [lia| |done|done]. exists script. split; [done|lia].
Qed.

Lemma I_H vm : I_ok vm ->
  H_ok (set_scriptOff (scriptOff vm + 1) vm) MaxStackSize (set_scriptOff (scriptOff vm + 1) vm).
Proof. intros []. constructor; cbn; try done; lia. Qed.

(** The first instruction of the pattern fails on an empty stack. *)

Lemma hash160_opfunc op :
  is_byte (value op) -> opcodeArray !! Z.to_nat (value op) = Some op -> value op = OP_HASH160 ->
  opfunc op = fn_opcodeHash160.
Proof. intros _ Hop Hv. rewrite Hv in Hop. vm_compute in Hop. by injection Hop as <-. Qed.

Lemma hash160_empty {C : Crypto} pop vm :
  wf_pop opcodeArray pop -> value (pop_opcode pop) = OP_HASH160 ->
  stk (dstack vm) = [] -> condStack vm = [] ->
  exists e vm', executeOpcode pop vm = (Err e, vm').
Proof.
  intros (Hb & Hop & _) Hv Hd Hc. pose proof (hash160_opfunc _ Hb Hop Hv) as Hf.
  unfold executeOpcode, isDisabled, alwaysIllegal, isConditional. rewrite Hv, Hf.
  rewrite !bool_decide_false by (apply (bool_decide_unpack _); by vm_compute).
  rewrite decide_True by done.
  unfold mbind, go_bind, modify, get, mret, go_ret. cbn [numOps set_numOps].
  case_decide; [by do 2 eexists|].
  unfold isBranchExecuting. cbn [condStack set_numOps]. rewrite Hc. cbn [last negb andb].
  rewrite andb_false_r. cbn [lift].
  unfold exec_opfunc, opcodeHash160, on_dstack, zoom, mbind, go_bind. cbn [dstack set_numOps].
  destruct (dstack vm) as [st m]. cbn in Hd. subst st.
  rewrite PopByteArray_empty. by do 2 eexists.
Qed.

(** ** The end of a script *)

Lemma drop_astack vm :
  wf_stack (astack vm) ->
  ignore_err (on_astack (DropN (Depth (astack vm)))) vm =
    (Ok (), set_astack (set_stk [] (astack vm)) vm).
Proof.
  intros Hwf. unfold ignore_err, on_astack, zoom. rewrite Depth_spec by done.
  destruct (astack vm) as [[|x l] m]; [done|].
  rewrite (DropN_ok [] (x :: l)); [done|zlen_lia|done].
Qed.

Lemma skip_spec vm :
  0 <= scriptIdx vm -> scriptOff vm = 0 ->
  exists i, skip_empty_script vm =
      (Ok (bool_decide (i >= zlen (scripts vm))), set_lastCodeSep 0 (set_scriptIdx i vm)) /\
    ((i = scriptIdx vm /\ (scriptIdx vm >= zlen (scripts vm) \/
        exists s, scripts vm !! Z.to_nat (scriptIdx vm) = Some s /\ 0 < zlen s)) \/
     (i = scriptIdx vm + 1 /\ scripts vm !! Z.to_nat (scriptIdx vm) = Some [])).
Proof.
  intros Hi Ho. unfold skip_empty_script. erewrite (go_bind_ok get) by done.
  destruct (decide (scriptIdx vm < zlen (scripts vm))) as [Hlt|Hge].
  - destruct (goidx_in_range (E := ErrorCode) (scripts vm) (scriptIdx vm)) as (s & Hs & Hl); [lia|].
    rewrite Hs. pose proof (zlen_nonneg s). destruct (decide (scriptOff vm >= zlen s)) as [He|He].
    + exists (scriptIdx vm + 1). split; [unfold mbind, go_bind, lift; by rewrite decide_True|].
      right. split; [done|]. assert (s = []) as -> by (apply zlen_0; lia). done.
    + exists (scriptIdx vm). split.
      * unfold mbind, go_bind, lift. rewrite decide_False by done. by destruct vm.
      * left. split; [done|]. right. exists s. split; [done|lia].
  - exists (scriptIdx vm). split; [by destruct vm|]. left. split; [done|]. left. lia.
Qed.

(** The engine after [load_script], before an empty script is skipped. *)

Record L_ok (vm : Engine) : Prop := {
  L_off : scriptOff vm = 0;
  L_ops : numOps vm = 0;
  L_cond : condStack vm = [];
  L_astack : stk (astack vm) = [];
  L_dstack : S_ok MaxStackSize (dstack vm);
  L_scripts : Forall (Forall (wf_pop opcodeArray)) (scripts vm);
  L_saved : Forall elem_ok (savedFirstStack vm) /\ zlen (savedFirstStack vm) <= MaxStackSize;
  L_msg : 0 <= msgIdx vm;
  L_payment : exists p, payment_of vm p
}.

(** Where the engine is: at the second of two scripts, past them, at the loaded
    third script, or past it. *)

Definition L_pos (vm : Engine) : Prop :=
  (length (scripts vm) = 2%nat /\ scriptIdx vm = 1 /\ p2sh_ok vm) \/
  (length (scripts vm) = 2%nat /\ scriptIdx vm = 2) \/
  (length (scripts vm) = 3%nat /\ scriptIdx vm = 2 /\ bip16 vm = true) \/
  (length (scripts vm) = 3%nat /\ scriptIdx vm = 3).

Lemma skip_triple {C : Crypto} vm :
  L_ok vm -> L_pos vm ->
  match skip_empty_script vm with
  | (Ok true, vm') => S_ok MaxStackSize (dstack vm')
  | (Ok false, vm') => I_ok vm' /\ remaining vm' = remaining vm
  | (Err _, _) => True
  | (Panic, _) => False
  end.
Proof.
  intros [] Hpos. destruct (skip_spec vm) as (i & Hskip & Hi); [unfold L_pos in Hpos; lia|done|].
  rewrite Hskip. case_bool_decide as Hge; [done|].
  assert (Hlen : zlen (scripts vm) = 2 \/ zlen (scripts vm) = 3)
    by (unfold L_pos, zlen in *; lia).
  assert (i = scriptIdx vm) as ->.
  { destruct Hi as [[-> _]|[-> He]]; [done|]. unfold L_pos, zlen in *. lia. }
  destruct Hi as [[_ [Hbad|(s & Hs & Hpos_s)]]|[Hbad _]]; [lia| |lia].
  split.
  - destruct L_dstack0. constructor; cbn [scripts scriptIdx set_lastCodeSep set_scriptIdx scriptOff
      lastCodeSep numOps dstack astack savedFirstStack msgIdx]; rewrite ?L_off0, ?L_ops0, ?L_astack0; try done.
    + unfold zlen in *. destruct Hpos as [(?&?&_)|[(?&?)|[(?&?&?)|(?&?)]]]; [left; lia|lia|by right|lia].
    + exists s. split; [done|lia].
    + change (zlen []) with 0. lia.
    + unfold p2sh_ok. cbn. unfold L_pos in Hpos. intros Hb Hidx.
      destruct Hpos as [(_ & _ & Hp)|[(_ & ?)|[(_ & ? & _)|(_ & ?)]]]; [by apply Hp|lia..].
  - by destruct vm.
Qed.

Lemma CheckErrorCondition_safe {C : Crypto} b vm :
  S_ok MaxStackSize (dstack vm) ->
  match CheckErrorCondition b vm with
  | (Ok _, vm') => exists t, vm' = set_dstack t vm /\ S_ok MaxStackSize t
  | (Err _, _) => True
  | (Panic, _) => False
  end.
Proof.
  intros Hd. unfold CheckErrorCondition. erewrite (go_bind_ok get) by done.
  repeat match goal with |- context [(if ?x then fail _ else _) _] => destruct x; [done|] end.
  assert (Hk : small MaxStackSize) by (unfold MaxStackSize; lia).
  pose proof (PopBool_triple _ Hk (dstack vm) Hd) as Hp. unfold on_dstack, zoom, mbind, go_bind.
  destruct (PopBool (dstack vm)) as [[v|e|] t]; [|done..]. destruct v; [|done]. cbn.
  exists t. split; [done|]. eapply S_ok_weaken; [done|lia].
Qed.

Definition bonus (vm : Engine) : Z :=
  if bip16 vm && bool_decide (scriptIdx vm <= 1) then MaxScriptElementSize else 0.

Lemma isScriptHash_length s : isScriptHash s = true -> length s = 3%nat.
Proof.
  unfold isScriptHash, values_are. intros H%Is_true_true%bool_decide_unpack.
  apply (f_equal length) in H. by rewrite length_fmap in H.
Qed.

Definition load_post (vm0 vm : Engine) : Prop :=
  L_ok vm /\ L_pos vm /\
  remaining vm <= zlen (concat (drop (S (Z.to_nat (scriptIdx vm0))) (scripts vm0))) + bonus vm0.

(** From the signature script to the pay-to-script-hash pattern. *)

Lemma load_first {C : Crypto} vm :
  L_ok vm -> length (scripts vm) = 2%nat -> scriptIdx vm = 0 -> bip16 vm = true -> p2sh_ok vm ->
  exists vm', load_script vm = (Ok (), vm') /\ load_post vm vm'.
Proof.
  intros [] Hlen Hidx Hb Hp. unfold load_script. erewrite (go_bind_ok get) by done.
  rewrite decide_True by done. unfold mbind, go_bind, modify, get, lift, GetStack.
  cbn [dstack set_scriptIdx]. rewrite getStack_spec by (eapply S_ok_wf; [|done]; unfold MaxStackSize; lia).
  eexists. split; [done|]. rewrite Hidx. destruct L_dstack0.
  destruct (Hp Hb ltac:(lia)) as [Hs1 _]. split_and!.
  - constructor; cbn; try done. 
  - left. cbn. split_and!; [done..|]. intros _ _. split; [done|]. intros _. cbn.
    destruct (stk (dstack vm)) eqn:E; [|by left]. right. done.
  - unfold remaining, bonus. cbn. rewrite Hb, Hidx, L_off0. cbn [andb].
    rewrite !bool_decide_true by lia. change (Z.to_nat (0 + 1)) with (S (Z.to_nat 0)). lia.
Qed.

(** Loading the script of a pay-to-script-hash output. *)

Lemma load_p2sh {C : Crypto} vm :
  L_ok vm -> length (scripts vm) = 2%nat -> scriptIdx vm = 1 -> bip16 vm = true ->
  savedFirstStack vm <> [] ->
  match load_script vm with
  | (Ok _, vm') => load_post vm vm'
  | (Err _, _) => True
  | (Panic, _) => False
  end.
Proof.
  intros [] Hlen Hidx Hb Hsaved. unfold load_script. erewrite (go_bind_ok get) by done.
  rewrite decide_False by lia. rewrite decide_True by done. erewrite (go_bind_ok (modify _)) by done.
  pose proof (CheckErrorCondition_safe false (set_scriptIdx (scriptIdx vm + 1) vm) L_dstack0) as Hc.
  unfold mbind at 1. unfold go_bind at 1.
  destruct (CheckErrorCondition false _) as [[[]|e|] vm']; [|done..]. destruct Hc as (t & -> & Ht).
  erewrite (go_bind_ok get) by done. cbn [savedFirstStack set_dstack set_scriptIdx].
  pose proof L_saved0 as [Hsf Hsl].
  destruct (list_snoc_cases (savedFirstStack vm)) as [|(rest & script & E)]; [done|]. rewrite E in *.
  rewrite zlen_snoc. replace (zlen rest + 1 - 1) with (zlen rest) by lia. rewrite goidx_last, goslice_prefix.
  apply Forall_app in Hsf as [Hrest [Hscr _]%Forall_cons].
  unfold mbind, go_bind, lift at 1. destruct Hscr as [Hwf Hl].
  destruct (parseScript_or_err_spec script Hwf) as [(pops & -> & Hpops & ->)| ->]; [|done].
  unfold lift, modify, SetStack, on_dstack, zoom. cbn [dstack set_scripts set_dstack].
  rewrite setStack_spec by (eapply S_ok_wf; [|done]; unfold MaxStackSize; lia).
  pose proof (encode_all_length pops) as Hpl.
  assert (Hfresh : drop 2 (scripts vm) = []) by (apply drop_ge; lia). split_and!.
  - constructor; cbn; try done; [|by apply Forall_app; split; [|constructor]|by rewrite E].
    split; cbn; [zlen_lia|done].
  - right; right; left. cbn. rewrite length_app, Hlen, Hidx. done.
  - unfold remaining, bonus. cbn. rewrite Hb, Hidx, L_off0. cbn [andb].
    rewrite bool_decide_false, bool_decide_true by lia.
    change (Z.to_nat (1 + 1)) with 2%nat. change (S (Z.to_nat 1)) with 2%nat.
    rewrite drop_app_le, Hfresh by lia. cbn. rewrite app_nil_r. unfold zlen in *. lia.
Qed.

(** Every other end of script only moves to the next one. *)

Lemma load_other {C : Crypto} vm :
  L_ok vm ->
  (length (scripts vm) = 2%nat /\ 0 <= scriptIdx vm <= 1 /\ bip16 vm = false) \/
  (length (scripts vm) = 3%nat /\ scriptIdx vm = 2 /\ bip16 vm = true) ->
  exists vm', load_script vm = (Ok (), vm') /\ load_post vm vm'.
Proof.
  intros [] Hcase. exists (set_scriptIdx (scriptIdx vm + 1) vm). split.
  - unfold load_script. erewrite (go_bind_ok get) by done.
    destruct Hcase as [(_ & Hi & Hb)|(_ & Hi & Hb)];
      rewrite !(decide_False (P := _ /\ _ = true)) by (intros [? ?]; lia || congruence);
      by case_decide.
  - split_and!.
    + constructor; try done.
    + unfold L_pos, p2sh_ok. cbn.
      destruct Hcase as [(Hl & Hi & Hb)|(Hl & Hi & Hb)]; rewrite Hb, Hl.
      * destruct (decide (scriptIdx vm = 0)) as [->|]; [by left|right; left; lia].
      * right; right; right. lia.
    + unfold remaining, bonus. cbn. rewrite L_off0.
      replace (Z.to_nat (scriptIdx vm + 1)) with (S (Z.to_nat (scriptIdx vm))) by lia.
      destruct Hcase as [(Hl & Hi & Hb)|(Hl & Hi & Hb)]; rewrite Hb; cbn [andb]; [lia|].
      rewrite !bool_decide_false by lia. lia.
Qed.

Lemma next_script_safe {C : Crypto} vm :
  (length (scripts vm) = 2%nat /\ 0 <= scriptIdx vm <= 1) \/
  (length (scripts vm) = 3%nat /\ scriptIdx vm = 2 /\ bip16 vm = true) ->
  Forall (Forall (wf_pop opcodeArray)) (scripts vm) ->
  zlen (stk (dstack vm)) + zlen (stk (astack vm)) <= MaxStackSize ->
  Forall elem_ok (stk (dstack vm)) ->
  Forall elem_ok (savedFirstStack vm) /\ zlen (savedFirstStack vm) <= MaxStackSize ->
  0 <= msgIdx vm -> (exists p, payment_of vm p) ->
  (bip16 vm = true -> scriptIdx vm <= 1 ->
     exists s1, scripts vm !! 1%nat = Some s1 /\ isScriptHash s1 = true) ->
  (bip16 vm = true -> scriptIdx vm = 1 -> savedFirstStack vm <> []) ->
  match next_script vm with
  | (Ok true, vm') => S_ok MaxStackSize (dstack vm')
  | (Ok false, vm') => I_ok vm' /\
      remaining vm' <= zlen (concat (drop (S (Z.to_nat (scriptIdx vm))) (scripts vm))) + bonus vm
  | (Err _, _) => True
  | (Panic, _) => False
  end.
Proof.
  intros Hshape Hscr Hsize Hd Hsav Hmsg Hpay Hpat Hne. unfold next_script.
  erewrite (go_bind_ok get) by done. destruct (decide _) as [Hc|Hc]; [done|].
  assert (condStack vm = []) as Hcond by (apply zlen_0; lia).
  erewrite go_bind_ok by (apply drop_astack; unfold wf_stack, MaxStackSize in *; zlen_facts; lia).
  erewrite (go_bind_ok (modify _)) by done.
  set (vm2 := set_scriptOff 0 _).
  assert (HL : L_ok vm2) by (constructor; try done; split; [cbn; zlen_facts; lia|done]).
  assert (Hp : p2sh_ok vm2 \/ scriptIdx vm = 1).
  { destruct (decide (scriptIdx vm = 1)); [by right|left]. intros Hb Hi. cbn in *.
    split; [by apply Hpat|done]. }
  assert (Hload : match load_script vm2 with
    | (Ok _, vm') => load_post vm2 vm' | (Err _, _) => True | (Panic, _) => False end).
  { destruct (bip16 vm) eqn:Hb.
    - destruct Hshape as [[Hl Hi]|Hi3].
      + destruct (decide (scriptIdx vm = 1)) as [H1|H1].
        * by apply load_p2sh; [..|apply Hne].
        * destruct (load_first vm2) as (vm' & -> & Hv); [done..|cbn; lia|done|by destruct Hp|done].
      + destruct (load_other vm2) as (vm' & -> & Hv); [done|destruct Hi3 as (? & ? & _); right; by split_and!|done].
    - destruct (load_other vm2) as (vm' & -> & Hv); [done| |done].
      left. destruct Hshape as [[Hl Hi]|(_ & _ & Hb')]; [done|]. congruence. }
  unfold mbind, go_bind. destruct (load_script vm2) as [[[]|e|] vm3]; [|done..].
  destruct Hload as (HL3 & Hpos & Hrem). pose proof (skip_triple vm3 HL3 Hpos) as Hs.
  destruct (skip_empty_script vm3) as [[[]|e|] vm4]; [done| |done..].
  destruct Hs as [HI Hr]. split; [done|]. rewrite Hr. exact Hrem.
Qed.

(** ** One step *)

(** When the pay-to-script-hash pattern gets past its first instruction, the saved
    stack was not empty. *)

Lemma step_saved {C : Crypto} vm script pop :
  0 <= scriptIdx vm < zlen (scripts vm) ->
  scripts vm !! Z.to_nat (scriptIdx vm) = Some script -> 0 <= scriptOff vm < zlen script ->
  script !! Z.to_nat (scriptOff vm) = Some pop -> wf_pop opcodeArray pop -> p2sh_ok vm ->
  let vm1 := set_scriptOff (scriptOff vm + 1) vm in
  match executeOpcode pop vm1 with
  | (Ok _, _) => bip16 vm = true -> scriptIdx vm = 1 -> savedFirstStack vm <> []
  | _ => True
  end.
Proof.
  intros Hidx Hs Ho Hpop Hwf Hp vm1. destruct (executeOpcode pop vm1) as [[[]|e|] vm2] eqn:E; [|done..].
  intros Hb H1. destruct (Hp Hb ltac:(lia)) as [(s1 & Hs1 & Hpat) Hcase].
  destruct (Hcase H1) as [|(H0 & Hd & Hc)]; [done|exfalso].
  rewrite H1 in Hs. change (Z.to_nat 1) with 1%nat in Hs. rewrite Hs1 in Hs. injection Hs as ->.
  assert (Hv : value (pop_opcode pop) = OP_HASH160).
  { unfold isScriptHash, values_are in Hpat. apply Is_true_true, bool_decide_unpack in Hpat.
    rewrite H0 in Hpop. destruct script as [|p0 s]; [done|]. change (Z.to_nat 0) with 0%nat in Hpop. injection Hpop as ->.
    cbn [fmap list_fmap] in Hpat. congruence. }
  destruct (hash160_empty pop vm1 Hwf Hv Hd Hc) as (e & vm' & Hx). rewrite E in Hx. done.
Qed.

Lemma Step_safe {C : Crypto} {L : CryptoLaws} vm :
  I_ok vm ->
  match Step vm with
  | (Ok true, vm') => S_ok MaxStackSize (dstack vm')
  | (Ok false, vm') => I_ok vm' /\ remaining vm' < remaining vm
  | (Err _, _) => True
  | (Panic, _) => False
  end.
Proof.
  intros HI. pose proof (I_idx vm HI) as Hidx. pose proof (I_pc vm HI) as Hpc. pose proof (I_H vm HI) as HH.
  destruct HI as [Hshape Hscr (script & Hs & Ho) _ _ Hsize _ _ Hsav Hmsg Hpay Hp2].
  unfold Step. erewrite (go_bind_ok get) by done. unfold validPC. rewrite decide_False by lia.
  rewrite (goidx_lookup _ _ _ (proj1 Hidx) Hs), outcome_bind_ok, decide_False by lia.
  do 2 (erewrite (go_bind_ok (lift _)) by done).
  destruct (goidx_in_range (E := ErrorCode) script (scriptOff vm)) as (pop & -> & Hpop); [lia|].
  erewrite (go_bind_ok (lift _)) by done. erewrite (go_bind_ok (modify _)) by done.
  set (vm1 := set_scriptOff (scriptOff vm + 1) vm) in *.
  assert (Hwf : wf_pop opcodeArray pop).
  { eapply Forall_lookup_1; [|exact Hpop]. by eapply Forall_lookup_1 in Hscr; [|exact Hs]. }
  pose proof (step_saved vm script pop Hidx Hs Ho Hpop Hwf Hp2) as Hsaved_ne. fold vm1 in Hsaved_ne.
  pose proof (executeOpcode_ok vm1 Hpc pop Hwf vm1 HH) as Hex.
  unfold mbind at 1. unfold go_bind at 1. revert Hsaved_ne Hex. cbn zeta.
  destruct (executeOpcode pop vm1) as [[[]|e|] vm2]; [|done..]. intros Hsaved_ne Hex.
  erewrite (go_bind_ok get) by done. destruct Hex as [Hfr Hsep Hops Hsz Hde Hae].
  pose proof (erase_fields _ _ Hfr) as (E1 & E2 & E3 & E4 & E5 & _ & _ & E8 & E9 & _).
  cbn [vm1 set_scriptOff scripts scriptIdx scriptOff tx msgIdx bip16 savedFirstStack] in *.
  unfold MaxStackSize in Hsz. zlen_facts.
  rewrite !Depth_spec, i32_id by (unfold wf_stack; lia). case_decide as Hover; [done|].
  rewrite E1, E2, (goidx_lookup _ _ _ (proj1 Hidx) Hs). erewrite (go_bind_ok (lift _)) by done.
  assert (Hrem : remaining vm = zlen script + zlen (concat (drop (S (Z.to_nat (scriptIdx vm))) (scripts vm)))
                               - scriptOff vm + bonus vm).
  { unfold remaining, bonus. erewrite drop_S by done. cbn [concat]. rewrite zlen_app. lia. }
  assert (Hbon : bonus vm2 = bonus vm) by (unfold bonus; by rewrite E8, E2).
  assert (Hpay2 : exists p, payment_of vm2 p) by (unfold payment_of; by rewrite E4, E5).
  assert (Hpat : bip16 vm = true -> scriptIdx vm <= 1 ->
    exists s1, scripts vm !! 1%nat = Some s1 /\ isScriptHash s1 = true) by (intros; by apply Hp2).
  rewrite E3. case_decide as Hend.
  - pose proof (next_script_safe vm2) as Hn. rewrite E1, E2, E5, E8, E9 in Hn.
    specialize (Hn Hshape Hscr ltac:(lia) Hde Hsav Hmsg Hpay2 Hpat Hsaved_ne).
    destruct (next_script vm2) as [[[]|e|] vm3]; [done| |done..].
    destruct Hn as [HI Hr]. split; [done|]. rewrite Hrem. lia.
  - split.
    + constructor; rewrite ?E1, ?E2, ?E3, ?E5, ?E8, ?E9; try done; try lia.
      * exists script. split; [done|lia].
      * intros Hb Hi. rewrite E1, E2, E9, E8 in *. split; [by apply Hpat|]. intros Hone. left. by apply Hsaved_ne.
    + rewrite Hrem. unfold remaining. fold (bonus vm2). rewrite Hbon, E1, E2, E3.
      erewrite drop_S by done. cbn [concat]. rewrite zlen_app. lia.
Qed.

(** ** Whole runs *)

Lemma Execute_loop_safe {C : Crypto} {L : CryptoLaws} fuel vm :
  I_ok vm -> remaining vm < Z.of_nat fuel ->
  exists r, Execute_loop fuel vm = Some r /\ r <> Panic.
Proof.
  revert vm. induction fuel as [|fuel IH]; intros vm HI Hrem.
  - exfalso. destruct HI as [_ _ (script & Hs & Ho) _ _ _ _ _ _ _ _ _]. unfold remaining in Hrem.
    erewrite drop_S in Hrem by done. cbn [concat] in Hrem. rewrite zlen_app in Hrem. zlen_facts.
    destruct (_ && _); unfold MaxScriptElementSize in *; lia.
  - cbn [Execute_loop]. pose proof (Step_safe vm HI) as Hstep.
    destruct (Step vm) as [[[]|e|] vm']; [| |eauto|done].
    + eexists. split; [done|]. pose proof (CheckErrorCondition_safe true vm' Hstep) as Hc.
      by destruct (CheckErrorCondition true vm') as [[]].
    + destruct Hstep as [HI' Hdec]. apply IH; [done|lia].
Qed.

(** Transactions whose signature scripts are byte strings. *)

Definition wf_tx (t : Transaction) : Prop :=
  Forall (fun m => match payload m with
                   | Payment p => Forall (fun i => wf_bytes (contents (SignatureScript i))) (Inputs p)
                   | _ => True
                   end) (TxMessages t).

(** The input a validation is about exists. *)

Definition input_at (t : Transaction) (msgIdx txIdx : Z) (inp : Input) : Prop :=
  0 <= msgIdx /\ 0 <= txIdx /\
  exists p, TxMessages t !! Z.to_nat msgIdx = Some (mkMessage APP_PAYMENT (Payment p)) /\
            Inputs p !! Z.to_nat txIdx = Some inp.

Lemma parse_checked_ok scr pops :
  wf_bytes scr -> parse_checked scr = Ok pops ->
  zlen scr <= MaxScriptSize /\ Forall (wf_pop opcodeArray) pops /\ scr = encode_all pops.
Proof.
  intros Hwf. unfold parse_checked. case_decide; [done|]. intros Hp.
  destruct (parseScript_or_err_spec scr Hwf) as [(pops' & Hp' & Hall & He)|Hp']; rewrite Hp in Hp'; [|done].
  injection Hp' as <-. split_and!; [lia|done|done].
Qed.

Lemma parse_checked_no_panic scr : wf_bytes scr -> parse_checked scr <> Panic.
Proof.
  intros Hwf. unfold parse_checked. case_decide; [done|].
  by destruct (parseScript_or_err_spec scr Hwf) as [(pops' & -> & _)| ->].
Qed.

Lemma IsPushOnlyScript_no_panic scr : wf_bytes scr -> exists b, IsPushOnlyScript scr = Ok b.
Proof.
  intros Hwf. unfold IsPushOnlyScript, when_parsed.
  destruct (parseScript_or_err_spec scr Hwf) as [(pops' & -> & _)| ->]; eauto.
Qed.

Lemma wf_tx_input t m i inp :
  wf_tx t -> input_at t m i inp -> wf_bytes (contents (SignatureScript inp)).
Proof.
  intros Hwf (_ & _ & p & Hm & Hi). eapply Forall_lookup_1 in Hwf; [|exact Hm].
  cbn in Hwf. by eapply Forall_lookup_1 in Hwf; [|exact Hi].
Qed.

(** What [NewEngine] has checked when it returns an engine. *)

Lemma NewEngine_inv pk t m i fl amt vm :
  NewEngine pk t m i fl amt = Ok vm ->
  exists inp s0 s1, input_at t m i inp /\
    ~ (zlen (contents (SignatureScript inp)) = 0 /\ zlen pk = 0) /\
    parse_checked (contents (SignatureScript inp)) = Ok s0 /\ parse_checked pk = Ok s1 /\
    vm = mkEngine [s0; s1] (if decide (zlen (contents (SignatureScript inp)) = 0) then 1 else 0) 0 0
           (mkStack [] (flagSet fl ScriptVerifyMinimalData)) (mkStack [] (flagSet fl ScriptVerifyMinimalData))
           t m i [] 0 fl (flagSet fl ScriptBip16 && isScriptHash s1) [] 0 None amt.
Proof.
  unfold NewEngine. destruct (decide (_ \/ _)) as [|Hidx]; [done|].
  destruct (goidx_in_range (E := ErrorCode) (TxMessages t) m) as (msg & -> & Hmsg); [lia|].
  rewrite outcome_bind_ok. case_decide as Happ; [done|].
  destruct msg as [app [|p|]]; cbn [payload App] in *; try done. rewrite outcome_bind_ok.
  destruct (goidx (Inputs p) i) as [inp| |] eqn:Hi; [|done..]. rewrite outcome_bind_ok. cbn zeta.
  destruct (decide (_ /\ _)) as [|Hne]; [done|]. case_match; [done|].
  destruct (if flagSet fl ScriptVerifySigPushOnly then _ else _) as [po| |]; [|done..].
  rewrite outcome_bind_ok. case_match; [done|].
  destruct (parse_checked (contents (SignatureScript inp))) as [s0| |] eqn:Hs0; [|done..].
  rewrite outcome_bind_ok. destruct (parse_checked pk) as [s1| |] eqn:Hs1; [|done..].
  rewrite outcome_bind_ok. do 3 (case_match; [done|]). intros [= <-].
  exists inp, s0, s1. split_and!; try done.
  destruct (decide (app = APP_PAYMENT)) as [->|]; [|done].
  split_and!; [lia..|]. exists p. split; [done|].
  unfold goidx in Hi. case_decide; [|done]. destruct (Inputs p !! Z.to_nat i); [|done]. by injection Hi as ->.
Qed.

Lemma NewEngine_I pk t m i fl amt vm :
  wf_bytes pk -> wf_tx t -> NewEngine pk t m i fl amt = Ok vm ->
  I_ok vm /\ remaining vm < Z.of_nat Execute_fuel.
Proof.
  intros Hpk Ht Hnew. destruct (NewEngine_inv _ _ _ _ _ _ _ Hnew) as (inp & s0 & s1 & Hin & Hne & H0 & H1 & ->).
  pose proof (wf_tx_input _ _ _ _ Ht Hin) as Hsig.
  destruct (parse_checked_ok _ _ Hsig H0) as (Hl0 & Hw0 & He0).
  destruct (parse_checked_ok _ _ Hpk H1) as (Hl1 & Hw1 & He1).
  pose proof (encode_all_length s0) as Hc0. pose proof (encode_all_length s1) as Hc1.
  rewrite He0 in Hne, Hl0 |- *. rewrite He1 in Hne, Hl1. unfold MaxScriptSize in *. split.
  - destruct Hin as (Hm & Hi & p & Hmsg & _).
    assert (Hpos : forall s, zlen (encode_all s) <> 0 -> 0 < zlen s).
    { intros s Hz. destruct s; [done|]. rewrite zlen_cons. zlen_lia. }
    constructor; cbn; try done; try (unfold MaxStackSize, MaxOpsPerScript, zlen; cbn; lia).
    + left. split; [done|]. destruct (decide (zlen (encode_all s0) = 0)); lia.
    + by repeat constructor.
    + destruct (decide (zlen (encode_all s0) = 0)); eexists; (split; [done|]); (split; [lia|]); apply Hpos; lia.
    + by exists p, APP_PAYMENT.
    + intros Hb Hidx. cbn in *. split; [exists s1; split; [done|by destruct (flagSet fl ScriptBip16)]|].
      intros _. by right.
  - assert (Hd : forall k, zlen (concat (drop k [s0; s1])) <= zlen s0 + zlen s1).
    { intros [|[|[|k]]]; cbn [drop concat]; rewrite ?drop_nil; zlen_lia. }
    unfold remaining, Execute_fuel. rewrite Z2Nat.id by lia. cbn [scripts scriptIdx scriptOff].
    specialize (Hd (Z.to_nat (if decide (zlen (encode_all s0) = 0) then 1 else 0))).
    assert (zlen s0 <= zlen (encode_all s0) /\ zlen s1 <= zlen (encode_all s1)) by (unfold zlen; lia).
    unfold MaxScriptElementSize. match goal with |- context [if ?b then 520 else 0] => destruct b end; lia.
Qed.

(** ** The properties *)

(** Successive states of a run. *)

Definition step_rel {C : Crypto} (vm vm' : Engine) : Prop := Step vm = (Ok false, vm').

Lemma reachable_I {C : Crypto} {L : CryptoLaws} vm vm' : I_ok vm -> rtc step_rel vm vm' -> I_ok vm'.
Proof.
  intros HI Hr. induction Hr as [|vm1 vm2 vm3 Hs _ IH]; [done|]. apply IH.
  pose proof (Step_safe vm1 HI) as H. unfold step_rel in Hs. rewrite Hs in H. tauto.
Qed.

(** A transaction with one payment input, for the examples. *)

Definition example_tx (sigScript : bytes) : Transaction :=
  mkTransaction zero_Hash
    [mkMessage APP_PAYMENT (Payment (mkPaymentPayload
       [NewTxIn (Some (NewOutPoint (replicate 32 1) 0 0)) (Some sigScript)]
       [NewTxOut 1 [OP_1] None] 0))].

Lemma example_tx_wf sigScript : wf_bytes sigScript -> wf_tx (example_tx sigScript).
Proof. intros Hs. by repeat constructor. Qed.

(** An engine and the state after one step of it, evaluated. *)

Definition zero_Engine : Engine :=
  mkEngine [] 0 0 0 (mkStack [] false) (mkStack [] false) zero_Transaction 0 0 [] 0 0 false [] 0 None 0.

Definition example_pk : bytes := [OP_DUP; OP_EQUAL].

Definition example_vm : Engine :=
  Eval vm_compute in
    match NewEngine example_pk (example_tx [OP_1]) 0 0 StandardVerifyFlags 0 with
    | Ok vm => vm
    | _ => zero_Engine
    end.

Definition example_vm' : Engine := Eval vm_compute in (@Step toy_crypto example_vm).2.

Lemma example_pk_wf : wf_bytes example_pk.
Proof. by apply (bool_decide_unpack _). Qed.

Lemma example_new : NewEngine example_pk (example_tx [OP_1]) 0 0 StandardVerifyFlags 0 = Ok example_vm.
Proof. vm_compute. reflexivity. Qed.

(** C15: running an engine always ends, without a panic, in success or an error:
    every engine [NewEngine] returns, whatever the scripts, the flags and the
    transaction.  [Execute_fuel] steps are enough. *)
Theorem Execute_total {C : Crypto} {L : CryptoLaws} pk t m i fl amt vm :
  wf_bytes pk -> wf_tx t -> NewEngine pk t m i fl amt = Ok vm ->
  exists r, Execute vm = Some r /\ r <> Panic.
Proof.
  intros Hpk Ht Hnew. destruct (NewEngine_I _ _ _ _ _ _ _ Hpk Ht Hnew) as [HI Hrem].
  by apply Execute_loop_safe.
Qed.

Lemma Execute_total_witness : exists r, @Execute toy_crypto example_vm = Some r /\ r <> Panic.
Proof.
  apply (@Execute_total toy_crypto toy_crypto_laws example_pk (example_tx [OP_1]) 0 0 StandardVerifyFlags 0).
  - exact example_pk_wf.
  - apply example_tx_wf. by apply (bool_decide_unpack _).
  - exact example_new.
Defined.

(** C5: the limits hold in every state a run reaches: at most 1000 items on the two
    stacks, no item longer than 520 bytes, at most 201 counted operations in the
    current script, and a program counter at an instruction.  The stack that is saved
    for pay-to-script-hash keeps the same limits, and once a script of that form has
    executed an instruction it is not empty, so that there is a script to load from it. *)
Theorem engine_limits {C : Crypto} {L : CryptoLaws} pk t m i fl amt vm vm' :
  wf_bytes pk -> wf_tx t -> NewEngine pk t m i fl amt = Ok vm -> rtc step_rel vm vm' ->
  zlen (stk (dstack vm')) + zlen (stk (astack vm')) <= MaxStackSize /\
  Forall (fun e => zlen e <= MaxScriptElementSize) (stk (dstack vm') ++ stk (astack vm')) /\
  0 <= numOps vm' <= MaxOpsPerScript /\
  validPC vm' = Ok () /\
  zlen (savedFirstStack vm') <= MaxStackSize /\
  Forall (fun e => zlen e <= MaxScriptElementSize) (savedFirstStack vm') /\
  (bip16 vm' = true -> scriptIdx vm' = 1 -> 0 < scriptOff vm' -> savedFirstStack vm' <> []).
Proof.
  intros Hpk Ht Hnew Hr. destruct (NewEngine_I _ _ _ _ _ _ _ Hpk Ht Hnew) as [HI _].
  pose proof (reachable_I _ _ HI Hr) as HI'. pose proof (I_idx _ HI') as Hidx.
  destruct HI' as [_ _ (script & Hs & Ho) _ Hops Hsz Hd Ha [Hse Hsl] _ _ Hp]. split_and!; try done; try lia.
  - apply Forall_app; split; (eapply Forall_impl; [done|]); by intros e [_ ?].
  - unfold validPC. rewrite decide_False by lia.
    by rewrite (goidx_lookup _ _ _ (proj1 Hidx) Hs), outcome_bind_ok, decide_False by lia.
  - eapply Forall_impl; [exact Hse|]. by intros e [_ ?].
  - intros Hb Hi Hoff. destruct (Hp Hb ltac:(lia)) as [_ Hsv]. by destruct (Hsv Hi) as [?|[? _]]; [|lia].
Qed.

Lemma engine_limits_witness :
  zlen (stk (dstack example_vm')) + zlen (stk (astack example_vm')) <= MaxStackSize /\
  validPC example_vm' = Ok ().
Proof.
  destruct (@engine_limits toy_crypto toy_crypto_laws example_pk (example_tx [OP_1]) 0 0
    StandardVerifyFlags 0 example_vm example_vm') as (H1 & _ & _ & H2 & _).
  - exact example_pk_wf.
  - apply example_tx_wf. by apply (bool_decide_unpack _).
  - exact example_new.
  - eapply rtc_l; [|apply rtc_refl]. vm_compute. reflexivity.
  - split; [exact H1|exact H2].
Defined.

(** constructing an engine for a message in range panics exactly when the
    message claims to be a payment but holds no payment, or when the input index
    is past the inputs: only the message index is checked. *)
Theorem NewEngine_panics_iff pk t m i fl amt :
  wf_bytes pk -> wf_tx t ->
  NewEngine pk t m i fl amt = Panic <->
  exists msg, 0 <= m /\ 0 <= i /\ TxMessages t !! Z.to_nat m = Some msg /\ App msg = APP_PAYMENT /\
    match payload msg with
    | Payment p => zlen (Inputs p) <= i
    | _ => True
    end.
Proof.
  intros Hpk Ht. unfold NewEngine. destruct (decide (_ \/ _)) as [Hbad|Hidx].
  { split; [done|]. intros (msg & Hm & Hi & Hl & _). apply lookup_lt_Some in Hl. unfold zlen in Hbad. lia. }
  destruct (goidx_in_range (E := ErrorCode) (TxMessages t) m) as (msg & -> & Hmsg); [lia|].
  rewrite outcome_bind_ok. case_decide as Happ.
  { split; [done|]. intros (msg' & _ & _ & Hl & Ha & _). congruence. }
  assert (App msg = APP_PAYMENT) as Ha by (by destruct (decide (App msg = APP_PAYMENT))).
  destruct (payload msg) as [|p|t' c] eqn:Hp; cbn [mbind outcome_bind];
    [split; [intros _; exists msg; rewrite Hp; split_and!; (done || lia)|done]| |
     split; [intros _; exists msg; rewrite Hp; split_and!; (done || lia)|done]].
  destruct (decide (zlen (Inputs p) <= i)) as [Hge|Hlt].
  - rewrite (goidx_out_of_range (Inputs p) i Hge). split; [|done]. intros _. exists msg. rewrite Hp.
    split_and!; (done || lia).
  - destruct (goidx_in_range (E := ErrorCode) (Inputs p) i) as (inp & -> & Hinp); [lia|].
    split; [|intros (msg' & _ & _ & Hl & _ & Hx); rewrite Hmsg in Hl; injection Hl as <-; rewrite Hp in Hx; lia].
    assert (Hsig : wf_bytes (contents (SignatureScript inp))).
    { eapply Forall_lookup_1 in Ht; [|exact Hmsg]. rewrite Hp in Ht. by eapply Forall_lookup_1 in Ht; [|exact Hinp]. }
    pose proof (parse_checked_no_panic _ Hsig). pose proof (parse_checked_no_panic _ Hpk).
    destruct (IsPushOnlyScript_no_panic _ Hsig) as [po Hpo]. rewrite outcome_bind_ok, Hpo. cbn zeta.
    intros Hpanic. exfalso. revert Hpanic.
    destruct (parse_checked (contents (SignatureScript inp))), (parse_checked pk),
      (flagSet fl ScriptVerifySigPushOnly); try done; cbn [mbind outcome_bind];
      repeat case_match; done.
Qed.

Lemma NewEngine_panics_iff_witness :
  NewEngine [OP_1] (example_tx [OP_1]) 0 1 StandardVerifyFlags 0 = Panic.
Proof.
  apply NewEngine_panics_iff.
  - by apply (bool_decide_unpack _).
  - apply example_tx_wf. by apply (bool_decide_unpack _).
  - eexists. split_and!; [lia|lia|reflexivity|reflexivity|]. vm_compute. discriminate.
Defined.
