(* ===== verification/EngineProps.v ===== *)
(** * What script validation checks

    The signature hash is the same constant for every transaction, so the result of
    validation depends only on the two scripts and the lock time: a signature script
    that one transaction may use is accepted in any other. *)

From S2P Require Import Prelude Digits ScriptErrors ScriptNum ScriptStack Opcodes ScriptParse.
From S2P Require Import HexUtil Transaction Crypto OpcodeExec ScriptEngine EngineSafety.

#[local] Open Scope Z_scope.

(** ** The signature hash *)

(** C25: the hash that a signature signs does not depend on the transaction, on the
    script, on the input or on the hash type: it is the hash of the empty string. *)
Theorem sighash_ignores_transaction {C : Crypto} t script hashType msgIdx idx :
  has_payload t -> calcSignatureHash script hashType t msgIdx idx = Ok (Keccak256 []).
Proof. apply calcSignatureHash_const. Qed.

Lemma sighash_ignores_transaction_witness :
  @calcSignatureHash toy_crypto [] SigHashAll (example_tx [OP_1]) 0 0
    = Ok (@Keccak256 toy_crypto []).
Proof. apply sighash_ignores_transaction. constructor. discriminate. Defined.

(** ** Moving a run to another transaction *)

Section Retarget.
Context {C : Crypto}.
Variables (t1 t2 : Transaction) (m1 m2 i1 i2 : Z) (p1 p2 : PaymentPayload).

(** The engine [vm] is validating input [i1] of message [m1] of [t1]; [retarget]
    makes it validate input [i2] of message [m2] of [t2]. *)

Definition on1 (vm : Engine) : Prop := tx vm = t1 /\ msgIdx vm = m1 /\ txIdx vm = i1.

Definition retarget (v : Engine) : Engine :=
  mkEngine (scripts v) (scriptIdx v) (scriptOff v) (lastCodeSep v) (dstack v) (astack v) t2 m2 i2
    (condStack v) (numOps v) (flags v) (bip16 v) (savedFirstStack v) (witnessVersion v)
    (witnessProgram v) (inputAmount v).

Definition is_payment_msg (t : Transaction) (m : Z) (p : PaymentPayload) : Prop :=
  0 <= m /\ exists app, TxMessages t !! Z.to_nat m = Some (mkMessage app (Payment p)).

Hypothesis H1 : is_payment_msg t1 m1 p1.
Hypothesis H2 : is_payment_msg t2 m2 p2.
Hypothesis Hlock : LockTime p1 = LockTime p2.

(** A method that does the same to both. *)

Definition respects {A} (m : EngineM A) : Prop :=
  forall vm, on1 vm -> m (retarget vm) = ((m vm).1, retarget (m vm).2) /\ on1 (m vm).2.

Lemma resp_ret {A} (a : A) : respects (mret a).
Proof. by intros vm Hvm. Qed.

Lemma resp_fail {A} e : respects (fail e : EngineM A).
Proof. by intros vm Hvm. Qed.

Lemma resp_lift {A} (o : outcome ErrorCode A) : respects (lift o).
Proof. by intros vm Hvm. Qed.

Lemma resp_bind {A B} (m : EngineM A) (f : A -> EngineM B) :
  respects m -> (forall a, respects (f a)) -> respects (m ≫= f).
Proof.
  intros Hm Hf vm Hvm. destruct (Hm vm Hvm) as [He Ho]. unfold mbind, go_bind. rewrite He.
  destruct (m vm) as [[a|e|] vm']; cbn in *; [|done..]. by apply Hf.
Qed.

Lemma resp_modify g :
  (forall vm, g (retarget vm) = retarget (g vm)) -> (forall vm, on1 vm -> on1 (g vm)) ->
  respects (modify g).
Proof. intros Hg Ho vm Hvm. unfold modify. rewrite Hg. split; [done|by apply Ho]. Qed.

Lemma resp_get {B} (f : Engine -> EngineM B) :
  (forall vm0 vm, on1 vm0 -> f (retarget vm0) vm = f vm0 vm) -> (forall vm0, on1 vm0 -> respects (f vm0)) ->
  respects (get ≫= f).
Proof.
  intros He Hf vm Hvm. unfold get, mbind, go_bind. cbn beta iota. rewrite He by done. by apply Hf.
Qed.

Lemma resp_dstack {A} (m : StackM A) : respects (on_dstack m).
Proof. intros vm Hvm. unfold on_dstack, zoom. cbn. by destruct (m (dstack vm)). Qed.

Lemma resp_astack {A} (m : StackM A) : respects (on_astack m).
Proof. intros vm Hvm. unfold on_astack, zoom. cbn. by destruct (m (astack vm)). Qed.

Lemma resp_ignore m : respects m -> respects (ignore_err m).
Proof.
  intros Hm vm Hvm. destruct (Hm vm Hvm) as [He Ho]. unfold ignore_err. rewrite He.
  by destruct (m vm) as [[]].
Qed.

(** [resp] follows the structure of a method that does not read the transaction. *)

Ltac resp :=
  repeat lazymatch goal with
  | |- respects (mret _) => apply resp_ret
  | |- respects (fail _) => apply resp_fail
  | |- respects (lift _) => apply resp_lift
  | |- respects (on_dstack _) => apply resp_dstack
  | |- respects (on_astack _) => apply resp_astack
  | |- respects (modify _) => apply resp_modify; [reflexivity|done]
  | |- respects (ignore_err _) => apply resp_ignore
  | |- respects (get ≫= _) => apply resp_get; [reflexivity|intros ? ?]
  | |- respects (_ ≫= _) => apply resp_bind; [|intros ?]
  | |- respects (if ?b then _ else _) => destruct b
  | |- respects (let _ := _ in _) => cbn zeta
  end.

Lemma payment_payload t m p : is_payment_msg t m p -> has_payload t.
Proof.
  intros (_ & app & Hl). apply Exists_exists. eexists. split; [by eapply list_elem_of_lookup_2|done].
Qed.

Lemma current_payment_1 vm : on1 vm -> current_payment vm = Ok p1.
Proof.
  intros (Ht & Hm & _). destruct H1 as (Hpos & app & Hl). unfold current_payment.
  by rewrite Ht, Hm, (goidx_lookup _ _ _ Hpos Hl).
Qed.

Lemma current_payment_2 vm : current_payment (retarget vm) = Ok p2.
Proof.
  destruct H2 as (Hpos & app & Hl). unfold current_payment. cbn.
  by rewrite (goidx_lookup _ _ _ Hpos Hl).
Qed.

Lemma sighash_1 vm script : on1 vm ->
  calcSignatureHash script SigHashAll (tx vm) (msgIdx vm) (txIdx vm) = Ok (Keccak256 []).
Proof. intros (-> & _ & _). by apply calcSignatureHash_const, (payment_payload _ m1 p1). Qed.

Lemma sighash_2 vm script :
  calcSignatureHash script SigHashAll (tx (retarget vm)) (msgIdx (retarget vm)) (txIdx (retarget vm))
    = Ok (Keccak256 []).
Proof. apply calcSignatureHash_const, (payment_payload _ m2 p2). exact H2. Qed.

Lemma CheckSig_resp op : respects (opcodeCheckSig op).
Proof.
  unfold opcodeCheckSig. apply resp_bind; [resp|intros pk]. apply resp_bind; [resp|intros sig].
  case_match; [resp|]. apply resp_get.
  - intros vm0 vm Hvm. unfold mbind, go_bind, lift. change (subScript (retarget vm0)) with (subScript vm0).
    destruct (subScript vm0); [|done..]. by rewrite sighash_2, (sighash_1 vm0).
  - intros vm0 _. resp.
Qed.

Lemma popN_resp n : respects (popN n).
Proof. induction n; cbn [popN]; resp. done. Qed.

Lemma CheckMultiSig_resp op : respects (opcodeCheckMultiSig op).
Proof.
  unfold opcodeCheckMultiSig. apply resp_bind; [resp|intros nk]. case_match; [resp|]. case_match; [resp|].
  apply resp_bind; [resp|intros _]. apply resp_get; [done|intros vm0 _]. case_match; [resp|].
  apply resp_bind; [apply popN_resp|intros keys]. apply resp_bind; [resp|intros ns].
  case_match; [resp|]. case_match; [resp|]. apply resp_bind; [apply popN_resp|intros sigs].
  apply resp_bind; [resp|intros dummy]. apply resp_get.
  - intros vm1 vm Hvm. change (hasFlag (retarget vm1)) with (hasFlag vm1). case_match; [done|].
    unfold mbind, go_bind, lift. change (subScript (retarget vm1)) with (subScript vm1).
    destruct (subScript vm1); [|done..]. by rewrite sighash_2, (sighash_1 vm1).
  - intros vm1 _. resp.
Qed.

Lemma CheckLockTime_resp op : respects (opcodeCheckLockTimeVerify op).
Proof.
  unfold opcodeCheckLockTimeVerify. apply resp_get.
  - intros vm0 vm Hvm. change (hasFlag (retarget vm0)) with (hasFlag vm0).
    change (dstack (retarget vm0)) with (dstack vm0). case_match; [done|].
    rewrite (current_payment_1 vm0 Hvm), current_payment_2. unfold mbind, go_bind, lift, on_dstack, zoom.
    destruct (PeekByteArray 0 (dstack vm)) as [[so| |] d]; [|done..].
    destruct (makeScriptNum _ _ _); [|done..]. case_match; [done|]. by rewrite Hlock.
  - intros vm0 _. resp.
Qed.

Lemma popIfBool_resp : respects popIfBool.
Proof. unfold popIfBool. resp. Qed.

Lemma exec_opfunc_resp f op : respects (exec_opfunc f op).
Proof.
  pose proof (CheckSig_resp op). pose proof (CheckMultiSig_resp op). pose proof (CheckLockTime_resp op).
  pose proof popIfBool_resp.
  destruct f; cbn [exec_opfunc]; try done;
    unfold opcodeEqualVerify, opcodeNumEqualVerify,
      opcodeFalse, opcodePushData, opcode1Negate, opcodeReserved, opcodeN, opcodeNop, opcodeIf,
      opcodeNotIf, opcodeElse, opcodeEndif, opcodeVerify, opcodeReturn,
      opcodeCheckSequenceVerify, opcodeToAltStack, opcodeFromAltStack, opcode2Drop, opcode2Dup,
      opcode3Dup, opcode2Over, opcode2Rot, opcode2Swap, opcodeIfDup, opcodeDepth, opcodeDrop,
      opcodeDup, opcodeNip, opcodeOver, opcodePick, opcodeRoll, opcodeRot, opcodeSwap,
      opcodeTuck, opcodeDisabled, opcodeSize, opcodeEqual, opcode1Add,
      opcode1Sub, opcodeNegate, opcodeAbs, opcodeNot, opcode0NotEqual, opcodeAdd, opcodeSub,
      opcodeBoolAnd, opcodeBoolOr, opcodeNumEqual, opcodeNumNotEqual,
      opcodeLessThan, opcodeGreaterThan, opcodeLessThanOrEqual, opcodeGreaterThanOrEqual,
      opcodeMin, opcodeMax, opcodeWithin, opcodeRipemd160, opcodeSha1, opcodeSha256,
      opcodeHash160, opcodeHash256, opcodeCodeSeparator, opcodeCheckSigVerify,
      opcodeCheckMultiSigVerify, opcodeInvalid, opcodeCheckJuryRedeemEqual, abstractVerify, push_cond;
    resp; done.
Qed.

Lemma executeOpcode_resp pop : respects (executeOpcode pop).
Proof. unfold executeOpcode. resp; apply exec_opfunc_resp. Qed.

Lemma CheckErrorCondition_resp b : respects (CheckErrorCondition b).
Proof. unfold CheckErrorCondition. resp. Qed.

Lemma Step_resp : respects Step.
Proof.
  unfold Step, next_script, load_script, skip_empty_script, SetStack. resp;
    first [apply executeOpcode_resp|apply CheckErrorCondition_resp].
Qed.

Lemma Execute_loop_resp fuel vm :
  on1 vm -> Execute_loop fuel (retarget vm) = Execute_loop fuel vm.
Proof.
  revert vm. induction fuel as [|fuel IH]; intros vm Hvm; cbn [Execute_loop]; [done|].
  destruct (Step_resp vm Hvm) as [He Ho]. rewrite He.
  destruct (Step vm) as [[[]|e|] vm']; cbn [fst snd] in *; [|by apply IH|done..].
  by destruct (CheckErrorCondition_resp true vm' Ho) as [-> _].
Qed.

End Retarget.

(** The input at an index of a payment message. *)

Definition spends (t : Transaction) (m i : Z) (p : PaymentPayload) (inp : Input) : Prop :=
  0 <= m /\ 0 <= i /\ TxMessages t !! Z.to_nat m = Some (mkMessage APP_PAYMENT (Payment p)) /\
  Inputs p !! Z.to_nat i = Some inp.

Lemma spends_payment t m i p inp : spends t m i p inp -> is_payment_msg t m p.
Proof. intros (Hm & _ & Hl & _). split; [done|]. by exists APP_PAYMENT. Qed.

Lemma NewEngine_retarget pk t1 t2 m1 m2 i1 i2 p1 p2 inp1 inp2 fl amt :
  spends t1 m1 i1 p1 inp1 -> spends t2 m2 i2 p2 inp2 -> SignatureScript inp1 = SignatureScript inp2 ->
  match NewEngine pk t1 m1 i1 fl amt with
  | Ok vm => on1 t1 m1 i1 vm /\ NewEngine pk t2 m2 i2 fl amt = Ok (retarget t2 m2 i2 vm)
  | Err e => NewEngine pk t2 m2 i2 fl amt = Err e
  | Panic => NewEngine pk t2 m2 i2 fl amt = Panic
  end.
Proof.
  intros (Hm1 & Hi1 & Hl1 & Hn1) (Hm2 & Hi2 & Hl2 & Hn2) Heq. unfold NewEngine.
  pose proof (lookup_lt_Some _ _ _ Hl1). pose proof (lookup_lt_Some _ _ _ Hl2).
  rewrite !(decide_False (P := _ \/ _)) by (unfold zlen; lia).
  rewrite (goidx_lookup _ _ _ Hm1 Hl1), (goidx_lookup _ _ _ Hm2 Hl2), !outcome_bind_ok.
  cbn [App payload]. rewrite !(decide_False (P := APP_PAYMENT <> APP_PAYMENT)) by (intros []; done).
  rewrite !outcome_bind_ok, (goidx_lookup _ _ _ Hi1 Hn1), (goidx_lookup _ _ _ Hi2 Hn2), !outcome_bind_ok, Heq.
  cbn zeta. repeat match goal with |- context [if ?b then Err _ else _] => destruct b; [done|] end.
  destruct (if flagSet fl ScriptVerifySigPushOnly then _ else _) as [[]| |]; try done.
  cbn [mbind outcome_bind negb].
  destruct (parse_checked (contents (SignatureScript inp2))) as [s0| |]; try done. cbn [mbind outcome_bind].
  destruct (parse_checked pk) as [s1| |]; try done. cbn [mbind outcome_bind].
  repeat match goal with |- context [if ?b then Err _ else _] => destruct b; [done|] end.
  split; [by split_and!|done].
Qed.

(** C21: replay.  Two inputs with the same signature script, in payments with the
    same lock time, validate alike against a lock script: nothing else in the
    transactions (the outputs, the amounts, the inputs spent) is checked.  A
    signature script that unlocks an output in one transaction unlocks every output
    with that lock script in any other. *)
Theorem ScriptValidate_replay {C : Crypto} pk t1 t2 m1 m2 i1 i2 p1 p2 inp1 inp2 :
  spends t1 m1 i1 p1 inp1 -> spends t2 m2 i2 p2 inp2 ->
  SignatureScript inp1 = SignatureScript inp2 -> LockTime p1 = LockTime p2 ->
  ScriptValidate pk t1 m1 i1 = ScriptValidate pk t2 m2 i2.
Proof.
  intros Hs1 Hs2 Heq Hlock. unfold ScriptValidate, Execute.
  pose proof (NewEngine_retarget pk t1 t2 m1 m2 i1 i2 p1 p2 inp1 inp2 StandardVerifyFlags 0 Hs1 Hs2 Heq) as Hn.
  destruct (NewEngine pk t1 m1 i1 StandardVerifyFlags 0) as [vm|e|]; [|by rewrite Hn..].
  destruct Hn as [Hon ->]. symmetry.
  by apply (Execute_loop_resp t1 t2 m1 m2 i1 i2 p1 p2); eauto using spends_payment.
Qed.

Lemma ScriptValidate_replay_witness :
  let pay out := mkPaymentPayload [NewTxIn None (Some [OP_1])] [NewTxOut out [OP_1] None] 0 in
  let t out := mkTransaction (replicate 32 out) [mkMessage APP_PAYMENT (Payment (pay out))] in
  @ScriptValidate toy_crypto [OP_NOP] (t 5) 0 0 = @ScriptValidate toy_crypto [OP_NOP] (t 77) 0 0.
Proof.
  cbn zeta.
  eapply (@ScriptValidate_replay toy_crypto); [split_and!; try lia; reflexivity|
    split_and!; try lia; reflexivity|reflexivity|reflexivity].
Defined.
