(* ===== verification/ScriptBuilder.v ===== *)
(** * Building scripts

    [ScriptBuilder] of [tokenengine/internal/txscript/scriptbuilder.go].  A method
    returns the receiver it mutated, so each is a function from builder to builder;
    [AddInt64] can panic, through [scriptNum.Bytes].  The text of the error is
    replaced by its reason.

    The theorems: what [AddData] and [AddInt64] append is one instruction, which
    the engine accepts as a minimal push and which pushes that data or number (a
    single zero byte excepted, which becomes the empty string); a script never
    outgrows [MaxScriptSize]; the first error sticks; a script built without error
    parses to the instructions that were added. *)

From S2P Require Import Prelude Digits ScriptErrors ScriptNum ScriptStack Opcodes ScriptParse.
From S2P Require Import HexUtil Transaction Crypto OpcodeExec ScriptEngine EngineSafety.

#[local] Open Scope Z_scope.

Inductive NotCanonical : Set :=
  | OpcodeExceeds
  | OpcodesExceed
  | DataExceeds (dataSize : Z)
  | ElementTooLarge (dataLen : Z)
  | IntegerExceeds.

#[export] Instance NotCanonical_eq_dec : EqDecision NotCanonical.
Proof. solve_decision. Defined.

Record ScriptBuilder := mkBuilder {
  script : bytes;
  err : option NotCanonical
}.

Definition append (b : ScriptBuilder) (bs : bytes) : ScriptBuilder := mkBuilder (script b ++ bs) (err b).
Definition set_err (b : ScriptBuilder) (e : NotCanonical) : ScriptBuilder := mkBuilder (script b) (Some e).

Definition NewScriptBuilder : ScriptBuilder := mkBuilder [] None.

Definition AddOp (opcode : Z) (b : ScriptBuilder) : ScriptBuilder :=
  if decide (err b <> None) then b else
  if decide (zlen (script b) + 1 > MaxScriptSize) then set_err b OpcodeExceeds else
  append b [opcode].

Definition AddOps (opcodes : bytes) (b : ScriptBuilder) : ScriptBuilder :=
  if decide (err b <> None) then b else
  if decide (zlen (script b) + zlen opcodes > MaxScriptSize) then set_err b OpcodesExceed else
  append b opcodes.

Definition canonicalDataSize (data : bytes) : Z :=
  let dataLen := zlen data in
  if decide (dataLen = 0) then 1
  else if decide (dataLen = 1 /\ hd 0 data <= 16) then 1
  else if decide (dataLen = 1 /\ hd 0 data = 0x81) then 1
  else if decide (dataLen < OP_PUSHDATA1) then 1 + dataLen
  else if decide (dataLen <= 0xff) then 2 + dataLen
  else if decide (dataLen <= 0xffff) then 3 + dataLen
  else 5 + dataLen.

(** [binary.LittleEndian.PutUint16] and [PutUint32] *)

Definition PutUint16 (v : Z) : bytes := [u8 v; u8 (Z.shiftr v 8)].
Definition PutUint32 (v : Z) : bytes :=
  [u8 v; u8 (Z.shiftr v 8); u8 (Z.shiftr v 16); u8 (Z.shiftr v 24)].

Definition addData (data : bytes) (b : ScriptBuilder) : ScriptBuilder :=
  let dataLen := zlen data in
  if decide (dataLen = 0 \/ (dataLen = 1 /\ hd 0 data = 0)) then append b [OP_0]
  else if decide (dataLen = 1 /\ hd 0 data <= 16) then append b [u8 (OP_1 - 1 + hd 0 data)]
  else if decide (dataLen = 1 /\ hd 0 data = 0x81) then append b [OP_1NEGATE]
  else
    let b :=
      if decide (dataLen < OP_PUSHDATA1) then append b [u8 (OP_DATA_1 - 1 + dataLen)]
      else if decide (dataLen <= 0xff) then append b [OP_PUSHDATA1; u8 dataLen]
      else if decide (dataLen <= 0xffff) then
        append (append b [OP_PUSHDATA2]) (PutUint16 (u16 dataLen))
      else append (append b [OP_PUSHDATA4]) (PutUint32 (u32 dataLen)) in
    append b data.

Definition AddFullData (data : bytes) (b : ScriptBuilder) : ScriptBuilder :=
  if decide (err b <> None) then b else addData data b.

Definition AddData (data : bytes) (b : ScriptBuilder) : ScriptBuilder :=
  if decide (err b <> None) then b else
  let dataSize := canonicalDataSize data in
  if decide (zlen (script b) + dataSize > MaxScriptSize) then set_err b (DataExceeds dataSize) else
  let dataLen := zlen data in
  if decide (dataLen > MaxScriptElementSize) then set_err b (ElementTooLarge dataLen) else
  addData data b.

Definition AddInt64 (val : Z) (b : ScriptBuilder) : outcome ErrorCode ScriptBuilder :=
  if decide (err b <> None) then Ok b else
  if decide (zlen (script b) + 1 > MaxScriptSize) then Ok (set_err b IntegerExceeds) else
  if decide (val = 0) then Ok (append b [OP_0]) else
  if decide (val = -1 \/ (val >= 1 /\ val <= 16)) then Ok (append b [u8 (OP_1 - 1 + val)]) else
  data ← scriptNum_Bytes val;
  Ok (AddData data b).

Definition Reset (b : ScriptBuilder) : ScriptBuilder := mkBuilder [] None.

Definition Script (b : ScriptBuilder) : bytes * option NotCanonical := (script b, err b).

(** ** The instruction a push adds

    The entry of the opcode table for a byte, and the instruction that [addData]
    writes for a piece of data. *)

Definition opc (v : Z) : opcode :=
  match opcodeArray !! Z.to_nat v with Some o => o | None => mkOpcode v "none" 0 fn_opcodeInvalid end.

Definition op_pop (v : Z) : parsedOpcode := mkPop (opc v) None.

Definition push_pop (d : bytes) : parsedOpcode :=
  if decide (d = [] \/ d = [0]) then op_pop OP_0
  else if decide (zlen d = 1 /\ hd 0 d <= 16) then op_pop (OP_1 - 1 + hd 0 d)
  else if decide (d = [0x81]) then op_pop OP_1NEGATE
  else mkPop (opc (if decide (zlen d < 76) then zlen d
                   else if decide (zlen d <= 0xff) then OP_PUSHDATA1
                   else if decide (zlen d <= 0xffff) then OP_PUSHDATA2 else OP_PUSHDATA4)) (Some d).

(** The value a push leaves on the stack. *)

Definition pushed (d : bytes) : bytes := if decide (d = [0]) then [] else d.

(** Facts on the table: the entries of length one, the direct pushes and the
    length-prefixed pushes. *)

Definition is_op (v : Z) : Prop :=
  opcodeArray !! Z.to_nat v = Some (opc v) /\ value (opc v) = v /\ length_ (opc v) = 1.

#[export] Instance is_op_dec v : Decision (is_op v).
Proof. unfold is_op. apply _. Defined.

Lemma opc_direct v : 1 <= v <= 75 ->
  opcodeArray !! Z.to_nat v = Some (opc v) /\ value (opc v) = v /\ length_ (opc v) = v + 1 /\
  opfunc (opc v) = fn_opcodePushData.
Proof.
  intros Hv.
  pose proof (byte_exhaust (fun v => if decide (1 <= v <= 75) then
    bool_decide (opcodeArray !! Z.to_nat v = Some (opc v) /\ value (opc v) = v /\
      length_ (opc v) = v + 1 /\ opfunc (opc v) = fn_opcodePushData) else true)) as H.
  specialize (H ltac:(by vm_compute) v ltac:(unfold is_byte; lia)). cbn beta in H.
  rewrite decide_True in H by lia. by apply bool_decide_eq_true in H.
Qed.

Lemma opc_small v : OP_1 <= v <= OP_16 ->
  is_op v /\ opfunc (opc v) = fn_opcodeN.
Proof.
  intros Hv.
  pose proof (byte_exhaust (fun v => if decide (81 <= v <= 96) then
    bool_decide (is_op v /\ opfunc (opc v) = fn_opcodeN) else true)) as H.
  specialize (H ltac:(by vm_compute) v ltac:(unfold is_byte; lia)). cbn beta in H.
  rewrite decide_True in H by lia. by apply bool_decide_eq_true in H.
Qed.

Lemma opc_prefixed :
  length_ (opc OP_PUSHDATA1) = -1 /\ length_ (opc OP_PUSHDATA2) = -2 /\ length_ (opc OP_PUSHDATA4) = -4.
Proof. by vm_compute. Qed.

Lemma is_op_wf v : is_byte v -> is_op v -> wf_pop opcodeArray (op_pop v).
Proof.
  intros Hb (Ht & Hv & Hl). unfold wf_pop, op_pop. cbn [pop_opcode data]. rewrite Hv, Hl.
  split_and!; [done|done|by left|done|]. unfold data_ok. by rewrite Hl, decide_True.
Qed.

Lemma is_op_encode v : is_op v -> encode (op_pop v) = [v].
Proof. intros (_ & Hv & Hl). unfold encode, op_pop. cbn [pop_opcode data contents]. by rewrite Hv, Hl. Qed.

(** The instructions [addData] writes are well formed and encoded as it writes
    them. *)

Lemma put16 v : 0 <= v < 2 ^ 16 -> PutUint16 (u16 v) = le_field 2 v.
Proof.
  intros Hv. unfold PutUint16, u16. rewrite Z.mod_small by lia. cbn [le_field]. unfold u8.
  by rewrite Z.shiftr_div_pow2 by lia.
Qed.

Lemma put32 v : 0 <= v < 2 ^ 32 -> PutUint32 (u32 v) = le_field 4 v.
Proof.
  intros Hv. unfold PutUint32, u32. rewrite Z.mod_small by lia. cbn [le_field]. unfold u8.
  rewrite !Z.shiftr_div_pow2, !Z.div_div by lia. done.
Qed.

Lemma one_byte (d : bytes) (P : Z -> Prop) : (zlen d = 1 /\ P (hd 0 d)) <-> exists x, d = [x] /\ P x.
Proof.
  split; [|intros (x & -> & ?); by split].
  intros [Hl HP]. destruct d as [|x [|y d]]; [done| |].
  - by exists x.
  - rewrite !zlen_cons in Hl. zlen_lia.
Qed.

Inductive push_view (d : bytes) : Prop :=
  | View_zero : d = [] \/ d = [0] -> push_view d
  | View_small x : d = [x] -> 1 <= x <= 16 -> push_view d
  | View_negate : d = [0x81] -> push_view d
  | View_direct : 1 <= zlen d <= 75 -> (forall x, d = [x] -> 16 < x /\ x <> 0x81) -> push_view d
  | View_1 : 76 <= zlen d <= 0xff -> push_view d
  | View_2 : 0xff < zlen d <= 0xffff -> push_view d
  | View_4 : 0xffff < zlen d -> push_view d.

Lemma push_cases d : wf_bytes d -> push_view d.
Proof.
  intros Hwf. destruct d as [|x d]; [apply View_zero; by left|].
  destruct (decide (zlen (x :: d) <= 75)) as [Hs|Hs].
  - destruct d as [|y d].
    + apply wf_bytes_1 in Hwf. unfold is_byte in Hwf.
      destruct (decide (x = 0)) as [->|]; [apply View_zero; by right|].
      destruct (decide (x <= 16)); [apply (View_small _ x); [done|lia]|].
      destruct (decide (x = 0x81)) as [->|]; [by apply View_negate|].
      apply View_direct; [done|]. intros ? [= <-]. lia.
    + apply View_direct; [zlen_lia|done].
  - destruct (decide (zlen (x :: d) <= 0xff)); [apply View_1; lia|].
    destruct (decide (zlen (x :: d) <= 0xffff)); [apply View_2; lia|apply View_4; lia].
Qed.

(** Data that no small-integer opcode stands for. *)

Definition long_form (d : bytes) : Prop := d <> [] /\ forall x, d = [x] -> 16 < x /\ x <> 0x81.

Lemma long_form_2 d : 2 <= zlen d -> long_form d.
Proof. intros Hl. split; [intros ->; by vm_compute in Hl|]. intros x ->. by vm_compute in Hl. Qed.

Lemma long_form_guards d :
  long_form d ->
  ~ (d = [] \/ d = [0]) /\ ~ (zlen d = 0 \/ (zlen d = 1 /\ hd 0 d = 0)) /\
  ~ (zlen d = 1 /\ hd 0 d <= 16) /\ ~ (zlen d = 1 /\ hd 0 d = 0x81) /\ d <> [0x81] /\ zlen d <> 0.
Proof.
  intros [Hne H1]. assert (Hz : zlen d <> 0) by (intros ?%zlen_0; done).
  rewrite (one_byte d (fun x => x = 0)), (one_byte d (fun x => x <= 16)), (one_byte d (fun x => x = 0x81)).
  split_and!; [|intros [?|(x & Hx & ->)]; [done|by apply H1 in Hx as [? _]]| | | |done].
  - intros [?| ->]; [done|]. destruct (H1 0 eq_refl). lia.
  - intros (x & Hx & Hle). apply H1 in Hx. lia.
  - intros (x & Hx & ->). apply H1 in Hx. lia.
  - intros ->. destruct (H1 _ eq_refl). lia.
Qed.

Definition long_header (d : bytes) : bytes :=
  if decide (zlen d < OP_PUSHDATA1) then [zlen d]
  else if decide (zlen d <= 0xff) then [OP_PUSHDATA1; zlen d]
  else if decide (zlen d <= 0xffff) then OP_PUSHDATA2 :: le_field 2 (zlen d)
  else OP_PUSHDATA4 :: le_field 4 (zlen d).

Lemma addData_long d b :
  long_form d -> zlen d < 2 ^ 32 -> addData d b = append b (long_header d ++ d).
Proof.
  intros Hd Hlen. destruct (long_form_guards d Hd) as (_ & H1 & H2 & H3 & _ & H4).
  unfold addData. rewrite !decide_False by done. unfold long_header, append.
  repeat case_decide; zlen_facts; cbn [script err];
    rewrite ?put16, ?put32 by lia; rewrite ?u8_id by (unfold is_byte; lia); by app_norm.
Qed.

Lemma canonicalDataSize_long d :
  long_form d -> canonicalDataSize d = zlen (long_header d) + zlen d.
Proof.
  intros Hd. destruct (long_form_guards d Hd) as (_ & H1 & H2 & H3 & _ & H4).
  unfold canonicalDataSize. rewrite (decide_False (P := zlen d = 0)), !(decide_False (P := _ /\ _)) by done.
  unfold long_header. repeat case_decide; rewrite ?zlen_cons; unfold zlen at 2; rewrite ?le_field_length; cbn; lia.
Qed.

Lemma push_pop_small x : 1 <= x <= 16 -> push_pop [x] = op_pop (OP_1 - 1 + x).
Proof.
  intros Hx. unfold push_pop. rewrite decide_False by (intros [?|[=]]; [done|lia]).
  by rewrite decide_True by (split; [done|cbn; lia]).
Qed.

Lemma push_pop_long d :
  long_form d -> wf_bytes d -> zlen d < 2 ^ 32 ->
  wf_pop opcodeArray (push_pop d) /\ encode (push_pop d) = long_header d ++ d /\
  opfunc (pop_opcode (push_pop d)) = fn_opcodePushData /\ data (push_pop d) = Some d.
Proof.
  intros Hd Hwf Hlen. destruct (long_form_guards d Hd) as (H0 & _ & H2 & _ & H5 & H4).
  unfold push_pop. rewrite !decide_False by done. zlen_facts.
  unfold long_header, wf_pop, data_ok, encode. cbn [pop_opcode data contents].
  destruct (decide (zlen d < 76)) as [Hs|Hs].
  { destruct (opc_direct (zlen d)) as (Ht & Hv & Hl & Hf); [lia|]. rewrite Hv, Hl, !decide_False by lia.
    split_and!; try done; [unfold is_byte; lia|right; left; lia|lia| |].
    - exists d. rewrite decide_True by lia. split_and!; [done|done|lia].
    - by replace (Z.to_nat _) with O by lia. }
  change 76 with OP_PUSHDATA1.
  pose proof opc_prefixed as (H1 & H6 & H7).
  case_decide; [|case_decide]; rewrite ?H1, ?H6, ?H7;
    (split_and!; try done; [right; right; apply (bool_decide_unpack _); by vm_compute| |..]);
    try (exists d; split_and!; [done|done|rewrite decide_False by lia; lia]).
  change (Z.to_nat (- (-1))) with 1%nat. cbn [le_field]. by rewrite Z.mod_small by lia.
Qed.

Lemma long_header_value d : long_form d -> zlen d < 2 ^ 32 -> 1 <= hd 0 (long_header d) <= OP_PUSHDATA4.
Proof.
  intros Hd Hl. destruct (long_form_guards d Hd) as (_ & _ & _ & _ & _ & H). zlen_facts.
  unfold long_header. repeat case_decide; cbn [hd]; lia.
Qed.

Lemma push_view_long d : push_view d -> (d = [] \/ d = [0]) \/ (exists x, d = [x] /\ 1 <= x <= 16) \/ d = [0x81] \/ long_form d.
Proof.
  intros [H|x H Hx|H|H H1|H|H|H]; [by left|right; left; eauto|by right; right; left|..];
    right; right; right; [|apply long_form_2; lia..].
  split; [|done]. intros ->. vm_compute in H. by destruct H.
Qed.

Lemma push_pop_spec d b :
  wf_bytes d -> zlen d < 2 ^ 32 ->
  wf_pop opcodeArray (push_pop d) /\ addData d b = append b (encode (push_pop d)) /\
  canonicalDataSize d = zlen (encode (push_pop d)).
Proof.
  intros Hwf Hlen. destruct (push_view_long d (push_cases d Hwf)) as [H|[(x & -> & Hx)|[->|H]]].
  - assert (is_op OP_0) as H0 by (by apply (bool_decide_unpack _); vm_compute).
    unfold push_pop. rewrite (decide_True _ _ H), is_op_encode by done.
    split_and!; [by apply is_op_wf|by destruct H as [-> | ->]..].
  - destruct (opc_small (OP_1 - 1 + x)) as [Ho _]; [lia|].
    rewrite push_pop_small by done.
    rewrite is_op_encode by done. split_and!.
    + apply is_op_wf; [unfold is_byte; lia|done].
    + unfold addData. rewrite decide_False by (intros [?|[_ ?]]; [done|cbn in *; lia]).
      rewrite decide_True by (split; [done|cbn; lia]). cbn [hd]. by rewrite u8_id by (unfold is_byte; lia).
    + unfold canonicalDataSize. rewrite decide_False by done. by rewrite decide_True by (split; [done|cbn; lia]).
  - assert (is_op OP_1NEGATE) as H0 by (by apply (bool_decide_unpack _); vm_compute).
    change (push_pop [0x81]) with (op_pop OP_1NEGATE). rewrite is_op_encode by done.
    split_and!; [by apply is_op_wf|done..].
  - destruct (push_pop_long d H Hwf Hlen) as (Hp & -> & _ & _).
    split_and!; [done|by apply addData_long|rewrite zlen_app; by apply canonicalDataSize_long].
Qed.

(** ** Executing it *)

Definition push (d : bytes) (vm : Engine) : Engine :=
  set_dstack (mkStack (stk (dstack vm) ++ [d]) (verifyMinimalData (dstack vm))) vm.

Lemma on_dstack_push d vm : on_dstack (PushByteArray d) vm = (Ok (), push d vm).
Proof. unfold on_dstack, zoom, push. by destruct (dstack vm). Qed.

Lemma executeOpcode_push {C : Crypto} pop vm :
  is_byte (value (pop_opcode pop)) -> value (pop_opcode pop) <= OP_16 ->
  zlen (contents (data pop)) <= MaxScriptElementSize -> isBranchExecuting vm = true ->
  (value (pop_opcode pop) <= OP_PUSHDATA4 -> checkMinimalDataPush pop = Ok ()) ->
  executeOpcode pop vm = exec_opfunc (opfunc (pop_opcode pop)) pop vm.
Proof.
  intros Hb Hv Hd Hbr Hm. unfold executeOpcode, isDisabled, alwaysIllegal.
  rewrite !bool_decide_false by (rewrite !elem_of_cons, elem_of_nil; revert Hv; intros ?;
    intros Hin; decompose [or] Hin; try done; revert Hv; match goal with H : value _ = _ |- _ => rewrite H end; by vm_compute).
  rewrite !decide_False by lia. autorewrite with gorun. rewrite Hbr. cbn [negb andb].
  destruct (verifyMinimalData (dstack vm)); cbn [andb]; [|done].
  case_bool_decide as Hr; [|done]. by rewrite Hm by tauto.
Qed.

Lemma scriptNum_Bytes_small x : 1 <= x <= 16 -> scriptNum_Bytes x = Ok [x].
Proof.
  intros Hx.
  pose proof (byte_exhaust (fun x => if decide (1 <= x <= 16) then bool_decide (scriptNum_Bytes x = Ok [x]) else true)
    ltac:(by vm_compute) x ltac:(unfold is_byte; lia)) as H.
  cbn beta in H. rewrite decide_True in H by lia. by apply bool_decide_eq_true in H.
Qed.

Lemma on_dstack_pushint n b vm : scriptNum_Bytes n = Ok b -> on_dstack (PushInt n) vm = (Ok (), push b vm).
Proof.
  intros Hb. unfold PushInt. rewrite <- on_dstack_push. unfold on_dstack, zoom. rewrite Hb. done.
Qed.

Lemma push_pop_long_value d :
  encode (push_pop d) = long_header d ++ d -> value (pop_opcode (push_pop d)) = hd 0 (long_header d).
Proof. unfold encode, long_header. intros He. revert He. repeat case_decide; by intros [= ->]. Qed.

Lemma long_minimal d :
  long_form d -> wf_bytes d -> zlen d < 2 ^ 32 -> checkMinimalDataPush (push_pop d) = Ok ().
Proof.
  intros Hd Hwf Hl. destruct (push_pop_long d Hd Hwf Hl) as (_ & He & _ & Hdata).
  destruct (long_form_guards d Hd) as (_ & _ & _ & _ & _ & Hz).
  unfold checkMinimalDataPush. rewrite Hdata. cbn [contents]. rewrite (decide_False (P := _ /\ _)) by tauto.
  pose proof (push_pop_long_value d He) as Hv.
  rewrite Hv. unfold long_header. zlen_facts.
  destruct d as [|x [|y d]]; [done| |].
  - destruct (proj2 Hd x eq_refl). rewrite !decide_False by lia. by rewrite decide_True by (by vm_compute).
  - repeat (case_decide; [try lia|]); cbn [hd]; rewrite ?bool_decide_true by done; try done; lia.
Qed.

Lemma push_pop_exec {C : Crypto} d vm :
  wf_bytes d -> zlen d <= MaxScriptElementSize -> isBranchExecuting vm = true ->
  executeOpcode (push_pop d) vm = (Ok (), push (pushed d) vm).
Proof.
  unfold MaxScriptElementSize. intros Hwf Hlen Hbr.
  destruct (push_view_long d (push_cases d Hwf)) as [H|[(x & -> & Hx)|[->|H]]].
  - unfold push_pop. rewrite (decide_True _ _ H). change (executeOpcode (op_pop OP_0) vm = (Ok (), push (pushed d) vm)).
    rewrite executeOpcode_push by (done || by vm_compute).
    rewrite <- on_dstack_push. by destruct H as [-> | ->].
  - destruct (opc_small (OP_1 - 1 + x)) as [(_ & Hv & _) Hf]; [lia|].
    rewrite push_pop_small by done.
    rewrite executeOpcode_push; cbn [op_pop pop_opcode data contents]; rewrite ?Hv;
      try (unfold is_byte; (done || lia)).
    rewrite Hf. cbn [exec_opfunc]. unfold opcodeN. cbn [op_pop pop_opcode]. rewrite Hv.
    replace (OP_1 - 1 + x - (OP_1 - 1)) with x by lia. rewrite u8_id by (unfold is_byte; lia).
    rewrite (on_dstack_pushint x [x]) by by apply scriptNum_Bytes_small.
    unfold pushed. by rewrite decide_False by (intros [=]; lia).
  - change (push_pop [0x81]) with (op_pop OP_1NEGATE). rewrite executeOpcode_push by (done || by vm_compute).
    by rewrite <- (on_dstack_pushint (-1) [0x81]) by by vm_compute.
  - destruct (push_pop_long d H Hwf ltac:(lia)) as ((Hb & _) & He & Hf & Hdata).
    pose proof (long_header_value d H ltac:(lia)) as Hhv.
    pose proof (push_pop_long_value d He) as Hv.
    unfold MaxScriptElementSize.
    rewrite executeOpcode_push; [|done|lia|by rewrite Hdata|done|intros _; apply long_minimal; (done || lia)].
    rewrite Hf. cbn [exec_opfunc]. unfold opcodePushData. rewrite Hdata, on_dstack_push. cbn [contents].
    unfold pushed. rewrite decide_False; [done|]. intros ->. destruct (proj2 H 0 eq_refl). lia.
Qed.

(** ** The builder *)

Lemma parse_one_pop pop : wf_pop opcodeArray pop -> parseScript (encode pop) = Some ([pop], None).
Proof.
  intros Hp. rewrite <- encode_all_1. apply parse_encode_all. by constructor.
Qed.

(** [AddData] appends exactly one instruction, of [canonicalDataSize] bytes;
    the engine executes it, in any state whose branch is executing and whatever
    the flags, by pushing the data (the empty string for a single zero byte, which
    is written as OP_0). *)
Theorem AddData_pushes {C : Crypto} d b :
  wf_bytes d -> err b = None ->
  zlen (script b) + canonicalDataSize d <= MaxScriptSize -> zlen d <= MaxScriptElementSize ->
  exists ins pop, AddData d b = mkBuilder (script b ++ ins) None /\ zlen ins = canonicalDataSize d /\
    parseScript ins = Some ([pop], None) /\
    forall vm, isBranchExecuting vm = true -> executeOpcode pop vm = (Ok (), push (pushed d) vm).
Proof.
  intros Hwf He Hs Hd. unfold AddData. rewrite He, !decide_False by (congruence || lia).
  destruct (push_pop_spec d b Hwf) as (Hp & -> & ->); [unfold MaxScriptElementSize in *; lia|].
  exists (encode (push_pop d)), (push_pop d). unfold append. rewrite He. split_and!; try done.
  - by apply parse_one_pop.
  - intros vm. by apply push_pop_exec.
Qed.

Lemma AddData_pushes_witness :
  exists ins pop, AddData [7; 0; 9] (AddOp OP_DUP NewScriptBuilder) = mkBuilder ([OP_DUP] ++ ins) None /\
    zlen ins = 4 /\ parseScript ins = Some ([pop], None) /\
    @executeOpcode toy_crypto pop zero_Engine = (Ok (), push [7; 0; 9] zero_Engine).
Proof.
  destruct (@AddData_pushes toy_crypto [7; 0; 9] (AddOp OP_DUP NewScriptBuilder)) as (ins & pop & H1 & H2 & H3 & H4).
  - by apply (bool_decide_unpack _).
  - reflexivity.
  - by vm_compute.
  - by vm_compute.
  - exists ins, pop. split_and!; [exact H1|exact H2|exact H3|]. apply (H4 zero_Engine). reflexivity.
Defined.

(** Adding an integer is adding its serialisation, except for -1 which the code
    also writes as an opcode. *)

Lemma AddInt64_AddData n v b :
  -2 ^ 63 < n < 2 ^ 63 -> scriptNum_Bytes n = Ok v ->
  err b <> None \/ zlen (script b) + 1 <= MaxScriptSize -> AddInt64 n b = Ok (AddData v b).
Proof.
  intros Hn Hv Hb. unfold AddInt64. rewrite Hv.
  destruct (decide (err b <> None)) as [He|He]; [unfold AddData; by rewrite decide_True|].
  rewrite decide_False by (destruct Hb; [done|lia]).
  destruct (decide (n = 0)) as [->|Hz].
  { vm_compute in Hv. injection Hv as <-. unfold AddData. rewrite decide_False by done.
    by rewrite decide_False by (destruct Hb; [done|]; change (canonicalDataSize []) with 1; lia). }
  destruct (decide (n = -1 \/ _)) as [Hs|Hs]; [|done].
  assert (exists x, v = [x] /\ (n = -1 /\ x = 0x81 \/ 1 <= n <= 16 /\ x = n)) as (x & -> & Hx).
  { destruct Hs as [->|Hs]; [vm_compute in Hv; injection Hv as <-; eexists; split; [done|by left]|].
    rewrite scriptNum_Bytes_small in Hv by lia. injection Hv as <-. exists n. split; [done|right; split; [lia|done]]. }
  assert (canonicalDataSize [x] = 1) as Hsize.
  { unfold canonicalDataSize. rewrite decide_False by done. cbn [hd].
    destruct Hx as [[-> ->]|[Hr ->]]; [done|]. by rewrite decide_True by (split; [done|lia]). }
  unfold AddData. rewrite Hsize, !decide_False by (destruct Hb; (done || lia)).
  unfold addData. cbn [hd].
  destruct Hx as [[-> ->]|[Hr ->]]; [done|].
  rewrite decide_False by (intros [?|[_ ?]]; [done|lia]). by rewrite decide_True by (split; [done|lia]).
Qed.

(** [AddInt64] appends one instruction that pushes the serialisation of the
    number, which the engine reads back as that number; it panics exactly for the
    smallest [int64], on a builder with room and no error. *)
Theorem AddInt64_pushes {C : Crypto} n b :
  -2 ^ 63 <= n < 2 ^ 63 -> err b = None -> zlen (script b) + 10 <= MaxScriptSize ->
  if decide (n = -2 ^ 63) then AddInt64 n b = Panic else
  exists ins pop v, AddInt64 n b = Ok (mkBuilder (script b ++ ins) None) /\
    parseScript ins = Some ([pop], None) /\ makeScriptNum v true 8 = Ok n /\
    forall vm, isBranchExecuting vm = true -> executeOpcode pop vm = (Ok (), push v vm).
Proof.
  intros Hn He Hs. case_decide as Hmin.
  { subst n. unfold AddInt64. rewrite He, !decide_False by (unfold MaxScriptSize in *; (congruence || lia)).
    by rewrite scriptNum_Bytes_min. }
  destruct (scriptNum_decode n 8 true) as (v & Hv & Hwf & Hl & Hd); [lia|lia|].
  rewrite (AddInt64_AddData n v) by (done || (right; lia) || lia).
  assert (canonicalDataSize v <= 9 /\ v <> [0]) as [Hc Hv0].
  { split; [unfold canonicalDataSize; zlen_facts; repeat case_decide; lia|].
    intros ->. vm_compute in Hd. done. }
  destruct (push_pop_spec v b Hwf) as (Hp & Ha & Hs'); [lia|].
  unfold AddData. rewrite He, Ha, !decide_False by (unfold MaxScriptElementSize in *; (congruence || lia)).
  exists (encode (push_pop v)), (push_pop v), v. unfold append. rewrite He. split_and!; try done.
  - by apply parse_one_pop.
  - intros vm Hbr. rewrite push_pop_exec by (done || (unfold MaxScriptElementSize; lia)).
    unfold pushed. by rewrite decide_False.
Qed.

Lemma AddInt64_pushes_witness :
  exists ins pop v, AddInt64 (-1000) NewScriptBuilder = Ok (mkBuilder ([] ++ ins) None) /\
    parseScript ins = Some ([pop], None) /\ makeScriptNum v true 8 = Ok (-1000) /\
    forall vm, isBranchExecuting vm = true -> @executeOpcode toy_crypto pop vm = (Ok (), push v vm).
Proof.
  apply (@AddInt64_pushes toy_crypto (-1000) NewScriptBuilder); [lia|reflexivity|by vm_compute].
Defined.

(** ** Sequences of calls *)

Inductive call : Set :=
  | CallOp (v : Z)
  | CallData (d : bytes)
  | CallInt (n : Z).

Definition call_ok (c : call) : Prop :=
  match c with
  | CallOp v => is_byte v /\ is_op v
  | CallData d => wf_bytes d
  | CallInt n => -2 ^ 63 < n < 2 ^ 63
  end.

Definition run_call (c : call) (b : ScriptBuilder) : outcome ErrorCode ScriptBuilder :=
  match c with
  | CallOp v => Ok (AddOp v b)
  | CallData d => Ok (AddData d b)
  | CallInt n => AddInt64 n b
  end.

Fixpoint run_calls (cs : list call) (b : ScriptBuilder) : outcome ErrorCode ScriptBuilder :=
  match cs with
  | [] => Ok b
  | c :: cs => b ← run_call c b; run_calls cs b
  end.

(** The instruction a call adds. *)

Definition instr (c : call) : parsedOpcode :=
  match c with
  | CallOp v => op_pop v
  | CallData d => push_pop d
  | CallInt n => push_pop (match scriptNum_Bytes n with Ok v => v | _ => [] end)
  end.

(** A call adds its instruction, or sets the error, or finds it already set; and
    the script stays within the limit. *)

Lemma AddData_call d b :
  wf_bytes d -> err b = None -> zlen (script b) <= MaxScriptSize ->
  wf_pop opcodeArray (push_pop d) /\ zlen (script b ++ encode (push_pop d)) <= MaxScriptSize /\
    AddData d b = append b (encode (push_pop d)) \/
  exists e, AddData d b = set_err b e.
Proof.
  intros Hwf He Hs. unfold AddData. rewrite He, decide_False by congruence.
  case_decide as H1; [right; eauto|]. case_decide as H2; [right; eauto|].
  destruct (push_pop_spec d b Hwf) as (Hp & Ha & Hc); [unfold MaxScriptElementSize in *; lia|].
  left. rewrite zlen_app. split_and!; [done|lia|done].
Qed.

Lemma run_call_spec c b :
  call_ok c -> zlen (script b) <= MaxScriptSize ->
  exists b', run_call c b = Ok b' /\
    match err b with
    | Some _ => b' = b
    | None => wf_pop opcodeArray (instr c) /\ zlen (script b ++ encode (instr c)) <= MaxScriptSize /\
                b' = append b (encode (instr c)) \/
              exists e, b' = set_err b e
    end.
Proof.
  intros Hc Hs. destruct c as [v|d|n]; cbn [run_call instr call_ok] in *.
  - eexists. split; [done|]. destruct Hc as [Hb Hv]. unfold AddOp.
    destruct (err b) eqn:He; [by rewrite decide_True|]. rewrite decide_False by congruence.
    case_decide; [right; eauto|left]. rewrite is_op_encode, zlen_snoc by done.
    split_and!; [by apply is_op_wf|lia|done].
  - eexists. split; [done|]. destruct (err b) eqn:He; [unfold AddData; by rewrite He, decide_True|].
    by apply AddData_call.
  - destruct (scriptNum_decode n 8 true) as (v & Hv & Hwf & _); [lia|lia|]. rewrite Hv.
    destruct (decide (err b = None /\ zlen (script b) + 1 > MaxScriptSize)) as [[He Hfull]|Hroom].
    + exists (set_err b IntegerExceeds). rewrite He. split; [|right; eauto].
      unfold AddInt64. by rewrite He, decide_False, decide_True by (congruence || lia).
    + assert (err b <> None \/ zlen (script b) + 1 <= MaxScriptSize) as Hr.
      { destruct (err b); [by left|right]. apply Z.nlt_ge. intros Hlt. apply Hroom. split; [done|lia]. }
      rewrite (AddInt64_AddData n v) by done. eexists. split; [done|]. destruct (err b) eqn:He; [unfold AddData; by rewrite He, decide_True|].
      by apply AddData_call.
Qed.

(** Calls that fit. *)

Definition fits (c : call) : Prop := match c with CallData d => zlen d <= MaxScriptElementSize | _ => True end.

Lemma run_call_fit c b :
  call_ok c -> fits c -> err b = None -> zlen (script b ++ encode (instr c)) <= MaxScriptSize ->
  wf_pop opcodeArray (instr c) /\ run_call c b = Ok (append b (encode (instr c))).
Proof.
  intros Hc Hf He Hs. rewrite zlen_app in Hs. pose proof (encode_nonempty (instr c)).
  assert (forall d, wf_bytes d -> zlen d <= MaxScriptElementSize ->
    zlen (script b) + zlen (encode (push_pop d)) <= MaxScriptSize ->
    wf_pop opcodeArray (push_pop d) /\ Ok (E := ErrorCode) (AddData d b) = Ok (append b (encode (push_pop d)))) as HD.
  { intros d Hwf Hd Hl. unfold AddData. destruct (push_pop_spec d b Hwf) as (Hp & Ha & Hsz);
      [unfold MaxScriptElementSize in *; lia|].
    rewrite He, Ha, !decide_False by (congruence || lia). done. }
  destruct c as [v|d|n]; cbn [run_call instr call_ok fits] in *.
  - destruct Hc as [Hb Hv]. unfold AddOp. rewrite is_op_encode in * by done.
    rewrite He, !decide_False by (congruence || (rewrite zlen_cons, (@zlen_nil Z) in *; lia)).
    split; [by apply is_op_wf|done].
  - by apply HD.
  - destruct (scriptNum_decode n 8 true) as (v & Hv & Hwf & Hl & _); [lia|lia|]. rewrite Hv in *.
    rewrite (AddInt64_AddData n v) by (done || lia || (right; lia)). apply HD; try done.
    unfold MaxScriptElementSize. lia.
Qed.

Lemma run_calls_fit cs b :
  Forall call_ok cs -> Forall fits cs -> err b = None ->
  zlen (script b) + zlen (encode_all (instr <$> cs)) <= MaxScriptSize ->
  Forall (wf_pop opcodeArray) (instr <$> cs) /\ run_calls cs b = Ok (append b (encode_all (instr <$> cs))).
Proof.
  intros Hcs. revert b. induction Hcs as [|c cs Hc Hcs IH]; intros b Hf He Hs; cbn [run_calls fmap list_fmap] in *.
  { split; [constructor|]. unfold append. change (encode_all []) with (@nil Z). rewrite app_nil_r. by destruct b. }
  apply Forall_cons in Hf as [Hf Hfs]. rewrite encode_all_cons, zlen_app in Hs.
  destruct (run_call_fit c b Hc Hf He) as [Hp ->]; [rewrite zlen_app; zlen_lia|]. rewrite outcome_bind_ok.
  destruct (IH (append b (encode (instr c)))) as [Hall ->]; [done|done|cbn [append script]; rewrite zlen_app; lia|].
  split; [by constructor|]. unfold append. cbn [script err]. by rewrite encode_all_cons, <- app_assoc.
Qed.

Lemma push_size d : wf_bytes d -> zlen d < 2 ^ 32 -> zlen (encode (push_pop d)) <= zlen d + 5.
Proof.
  intros Hwf Hl. destruct (push_pop_spec d NewScriptBuilder Hwf Hl) as (_ & _ & <-).
  unfold canonicalDataSize. zlen_facts. repeat case_decide; lia.
Qed.

Lemma push_pop_direct d : 2 <= zlen d <= 75 -> push_pop d = mkPop (opc (zlen d)) (Some d).
Proof.
  intros Hd. destruct (long_form_guards d) as (H0 & _ & H2 & _ & H5 & _); [apply long_form_2; lia|].
  unfold push_pop. by rewrite !decide_False, decide_True by (done || lia).
Qed.

Definition built (done_ : list call) (b : ScriptBuilder) : Prop :=
  zlen (script b) <= MaxScriptSize /\ Forall (wf_pop opcodeArray) (instr <$> done_) /\
  script b = encode_all (instr <$> done_).

Lemma run_calls_spec cs done_ b :
  Forall call_ok cs -> built done_ b ->
  exists b' now later, run_calls cs b = Ok b' /\ cs = now ++ later /\ built (done_ ++ now) b' /\
    (err b' = None <-> err b = None /\ later = []) /\ (err b <> None -> now = []).
Proof.
  intros Hcs. revert done_ b. induction Hcs as [|c cs Hc Hcs IH]; intros done_ b Hb; cbn [run_calls].
  { exists b, [], []. rewrite (app_nil_r done_). split_and!; try done. by split; [|intros [? _]]. }
  destruct Hb as (Hs & Hall & Hscr). destruct (run_call_spec c b Hc Hs) as (b1 & -> & Hb1).
  rewrite outcome_bind_ok. destruct (err b) as [e|] eqn:He.
  - subst b1. destruct (IH done_ b) as (b' & now & later & -> & -> & Hb' & Hiff & Hnow); [by split_and!|].
    rewrite He in *. rewrite (Hnow ltac:(done)) in *. exists b', [], (c :: later). split_and!; try done.
    rewrite Hiff. split; [intros []; done|intros [? [=]]].
  - destruct Hb1 as [(Hp & Hl & ->)|[e ->]].
    + destruct (IH (done_ ++ [c]) (append b (encode (instr c)))) as (b' & now & later & -> & -> & Hb' & Hiff & Hnow).
      { unfold built, append. cbn [script]. rewrite fmap_app, encode_all_app. cbn [fmap list_fmap].
        rewrite encode_all_1, Hscr. rewrite Hscr in Hl. split_and!; [done| |done]. by apply Forall_app; split; [|constructor]. }
      exists b', (c :: now), later. rewrite <- app_assoc in Hb'. cbn [append err] in Hiff. rewrite He in Hiff.
      split_and!; done.
    + destruct (IH done_ (set_err b e)) as (b' & now & later & -> & -> & Hb' & Hiff & Hnow); [by split_and!|].
      rewrite (Hnow ltac:(done)) in *. exists b', [], (c :: later). cbn [app]. split_and!; try done.
      rewrite Hiff. cbn [set_err err]. split; [intros []; done|intros [? [=]]].
Qed.

(** a sequence of calls on a new builder never panics, keeps the script within
    [MaxScriptSize], and yields a script that parses, completely, to the
    instructions of the calls before the first one that failed: of all the calls
    exactly when [Script] reports no error. *)
Theorem builder_parses cs :
  Forall call_ok cs ->
  exists b now later, run_calls cs NewScriptBuilder = Ok b /\ cs = now ++ later /\
    zlen (script b) <= MaxScriptSize /\
    parseScript (script b) = Some (instr <$> now, None) /\ (err b = None <-> later = []).
Proof.
  intros Hcs. destruct (run_calls_spec cs [] NewScriptBuilder Hcs) as (b & now & later & Hr & Hcat & (Hs & Hall & Hscr) & Hiff & _).
  { split_and!; [by vm_compute|constructor|done]. }
  exists b, now, later. cbn [app] in *. split_and!; try done; [rewrite Hscr; by apply parse_encode_all|].
  rewrite Hiff. cbn. by split; [intros []|].
Qed.

Lemma builder_parses_witness :
  exists b now later,
    run_calls [CallInt 2; CallData (replicate 33 7); CallInt 1; CallOp OP_CHECKMULTISIG] NewScriptBuilder = Ok b /\
    [CallInt 2; CallData (replicate 33 7); CallInt 1; CallOp OP_CHECKMULTISIG] = now ++ later /\
    zlen (script b) <= MaxScriptSize /\
    parseScript (script b) = Some (instr <$> now, None) /\ (err b = None <-> later = []).
Proof.
  apply builder_parses. repeat constructor; try (by vm_compute); by apply (bool_decide_unpack _).
Defined.
