(* ===== verification/ScriptStandard.v ===== *)
(** * Standard scripts

    [tokenengine/internal/txscript/standard.go], the classes of scripts, their
    generators and the extraction of addresses, and the generators of
    [tokenengine/api.go] that the rest of the node calls.

    A Go function that returns a script and an error returns a pair here; a nil
    script is the empty one.  [CalcScriptInfo] is commented out in the source. *)

From S2P Require Import Prelude Digits ScriptErrors ScriptNum ScriptStack Opcodes ScriptParse.
From S2P Require Import HexUtil Transaction Crypto Address OpcodeExec ScriptEngine ScriptBuilder.

#[local] Open Scope Z_scope.

Abbreviation MaxDataCarrierSize := 80 (only parsing).

Inductive ScriptClass : Set :=
  | NonStandardTy
  | PubKeyTy
  | PubKeyHashTy
  | WitnessV0PubKeyHashTy
  | ScriptHashTy
  | WitnessV0ScriptHashTy
  | MultiSigTy
  | NullDataTy
  | ContractHashTy.

#[export] Instance ScriptClass_eq_dec : EqDecision ScriptClass.
Proof. solve_decision. Defined.

Definition scriptClassToName : list string :=
  ["nonstandard"; "pubkey"; "pubkeyhash"; "witness_v0_keyhash"; "scripthash";
   "witness_v0_scripthash"; "multisig"; "nulldata"; "contracthash"]%string.

(** [ScriptClass.String] on the underlying byte. *)

Definition ScriptClass_String (t : Z) : outcome unit string :=
  if decide (t > zlen scriptClassToName \/ t < 0) then Ok "Invalid"%string
  else goidx scriptClassToName t.

Definition isPubkey (pops : list parsedOpcode) : bool :=
  match pops with
  | [p0; p1] =>
      bool_decide ((zlen (contents (data p0)) = 33 \/ zlen (contents (data p0)) = 65) /\
                   value (pop_opcode p1) = OP_CHECKSIG)
  | _ => false
  end.

Definition isPubkeyHash (pops : list parsedOpcode) : bool :=
  values_are pops [OP_DUP; OP_HASH160; OP_DATA_20; OP_EQUALVERIFY; OP_CHECKSIG].

(** The indices are in range when there are four instructions. *)

Definition isMultiSig (pops : list parsedOpcode) : bool :=
  let l := zlen pops in
  if decide (l < 4) then false else
  match pops !! 0%nat, pops !! Z.to_nat (l - 2), pops !! Z.to_nat (l - 1) with
  | Some p0, Some pn, Some pc =>
      if negb (isSmallInt (pop_opcode p0)) then false else
      if negb (isSmallInt (pop_opcode pn)) then false else
      if decide (value (pop_opcode pc) <> OP_CHECKMULTISIG) then false else
      if decide (l - 2 - 1 <> asSmallInt (pop_opcode pn)) then false else
      forallb (fun pop => bool_decide (zlen (contents (data pop)) = 33 \/ zlen (contents (data pop)) = 65))
        (take (Z.to_nat (l - 2 - 1)) (drop 1 pops))
  | _, _, _ => false
  end.

Definition isNullData (pops : list parsedOpcode) : bool :=
  match pops with
  | [p0] => bool_decide (value (pop_opcode p0) = OP_RETURN)
  | [p0; p1] =>
      bool_decide (value (pop_opcode p0) = OP_RETURN) &&
      (isSmallInt (pop_opcode p1) || bool_decide (value (pop_opcode p1) <= OP_PUSHDATA4)) &&
      bool_decide (zlen (contents (data p1)) <= MaxDataCarrierSize)
  | _ => false
  end.

Definition typeOfScript (pops : list parsedOpcode) : ScriptClass :=
  if isPubkey pops then PubKeyTy
  else if isPubkeyHash pops then PubKeyHashTy
  else if isContractHash pops then ContractHashTy
  else if isWitnessPubKeyHash pops then WitnessV0PubKeyHashTy
  else if isScriptHash pops then ScriptHashTy
  else if isWitnessScriptHash pops then WitnessV0ScriptHashTy
  else if isMultiSig pops then MultiSigTy
  else if isNullData pops then NullDataTy
  else NonStandardTy.

Definition GetScriptClass (script : bytes) : outcome ErrorCode ScriptClass :=
  match parseScript_or_err script with
  | Ok pops => Ok (typeOfScript pops)
  | Err _ => Ok NonStandardTy
  | Panic => Panic
  end.

Definition expectedInputs (pops : list parsedOpcode) (class : ScriptClass) : outcome ErrorCode Z :=
  match class with
  | PubKeyTy => Ok 1
  | PubKeyHashTy => Ok 2
  | WitnessV0PubKeyHashTy => Ok 2
  | ScriptHashTy => Ok 1
  | WitnessV0ScriptHashTy => Ok 1
  | MultiSigTy => p0 ← goidx pops 0; Ok (asSmallInt (pop_opcode p0) + 1)
  | _ => Ok (-1)
  end.

(** The numbers of public keys and of signatures. *)

Definition CalcMultiSigStats (script : bytes) : outcome ErrorCode (Z * Z) :=
  pops ← parseScript_or_err script;
  if decide (zlen pops < 4) then Err ErrNotMultisigScript else
  p0 ← goidx pops 0;
  pn ← goidx pops (zlen pops - 2);
  Ok (asSmallInt (pop_opcode pn), asSmallInt (pop_opcode p0)).

(** ** Generators *)

Definition payToPubKeyHashScript (pubKeyHash : bytes) :=
  Script (AddOp OP_CHECKSIG (AddOp OP_EQUALVERIFY (AddData pubKeyHash
    (AddOp OP_HASH160 (AddOp OP_DUP NewScriptBuilder))))).

Definition payToWitnessPubKeyHashScript (pubKeyHash : bytes) :=
  Script (AddData pubKeyHash (AddOp OP_0 NewScriptBuilder)).

Definition payToScriptHashScript (scriptHash : bytes) :=
  Script (AddOp OP_EQUAL (AddData scriptHash (AddOp OP_HASH160 NewScriptBuilder))).

Definition payToWitnessScriptHashScript (scriptHash : bytes) :=
  Script (AddData scriptHash (AddOp OP_0 NewScriptBuilder)).

Definition payToPubKeyScript (serializedPubKey : bytes) :=
  Script (AddOp OP_CHECKSIG (AddData serializedPubKey NewScriptBuilder)).

Definition payToContractHash (serializedPubKey : bytes) :=
  Script (AddOp OP_JURY_REDEEM_EQUAL (AddData serializedPubKey NewScriptBuilder)).

(** The errors a generator returns: the builder's or a script error. *)

Inductive genError : Set :=
  | BuilderError (e : NotCanonical)
  | ScriptError (c : ErrorCode).

Definition built_script (r : bytes * option NotCanonical) : bytes * option genError :=
  (r.1, BuilderError <$> r.2).

Definition PayToAddrScript (addr : Address) : bytes * option genError :=
  if decide (GetType addr = PublicKeyHash) then built_script (payToPubKeyHashScript (Address_Bytes addr))
  else if decide (GetType addr = ScriptHash) then built_script (payToScriptHashScript (Address_Bytes addr))
  else if decide (GetType addr = ContractHash) then built_script (payToContractHash (Address_Bytes addr))
  else ([], Some (ScriptError ErrUnsupportedAddress)).

Definition NullDataScript (data : bytes) : bytes * option genError :=
  if decide (zlen data > MaxDataCarrierSize) then ([], Some (ScriptError ErrTooMuchNullData))
  else built_script (Script (AddData data (AddOp OP_RETURN NewScriptBuilder))).

(** [for _, x := range xs { builder.AddData(x) }] *)

Definition AddDatas (xs : list bytes) (b : ScriptBuilder) : ScriptBuilder :=
  foldl (fun b x => AddData x b) b xs.

Definition pushed_by (pop : parsedOpcode) : option (option bytes) :=
  match data pop with
  | Some d => Some (Some d)
  | None => if decide (value (pop_opcode pop) = OP_0) then Some None else None
  end.

Definition PushedData (script : bytes) : outcome ErrorCode (list (option bytes)) :=
  pops ← parseScript_or_err script;
  Ok (omap (M := list) pushed_by pops).

Section Keys.
Context `{C : Crypto}.

Definition MultiSigScript (pubkeys : list PublicKey) (nrequired : Z)
    : outcome ErrorCode (bytes * option genError) :=
  if decide (zlen pubkeys < nrequired) then Ok ([], Some (ScriptError ErrTooManyRequiredSigs)) else
  builder ← AddInt64 nrequired NewScriptBuilder;
  let builder := AddDatas (CompressPubkey <$> pubkeys) builder in
  builder ← AddInt64 (zlen pubkeys) builder;
  Ok (built_script (Script (AddOp OP_CHECKMULTISIG builder))).

(** [for i := 0; i < n; i++ { addrs = append(addrs, f(pops[i+1].data)) }] *)

Fixpoint multisig_addrs (n : nat) (i : Z) (pops : list parsedOpcode) : outcome ErrorCode (list Address) :=
  match n with
  | O => Ok []
  | S n =>
      pop ← goidx pops (i + 1);
      rest ← multisig_addrs n (i + 1) pops;
      Ok (PubkeyBytesToAddress (contents (data pop)) :: rest)
  end.

(** The class, the addresses and the number of signatures required; on a parse
    error the class is non-standard and there are none. *)

Definition ExtractPkScriptAddrs (pkScript : bytes) : outcome ErrorCode (ScriptClass * list Address * Z) :=
  pops ← parseScript_or_err pkScript;
  let scriptClass := typeOfScript pops in
  match scriptClass with
  | PubKeyHashTy =>
      p ← goidx pops 2;
      Ok (scriptClass, [NewAddress (contents (data p)) PublicKeyHash], 1)
  | ScriptHashTy =>
      p ← goidx pops 1;
      Ok (scriptClass, [NewAddress (contents (data p)) ScriptHash], 1)
  | ContractHashTy =>
      p ← goidx pops 0;
      Ok (scriptClass, [NewAddress (contents (data p)) ContractHash], 1)
  | MultiSigTy =>
      p0 ← goidx pops 0;
      pn ← goidx pops (zlen pops - 2);
      let numPubKeys := asSmallInt (pop_opcode pn) in
      addrs ← multisig_addrs (Z.to_nat numPubKeys) 0 pops;
      Ok (scriptClass, addrs, asSmallInt (pop_opcode p0))
  | _ => Ok (scriptClass, [], 0)
  end.

(** ** [tokenengine/api.go] *)

Definition GenerateP2PKHLockScript (pubKeyHash : bytes) : bytes :=
  (Script (AddOp OP_CHECKSIG (AddOp OP_EQUALVERIFY (AddData pubKeyHash
    (AddOp OP_HASH160 (AddOp OP_DUP NewScriptBuilder)))))).1.

Definition GenerateP2SHLockScript (redeemScriptHash : bytes) : bytes :=
  (Script (AddOp OP_EQUAL (AddData redeemScriptHash (AddOp OP_HASH160 NewScriptBuilder)))).1.

Definition GenerateP2CHLockScript (contractId : Address) : bytes :=
  (Script (AddOp OP_JURY_REDEEM_EQUAL (AddData (Address_Bytes contractId) NewScriptBuilder))).1.

(** A non-standard script, and one without exactly one address, yield the zero
    address and no error. *)

Definition GetAddressFromScript (lockScript : bytes) : outcome ErrorCode Address :=
  '(scriptClass, addrs, _) ← ExtractPkScriptAddrs lockScript;
  if decide (scriptClass = NonStandardTy) then Ok zero_Address else
  if decide (zlen addrs <> 1) then Ok zero_Address else
  goidx addrs 0.

Definition GenerateRedeemScript (needed : Z) (pubKeys : list bytes) : bytes :=
  if decide (needed = 0) then [] else
  match pubKeys with
  | [pubKey] => (Script (AddOp OP_CHECKSIG (AddData pubKey NewScriptBuilder))).1
  | _ =>
      let builder := AddOp (u8 (needed + 80)) NewScriptBuilder in
      let builder := AddDatas pubKeys builder in
      (Script (AddOp OP_CHECKMULTISIG (AddOp (u8 (zlen pubKeys + 80)) builder))).1
  end.

Definition GenerateLockScript (address : Address) : bytes := (PayToAddrScript address).1.

Definition GenerateP2PKHUnlockScript (sign pubKey : bytes) : bytes :=
  (Script (AddData pubKey (AddData sign NewScriptBuilder))).1.

Definition GenerateP2SHUnlockScript (signs : list bytes) (redeemScript : bytes) : bytes :=
  (Script (AddData redeemScript (AddDatas signs NewScriptBuilder))).1.

Definition GenerateP2CHUnlockScript (signs : list bytes) (redeemScript : bytes) (version : Z)
    : outcome ErrorCode bytes :=
  builder ← AddInt64 version (AddData redeemScript (AddDatas signs NewScriptBuilder));
  Ok (Script builder).1.

End Keys.

(** ** Atomic swap contracts *)

Record AtomicSwapDataPushes := mkSwap {
  RecipientHash160 : bytes;
  RefundHash160 : bytes;
  SecretHash : bytes;
  SecretSize : Z;
  swap_LockTime : Z
}.

(** The opcode each position must hold; [None] is any canonical push. *)

Definition swap_template : list (option Z) :=
  [Some OP_IF; Some OP_SIZE; None; Some OP_EQUALVERIFY; Some OP_SHA256; Some OP_DATA_32;
   Some OP_EQUALVERIFY; Some OP_DUP; Some OP_HASH160; Some OP_DATA_20; Some OP_ELSE; None;
   Some OP_CHECKLOCKTIMEVERIFY; Some OP_DROP; Some OP_DUP; Some OP_HASH160; Some OP_DATA_20;
   Some OP_ENDIF; Some OP_EQUALVERIFY; Some OP_CHECKSIG].

Definition isAtomicSwap (pops : list parsedOpcode) : bool :=
  forallb (fun '(pop, t) =>
    match t with
    | Some v => bool_decide (value (pop_opcode pop) = v)
    | None => canonicalPush pop
    end) (zip pops swap_template).

(** The number an instruction pushes: [None] when it is not one. *)

Definition swap_number (pop : parsedOpcode) : outcome ErrorCode (option Z) :=
  match data pop with
  | Some d =>
      match makeScriptNum d true 5 with
      | Ok n => Ok (Some n)
      | Err _ => Ok None
      | Panic => Panic
      end
  | None => if isSmallInt (pop_opcode pop) then Ok (Some (asSmallInt (pop_opcode pop))) else Ok None
  end.

(** [None] when the script is not an atomic swap contract. *)

Definition ExtractAtomicSwapDataPushes (pkScript : bytes) : outcome ErrorCode (option AtomicSwapDataPushes) :=
  pops ← parseScript_or_err pkScript;
  if decide (zlen pops <> 20) then Ok None else
  if negb (isAtomicSwap pops) then Ok None else
  p5 ← goidx pops 5; p9 ← goidx pops 9; p16 ← goidx pops 16;
  p2 ← goidx pops 2; p11 ← goidx pops 11;
  size ← swap_number p2;
  match size with
  | None => Ok None
  | Some size =>
      lock ← swap_number p11;
      match lock with
      | None => Ok None
      | Some lock =>
          Ok (Some (mkSwap (gocopy (replicate 20 0) (contents (data p9)))
                           (gocopy (replicate 20 0) (contents (data p16)))
                           (gocopy (replicate 32 0) (contents (data p5))) size lock))
      end
  end.

(** ** The instructions of the generated scripts *)

Definition p2pkh_pops (h : bytes) : list parsedOpcode :=
  [op_pop OP_DUP; op_pop OP_HASH160; push_pop h; op_pop OP_EQUALVERIFY; op_pop OP_CHECKSIG].
Definition p2sh_pops (h : bytes) : list parsedOpcode := [op_pop OP_HASH160; push_pop h; op_pop OP_EQUAL].
Definition p2ch_pops (h : bytes) : list parsedOpcode := [push_pop h; op_pop OP_JURY_REDEEM_EQUAL].

(** [gen pops r]: the generator returned the encoding of [pops] and no error. *)

Definition gen (pops : list parsedOpcode) (r : bytes * option NotCanonical) : Prop :=
  Forall (wf_pop opcodeArray) pops /\ r = (encode_all pops, None).

Lemma gen_calls cs b :
  run_calls cs NewScriptBuilder = Ok b -> Forall call_ok cs -> Forall fits cs ->
  zlen (encode_all (instr <$> cs)) <= MaxScriptSize -> gen (instr <$> cs) (Script b).
Proof.
  intros Hr Hok Hf Hs. destruct (run_calls_fit cs NewScriptBuilder Hok Hf eq_refl) as [Hp Hb]; [done|].
  rewrite Hr in Hb. injection Hb as ->. by split.
Qed.

Lemma op_call_ok v : bool_decide (is_byte v /\ is_op v) = true -> call_ok (CallOp v).
Proof. by rewrite bool_decide_eq_true. Qed.

(** Discharges the side conditions of [gen_calls] for a literal list of calls whose
    data are shorter than a stack element. *)

Lemma encode_all_small pops : Forall (fun p => zlen (encode p) <= 525) pops -> zlen (encode_all pops) <= 525 * zlen pops.
Proof.
  induction 1 as [|p pops Hp Hps IH]; [done|]. rewrite encode_all_cons, zlen_app, zlen_cons. lia.
Qed.

Lemma op_pop_small v : call_ok (CallOp v) -> zlen (encode (op_pop v)) <= 525.
Proof. intros [_ Hv]. by rewrite is_op_encode. Qed.

Lemma push_pop_small525 d : wf_bytes d -> zlen d <= 520 -> zlen (encode (push_pop d)) <= 525.
Proof. intros Hwf Hl. pose proof (push_size d Hwf ltac:(lia)). lia. Qed.

Ltac gen_tac :=
  apply gen_calls; [reflexivity| | |];
  [repeat constructor; first [by apply op_call_ok; vm_compute|done]
  |repeat constructor; done
  |etrans; [apply encode_all_small; repeat constructor; cbn [fmap list_fmap instr];
            first [by apply op_pop_small, op_call_ok; vm_compute|by apply push_pop_small525]
           |by vm_compute]].

Lemma payToPubKeyHashScript_gen h :
  wf_bytes h -> zlen h <= 520 -> gen (p2pkh_pops h) (payToPubKeyHashScript h).
Proof.
  intros Hwf Hl. unfold payToPubKeyHashScript.
  change (p2pkh_pops h) with
    (instr <$> [CallOp OP_DUP; CallOp OP_HASH160; CallData h; CallOp OP_EQUALVERIFY; CallOp OP_CHECKSIG]).
  gen_tac.
Qed.

Lemma payToScriptHashScript_gen h :
  wf_bytes h -> zlen h <= 520 -> gen (p2sh_pops h) (payToScriptHashScript h).
Proof.
  intros Hwf Hl. unfold payToScriptHashScript.
  change (p2sh_pops h) with (instr <$> [CallOp OP_HASH160; CallData h; CallOp OP_EQUAL]). gen_tac.
Qed.

Lemma payToContractHash_gen h :
  wf_bytes h -> zlen h <= 520 -> gen (p2ch_pops h) (payToContractHash h).
Proof.
  intros Hwf Hl. unfold payToContractHash.
  change (p2ch_pops h) with (instr <$> [CallData h; CallOp OP_JURY_REDEEM_EQUAL]). gen_tac.
Qed.

(** ** Classes *)

Lemma p2pkh_class h : zlen h = 20 -> typeOfScript (p2pkh_pops h) = PubKeyHashTy.
Proof. intros Hl. unfold p2pkh_pops. by rewrite push_pop_direct, Hl by lia. Qed.

Lemma p2sh_class h : zlen h = 20 -> typeOfScript (p2sh_pops h) = ScriptHashTy.
Proof. intros Hl. unfold p2sh_pops. by rewrite push_pop_direct, Hl by lia. Qed.

Lemma p2ch_class h : zlen h = 20 -> typeOfScript (p2ch_pops h) = ContractHashTy.
Proof.
  intros Hl. unfold p2ch_pops. rewrite push_pop_direct by lia. unfold typeOfScript, isPubkey.
  cbn [data contents]. rewrite bool_decide_false by (intros [_ Hv]; vm_compute in Hv; discriminate).
  by rewrite Hl.
Qed.

Lemma push_pop_data h : zlen h = 20 -> contents (data (push_pop h)) = h.
Proof. intros Hl. by rewrite push_pop_direct by lia. Qed.

(** the lock script of an address of a known type gives the address back, and
    the lock script of any other address is empty, which gives the zero address
    and no error. *)
Theorem lock_script_roundtrip `{C : Crypto} a :
  wf_address a ->
  GetAddressFromScript (GenerateLockScript a) =
    Ok (if decide (GetType a ∈ [PublicKeyHash; ScriptHash; ContractHash]) then a else zero_Address).
Proof.
  intros Ha. pose proof (NewAddress_split a Ha) as Hsplit. destruct (wf_address_split a Ha) as [_ Hl].
  assert (wf_bytes (Address_Bytes a)) as Hwf by (apply Forall_take; by destruct Ha).
  unfold GenerateLockScript, PayToAddrScript, GetAddressFromScript, ExtractPkScriptAddrs.
  assert (Hgen : forall pops r, gen pops r -> parseScript_or_err (built_script r).1 = Ok pops).
  { intros pops r [Hp ->]. by apply parseScript_or_err_encode. }
  destruct (decide (GetType a = PublicKeyHash)) as [Ht|H1];
    [|destruct (decide (GetType a = ScriptHash)) as [Ht|H2];
      [|destruct (decide (GetType a = ContractHash)) as [Ht|H3]]].
  - rewrite (Hgen _ _ (payToPubKeyHashScript_gen _ Hwf ltac:(lia))), outcome_bind_ok, p2pkh_class by done.
    unfold p2pkh_pops. rewrite goidx_2, !outcome_bind_ok, push_pop_data, <- Ht, Hsplit by done.
    by rewrite (decide_True (P := _ ∈ _)) by (rewrite Ht, !elem_of_cons; tauto).
  - rewrite (Hgen _ _ (payToScriptHashScript_gen _ Hwf ltac:(lia))), outcome_bind_ok, p2sh_class by done.
    unfold p2sh_pops. rewrite goidx_1, !outcome_bind_ok, push_pop_data, <- Ht, Hsplit by done.
    by rewrite (decide_True (P := _ ∈ _)) by (rewrite Ht, !elem_of_cons; tauto).
  - rewrite (Hgen _ _ (payToContractHash_gen _ Hwf ltac:(lia))), outcome_bind_ok, p2ch_class by done.
    unfold p2ch_pops. rewrite goidx_0, !outcome_bind_ok, push_pop_data, <- Ht, Hsplit by done.
    by rewrite (decide_True (P := _ ∈ _)) by (rewrite Ht, !elem_of_cons; tauto).
  - rewrite decide_False; [done|]. rewrite !elem_of_cons, elem_of_nil. tauto.
Qed.

Lemma lock_script_roundtrip_witness :
  @GetAddressFromScript toy_crypto (GenerateLockScript (NewAddress (replicate 20 9) ContractHash))
    = Ok (NewAddress (replicate 20 9) ContractHash).
Proof.
  rewrite (@lock_script_roundtrip toy_crypto); [reflexivity|].
  split; [reflexivity|by apply (bool_decide_unpack _)].
Defined.

(** ** The classes exclude each other

    [is_class c] is the predicate of class [c]; [shape c] what it says of the opcode
    values. *)

Definition is_class (c : ScriptClass) (pops : list parsedOpcode) : bool :=
  match c with
  | PubKeyTy => isPubkey pops
  | PubKeyHashTy => isPubkeyHash pops
  | ContractHashTy => isContractHash pops
  | WitnessV0PubKeyHashTy => isWitnessPubKeyHash pops
  | ScriptHashTy => isScriptHash pops
  | WitnessV0ScriptHashTy => isWitnessScriptHash pops
  | MultiSigTy => isMultiSig pops
  | NullDataTy => isNullData pops
  | NonStandardTy => false
  end.

Definition shape (c : ScriptClass) (vs : list Z) : Prop :=
  match c with
  | PubKeyTy => exists v, vs = [v; OP_CHECKSIG]
  | PubKeyHashTy => vs = [OP_DUP; OP_HASH160; OP_DATA_20; OP_EQUALVERIFY; OP_CHECKSIG]
  | ContractHashTy => vs = [OP_DATA_20; OP_JURY_REDEEM_EQUAL]
  | WitnessV0PubKeyHashTy => vs = [OP_0; OP_DATA_20]
  | ScriptHashTy => vs = [OP_HASH160; OP_DATA_20; OP_EQUAL]
  | WitnessV0ScriptHashTy => vs = [OP_0; OP_DATA_32]
  | MultiSigTy => (4 <= length vs)%nat /\ last vs = Some OP_CHECKMULTISIG
  | NullDataTy => vs = [OP_RETURN] \/ exists v, vs = [OP_RETURN; v] /\ v <= OP_16
  | NonStandardTy => False
  end.

Lemma isSmallInt_le op : isSmallInt op = true -> value op <= OP_16.
Proof. unfold isSmallInt. rewrite bool_decide_eq_true. lia. Qed.

Lemma isMultiSig_shape pops : isMultiSig pops = true -> shape MultiSigTy ((fun p => value (pop_opcode p)) <$> pops).
Proof.
  unfold isMultiSig. destruct (decide (zlen pops < 4)) as [|Hl]; [done|].
  destruct (pops !! 0%nat); [|done]. destruct (pops !! Z.to_nat (zlen pops - 2)); [|done].
  destruct (pops !! Z.to_nat (zlen pops - 1)) as [pc|] eqn:Hc; [|done].
  do 2 (destruct (negb _); [done|]). destruct (decide (_ <> OP_CHECKMULTISIG)) as [|Hv]; [done|]. intros _.
  unfold zlen in *. split; [rewrite length_fmap; lia|].
  rewrite last_lookup, length_fmap, list_lookup_fmap.
  replace (pred (length pops)) with (Z.to_nat (Z.of_nat (length pops) - 1)) by lia. rewrite Hc. cbn.
  f_equal. by destruct (decide (value (pop_opcode pc) = OP_CHECKMULTISIG)).
Qed.

Lemma is_class_shape c pops : is_class c pops = true -> shape c ((fun p => value (pop_opcode p)) <$> pops).
Proof.
  destruct c; cbn [is_class]; try done;
    try (unfold isPubkeyHash, isContractHash, isWitnessPubKeyHash, isScriptHash, isWitnessScriptHash, values_are;
         by rewrite bool_decide_eq_true).
  - destruct pops as [|p0 [|p1 [|? ?]]]; try done. unfold isPubkey. rewrite bool_decide_eq_true.
    intros [_ Hv]. exists (value (pop_opcode p0)). cbn. by rewrite Hv.
  - apply isMultiSig_shape.
  - destruct pops as [|p0 [|p1 [|? ?]]]; try done; unfold isNullData.
    + rewrite bool_decide_eq_true. intros Hv. left. cbn. by rewrite Hv.
    + rewrite !andb_true_iff, orb_true_iff, !bool_decide_eq_true. intros [[Hv Hs] _]. right.
      exists (value (pop_opcode p1)). cbn. rewrite Hv. split; [done|].
      destruct Hs as [Hs|Hs]; [by apply isSmallInt_le|]. lia.
Qed.

Lemma shape_unique c c' vs : shape c vs -> shape c' vs -> c = c'.
Proof.
  destruct c, c'; cbn [shape]; try done; intros H1 H2; exfalso;
    repeat match goal with
    | H : exists _, _ |- _ => destruct H as [? H]
    | H : _ /\ _ |- _ => destruct H
    | H : _ \/ _ |- _ => destruct H
    end; subst; try discriminate; cbn [length last] in *; try lia; try congruence;
    repeat match goal with H : _ :: _ = _ :: _ |- _ => injection H as; subst end; try discriminate;
    try match goal with H : ?v <= OP_16 |- _ => by vm_compute in H end.
Qed.

Lemma is_class_type c pops : is_class c pops = true -> typeOfScript pops = c.
Proof.
  intros Hc. unfold typeOfScript.
  repeat match goal with
  | |- (if ?b then ?k else _) = _ => destruct b eqn:?;
      [apply (shape_unique k c _ (is_class_shape k pops ltac:(done)) (is_class_shape _ _ Hc))|]
  end. destruct c; cbn [is_class] in Hc; congruence.
Qed.

(** a script has at most one of the standard forms, so that the order in which
    [typeOfScript] tests them does not matter: the class it returns is the one whose
    predicate holds, and non-standard exactly when none does. *)
Theorem typeOfScript_iff pops c :
  typeOfScript pops = c <->
  match c with
  | NonStandardTy => forall c', is_class c' pops = false
  | _ => is_class c pops = true
  end.
Proof.
  split.
  - intros <-. unfold typeOfScript.
    repeat match goal with |- context [if ?b then _ else _] => destruct b eqn:?; [done|] end.
    intros []; done.
  - destruct c; try apply is_class_type.
    intros Hnone. unfold typeOfScript.
    pose proof (Hnone PubKeyTy) as H1. pose proof (Hnone PubKeyHashTy) as H2. pose proof (Hnone ContractHashTy) as H3.
    pose proof (Hnone WitnessV0PubKeyHashTy) as H4. pose proof (Hnone ScriptHashTy) as H5.
    pose proof (Hnone WitnessV0ScriptHashTy) as H6. pose proof (Hnone MultiSigTy) as H7. pose proof (Hnone NullDataTy) as H8.
    cbn [is_class] in *. by rewrite H1, H2, H3, H4, H5, H6, H7, H8.
Qed.

(** ** Reading an address from any script *)

Lemma type_class pops : typeOfScript pops <> NonStandardTy -> is_class (typeOfScript pops) pops = true.
Proof.
  unfold typeOfScript. intros H.
  repeat match goal with |- context [if ?b then _ else _] => destruct b eqn:?; [done|] end. done.
Qed.

Lemma goidx_some {E A} (l : list A) i : 0 <= i < zlen l -> exists x, goidx (E := E) l i = Ok x.
Proof.
  intros Hi. destruct (lookup_lt_is_Some_2 l (Z.to_nat i)) as [x Hx]; [unfold zlen in Hi; lia|].
  exists x. apply goidx_lookup; [lia|done].
Qed.

Lemma values_are_zlen pops vs : values_are pops vs = true -> zlen pops = zlen vs.
Proof. unfold values_are. intros <-%bool_decide_eq_true. unfold zlen. by rewrite length_fmap. Qed.

Lemma multisig_addrs_some `{C : Crypto} n i pops :
  0 <= i -> i + Z.of_nat n < zlen pops -> exists addrs, multisig_addrs n i pops = Ok addrs.
Proof.
  revert i. induction n as [|n IH]; intros i Hi Hn; [by eexists|]. cbn [multisig_addrs].
  destruct (goidx_some (E := ErrorCode) pops (i + 1)) as [p ->]; [lia|]. cbn [mbind outcome_bind].
  destruct (IH (i + 1)) as [addrs ->]; [lia..|]. by eexists.
Qed.

Lemma isMultiSig_bounds pops :
  isMultiSig pops = true ->
  4 <= zlen pops /\ exists pn, goidx (E := ErrorCode) pops (zlen pops - 2) = Ok pn /\ asSmallInt (pop_opcode pn) = zlen pops - 3.
Proof.
  unfold isMultiSig. destruct (decide (zlen pops < 4)) as [|Hl]; [done|]. intros H. split; [lia|].
  destruct (pops !! 0%nat); [|done]. destruct (pops !! Z.to_nat (zlen pops - 2)) as [pn|] eqn:Hn; [|done].
  destruct (pops !! Z.to_nat (zlen pops - 1)) as [pc|]; [|done]. exists pn. split; [apply goidx_lookup; [lia|done]|].
  do 2 (destruct (negb _); [done|]). destruct (decide (_ <> OP_CHECKMULTISIG)); [done|].
  destruct (decide (zlen pops - 2 - 1 <> _)) as [|Hx]; [done|]. lia.
Qed.

Lemma ExtractPkScriptAddrs_safe `{C : Crypto} script : wf_bytes script -> ExtractPkScriptAddrs script <> Panic.
Proof.
  intros Hwf. unfold ExtractPkScriptAddrs. destruct (parseScript_or_err_spec script Hwf) as [(pops & -> & _)| ->]; [|done].
  cbn [mbind outcome_bind]. cbv zeta. pose proof (type_class pops) as Hc. destruct (typeOfScript pops); try done;
    specialize (Hc ltac:(done)); cbn [is_class] in Hc.
  - apply values_are_zlen in Hc. destruct (goidx_some (E := ErrorCode) pops 2) as [p ->]; [rewrite Hc; done|done].
  - apply values_are_zlen in Hc. destruct (goidx_some (E := ErrorCode) pops 1) as [p ->]; [rewrite Hc; done|done].
  - destruct (isMultiSig_bounds pops Hc) as (Hl & pn & Hpn & Hn).
    destruct (goidx_some (E := ErrorCode) pops 0) as [p ->]; [lia|]. rewrite Hpn. cbn [mbind outcome_bind]. rewrite Hn.
    by destruct (multisig_addrs_some (Z.to_nat (zlen pops - 3)) 0 pops) as [addrs ->]; [lia..|].
  - apply values_are_zlen in Hc. destruct (goidx_some (E := ErrorCode) pops 0) as [p ->]; [rewrite Hc; done|done].
Qed.

Lemma GetAddressFromScript_safe `{C : Crypto} script : wf_bytes script -> GetAddressFromScript script <> Panic.
Proof.
  intros Hwf. unfold GetAddressFromScript. pose proof (ExtractPkScriptAddrs_safe script Hwf) as Hs.
  destruct (ExtractPkScriptAddrs script) as [[[c addrs] n]| |]; [|done..]. cbn [mbind outcome_bind].
  do 2 (case_decide; [done|]). by destruct (goidx_some (E := ErrorCode) addrs 0) as [a ->]; [lia|].
Qed.

(** ** Multisignature scripts *)

Definition multisig_pops (n : Z) (keys : list bytes) : list parsedOpcode :=
  op_pop (OP_1 - 1 + n) :: (push_pop <$> keys) ++ [op_pop (OP_1 - 1 + zlen keys); op_pop OP_CHECKMULTISIG].

Lemma AddDatas_calls keys cs b : run_calls ((CallData <$> keys) ++ cs) b = run_calls cs (AddDatas keys b).
Proof. revert b. induction keys as [|k keys IH]; intros b; [done|]. cbn. apply IH. Qed.

Definition is_key (k : bytes) : Prop := wf_bytes k /\ (zlen k = 33 \/ zlen k = 65).

Lemma small_op n : 1 <= n <= 16 -> is_byte (OP_1 - 1 + n) /\ is_op (OP_1 - 1 + n).
Proof.
  intros Hn. split; [unfold is_byte; lia|]. apply opc_small. lia.
Qed.

Lemma small_int_instr n : 1 <= n <= 16 -> instr (CallInt n) = op_pop (OP_1 - 1 + n).
Proof. intros Hn. cbn [instr]. rewrite scriptNum_Bytes_small by done. by apply push_pop_small. Qed.

Lemma keys_calls keys : Forall is_key keys ->
  Forall call_ok (CallData <$> keys) /\ Forall fits (CallData <$> keys) /\
  Forall (fun p => zlen (encode p) <= 525) (push_pop <$> keys).
Proof.
  intros Hk. rewrite !Forall_fmap. split_and!; (eapply Forall_impl; [done|]); intros k [Hwf Hl]; cbn.
  - done.
  - unfold MaxScriptElementSize. lia.
  - apply push_pop_small525; [done|lia].
Qed.

(** Both ways of writing the counts, as an opcode and as an integer, build the same
    script. *)

Lemma multisig_gen (count : Z -> call) n keys b :
  (forall n, 1 <= n <= 16 -> call_ok (count n) /\ fits (count n) /\ instr (count n) = op_pop (OP_1 - 1 + n)) ->
  1 <= n <= 16 -> 1 <= zlen keys <= 16 -> Forall is_key keys ->
  run_calls (count n :: (CallData <$> keys) ++ [count (zlen keys); CallOp OP_CHECKMULTISIG]) NewScriptBuilder = Ok b ->
  gen (multisig_pops n keys) (Script b).
Proof.
  intros Hcount Hn Hl Hk Hr. destruct (keys_calls keys Hk) as (Hok & Hfit & Hsmall).
  destruct (Hcount n Hn) as (Hn1 & Hn2 & Hn3). destruct (Hcount _ Hl) as (Hl1 & Hl2 & Hl3).
  assert (call_ok (CallOp OP_CHECKMULTISIG)) as Hm by by apply op_call_ok; vm_compute.
  assert (multisig_pops n keys = instr <$> count n :: (CallData <$> keys) ++ [count (zlen keys); CallOp OP_CHECKMULTISIG]) as Heq.
  { cbn [fmap list_fmap]. rewrite fmap_app, <- list_fmap_compose. cbn [fmap list_fmap]. by rewrite Hn3, Hl3. }
  rewrite Heq. apply gen_calls; [done| | |].
  - constructor; [done|]. apply Forall_app. split; [done|]. by repeat constructor.
  - constructor; [done|]. apply Forall_app. split; [done|]. by repeat constructor.
  - rewrite <- Heq. etrans; [apply encode_all_small|].
    + constructor; [apply op_pop_small, small_op; done|]. apply Forall_app. split; [done|].
      repeat constructor; [apply op_pop_small, small_op; done|by apply op_pop_small].
    + unfold multisig_pops. rewrite zlen_cons, zlen_app. unfold zlen at 1. rewrite length_fmap. fold (zlen keys).
      change (zlen [?a; ?b]) with 2. unfold MaxScriptSize. lia.
Qed.

Lemma GenerateRedeemScript_gen n keys :
  1 <= n <= 16 -> 2 <= zlen keys <= 16 -> Forall is_key keys ->
  Forall (wf_pop opcodeArray) (multisig_pops n keys) /\
  GenerateRedeemScript n keys = encode_all (multisig_pops n keys).
Proof.
  intros Hn Hl Hk. assert (gen (multisig_pops n keys) (Script (AddOp OP_CHECKMULTISIG
    (AddOp (OP_1 - 1 + zlen keys) (AddDatas keys (AddOp (OP_1 - 1 + n) NewScriptBuilder)))))) as [Hp He].
  { apply (multisig_gen (fun n => CallOp (OP_1 - 1 + n))); [|done|lia|done|].
    - intros k Hr. split_and!; [by apply small_op|done|done].
    - cbn [run_calls run_call]. rewrite outcome_bind_ok. apply AddDatas_calls. }
  split; [done|]. unfold GenerateRedeemScript. rewrite decide_False by lia.
  destruct keys as [|k1 [|k2 keys]]; [unfold zlen in Hl; cbn in Hl; lia..|].
  set (ks := k1 :: k2 :: keys) in *.
  replace (u8 (n + 80)) with (OP_1 - 1 + n) by (rewrite u8_id; unfold is_byte; lia).
  replace (u8 (zlen ks + 80)) with (OP_1 - 1 + zlen ks) by (rewrite u8_id; unfold is_byte; lia).
  by rewrite He.
Qed.

Lemma MultiSigScript_gen `{C : Crypto} keys n :
  1 <= n <= zlen keys -> zlen keys <= 16 -> Forall is_key (CompressPubkey <$> keys) ->
  MultiSigScript keys n = Ok (encode_all (multisig_pops n (CompressPubkey <$> keys)), None).
Proof.
  intros Hn Hl Hk. unfold MultiSigScript. rewrite decide_False by lia.
  assert (zlen (CompressPubkey <$> keys) = zlen keys) as Hz by (unfold zlen; by rewrite length_fmap).
  set (ks := CompressPubkey <$> keys) in *.
  assert (forall b, run_calls (CallInt n :: (CallData <$> ks) ++ [CallInt (zlen ks); CallOp OP_CHECKMULTISIG]) NewScriptBuilder = Ok b ->
    gen (multisig_pops n ks) (Script b)) as Hg.
  { intros b. apply multisig_gen; try done; [|lia|lia]. intros k Hk'. split_and!; [cbn; lia|done|by apply small_int_instr]. }
  cbn [run_calls run_call] in Hg.
  destruct (AddInt64 n NewScriptBuilder) as [b1| |] eqn:E1; cbn [mbind outcome_bind] in *;
    [|unfold AddInt64 in E1; rewrite scriptNum_Bytes_small in E1 by lia; repeat case_decide; done..].
  rewrite AddDatas_calls in Hg. cbn [run_calls run_call] in Hg. rewrite <- Hz.
  destruct (AddInt64 (zlen ks) (AddDatas ks b1)) as [b2| |] eqn:E2; cbn [mbind outcome_bind] in *;
    [|unfold AddInt64 in E2; rewrite scriptNum_Bytes_small in E2 by lia; repeat case_decide; done..].
  destruct (Hg _ eq_refl) as [_ Hg']. by rewrite Hg'.
Qed.

Lemma small_opc n : 1 <= n <= 16 -> value (opc (OP_1 - 1 + n)) = OP_1 - 1 + n.
Proof. intros Hn. by destruct (small_op n Hn) as [_ (_ & ? & _)]. Qed.

Lemma asSmallInt_opc n : 1 <= n <= 16 ->
  asSmallInt (opc (OP_1 - 1 + n)) = n /\ isSmallInt (opc (OP_1 - 1 + n)) = true.
Proof.
  intros Hn. unfold asSmallInt, isSmallInt. rewrite small_opc by done. split.
  - rewrite decide_False by lia. rewrite u8_id; unfold is_byte; lia.
  - apply bool_decide_true. lia.
Qed.

Lemma key_data k : is_key k -> data (push_pop k) = Some k.
Proof.
  intros [Hwf Hl]. by rewrite push_pop_direct by lia.
Qed.

Lemma multisig_zlen n keys : zlen (multisig_pops n keys) = zlen keys + 3.
Proof. unfold multisig_pops, zlen. cbn [length]. rewrite length_app, length_fmap. cbn [length]. lia. Qed.

Lemma lookup_S {A} (x : A) l i : (x :: l) !! S i = l !! i.
Proof. done. Qed.

Lemma multisig_lookup n keys :
  multisig_pops n keys !! 0%nat = Some (op_pop (OP_1 - 1 + n)) /\
  multisig_pops n keys !! Z.to_nat (zlen keys + 1) = Some (op_pop (OP_1 - 1 + zlen keys)) /\
  multisig_pops n keys !! Z.to_nat (zlen keys + 2) = Some (op_pop OP_CHECKMULTISIG).
Proof.
  unfold multisig_pops, zlen. replace (Z.to_nat (Z.of_nat (length keys) + 1)) with (S (length keys + 0)) by lia.
  replace (Z.to_nat (Z.of_nat (length keys) + 2)) with (S (length keys + 1)) by lia.
  rewrite !lookup_S, !lookup_app_r by (rewrite length_fmap; lia).
  rewrite length_fmap. split_and!; [done|..]; [by replace (_ + 0 - _)%nat with O by lia|
    by replace (_ + 1 - _)%nat with 1%nat by lia].
Qed.

Lemma multisig_class n keys :
  1 <= n <= 16 -> 1 <= zlen keys <= 16 -> Forall is_key keys -> typeOfScript (multisig_pops n keys) = MultiSigTy.
Proof.
  intros Hn Hl Hk. apply is_class_type. cbn [is_class]. unfold isMultiSig. rewrite multisig_zlen.
  replace (zlen keys + 3 - 2) with (zlen keys + 1) by lia. replace (zlen keys + 3 - 1) with (zlen keys + 2) by lia.
  destruct (multisig_lookup n keys) as (-> & -> & ->). cbn [op_pop pop_opcode].
  destruct (asSmallInt_opc n Hn) as [_ ->]. destruct (asSmallInt_opc _ Hl) as [-> ->].
  rewrite !decide_False by (lia || (intros H; by apply H)). cbn [negb].
  unfold multisig_pops. change (drop 1 (?a :: ?l)) with l.
  rewrite take_app_le by (rewrite length_fmap; unfold zlen; lia).
  apply forallb_forall. intros p Hp%list_elem_of_In. apply bool_decide_true.
  apply (subseteq_take _ _) in Hp. apply list_elem_of_fmap in Hp as (k & -> & Hin).
  rewrite Forall_forall in Hk. destruct (Hk k Hin) as [? ?]. by rewrite key_data.
Qed.

Lemma multisig_addrs_spec `{C : Crypto} n keys pre suf :
  Forall is_key keys -> zlen pre = n + 1 ->
  multisig_addrs (length keys) n (pre ++ (push_pop <$> keys) ++ suf) = Ok (PubkeyBytesToAddress <$> keys).
Proof.
  intros Hk. revert n pre. induction Hk as [|k keys Hk Hks IH]; intros n pre Hpre; [done|].
  cbn [length multisig_addrs fmap list_fmap app]. rewrite <- Hpre, goidx_mid, outcome_bind_ok, key_data by done.
  specialize (IH (n + 1) (pre ++ [push_pop k])). rewrite <- app_assoc in IH. cbn [app] in IH. rewrite Hpre.
  by rewrite IH by (rewrite zlen_snoc; lia).
Qed.

Lemma extract_multisig `{C : Crypto} n keys :
  1 <= n <= 16 -> 2 <= zlen keys <= 16 -> Forall is_key keys ->
  let script := GenerateRedeemScript n keys in
  GetScriptClass script = Ok MultiSigTy /\ CalcMultiSigStats script = Ok (zlen keys, n) /\
  ExtractPkScriptAddrs script = Ok (MultiSigTy, PubkeyBytesToAddress <$> keys, n).
Proof.
  intros Hn Hl Hk script. destruct (GenerateRedeemScript_gen n keys Hn Hl Hk) as [Hp Hs]. unfold script. rewrite Hs.
  unfold GetScriptClass, CalcMultiSigStats, ExtractPkScriptAddrs.
  rewrite parseScript_or_err_encode, !outcome_bind_ok by done. cbn zeta.
  rewrite !multisig_class, multisig_zlen by (done || lia).
  rewrite decide_False by lia. destruct (multisig_lookup n keys) as (H0 & H1 & _).
  replace (zlen keys + 3 - 2) with (zlen keys + 1) by lia. assert (0 <= zlen keys + 1) as Hnn by lia.
  rewrite (goidx_lookup _ 0 _ ltac:(lia) H0), (goidx_lookup _ _ _ Hnn H1), !outcome_bind_ok.
  cbn [op_pop pop_opcode]. destruct (asSmallInt_opc n ltac:(lia)) as [-> _].
  destruct (asSmallInt_opc (zlen keys) ltac:(lia)) as [-> _]. split_and!; [done|done|].
  replace (Z.to_nat (zlen keys)) with (length keys) by (unfold zlen; lia).
  pose proof (multisig_addrs_spec 0 keys [op_pop (OP_1 - 1 + n)]
    [op_pop (OP_1 - 1 + zlen keys); op_pop OP_CHECKMULTISIG] Hk eq_refl) as Ha.
  cbn [app] in Ha. unfold multisig_pops. by rewrite Ha, outcome_bind_ok.
Qed.

(** the redeem script of 2 to 16 keys is the multisignature script of those
    keys: both generators agree, the script is classified as one, and the counts
    and the addresses of the keys are read back from it. *)
Theorem redeem_script_multisig `{C : Crypto} `{L : !SignatureLaws} keys needed :
  1 <= needed <= zlen keys -> 2 <= zlen keys <= 16 ->
  let script := GenerateRedeemScript needed (CompressPubkey <$> keys) in
  MultiSigScript keys needed = Ok (script, None) /\
  GetScriptClass script = Ok MultiSigTy /\
  CalcMultiSigStats script = Ok (zlen keys, needed) /\
  ExtractPkScriptAddrs script = Ok (MultiSigTy, PubkeyToAddress <$> keys, needed).
Proof.
  intros Hn Hl. assert (zlen (CompressPubkey <$> keys) = zlen keys) as Hz by (unfold zlen; by rewrite length_fmap).
  assert (Forall is_key (CompressPubkey <$> keys)) as Hk.
  { apply Forall_fmap, Forall_true. intros k. destruct (Compressed_ok k). split; [done|by left]. }
  cbn zeta. destruct (GenerateRedeemScript_gen needed (CompressPubkey <$> keys)) as [_ Hs]; [lia|lia|done|].
  destruct (extract_multisig needed (CompressPubkey <$> keys)) as (Hc & Hst & He); [lia|lia|done|].
  rewrite Hc, Hst, He, Hz, MultiSigScript_gen, Hs by (done || lia). by rewrite <- list_fmap_compose.
Qed.

Lemma redeem_script_multisig_witness :
  let script := GenerateRedeemScript 2 (@CompressPubkey toy_crypto <$> [true; false; true]) in
  @MultiSigScript toy_crypto [true; false; true] 2 = Ok (script, None) /\
  GetScriptClass script = Ok MultiSigTy /\
  CalcMultiSigStats script = Ok (3, 2) /\
  @ExtractPkScriptAddrs toy_crypto script =
    Ok (MultiSigTy, @PubkeyToAddress toy_crypto <$> [true; false; true], 2).
Proof.
  apply (@redeem_script_multisig toy_crypto toy_signature_laws [true; false; true] 2); by vm_compute.
Defined.
