(* ===== verification/ScriptRuns.v ===== *)
(** * Running standard scripts

    What [ScriptValidate] answers for the lock scripts the node generates, for every
    signature script and for the ones it generates.

    [run_pops] executes the instructions of one script; [Execute_run] shows that the
    engine's loop runs a script by it and then passes to the next one, and the
    sections below evaluate it on the instructions of the standard scripts. *)

From S2P Require Import Prelude Digits ScriptErrors ScriptNum ScriptStack Opcodes ScriptParse.
From S2P Require Import HexUtil Transaction Crypto Address OpcodeExec ScriptEngine EngineSafety.
From S2P Require Import EngineProps ScriptBuilder ScriptStandard.

#[local] Open Scope Z_scope.

(** ** One script *)

Definition stack_size (vm : Engine) : Z := zlen (stk (dstack vm)) + zlen (stk (astack vm)).

(** [small_stack] bounds the stack, which the engine keeps at 1000 items between
    instructions. *)

Definition small_stack (l : list bytes) : Prop := zlen l <= MaxStackSize + 3.

Ltac plain := by apply (bool_decide_unpack _); vm_compute.
Ltac small := unfold small_stack, MaxStackSize in *; rewrite ?zlen_app, ?zlen_cons, ?(@zlen_nil bytes) in *; zlen_facts; lia.

Section Runs.
Context {C : Crypto} {L : CryptoLaws}.

Fixpoint run_pops (pops : list parsedOpcode) : EngineM unit :=
  match pops with
  | [] => mret ()
  | pop :: pops =>
      modify (fun vm => set_scriptOff (scriptOff vm + 1) vm) ;;
      executeOpcode pop ;;
      vm ← get;
      if decide (stack_size vm > MaxStackSize) then fail ErrStackOverflow else run_pops pops
  end.

(** A step at a given instruction. *)

Lemma Step_at vm s pop vm2 :
  I_ok vm -> scripts vm !! Z.to_nat (scriptIdx vm) = Some s -> s !! Z.to_nat (scriptOff vm) = Some pop ->
  executeOpcode pop (set_scriptOff (scriptOff vm + 1) vm) = (Ok (), vm2) ->
  Step vm = (if decide (stack_size vm2 > MaxStackSize) then (Err ErrStackOverflow, vm2)
             else if decide (scriptOff vm + 1 >= zlen s) then next_script vm2 else (Ok false, vm2)) /\
  H_ok (set_scriptOff (scriptOff vm + 1) vm) (MaxStackSize + 3) vm2.
Proof.
  intros HI Hs Hpop Hex. pose proof (I_idx vm HI) as Hidx. pose proof (I_pc vm HI) as Hpc. pose proof (I_H vm HI) as HH.
  destruct HI as [_ Hscr (s' & Hs' & Ho) _ _ _ _ _ _ _ _ _]. rewrite Hs in Hs'. injection Hs' as <-.
  assert (Hwf : wf_pop opcodeArray pop).
  { eapply Forall_lookup_1; [|exact Hpop]. by eapply Forall_lookup_1 in Hscr; [|exact Hs]. }
  pose proof (executeOpcode_ok _ Hpc pop Hwf _ HH) as HX. rewrite Hex in HX. split; [|done].
  unfold Step, validPC. rewrite go_get_bind, decide_False by lia.
  rewrite (goidx_lookup _ _ _ (proj1 Hidx) Hs), outcome_bind_ok, decide_False by lia.
  rewrite !go_lift_ok, (goidx_lookup _ _ _ (proj1 Ho) Hpop), go_lift_ok, go_modify_bind.
  rewrite (go_bind_ok _ _ _ _ _ Hex), go_get_bind.
  destruct HX as [Hfr _ _ Hsz _ _]. pose proof (erase_fields _ _ Hfr) as (E1 & E2 & E3 & _).
  unfold MaxStackSize in *. zlen_facts. unfold stack_size.
  rewrite !Depth_spec, i32_id by (unfold wf_stack; lia). case_decide; [done|].
  rewrite E1, E2, E3. cbn [scripts scriptIdx scriptOff set_scriptOff].
  rewrite (goidx_lookup _ _ _ (proj1 Hidx) Hs), go_lift_ok. by case_decide.
Qed.

Lemma Step_err vm s pop e vm2 :
  I_ok vm -> scripts vm !! Z.to_nat (scriptIdx vm) = Some s -> s !! Z.to_nat (scriptOff vm) = Some pop ->
  executeOpcode pop (set_scriptOff (scriptOff vm + 1) vm) = (Err e, vm2) -> Step vm = (Err e, vm2).
Proof.
  intros HI Hs Hpop Hex. pose proof (I_idx vm HI) as Hidx.
  destruct HI as [_ Hscr (s' & Hs' & Ho) _ _ _ _ _ _ _ _ _]. rewrite Hs in Hs'. injection Hs' as <-.
  unfold Step, validPC. rewrite go_get_bind, decide_False by lia.
  rewrite (goidx_lookup _ _ _ (proj1 Hidx) Hs), outcome_bind_ok, decide_False by lia.
  rewrite !go_lift_ok, (goidx_lookup _ _ _ (proj1 Ho) Hpop), go_lift_ok, go_modify_bind.
  by rewrite (go_bind_err _ _ _ _ _ Hex).
Qed.

(** The engine runs the rest of a script, then passes to the next. *)

Definition after_script (fuel : nat) (r : outcome ErrorCode bool * Engine) : option (outcome ErrorCode unit) :=
  match r with
  | (Ok true, vm) => Some (CheckErrorCondition true vm).1
  | (Ok false, vm) => Execute_loop fuel vm
  | (Err e, _) => Some (Err e)
  | (Panic, _) => Some Panic
  end.

Lemma Execute_run pops pre vm fuel :
  I_ok vm -> scripts vm !! Z.to_nat (scriptIdx vm) = Some (pre ++ pops) -> scriptOff vm = zlen pre -> pops <> [] ->
  Execute_loop (length pops + fuel) vm = after_script fuel ((run_pops pops ;; next_script) vm) /\
  forall vm', (run_pops pops ;; next_script) vm = (Ok false, vm') -> I_ok vm' /\ rtc step_rel vm vm'.
Proof.
  revert pre vm. induction pops as [|pop pops IH]; intros pre vm HI Hs Ho Hne; [done|].
  assert (Hpop : (pre ++ pop :: pops) !! Z.to_nat (scriptOff vm) = Some pop).
  { rewrite Ho. unfold zlen. rewrite Nat2Z.id, lookup_app_r, Nat.sub_diag by lia. done. }
  cbn [run_pops length Nat.add Execute_loop]. rewrite go_bind_assoc, go_modify_bind, go_bind_assoc.
  pose proof (Step_safe vm HI) as Hsafe.
  destruct (executeOpcode pop (set_scriptOff (scriptOff vm + 1) vm)) as [[[]|e|] vm2] eqn:Hex.
  - destruct (Step_at vm _ pop vm2 HI Hs Hpop Hex) as [HS HH]. rewrite HS in Hsafe |- *.
    rewrite (go_bind_ok _ _ _ _ _ Hex), go_bind_assoc, go_get_bind.
    case_decide as Hbig; [by rewrite go_fail_bind|]. rewrite zlen_app, zlen_cons, <- Ho in *.
    destruct pops as [|pop' pops].
    + rewrite (@zlen_nil parsedOpcode) in *. rewrite decide_True in * by lia. cbn [run_pops length Nat.add].
      rewrite go_ret_bind. destruct (next_script vm2) as [[[]|e|] vm3] eqn:En; (split; [done|]); try done.
      intros vm' [= <-]. destruct Hsafe as [HI' _]. split; [done|]. apply rtc_once. unfold step_rel. by rewrite HS.
    + rewrite zlen_cons in *. zlen_facts. rewrite decide_False in Hsafe |- * by lia.
      destruct HH as [Hfr _ _ _ _ _]. pose proof (erase_fields _ _ Hfr) as (E1 & E2 & E3 & _).
      cbn [scripts scriptIdx scriptOff set_scriptOff] in *.
      destruct (IH (pre ++ [pop]) vm2) as [IH1 IH2]; [apply Hsafe|by rewrite E1, E2, <- app_assoc|by rewrite E3, zlen_snoc, Ho|done|].
      split; [exact IH1|]. intros vm' Hvm'. destruct (IH2 vm' Hvm') as [? ?]. split; [done|].
      eapply rtc_l; [|done]. unfold step_rel. by rewrite HS, decide_False by lia.
  - rewrite (Step_err vm _ pop e vm2 HI Hs Hpop Hex), (go_bind_err _ _ _ _ _ Hex). split; done.
  - exfalso. pose proof (executeOpcode_ok _ (I_pc vm HI) pop) as HX.
    assert (Hwf : wf_pop opcodeArray pop).
    { destruct HI as [_ Hscr]. eapply Forall_lookup_1; [|exact Hpop]. by eapply Forall_lookup_1 in Hscr; [|exact Hs]. }
    specialize (HX Hwf _ (I_H vm HI)). by rewrite Hex in HX.
Qed.

Lemma Execute_loop_mono n fuel vm r : Execute_loop fuel vm = Some r -> Execute_loop (fuel + n) vm = Some r.
Proof.
  revert vm. induction fuel as [|fuel IH]; intros vm; cbn [Execute_loop Nat.add]; [done|].
  destruct (Step vm) as [[[]|e|] vm']; try done. apply IH.
Qed.

(** What a script leaves behind it. *)

Lemma run_pops_frame pops pre vm vm' :
  I_ok vm -> scripts vm !! Z.to_nat (scriptIdx vm) = Some (pre ++ pops) -> scriptOff vm = zlen pre -> pops <> [] ->
  run_pops pops vm = (Ok (), vm') ->
  erase vm' = erase (set_scriptOff (zlen (pre ++ pops)) vm) /\ stack_size vm' <= MaxStackSize /\
  Forall elem_ok (stk (dstack vm')) /\ Forall elem_ok (stk (astack vm')).
Proof.
  revert pre vm. induction pops as [|pop pops IH]; intros pre vm HI Hs Ho Hne; [done|].
  assert (Hpop : (pre ++ pop :: pops) !! Z.to_nat (scriptOff vm) = Some pop).
  { rewrite Ho. unfold zlen. rewrite Nat2Z.id, lookup_app_r, Nat.sub_diag by lia. done. }
  cbn [run_pops]. rewrite go_modify_bind.
  destruct (executeOpcode pop (set_scriptOff (scriptOff vm + 1) vm)) as [[[]|e|] vm2] eqn:Hex;
    [|by rewrite (go_bind_err _ _ _ _ _ Hex)|unfold mbind, go_bind; by rewrite Hex].
  rewrite (go_bind_ok _ _ _ _ _ Hex), go_get_bind.
  destruct (Step_at vm _ pop vm2 HI Hs Hpop Hex) as [HS HH]. pose proof (Step_safe vm HI) as Hsafe. rewrite HS in Hsafe.
  destruct HH as [Hfr _ _ _ Hd Ha]. case_decide as Hbig; [done|]. destruct pops as [|pop' pops].
  - intros [= <-]. rewrite Hfr, Ho, zlen_snoc. split_and!; [done|lia|done|done].
  - pose proof (erase_fields _ _ Hfr) as (E1 & E2 & E3 & _). cbn [scripts scriptIdx scriptOff set_scriptOff] in *.
    rewrite decide_False in Hsafe by (rewrite zlen_app, !zlen_cons; zlen_facts; lia).
    intros Hr. destruct (IH (pre ++ [pop]) vm2) as (He & ? & ? & ?);
      [apply Hsafe|by rewrite E1, E2, <- app_assoc|by rewrite E3, zlen_snoc, Ho|done|done|].
    split_and!; try done. rewrite He, <- app_assoc. cbn [app].
    change (erase (set_scriptOff ?k ?v)) with (set_scriptOff k (erase v)). by rewrite Hfr.
Qed.

(** ** Passing to the next script *)

Definition enter (idx : Z) (saved : list bytes) (vm : Engine) : Engine :=
  mkEngine (scripts vm) idx 0 0 (dstack vm) (set_stk [] (astack vm)) (tx vm) (msgIdx vm) (txIdx vm)
    [] 0 (flags vm) (bip16 vm) saved (witnessVersion vm) (witnessProgram vm) (inputAmount vm).

Lemma next_script_first vm s0 s1 :
  scripts vm = [s0; s1] -> s1 <> [] -> scriptIdx vm = 0 -> wf_stack (astack vm) -> wf_stack (dstack vm) ->
  next_script vm =
    if decide (condStack vm = []) then
      (Ok false, enter 1 (if bip16 vm then stk (dstack vm) else savedFirstStack vm) vm)
    else (Err ErrUnbalancedConditional, vm).
Proof.
  intros Hscr Hne Hidx Ha Hd. unfold next_script. rewrite go_get_bind.
  destruct (condStack vm) as [|c cs] eqn:Hc; [|by rewrite !decide_True by (done || rewrite zlen_cons; zlen_lia)].
  rewrite decide_False by (intros H; by apply H). rewrite (go_bind_ok _ _ _ _ _ (drop_astack vm Ha)), go_modify_bind.
  set (vm2 := set_scriptOff 0 _).
  assert (Hload : load_script vm2 = (Ok (),
    mkEngine [s0; s1] 1 0 (lastCodeSep vm) (dstack vm) (set_stk [] (astack vm)) (tx vm) (msgIdx vm) (txIdx vm) [] 0
      (flags vm) (bip16 vm) (if bip16 vm then stk (dstack vm) else savedFirstStack vm)
      (witnessVersion vm) (witnessProgram vm) (inputAmount vm))).
  { unfold load_script. rewrite go_get_bind. unfold vm2.
    cbn [scriptIdx bip16 set_scriptOff set_numOps set_astack]. rewrite Hidx.
    destruct (bip16 vm) eqn:Hb.
    - rewrite decide_True by done. rewrite go_modify_bind, go_get_bind. unfold GetStack.
      cbn [dstack set_scriptIdx set_scriptOff set_numOps set_astack]. rewrite getStack_spec, go_lift_ok by done.
      unfold modify. destruct vm. cbn in *. by subst.
    - rewrite !decide_False by (intros [? ?]; done). destruct (decide _); unfold modify; destruct vm; cbn in *; by subst. }
  rewrite (go_bind_ok _ _ _ _ _ Hload). unfold skip_empty_script. rewrite go_get_bind. cbn [scriptIdx scripts scriptOff].
  rewrite decide_True by done. rewrite go_bind_assoc, goidx_1, go_lift_ok. destruct s1 as [|p s1]; [done|].
  rewrite decide_False by (rewrite zlen_cons; zlen_lia). rewrite go_ret_bind, go_modify_bind, go_get_bind.
  unfold enter. by rewrite Hscr.
Qed.

(** The last script: the second of two, or the third of a pay-to-script-hash. *)

Lemma next_script_last vm :
  zlen (scripts vm) = scriptIdx vm + 1 -> 1 <= scriptIdx vm -> (bip16 vm = true -> scriptIdx vm = 2) ->
  wf_stack (astack vm) ->
  next_script vm =
    if decide (condStack vm = []) then (Ok true, enter (scriptIdx vm + 1) (savedFirstStack vm) vm)
    else (Err ErrUnbalancedConditional, vm).
Proof.
  intros Hscr Hidx Hb Ha. unfold next_script. rewrite go_get_bind.
  destruct (condStack vm) as [|c cs] eqn:Hc; [|by rewrite !decide_True by (done || rewrite zlen_cons; zlen_lia)].
  rewrite decide_False by (intros H; by apply H). rewrite (go_bind_ok _ _ _ _ _ (drop_astack vm Ha)), go_modify_bind.
  set (vm2 := set_scriptOff 0 _).
  assert (Hload : load_script vm2 = (Ok (), set_scriptIdx (scriptIdx vm + 1) vm2)).
  { unfold load_script. rewrite go_get_bind. unfold vm2. cbn [scriptIdx bip16 set_scriptOff set_numOps set_astack].
    rewrite !(decide_False (P := _ /\ _ = true)) by (intros [Hi Hb']; specialize (Hb Hb'); lia).
    by destruct (decide _). }
  rewrite (go_bind_ok _ _ _ _ _ Hload). unfold skip_empty_script. rewrite go_get_bind. unfold vm2.
  cbn [scripts scriptIdx set_scriptIdx set_scriptOff set_numOps set_astack]. rewrite Hscr, decide_False by lia.
  rewrite go_ret_bind, go_modify_bind, go_get_bind. unfold enter, set_lastCodeSep. cbn. rewrite Hscr, Hc.
  by rewrite bool_decide_true by lia.
Qed.

(** The end of the lock script of a pay-to-script-hash output: the last item of
    the saved stack is the script to run next, on the items below it. *)

Definition redeem (l : list bytes) (rp : list parsedOpcode) (vm : Engine) : Engine :=
  mkEngine (scripts vm ++ [rp]) (if decide (rp = []) then 3 else 2) 0 0 (set_stk l (dstack vm)) (set_stk [] (astack vm))
    (tx vm) (msgIdx vm) (txIdx vm) [] 0 (flags vm) (bip16 vm) (savedFirstStack vm) (witnessVersion vm)
    (witnessProgram vm) (inputAmount vm).

Lemma CheckErrorCondition_top vm l x :
  zlen (scripts vm) <= scriptIdx vm -> stk (dstack vm) = l ++ [x] -> zlen l + 1 < 2 ^ 31 ->
  CheckErrorCondition false vm =
    if asBool x then (Ok (), set_dstack (set_stk l (dstack vm)) vm)
    else (Err ErrEvalFalse, set_dstack (set_stk l (dstack vm)) vm).
Proof.
  intros Hi Hs Hl. unfold CheckErrorCondition. rewrite go_get_bind, decide_False by lia. cbn [andb].
  rewrite Depth_spec by (unfold wf_stack; rewrite Hs, zlen_snoc; lia).
  rewrite Hs, zlen_snoc, decide_False by zlen_lia.
  unfold PopBool, on_dstack, zoom, mbind, go_bind. destruct (dstack vm) as [st mn] eqn:Ed. cbn in Hs. subst st.
  rewrite PopByteArray_ok by (rewrite ?zlen_snoc; lia). cbn. by destruct (asBool x).
Qed.

Lemma next_script_p2sh vm s0 s1 l x l1 r :
  scripts vm = [s0; s1] -> scriptIdx vm = 1 -> bip16 vm = true -> condStack vm = [] ->
  wf_stack (astack vm) -> stk (dstack vm) = l ++ [x] -> zlen l + 1 < 2 ^ 31 ->
  savedFirstStack vm = l1 ++ [r] ->
  (next_script vm).1 =
    (if asBool x then rp ← parseScript_or_err r; Ok (bool_decide (rp = [])) else Err ErrEvalFalse) /\
  forall rp, asBool x = true -> parseScript_or_err r = Ok rp -> (next_script vm).2 = redeem l1 rp vm.
Proof.
  intros Hscr Hidx Hb Hc Ha Hs Hl Hsv. unfold next_script. rewrite go_get_bind, Hc.
  rewrite decide_False by (intros H; by apply H). rewrite (go_bind_ok _ _ _ _ _ (drop_astack vm Ha)), go_modify_bind.
  set (vm2 := set_scriptOff 0 _). unfold load_script. rewrite go_bind_assoc, go_get_bind.
  rewrite decide_False by (cbn; lia). rewrite decide_True by done.
  rewrite go_bind_assoc, go_modify_bind, go_bind_assoc. set (vm3 := set_scriptIdx _ vm2).
  assert (CheckErrorCondition false vm3 = if asBool x then (Ok (), set_dstack (set_stk l (dstack vm)) vm3)
    else (Err ErrEvalFalse, set_dstack (set_stk l (dstack vm)) vm3)) as Hce.
  { apply (CheckErrorCondition_top vm3); [cbn; by rewrite Hscr, Hidx|done|done]. }
  destruct (asBool x); [|rewrite (go_bind_err _ _ _ _ _ Hce); by split].
  rewrite (go_bind_ok _ _ _ _ _ Hce), go_bind_assoc, go_get_bind. cbn [savedFirstStack set_dstack vm3 vm2 set_scriptIdx set_scriptOff set_numOps set_astack].
  rewrite Hsv, zlen_snoc. replace (zlen l1 + 1 - 1) with (zlen l1) by lia. rewrite goidx_last, goslice_prefix.
  rewrite go_bind_assoc, go_lift_ok.
  destruct (parseScript_or_err r) as [rp|e|]; [|by split..].
  rewrite go_bind_assoc, go_lift_ok, go_bind_assoc, go_modify_bind, go_bind_assoc, go_lift_ok.
  assert (forall v, wf_stack (dstack v) -> SetStack l1 v = (Ok (), set_dstack (set_stk l1 (dstack v)) v)) as Hset.
  { intros v Hv. unfold SetStack, on_dstack, zoom. by rewrite setStack_spec. }
  erewrite (go_bind_ok (SetStack l1)) by (apply Hset; unfold wf_stack; cbn; lia).
  unfold skip_empty_script. rewrite go_get_bind. cbn [scripts scriptIdx set_dstack set_scripts set_scriptIdx scriptOff set_scriptOff set_numOps set_astack].
  replace (scripts vm3) with [s0; s1] by done. replace (scriptIdx vm3) with 2 by (cbn; by rewrite Hidx).
  change (scriptOff vm3) with 0. cbn [app].
  rewrite decide_True by done. rewrite go_bind_assoc.
  rewrite goidx_2, go_lift_ok.
  destruct rp as [|q rp]; [rewrite decide_True by done|rewrite decide_False by (rewrite zlen_cons; zlen_lia)];
    rewrite ?go_modify_bind, ?go_ret_bind, ?go_modify_bind, go_get_bind; cbn; rewrite ?Hidx; (split; [done|]);
    intros rp' _ [= <-]; subst vm2 vm3; unfold redeem; clear Hce Hset; destruct vm; cbn in *; by subst.
Qed.

(** ** Instructions

    [at_ l n k vm] is [vm] with data stack [l], [n] operations counted, and the
    program counter at [k]. *)

Definition at_ (l : list bytes) (n k : Z) (vm : Engine) : Engine :=
  set_scriptOff k (set_numOps n (set_dstack (mkStack l (verifyMinimalData (dstack vm))) vm)).

Definition plain_op (v : Z) : Prop :=
  is_op v /\ v > OP_16 /\ isDisabled (op_pop v) = false /\ alwaysIllegal (op_pop v) = false.

Lemma executeOpcode_op v l n k vm :
  plain_op v -> n < MaxOpsPerScript -> condStack vm = [] ->
  executeOpcode (op_pop v) (at_ l n k vm) = exec_opfunc (opfunc (opc v)) (op_pop v) (at_ l (n + 1) k vm).
Proof.
  intros ((_ & Hv & _) & Hgt & Hdis & Hill) Hn Hc. unfold executeOpcode. rewrite Hdis, Hill.
  cbn [op_pop pop_opcode]. rewrite Hv, decide_True by done. rewrite go_bind_assoc, go_modify_bind, go_bind_assoc, go_get_bind.
  cbn [numOps set_numOps at_ set_scriptOff]. rewrite decide_False by lia. rewrite go_ret_bind, go_get_bind.
  unfold isBranchExecuting. cbn [condStack set_numOps at_ set_scriptOff set_dstack]. rewrite Hc. cbn [last negb andb].
  rewrite (bool_decide_false (_ /\ _)) by lia. rewrite andb_false_r, go_ret_bind.
  by destruct vm.
Qed.

Lemma run_cons_ok pop rest l n k vm l' n' :
  executeOpcode pop (at_ l n (k + 1) vm) = (Ok (), at_ l' n' (k + 1) vm) ->
  zlen l' + zlen (stk (astack vm)) <= MaxStackSize ->
  run_pops (pop :: rest) (at_ l n k vm) = run_pops rest (at_ l' n' (k + 1) vm).
Proof.
  intros Hex Hsz. cbn [run_pops]. rewrite go_modify_bind. rewrite (go_bind_ok _ _ _ () (at_ l' n' (k + 1) vm)).
  - rewrite go_get_bind. rewrite decide_False; [done|]. unfold stack_size. cbn. lia.
  - rewrite <- Hex. by destruct vm.
Qed.

Lemma run_cons_err pop rest l n k vm e vm' :
  executeOpcode pop (at_ l n (k + 1) vm) = (Err e, vm') -> run_pops (pop :: rest) (at_ l n k vm) = (Err e, vm').
Proof.
  intros Hex. cbn [run_pops]. rewrite go_modify_bind. apply go_bind_err. rewrite <- Hex. by destruct vm.
Qed.

(** A successful run of one more instruction. *)

Lemma run_cons_inv pop rest l n k vm vm'' :
  run_pops (pop :: rest) (at_ l n k vm) = (Ok (), vm'') ->
  exists vm', executeOpcode pop (at_ l n (k + 1) vm) = (Ok (), vm') /\ run_pops rest vm' = (Ok (), vm'').
Proof.
  cbn [run_pops]. rewrite go_modify_bind.
  replace (set_scriptOff _ (at_ l n k vm)) with (at_ l n (k + 1) vm) by by destruct vm.
  destruct (executeOpcode pop (at_ l n (k + 1) vm)) as [[[]|e|] vm'] eqn:Hex;
    [|by rewrite (go_bind_err _ _ _ _ _ Hex)|unfold mbind, go_bind; by rewrite Hex].
  rewrite (go_bind_ok _ _ _ _ _ Hex), go_get_bind. case_decide; [done|]. eauto.
Qed.

Lemma run_step_inv pop rest l n k vm l' n' vm'' :
  executeOpcode pop (at_ l n (k + 1) vm) = (Ok (), at_ l' n' (k + 1) vm) ->
  run_pops (pop :: rest) (at_ l n k vm) = (Ok (), vm'') ->
  run_pops rest (at_ l' n' (k + 1) vm) = (Ok (), vm'').
Proof. intros He Hr. destruct (run_cons_inv _ _ _ _ _ _ _ Hr) as (vm' & Hx & Hr'). congruence. Qed.

(** Popping and pushing on [at_]. *)

Lemma pop_at {B} l x n k vm (f : bytes -> EngineM B) :
  zlen l + 1 < 2 ^ 31 -> (on_dstack PopByteArray ≫= f) (at_ (l ++ [x]) n k vm) = f x (at_ l n k vm).
Proof.
  intros Hl. unfold on_dstack, zoom, mbind, go_bind. cbn [dstack at_ set_scriptOff set_numOps set_dstack].
  rewrite PopByteArray_ok by by rewrite zlen_snoc. by destruct vm.
Qed.

Lemma pop_at_empty {B} n k vm (f : bytes -> EngineM B) :
  (on_dstack PopByteArray ≫= f) (at_ [] n k vm) = (Err ErrInvalidStackOperation, at_ [] n k vm).
Proof.
  unfold on_dstack, zoom, mbind, go_bind. cbn [dstack at_ set_scriptOff set_numOps set_dstack].
  rewrite PopByteArray_empty. by destruct vm.
Qed.

Lemma push_at l x n k vm : on_dstack (PushByteArray x) (at_ l n k vm) = (Ok (), at_ (l ++ [x]) n k vm).
Proof. rewrite on_dstack_push. unfold push. by destruct vm. Qed.

(** The instructions of the standard scripts, with the stack they need and without
    it. *)

#[local] Instance plain_op_dec v : Decision (plain_op v).
Proof. unfold plain_op. apply _. Defined.

Lemma DUP_ok l x n k vm :
  small_stack (l ++ [x]) -> n < MaxOpsPerScript -> condStack vm = [] ->
  executeOpcode (op_pop OP_DUP) (at_ (l ++ [x]) n k vm) = (Ok (), at_ (l ++ [x; x]) (n + 1) k vm).
Proof.
  intros Hl Hn Hc. rewrite executeOpcode_op by (done || plain). change (opfunc (opc OP_DUP)) with fn_opcodeDup.
  cbn [exec_opfunc]. unfold opcodeDup, on_dstack, zoom. cbn [dstack at_ set_scriptOff set_numOps set_dstack].
  rewrite (DupN_ok l [x]) by small. by destruct vm.
Qed.

Lemma DUP_empty n k vm :
  n < MaxOpsPerScript -> condStack vm = [] ->
  executeOpcode (op_pop OP_DUP) (at_ [] n k vm) = (Err ErrInvalidStackOperation, at_ [] (n + 1) k vm).
Proof.
  intros Hn Hc. rewrite executeOpcode_op by (done || plain). change (opfunc (opc OP_DUP)) with fn_opcodeDup.
  cbn [exec_opfunc]. unfold opcodeDup, on_dstack, zoom. cbn [dstack at_ set_scriptOff set_numOps set_dstack]. by destruct vm.
Qed.

Lemma HASH160_ok l x n k vm :
  small_stack (l ++ [x]) -> n < MaxOpsPerScript -> condStack vm = [] ->
  executeOpcode (op_pop OP_HASH160) (at_ (l ++ [x]) n k vm) = (Ok (), at_ (l ++ [Hash160 x]) (n + 1) k vm).
Proof.
  intros Hl Hn Hc. rewrite executeOpcode_op by (done || plain). change (opfunc (opc OP_HASH160)) with fn_opcodeHash160.
  cbn [exec_opfunc]. unfold opcodeHash160. rewrite pop_at by small. apply push_at.
Qed.

Lemma HASH160_empty n k vm :
  n < MaxOpsPerScript -> condStack vm = [] ->
  executeOpcode (op_pop OP_HASH160) (at_ [] n k vm) = (Err ErrInvalidStackOperation, at_ [] (n + 1) k vm).
Proof.
  intros Hn Hc. rewrite executeOpcode_op by (done || plain). change (opfunc (opc OP_HASH160)) with fn_opcodeHash160.
  apply pop_at_empty.
Qed.

Lemma PUSH_ok d l n k vm :
  wf_bytes d -> zlen d <= MaxScriptElementSize -> condStack vm = [] ->
  executeOpcode (push_pop d) (at_ l n k vm) = (Ok (), at_ (l ++ [pushed d]) n k vm).
Proof.
  intros Hwf Hd Hc. rewrite push_pop_exec; [by destruct vm|done|done|].
  unfold isBranchExecuting. cbn. by rewrite Hc.
Qed.

Lemma pushbool_at l b n k vm : on_dstack (PushBool b) (at_ l n k vm) = (Ok (), at_ (l ++ [fromBool b]) n k vm).
Proof. apply push_at. Qed.

Lemma asBool_fromBool b : asBool (fromBool b) = b.
Proof. by destruct b. Qed.

Lemma popint_at l v n k vm x :
  small_stack (l ++ [v]) -> makeScriptNum v (verifyMinimalData (dstack vm)) 4 = Ok x ->
  on_dstack PopInt (at_ (l ++ [v]) n k vm) = (Ok x, at_ l n k vm).
Proof.
  intros Hl Hv. unfold on_dstack, zoom, PopInt, mbind, go_bind, get, lift.
  cbn [dstack at_ set_scriptOff set_numOps set_dstack]. rewrite PopByteArray_ok by small.
  cbn [verifyMinimalData]. change defaultScriptNumLen with 4. rewrite Hv. by destruct vm.
Qed.

Lemma popN_at l ks n k vm :
  small_stack (l ++ ks) -> popN (length ks) (at_ (l ++ ks) n k vm) = (Ok (reverse ks), at_ l n k vm).
Proof.
  induction ks as [|x ks IH] using rev_ind; intros Hl; [by rewrite app_nil_r|].
  rewrite length_app, Nat.add_comm. cbn [Nat.add length popN]. rewrite app_assoc, pop_at by small.
  rewrite (go_bind_ok _ _ _ _ _ (IH ltac:(small))), reverse_snoc. done.
Qed.

Lemma run_app p1 p2 vm : run_pops (p1 ++ p2) vm = (run_pops p1 ;; run_pops p2) vm.
Proof.
  revert vm. induction p1 as [|p p1 IH]; intros vm; [done|]. cbn [app run_pops].
  rewrite !go_bind_assoc. unfold mbind, go_bind. destruct (modify _ vm) as [[]]; [|done..].
  destruct (executeOpcode p e) as [[]]; [|done..]. cbn. destruct (decide _); [done|]. apply IH.
Qed.

Lemma abstractVerify_at l x op e n k vm :
  small_stack (l ++ [x]) ->
  abstractVerify op e (at_ (l ++ [x]) n k vm) = if asBool x then (Ok (), at_ l n k vm) else (Err e, at_ l n k vm).
Proof.
  intros Hl. unfold abstractVerify, PopBool, on_dstack, zoom, mbind, go_bind.
  cbn [dstack at_ set_scriptOff set_numOps set_dstack]. rewrite PopByteArray_ok by small.
  cbn. destruct (asBool x); by destruct vm.
Qed.

Lemma opcodeEqual_at l a b op n k vm :
  small_stack (l ++ [a; b]) ->
  opcodeEqual op (at_ (l ++ [a; b]) n k vm) = (Ok (), at_ (l ++ [fromBool (bool_decide (b = a))]) n k vm).
Proof.
  intros Hl. unfold opcodeEqual. replace (l ++ [a; b]) with ((l ++ [a]) ++ [b]) by by rewrite <- app_assoc.
  rewrite !pop_at by small. apply pushbool_at.
Qed.

Lemma EQUAL_ok l a b n k vm :
  small_stack (l ++ [a; b]) -> n < MaxOpsPerScript -> condStack vm = [] ->
  executeOpcode (op_pop OP_EQUAL) (at_ (l ++ [a; b]) n k vm) =
    (Ok (), at_ (l ++ [fromBool (bool_decide (b = a))]) (n + 1) k vm).
Proof.
  intros Hl Hn Hc. rewrite executeOpcode_op by (done || plain). change (opfunc (opc OP_EQUAL)) with fn_opcodeEqual.
  by apply opcodeEqual_at.
Qed.

Lemma EQUALVERIFY_ok l a b n k vm :
  small_stack (l ++ [a; b]) -> n < MaxOpsPerScript -> condStack vm = [] ->
  executeOpcode (op_pop OP_EQUALVERIFY) (at_ (l ++ [a; b]) n k vm) =
    if decide (b = a) then (Ok (), at_ l (n + 1) k vm) else (Err ErrEqualVerify, at_ l (n + 1) k vm).
Proof.
  intros Hl Hn Hc. rewrite executeOpcode_op by (done || plain).
  change (opfunc (opc OP_EQUALVERIFY)) with fn_opcodeEqualVerify. cbn [exec_opfunc]. unfold opcodeEqualVerify.
  rewrite (go_bind_ok _ _ _ _ _ (opcodeEqual_at l a b _ _ _ _ Hl)), abstractVerify_at by small.
  rewrite asBool_fromBool. by case_decide; [rewrite bool_decide_true|rewrite bool_decide_false].
Qed.

(** The signature checks of the current script. *)

Definition in_script (vm : Engine) : Prop :=
  has_payload (tx vm) /\ exists s, subScript vm = Ok s.

Lemma subScript_at l n k vm : subScript (at_ l n k vm) = subScript vm.
Proof. done. Qed.

Lemma VerifySignature_empty pk h : VerifySignature pk h [] = false.
Proof. done. Qed.

Lemma CHECKSIG_ok l sig pk n k vm :
  in_script vm -> small_stack (l ++ [sig; pk]) -> n < MaxOpsPerScript -> condStack vm = [] ->
  executeOpcode (op_pop OP_CHECKSIG) (at_ (l ++ [sig; pk]) n k vm) =
    (Ok (), at_ (l ++ [fromBool (VerifySignature pk (Keccak256 []) sig)]) (n + 1) k vm).
Proof.
  intros (Hp & s & Hs) Hl Hn Hc. rewrite executeOpcode_op by (done || plain).
  change (opfunc (opc OP_CHECKSIG)) with fn_opcodeCheckSig. cbn [exec_opfunc]. unfold opcodeCheckSig.
  replace (l ++ [sig; pk]) with ((l ++ [sig]) ++ [pk]) by by rewrite <- app_assoc.
  rewrite !pop_at by small. case_decide as Hsig.
  - assert (sig = []) as -> by (apply zlen_0; zlen_lia). apply pushbool_at.
  - rewrite go_get_bind, subScript_at, Hs, go_lift_ok. cbn zeta.
    change (tx (at_ l ?a ?b vm)) with (tx vm). rewrite calcSignatureHash_const, go_lift_ok by done. apply pushbool_at.
Qed.

Lemma CHECKSIG_short x n k vm :
  small_stack [x] -> n < MaxOpsPerScript -> condStack vm = [] ->
  executeOpcode (op_pop OP_CHECKSIG) (at_ [x] n k vm) = (Err ErrInvalidStackOperation, at_ [] (n + 1) k vm).
Proof.
  intros Hl Hn Hc. rewrite executeOpcode_op by (done || plain).
  change (opfunc (opc OP_CHECKSIG)) with fn_opcodeCheckSig. cbn [exec_opfunc]. unfold opcodeCheckSig.
  change [x] with ([] ++ [x]). rewrite pop_at by small. apply pop_at_empty.
Qed.

Lemma JURY_ok l redeem v c n k vm x :
  makeScriptNum v (verifyMinimalData (dstack vm)) 4 = Ok x -> 0 <= scriptNum_Int32 x ->
  small_stack (l ++ [redeem; v; c]) -> n < MaxOpsPerScript -> condStack vm = [] ->
  executeOpcode (op_pop OP_JURY_REDEEM_EQUAL) (at_ (l ++ [redeem; v; c]) n k vm) =
    (Ok (), at_ (l ++ [fromBool true]) (n + 1) k vm).
Proof.
  intros Hv Hx Hl Hn Hc. rewrite executeOpcode_op by (done || plain).
  change (opfunc (opc OP_JURY_REDEEM_EQUAL)) with fn_opcodeCheckJuryRedeemEqual. cbn [exec_opfunc].
  unfold opcodeCheckJuryRedeemEqual.
  replace (l ++ [redeem; v; c]) with (((l ++ [redeem]) ++ [v]) ++ [c]) by by rewrite <- !app_assoc.
  rewrite pop_at by small.
  rewrite (go_bind_ok _ _ _ _ _ (popint_at (l ++ [redeem]) v (n + 1) k vm x ltac:(small) Hv)).
  rewrite decide_False by lia. rewrite pop_at by small. apply pushbool_at.
Qed.

(** ** The end of a run

    [finish]: the verdict on a final stack when the clean-stack rule is on. *)

Definition finish (l : list bytes) : outcome ErrorCode unit :=
  match l with
  | [x] => if asBool x then Ok () else Err ErrEvalFalse
  | _ => Err ErrCleanStack
  end.

(** The verdict of a run of the last script. *)

Definition verdict (r : outcome ErrorCode unit * Engine) : outcome ErrorCode unit :=
  match r with
  | (Ok _, vm') => if decide (condStack vm' = []) then finish (stk (dstack vm')) else Err ErrUnbalancedConditional
  | (Err e, _) => Err e
  | (Panic, _) => Panic
  end.

Lemma CheckErrorCondition_finish vm :
  zlen (scripts vm) <= scriptIdx vm -> witnessProgram vm = None -> hasFlag vm ScriptVerifyCleanStack = true ->
  wf_stack (dstack vm) -> (CheckErrorCondition true vm).1 = finish (stk (dstack vm)).
Proof.
  intros Hi Hw Hf Hd. unfold CheckErrorCondition. rewrite go_get_bind, decide_False by lia.
  unfold isWitnessVersionActive. rewrite Hw, Hf, Depth_spec by done.
  rewrite (bool_decide_false (is_Some None /\ _)) by (intros [[? ?] _]; done). cbn [andb].
  destruct (dstack vm) as [[|x [|y l]] m] eqn:Ed; cbn [stk finish].
  - by rewrite bool_decide_true by done.
  - rewrite bool_decide_false by (intros H; by apply H). rewrite decide_False by done.
    unfold PopBool, on_dstack, zoom, mbind, go_bind.
    rewrite Ed, (PopByteArray_ok [] x) by done. cbn. by destruct (asBool x).
  - by rewrite bool_decide_true by (rewrite !zlen_cons; zlen_lia).
Qed.

(** ** The lock script

    [at_lock lp vm]: [vm] is at the start of the lock script [lp], with whatever
    stack the signature script left. *)

Record at_lock (lp : list parsedOpcode) (vm : Engine) : Prop := {
  al_I : I_ok vm;
  al_scripts : exists sp, scripts vm = [sp; lp];
  al_idx : scriptIdx vm = 1;
  al_off : scriptOff vm = 0;
  al_sep : lastCodeSep vm = 0;
  al_cond : condStack vm = [];
  al_ops : numOps vm = 0;
  al_astack : stk (astack vm) = [];
  al_flags : flags vm = StandardVerifyFlags;
  al_bip16 : bip16 vm = isScriptHash lp;
  al_witness : witnessProgram vm = None
}.

Lemma I_wf vm : I_ok vm -> wf_stack (dstack vm) /\ wf_stack (astack vm).
Proof. intros []. unfold wf_stack, MaxStackSize in *. zlen_facts. lia. Qed.

Lemma I_payload vm : I_ok vm -> has_payload (tx vm).
Proof.
  intros HI. apply (pc_has_payload (set_scriptOff (scriptOff vm + 1) vm)), I_pc, HI.
Qed.

Lemma at_lock_in_script lp vm : at_lock lp vm -> in_script vm.
Proof.
  intros []. split; [by apply I_payload|]. destruct al_scripts0 as [sp Hs]. unfold subScript.
  rewrite Hs, al_idx0, al_sep0, goidx_1, outcome_bind_ok. eexists.
  unfold goslice. by rewrite decide_True by (zlen_facts; lia).
Qed.

Lemma at_lock_at lp vm : at_lock lp vm -> vm = at_ (stk (dstack vm)) 0 0 vm.
Proof. intros []. destruct vm as [? ? ? ? [] ? ? ? ? ? ? ? ? ? ? ? ?]. cbn in *. by subst. Qed.

(** The verdict of the last script. *)

Lemma last_verdict pops vm fuel :
  I_ok vm -> scripts vm !! Z.to_nat (scriptIdx vm) = Some pops -> scriptOff vm = 0 -> pops <> [] ->
  zlen (scripts vm) = scriptIdx vm + 1 -> 1 <= scriptIdx vm -> (bip16 vm = true -> scriptIdx vm = 2) ->
  flags vm = StandardVerifyFlags -> witnessProgram vm = None ->
  Execute_loop (length pops + fuel) vm = Some (verdict (run_pops pops vm)).
Proof.
  intros HI Hl Hoff Hne Hn Hi Hb Hf Hw.
  destruct (Execute_run pops [] vm fuel HI Hl Hoff Hne) as [-> _].
  destruct (run_pops pops vm) as [[[]|e|] vm'] eqn:Hr;
    [|by rewrite (go_bind_err _ _ _ _ _ Hr)|unfold mbind, go_bind; by rewrite Hr].
  rewrite (go_bind_ok _ _ _ _ _ Hr).
  destruct (run_pops_frame pops [] vm vm' HI Hl Hoff Hne Hr) as (He & Hsz & _ & _).
  apply erase_fields in He as (F1 & F2 & _ & _ & _ & _ & F7 & F8 & F9 & _ & F11). cbn in F1, F2, F7, F8, F9, F11.
  assert (wf_stack (dstack vm') /\ wf_stack (astack vm')) as [Hwd Hwa]
    by (unfold wf_stack, stack_size, MaxStackSize in *; zlen_facts; lia).
  rewrite (next_script_last vm') by (rewrite ?F1, ?F2, ?F8; done). cbn [verdict]. case_decide; [|done].
  cbn [after_script]. f_equal. apply (CheckErrorCondition_finish (enter _ _ vm')).
  - cbn. rewrite F1, F2. lia.
  - cbn. by rewrite F11.
  - unfold hasFlag. cbn. by rewrite F7, Hf.
  - done.
Qed.

(** The verdict of a lock script that is not a pay-to-script-hash pattern. *)

Lemma lock_verdict lp vm fuel :
  at_lock lp vm -> lp <> [] -> isScriptHash lp = false ->
  Execute_loop (length lp + fuel) vm = Some (verdict (run_pops lp vm)).
Proof.
  intros [HI [sp Hs] Hidx Hoff _ _ _ _ Hfl Hb Hw] Hne Hsh.
  apply last_verdict; rewrite ?Hs, ?Hidx; try done. congruence.
Qed.

(** An accepted run reaches the start of the lock script. *)

Lemma reach_lock lp t m i vm :
  wf_bytes (encode_all lp) -> Forall (wf_pop opcodeArray) lp -> lp <> [] -> wf_tx t ->
  NewEngine (encode_all lp) t m i StandardVerifyFlags 0 = Ok vm ->
  Execute vm = Some (Ok ()) ->
  exists vm1 fuel, at_lock lp vm1 /\ (isScriptHash lp = true -> savedFirstStack vm1 = stk (dstack vm1)) /\
    rtc step_rel vm vm1 /\ Execute_loop fuel vm1 = Some (Ok ()).
Proof.
  intros Hwf Hlp Hne Ht Hnew Hex. pose proof (NewEngine_I _ _ _ _ _ _ _ Hwf Ht Hnew) as [HI _].
  destruct (NewEngine_inv _ _ _ _ _ _ _ Hnew) as (inp & s0 & s1 & Hin & _ & H0 & H1 & ->).
  pose proof (wf_tx_input _ _ _ _ Ht Hin) as Hsig.
  destruct (parse_checked_ok _ _ Hsig H0) as (Hl0 & Hw0 & He0).
  assert (s1 = lp) as ->.
  { destruct (parse_checked_ok _ _ Hwf H1) as (_ & Hw1 & He1).
    unfold parse_checked in H1. case_decide; [done|]. rewrite parseScript_or_err_encode in H1 by done. congruence. }
  rewrite He0 in *. destruct (decide (zlen (encode_all s0) = 0)) as [Hz|Hz].
  { eexists _, _. split; [|split; [|split; [apply rtc_refl|exact Hex]]]; [|done]. constructor; try done. by eexists. }
  assert (Hs0 : s0 <> []) by (intros ->; done).
  set (vm := mkEngine _ _ _ _ _ _ _ _ _ _ _ _ _ _ _ _ _) in *.
  unfold Execute in Hex. assert (exists fuel, Execute_fuel = (length s0 + fuel)%nat) as [fuel Hfuel].
  { exists (Execute_fuel - length s0)%nat. pose proof (encode_all_length s0).
    unfold Execute_fuel, MaxScriptSize, zlen in *. lia. }
  rewrite Hfuel in Hex. destruct (Execute_run s0 [] vm fuel HI eq_refl eq_refl Hs0) as [He HI']. rewrite He in Hex.
  destruct (run_pops s0 vm) as [[[]|e|] vm'] eqn:Hr;
    [|by rewrite (go_bind_err _ _ _ _ _ Hr) in Hex|unfold mbind, go_bind in Hex; by rewrite Hr in Hex].
  rewrite (go_bind_ok _ _ _ _ _ Hr) in Hex, HI'.
  destruct (run_pops_frame s0 [] vm vm' HI eq_refl eq_refl Hs0 Hr) as (Hf & Hsz & _ & _).
  apply erase_fields in Hf as (F1 & F2 & _ & _ & _ & _ & F7 & F8 & F9 & _ & F11).
  rewrite (next_script_first vm' s0 lp) in Hex, HI' by
    first [done | exact F1 | exact F2 | unfold wf_stack, stack_size, MaxStackSize in *; zlen_facts; lia].
  case_decide as Hc; [|done]. cbn [after_script] in Hex. destruct (HI' _ eq_refl) as [HI1 Hrtc].
  eexists _, fuel. split; [|split; [|split; [exact Hrtc|exact Hex]]].
  - constructor; try done. eexists. exact F1.
  - intros Hsh. cbn. by rewrite F8; cbn; rewrite Hsh.
Qed.

(** ** Signature scripts that push data *)

Definition push_ok (d : bytes) : Prop := wf_bytes d /\ zlen d <= MaxScriptElementSize.

Lemma run_pushes ds l n k vm :
  Forall push_ok ds -> condStack vm = [] ->
  zlen l + zlen ds + zlen (stk (astack vm)) <= MaxStackSize ->
  run_pops (push_pop <$> ds) (at_ l n k vm) = (Ok (), at_ (l ++ (pushed <$> ds)) n (k + zlen ds) vm).
Proof.
  intros Hds Hc. revert l k. induction Hds as [|d ds [Hwf Hd] Hds IH]; intros l k Hsz; cbn [fmap list_fmap].
  - rewrite app_nil_r, (@zlen_nil bytes), Z.add_0_r. done.
  - rewrite zlen_cons in *. pose proof (zlen_nonneg ds).
    rewrite (run_cons_ok _ _ _ _ _ _ (l ++ [pushed d]) n) by (by apply PUSH_ok || (rewrite zlen_snoc; lia)).
    rewrite IH by (rewrite zlen_snoc; lia). rewrite <- app_assoc. cbn [app]. by replace (k + 1 + zlen ds) with (k + (1 + zlen ds)) by lia.
Qed.

Lemma push_pop_value d : wf_bytes d -> zlen d < 2 ^ 32 -> value (pop_opcode (push_pop d)) <= OP_16.
Proof.
  intros Hwf Hl. destruct (push_view_long d (push_cases d Hwf)) as [H|[(x & -> & Hx)|[->|H]]].
  - unfold push_pop. rewrite (decide_True _ _ H). by vm_compute.
  - rewrite push_pop_small by done. cbn [op_pop pop_opcode].
    destruct (opc_small (OP_1 - 1 + x)) as [(_ & -> & _) _]; lia.
  - by vm_compute.
  - destruct (push_pop_long d H Hwf Hl) as (_ & He & _). rewrite (push_pop_long_value d He).
    pose proof (long_header_value d H Hl). lia.
Qed.

Lemma pushes_wf ds : Forall push_ok ds ->
  Forall (wf_pop opcodeArray) (push_pop <$> ds) /\ isPushOnly (push_pop <$> ds) = true.
Proof.
  intros Hds. split.
  - apply Forall_fmap. eapply Forall_impl; [done|]. intros d [Hwf Hd].
    by destruct (push_pop_spec d NewScriptBuilder Hwf) as [? _]; [unfold MaxScriptElementSize in *; lia|].
  - unfold isPushOnly. apply forallb_forall. intros p Hp%list_elem_of_In. apply bool_decide_true.
    apply list_elem_of_fmap in Hp as (d & -> & Hin). rewrite Forall_forall in Hds. destruct (Hds d Hin).
    apply push_pop_value; [done|]. unfold MaxScriptElementSize in *. lia.
Qed.

(** A signature script of pushes runs through, and the engine is at the lock script
    with what was pushed, which it has saved if the lock script is a
    pay-to-script-hash pattern. *)

Lemma validate_pushes ds lp t m i p inp :
  spends t m i p inp -> wf_tx t ->
  contents (SignatureScript inp) = encode_all (push_pop <$> ds) ->
  Forall push_ok ds -> ds <> [] -> zlen ds <= MaxStackSize -> zlen (encode_all (push_pop <$> ds)) <= MaxScriptSize ->
  wf_bytes (encode_all lp) -> Forall (wf_pop opcodeArray) lp -> lp <> [] -> zlen (encode_all lp) <= MaxScriptSize ->
  isWitnessProgram lp = false ->
  exists vm1 fuel, at_lock lp vm1 /\ stk (dstack vm1) = pushed <$> ds /\ verifyMinimalData (dstack vm1) = true /\
    savedFirstStack vm1 = (if isScriptHash lp then pushed <$> ds else []) /\
    10600 <= Z.of_nat fuel /\ ScriptValidate (encode_all lp) t m i = Execute_loop fuel vm1.
Proof.
  intros Hsp Ht Hsig Hds Hne Hlen Hs0 Hwl Hlp Hlpne Hs1 Hw.
  destruct (pushes_wf ds Hds) as [Hp0 Hpo]. set (sp := push_pop <$> ds) in *.
  assert (Hspne : sp <> []) by (subst sp; by destruct ds).
  assert (Hsz : zlen sp <= zlen (encode_all sp)) by (pose proof (encode_all_length sp); unfold zlen; lia).
  assert (Hz : zlen (encode_all sp) <> 0) by (destruct sp; [done|]; rewrite zlen_cons in Hsz; zlen_lia).
  set (vm := mkEngine [sp; lp] 0 0 0 (mkStack [] true) (mkStack [] true) t m i [] 0 StandardVerifyFlags
    (isScriptHash lp) [] 0 None 0).
  assert (Hnew : NewEngine (encode_all lp) t m i StandardVerifyFlags 0 = Ok vm).
  { destruct Hsp as (Hm & Hi & Hl & Hn). unfold NewEngine. pose proof (lookup_lt_Some _ _ _ Hl).
    rewrite (decide_False (P := _ \/ _)) by (unfold zlen; lia).
    rewrite (goidx_lookup _ _ _ Hm Hl), outcome_bind_ok. cbn [App payload].
    rewrite (decide_False (P := APP_PAYMENT <> APP_PAYMENT)) by (intros []; done).
    rewrite outcome_bind_ok, (goidx_lookup _ _ _ Hi Hn), outcome_bind_ok, Hsig. cbn zeta.
    rewrite (decide_False (P := _ /\ _)) by tauto.
    change (flagSet StandardVerifyFlags ScriptVerifyCleanStack) with true.
    change (flagSet StandardVerifyFlags ScriptBip16) with true.
    change (flagSet StandardVerifyFlags ScriptVerifySigPushOnly) with false.
    change (flagSet StandardVerifyFlags ScriptVerifyWitness) with true. cbn [negb andb]. rewrite outcome_bind_ok.
    unfold parse_checked. rewrite !decide_False by lia. rewrite !parseScript_or_err_encode by done.
    rewrite !outcome_bind_ok, Hpo, andb_false_r, Hw. cbn [negb andb].
    done. }
  destruct (NewEngine_I _ _ _ _ _ _ _ Hwl Ht Hnew) as [HI _].
  unfold ScriptValidate. rewrite Hnew. unfold Execute. set (fuel := (Execute_fuel - length sp)%nat).
  replace Execute_fuel with (length sp + fuel)%nat by (unfold fuel, Execute_fuel, MaxScriptSize, zlen in *; lia).
  destruct (Execute_run sp [] vm fuel HI eq_refl eq_refl Hspne) as [-> HI'].
  assert (Hrun : run_pops sp vm = (Ok (), at_ (pushed <$> ds) 0 (zlen ds) vm)).
  { change vm with (at_ [] 0 0 vm) at 1. unfold sp. rewrite run_pushes; [done|done|done|].
    cbn. change (zlen (@nil bytes)) with 0. lia. }
  rewrite (go_bind_ok _ _ _ _ _ Hrun) in HI' |- *.
  rewrite (next_script_first _ sp lp) in HI' |- *; try done;
    try (unfold wf_stack; cbn; unfold zlen; rewrite ?length_fmap; unfold zlen, MaxStackSize in *; cbn; lia).
  rewrite decide_True in HI' |- * by done. destruct (HI' _ eq_refl) as [HI1 _].
  match type of HI1 with I_ok ?v => exists v, fuel end. split_and!; [|done..|unfold fuel, Execute_fuel, MaxScriptSize, zlen in *; lia|done].
  constructor; try done. by eexists.
Qed.

End Runs.
