(* ===== verification/ScriptSpend.v ===== *)
(** * Spending standard outputs

    The verdict of [ScriptValidate] on the lock scripts of [tokenengine/api.go]:
    pay-to-public-key-hash, pay-to-contract-hash, pay-to-script-hash and
    multisignature redeem scripts.  For each, what an accepted spend must contain,
    whatever its signature script, and the exact verdict on the signature scripts
    that the node generates. *)

From S2P Require Import Prelude Digits ScriptErrors ScriptNum ScriptStack Opcodes ScriptParse.
From S2P Require Import HexUtil Transaction Crypto Address OpcodeExec ScriptEngine EngineSafety.
From S2P Require Import EngineProps ScriptBuilder ScriptStandard ScriptRuns.

#[local] Open Scope Z_scope.

(** ** Generated scripts *)

Lemma gen_ok pops r :
  gen pops r -> r.1 = encode_all pops /\ Forall (wf_pop opcodeArray) pops /\ wf_bytes (encode_all pops).
Proof. intros [Hp ->]. split_and!; [done|done|by eapply encode_all_wf]. Qed.

Lemma small_pops_size pops n :
  Forall (fun p => zlen (encode p) <= 525) pops -> zlen pops <= n -> n <= 19 -> zlen (encode_all pops) <= MaxScriptSize.
Proof. intros Hp Hl Hn. pose proof (encode_all_small pops Hp). unfold MaxScriptSize. lia. Qed.

Lemma op_small v : bool_decide (is_byte v /\ is_op v) = true -> zlen (encode (op_pop v)) <= 525.
Proof. intros H. by apply op_pop_small, op_call_ok. Qed.

Ltac small_pops n :=
  apply (small_pops_size _ n);
  [repeat constructor; first [by apply op_small; vm_compute|by apply push_pop_small525]|done|lia].

(** A signature script that pushes a few items. *)

Lemma pushes_script ds :
  Forall push_ok ds -> zlen ds <= 19 ->
  gen (push_pop <$> ds) (Script (AddDatas ds NewScriptBuilder)) /\ zlen (encode_all (push_pop <$> ds)) <= MaxScriptSize.
Proof.
  intros Hds Hl. assert (zlen (encode_all (push_pop <$> ds)) <= MaxScriptSize) as Hs.
  { apply (small_pops_size _ 19); [|unfold zlen in *; by rewrite length_fmap|lia].
    apply Forall_fmap. eapply Forall_impl; [done|]. intros d [? ?]. by apply push_pop_small525. }
  split; [|done]. assert (push_pop <$> ds = instr <$> (CallData <$> ds)) as He by by rewrite <- list_fmap_compose.
  rewrite He in Hs |- *. apply gen_calls; [| | |done].
  - pose proof (AddDatas_calls ds [] NewScriptBuilder) as Hr. rewrite app_nil_r in Hr. by rewrite Hr.
  - apply Forall_fmap. eapply Forall_impl; [done|]. by intros d [? ?].
  - apply Forall_fmap. eapply Forall_impl; [done|]. by intros d [? ?].
Qed.

Section Spend.
Context {C : Crypto} {L : CryptoLaws}.

(** ** Runs of a lock script

    The verdict after pushes, and what an accepted run went through, for a lock
    script that is not a pay-to-script-hash pattern. *)

Definition lock_script (lp : list parsedOpcode) : Prop :=
  Forall (wf_pop opcodeArray) lp /\ wf_bytes (encode_all lp) /\ lp <> [] /\ zlen (encode_all lp) <= MaxScriptSize.

Lemma validate_lock ds lp t m i p inp :
  spends t m i p inp -> wf_tx t -> contents (SignatureScript inp) = encode_all (push_pop <$> ds) ->
  Forall push_ok ds -> ds <> [] -> zlen ds <= 19 ->
  lock_script lp -> isWitnessProgram lp = false -> isScriptHash lp = false ->
  exists vm1, at_lock lp vm1 /\ verifyMinimalData (dstack vm1) = true /\
    ScriptValidate (encode_all lp) t m i =
      Some (verdict (run_pops lp (at_ (pushed <$> ds) 0 0 vm1))).
Proof.
  intros Hsp Ht Hsig Hds Hne Hl (Hlp & Hwf & Hlne & Hsz) Hw Hsh.
  destruct (validate_pushes ds lp t m i p inp) as (vm1 & fuel & Hal & Hstk & Hmin & _ & Hfuel & ->); try done.
  { unfold MaxStackSize. lia. } { by apply pushes_script. }
  exists vm1. split_and!; [done..|]. rewrite <- Hstk, <- (at_lock_at lp) by done.
  rewrite <- (lock_verdict lp vm1 (fuel - length lp)) by done. f_equal.
  pose proof (encode_all_length lp). unfold MaxScriptSize, zlen in *. lia.
Qed.

Lemma accepted_lock lp t m i :
  wf_tx t -> lock_script lp -> isScriptHash lp = false -> ScriptValidate (encode_all lp) t m i = Some (Ok ()) ->
  exists vm vm1 vm' x, NewEngine (encode_all lp) t m i StandardVerifyFlags 0 = Ok vm /\ rtc step_rel vm vm1 /\
    at_lock lp vm1 /\ zlen (stk (dstack vm1)) <= MaxStackSize /\
    run_pops lp (at_ (stk (dstack vm1)) 0 0 vm1) = (Ok (), vm') /\ stk (dstack vm') = [x] /\ asBool x = true.
Proof.
  intros Ht (Hlp & Hwf & Hlne & Hsz) Hsh Hv. unfold ScriptValidate in Hv.
  destruct (NewEngine _ _ _ _ _ _) as [vm| |] eqn:Hnew; [|done..].
  destruct (reach_lock lp t m i vm) as (vm1 & fuel & Hal & _ & Hrtc & Hex); try done.
  apply (Execute_loop_mono (length lp)) in Hex. rewrite Nat.add_comm, lock_verdict in Hex by done.
  destruct (run_pops lp vm1) as [[[]| |] vm'] eqn:Hr; [|done..]. cbn [verdict] in Hex.
  case_decide; [|done]. unfold finish in Hex.
  destruct (stk (dstack vm')) as [|x [|]] eqn:Es; [done| |done]. destruct (asBool x) eqn:Ex; [|done].
  exists vm, vm1, vm', x. split_and!; [done..| |rewrite <- (at_lock_at lp); done|done|done].
  pose proof (al_I _ _ Hal) as []. zlen_facts. lia.
Qed.

(** ** Pay to public key hash *)

Lemma p2pkh_lock h :
  wf_bytes h -> zlen h = 20 ->
  GenerateP2PKHLockScript h = encode_all (p2pkh_pops h) /\ lock_script (p2pkh_pops h) /\
  isScriptHash (p2pkh_pops h) = false.
Proof.
  intros Hwf Hl. assert (zlen h <= 520) as Hl' by lia.
  destruct (gen_ok _ _ (payToPubKeyHashScript_gen h Hwf Hl')) as (H1 & H2 & H3).
  split_and!; [exact H1|split_and!; [done|done|done|unfold p2pkh_pops; small_pops 5]|done].
Qed.

Lemma pushed_id d : d <> [0] -> pushed d = d.
Proof. intros Hd. unfold pushed. by rewrite decide_False. Qed.

Lemma pushed_hash h : zlen h = 20 -> pushed h = h.
Proof. intros Hl. apply pushed_id. intros ->. by vm_compute in Hl. Qed.

Lemma p2pkh_run h l0 sig pk vm :
  wf_bytes h -> zlen h = 20 -> at_lock (p2pkh_pops h) vm -> zlen l0 + 4 <= MaxStackSize ->
  run_pops (p2pkh_pops h) (at_ (l0 ++ [sig; pk]) 0 0 vm) =
    if decide (Hash160 pk = h) then
      (Ok (), at_ (l0 ++ [fromBool (VerifySignature pk (Keccak256 []) sig)]) 4 5 vm)
    else (Err ErrEqualVerify, at_ (l0 ++ [sig; pk]) 3 4 vm).
Proof.
  intros Hwf Hl Hal Hsz. pose proof (al_cond _ _ Hal) as Hc. pose proof (al_astack _ _ Hal) as Ha.
  pose proof (at_lock_in_script _ _ Hal) as Hin.
  pose proof (pushed_hash h Hl) as Hph.
  unfold p2pkh_pops.
  assert (forall l' : list bytes, zlen l' <= zlen l0 + 4 -> zlen l' + zlen (stk (astack vm)) <= MaxStackSize) as Hroom.
  { intros l' ?. rewrite Ha. change (zlen (@nil bytes)) with 0. lia. }
  replace (l0 ++ [sig; pk]) with ((l0 ++ [sig]) ++ [pk]) by by rewrite <- app_assoc.
  erewrite run_cons_ok; [|apply DUP_ok; [small|done|done]|apply Hroom; small].
  replace ((l0 ++ [sig]) ++ [pk; pk]) with ((l0 ++ [sig; pk]) ++ [pk]) by by rewrite <- !app_assoc.
  erewrite run_cons_ok; [|apply HASH160_ok; [small|done|done]|apply Hroom; small].
  erewrite run_cons_ok; [|apply PUSH_ok; [done|unfold MaxScriptElementSize; lia|done]|apply Hroom; small].
  rewrite Hph. replace (((l0 ++ [sig; pk]) ++ [Hash160 pk]) ++ [h]) with ((l0 ++ [sig; pk]) ++ [Hash160 pk; h])
    by by rewrite <- !app_assoc.
  destruct (decide (Hash160 pk = h)) as [Heq|Hneq].
  - erewrite run_cons_ok; [|rewrite EQUALVERIFY_ok, decide_True by (small || done); done|apply Hroom; small].
    erewrite run_cons_ok; [|apply CHECKSIG_ok; (small || done)|apply Hroom; small]. done.
  - erewrite run_cons_err; [|rewrite EQUALVERIFY_ok, decide_False by (congruence || done || small); done].
    by rewrite <- app_assoc.
Qed.

Lemma p2pkh_validate h sig pk t m i p inp :
  spends t m i p inp -> wf_tx t -> contents (SignatureScript inp) = GenerateP2PKHUnlockScript sig pk ->
  wf_bytes h -> zlen h = 20 -> push_ok sig -> push_ok pk -> sig <> [0] -> pk <> [0] ->
  ScriptValidate (GenerateP2PKHLockScript h) t m i =
    Some (if decide (Hash160 pk = h) then
            if VerifySignature pk (Keccak256 []) sig then Ok () else Err ErrEvalFalse
          else Err ErrEqualVerify).
Proof.
  intros Hsp Ht Hsig Hwf Hl Hok1 Hok2 Hs0 Hp0. destruct (p2pkh_lock h Hwf Hl) as (-> & Hlock & Hsh).
  assert (Forall push_ok [sig; pk]) as Hds by by rewrite !Forall_cons.
  destruct (pushes_script [sig; pk]) as [[_ Hgen] _]; [done|done|].
  destruct (validate_lock [sig; pk] (p2pkh_pops h) t m i p inp) as (vm1 & Hal & _ & ->); try done.
  { rewrite Hsig. change (GenerateP2PKHUnlockScript sig pk) with (Script (AddDatas [sig; pk] NewScriptBuilder)).1.
    by rewrite Hgen. }
  cbn [fmap list_fmap]. rewrite !pushed_id by done.
  pose proof (p2pkh_run h [] sig pk vm1 Hwf Hl Hal) as Hrun. cbn [app] in Hrun. rewrite Hrun by done.
  case_decide; [|done].
  cbn [verdict]. rewrite decide_True by apply Hal. by destruct (VerifySignature _ _ _).
Qed.

(** C19: The exact verdict on a pay-to-public-key-hash output spent with the signature
    script that [GenerateP2PKHUnlockScript] builds.  The spend is accepted when the
    public key hashes to the locked hash and the signature verifies with it; a wrong
    key is [ErrEqualVerify] and a wrong signature [ErrEvalFalse]. *)
Theorem p2pkh_verdict h sig pk t m i p inp :
  spends t m i p inp -> wf_tx t -> contents (SignatureScript inp) = GenerateP2PKHUnlockScript sig pk ->
  wf_bytes h -> zlen h = 20 -> push_ok sig -> push_ok pk -> sig <> [0] -> pk <> [0] ->
  ScriptValidate (GenerateP2PKHLockScript h) t m i =
    Some (if decide (Hash160 pk = h) then
            if VerifySignature pk (Keccak256 []) sig then Ok () else Err ErrEvalFalse
          else Err ErrEqualVerify).
Proof. apply p2pkh_validate. Qed.

Lemma p2pkh_run_inv h l vm vm' x :
  wf_bytes h -> zlen h = 20 -> at_lock (p2pkh_pops h) vm -> zlen l <= MaxStackSize ->
  run_pops (p2pkh_pops h) (at_ l 0 0 vm) = (Ok (), vm') -> stk (dstack vm') = [x] -> asBool x = true ->
  exists sig pk, l = [sig; pk] /\ Hash160 pk = h /\ VerifySignature pk (Keccak256 []) sig = true.
Proof.
  intros Hwf Hl Hal Hsz Hr Hx Hb. pose proof (al_cond _ _ Hal) as Hc. pose proof (at_lock_in_script _ _ Hal) as Hin.
  pose proof (pushed_hash h Hl) as Hph.
  unfold p2pkh_pops in Hr. destruct l as [|pk l _] using rev_ind; [by rewrite (run_cons_err _ _ _ _ _ _ _ _ (DUP_empty 0 _ _ eq_refl Hc)) in Hr|].
  eapply run_step_inv in Hr; [|apply DUP_ok; [small|done|done]].
  replace (l ++ [pk; pk]) with ((l ++ [pk]) ++ [pk]) in Hr by by rewrite <- app_assoc.
  eapply run_step_inv in Hr; [|apply HASH160_ok; [small|done|done]].
  eapply run_step_inv in Hr; [|apply PUSH_ok; [done|unfold MaxScriptElementSize; lia|done]].
  rewrite Hph, <- app_assoc in Hr. cbn [app] in Hr.
  destruct (decide (h = Hash160 pk)) as [Heq|Hneq];
    [|by erewrite run_cons_err in Hr; [|rewrite EQUALVERIFY_ok, decide_False by (small || done); done]].
  eapply run_step_inv in Hr; [|rewrite EQUALVERIFY_ok, decide_True by (small || done); done].
  destruct l as [|sig l _] using rev_ind; [by erewrite run_cons_err in Hr; [|apply CHECKSIG_short; (small || done)]|].
  rewrite <- app_assoc in Hr. cbn [app] in Hr.
  eapply run_step_inv in Hr; [|apply CHECKSIG_ok; (small || done)]. injection Hr as <-. cbn in Hx.
  destruct l as [|? l]; [|by destruct l]. exists sig, pk. injection Hx as <-. by rewrite asBool_fromBool in Hb.
Qed.

(** C4: An accepted spend of a pay-to-public-key-hash output, whatever its signature
    script, left exactly a signature and a public key on the stack for the lock
    script: the key hashes to the locked hash and the signature verifies with it. *)
Theorem p2pkh_sound h t m i :
  wf_tx t -> wf_bytes h -> zlen h = 20 -> ScriptValidate (GenerateP2PKHLockScript h) t m i = Some (Ok ()) ->
  exists vm vm1 sig pk, NewEngine (GenerateP2PKHLockScript h) t m i StandardVerifyFlags 0 = Ok vm /\
    rtc step_rel vm vm1 /\ scriptIdx vm1 = 1 /\ scriptOff vm1 = 0 /\ stk (dstack vm1) = [sig; pk] /\
    Hash160 pk = h /\ VerifySignature pk (Keccak256 []) sig = true.
Proof.
  intros Ht Hwf Hl. destruct (p2pkh_lock h Hwf Hl) as (-> & Hlock & Hsh). intros Hv.
  destruct (accepted_lock _ _ _ _ Ht Hlock Hsh Hv) as (vm & vm1 & vm' & x & Hnew & Hrtc & Hal & Hsz & Hr & Hx & Hb).
  destruct (p2pkh_run_inv h _ vm1 vm' x Hwf Hl Hal Hsz Hr Hx Hb) as (sig & pk & Hstk & Hh & Hs).
  exists vm, vm1, sig, pk. split_and!; [done|done|apply Hal|apply Hal|done..].
Qed.

(** ** Pay to contract hash *)

Lemma p2ch_lock a :
  wf_address a ->
  GenerateP2CHLockScript a = encode_all (p2ch_pops (Address_Bytes a)) /\ lock_script (p2ch_pops (Address_Bytes a)) /\
  zlen (Address_Bytes a) = 20 /\ wf_bytes (Address_Bytes a).
Proof.
  intros Ha. destruct (wf_address_split a Ha) as [_ Hl].
  assert (wf_bytes (Address_Bytes a)) as Hwf by by apply Forall_take, Ha.
  assert (zlen (Address_Bytes a) <= 520) as Hl' by lia.
  destruct (gen_ok _ _ (payToContractHash_gen _ Hwf Hl')) as (H1 & H2 & H3).
  split_and!; [exact H1|split_and!; [done|done|done|unfold p2ch_pops; small_pops 5]|done|done].
Qed.

Lemma p2ch_not_special h : zlen h = 20 ->
  isWitnessProgram (p2ch_pops h) = false /\ isScriptHash (p2ch_pops h) = false.
Proof. intros Hl. unfold p2ch_pops. by rewrite push_pop_direct, Hl by lia. Qed.

(** The unlock script pushes the signatures, the redeem script and the version. *)

Lemma AddDatas_snoc ds d b : AddDatas (ds ++ [d]) b = AddData d (AddDatas ds b).
Proof. unfold AddDatas. by rewrite foldl_app. Qed.

Lemma p2ch_unlock signs redeem version v :
  Forall push_ok signs -> push_ok redeem -> zlen signs <= 16 ->
  0 <= version < 2 ^ 31 -> scriptNum_Bytes version = Ok v -> push_ok v ->
  GenerateP2CHUnlockScript signs redeem version = Ok (encode_all (push_pop <$> (signs ++ [redeem]) ++ [v])).
Proof.
  intros Hs Hr Hl Hver Hv Hvok. unfold GenerateP2CHUnlockScript. rewrite <- AddDatas_snoc.
  assert (Forall push_ok (signs ++ [redeem])) as Hds by by rewrite Forall_app, Forall_singleton.
  assert (zlen (signs ++ [redeem]) <= 17) as Hn by (rewrite zlen_snoc; lia).
  destruct (pushes_script (signs ++ [redeem])) as [[_ [= Hscr Herr]] _]; [done|lia|].
  rewrite (AddInt64_AddData version v), outcome_bind_ok, <- AddDatas_snoc; [|lia|done|].
  - destruct (pushes_script ((signs ++ [redeem]) ++ [v])) as [[_ ->] _]; [|rewrite zlen_snoc; lia|done].
    by rewrite Forall_app, Forall_singleton.
  - right. rewrite Hscr. assert (Forall (fun p => zlen (encode p) <= 525) (push_pop <$> signs ++ [redeem])) as Hsm.
    { apply Forall_fmap. eapply Forall_impl; [done|]. intros d [? ?]. by apply push_pop_small525. }
    pose proof (encode_all_small _ Hsm) as H. unfold zlen in *. rewrite length_fmap in H. unfold MaxScriptSize. lia.
Qed.

(** The verdict on a pay-to-contract-hash output spent with the signature script
    that [GenerateP2CHUnlockScript] builds, for any contract, any redeem script, any
    version and any signatures.  Without signatures the spend is always accepted:
    neither the contract, nor the redeem script, nor the transaction takes part in
    the decision.  With signatures it is always refused by the clean-stack rule. *)
Theorem p2ch_verdict a signs redeem version script t m i p inp :
  spends t m i p inp -> wf_tx t -> wf_address a ->
  Forall push_ok signs -> push_ok redeem -> zlen signs <= 16 -> 0 <= version < 2 ^ 31 ->
  GenerateP2CHUnlockScript signs redeem version = Ok script -> contents (SignatureScript inp) = script ->
  ScriptValidate (GenerateP2CHLockScript a) t m i = Some (if decide (signs = []) then Ok () else Err ErrCleanStack).
Proof.
  intros Hsp Ht Ha Hs Hr Hl Hver Hun Hsig. destruct (p2ch_lock a Ha) as (-> & Hlock & Hlen & Hwf).
  destruct (p2ch_not_special _ Hlen) as [Hw Hsh].
  destruct (scriptNum_decode version 4 true) as (v & Hv & Hvwf & Hvl & Hvd); [lia|lia|].
  assert (push_ok v) as Hvok by (split; [done|unfold MaxScriptElementSize; lia]).
  assert (v <> [0]) as Hv0 by (intros ->; vm_compute in Hvd; done).
  rewrite (p2ch_unlock _ _ _ v) in Hun by done. injection Hun as <-.
  destruct (validate_lock ((signs ++ [redeem]) ++ [v]) (p2ch_pops (Address_Bytes a)) t m i p inp)
    as (vm1 & Hal & Hmin & ->); [done|done|done| | | |done..|].
  { by rewrite !Forall_app, !Forall_singleton. } { by destruct signs. } { rewrite !zlen_snoc. lia. }
  pose proof (al_cond _ _ Hal) as Hc. pose proof (al_astack _ _ Hal) as Ha0.
  rewrite !fmap_app. cbn [fmap list_fmap]. rewrite (pushed_id v) by done. unfold p2ch_pops.
  set (l := pushed <$> signs) in *. assert (zlen l <= 16) as Hl16 by (unfold l, zlen in *; by rewrite length_fmap).
  erewrite run_cons_ok; [|apply PUSH_ok; [done|unfold MaxScriptElementSize; lia|done]|rewrite Ha0; small].
  rewrite <- !app_assoc. cbn [app]. erewrite run_cons_ok; [|eapply JURY_ok|rewrite Ha0; small].
  2:{ by rewrite Hmin. } 2:{ rewrite scriptNum_Int32_spec. lia. } 2-4: (small || done).
  cbn [run_pops mret go_ret verdict]. rewrite decide_True by done. cbn. unfold l.
  destruct signs as [|x [|]]; [by rewrite decide_True|by rewrite decide_False..].
Qed.

(** ** Pay to script hash *)

Lemma p2sh_lock h :
  wf_bytes h -> zlen h = 20 ->
  GenerateP2SHLockScript h = encode_all (p2sh_pops h) /\ lock_script (p2sh_pops h) /\
  isScriptHash (p2sh_pops h) = true.
Proof.
  intros Hwf Hl. assert (zlen h <= 520) as Hl' by lia.
  destruct (gen_ok _ _ (payToScriptHashScript_gen h Hwf Hl')) as (H1 & H2 & H3).
  split_and!; [exact H1|split_and!; [done|done|done|unfold p2sh_pops; small_pops 5]|].
  unfold p2sh_pops. by rewrite push_pop_direct, Hl by lia.
Qed.

(** What the redeem script [r] of an output decides, run on the stack [l]. *)

Definition redeem_verdict (vm : Engine) (l : list bytes) (r : bytes) : outcome ErrorCode unit :=
  rp ← parseScript_or_err r; verdict (run_pops rp (redeem l rp vm)).

Lemma p2sh_tail h l r vm fuel :
  at_lock (p2sh_pops h) vm -> isScriptHash (p2sh_pops h) = true ->
  stk (dstack vm) = l ++ [r] -> savedFirstStack vm = l ++ [r] ->
  run_pops (p2sh_pops h) vm = (Ok (), at_ (l ++ [fromBool (bool_decide (h = Hash160 r))]) 2 3 vm) ->
  Execute_loop (3 + (520 + fuel)) vm =
    Some (if decide (Hash160 r = h) then redeem_verdict vm l r else Err ErrEvalFalse).
Proof.
  intros [HI [sp Hs] Hidx Hoff _ Hc _ Ha Hfl Hb Hw] Hsh Hstk Hsv Hr.
  assert (Hl : scripts vm !! Z.to_nat (scriptIdx vm) = Some ([] ++ p2sh_pops h)) by by rewrite Hs, Hidx.
  destruct (Execute_run (p2sh_pops h) [] vm (520 + fuel) HI Hl Hoff ltac:(done)) as [He HI'].
  change (length (p2sh_pops h)) with 3%nat in He. rewrite He, (go_bind_ok _ _ _ _ _ Hr). clear He.
  rewrite (go_bind_ok _ _ _ _ _ Hr) in HI'. set (vm1 := at_ _ 2 3 vm) in *.
  pose proof HI as [_ _ _ _ _ Hsize _ _ [Hel _] _ _ _]. rewrite Hstk, zlen_snoc in Hsize.
  destruct (next_script_p2sh vm1 sp (p2sh_pops h) l (fromBool (bool_decide (h = Hash160 r))) l r) as [H1 H2];
    [done|done|by rewrite <- Hsh, <- Hb|done|exact (proj2 (I_wf vm HI))|done|unfold MaxStackSize in *; zlen_facts; lia|done|].
  rewrite asBool_fromBool in H1, H2. destruct (next_script vm1) as [o vm2]. cbn [fst snd] in *. subst o.
  destruct (decide (Hash160 r = h)) as [Heq|Hne]; [rewrite bool_decide_true in * by done|by rewrite bool_decide_false].
  unfold redeem_verdict. rewrite Hsv in Hel. apply Forall_app in Hel as [_ [[Hrwf Hrl] _]%Forall_cons].
  destruct (parseScript_or_err_spec r Hrwf) as [(rp & Hp & Hrp & Hre)| Hp]; rewrite Hp in *; [|done].
  specialize (H2 rp eq_refl eq_refl). subst vm2. rewrite !outcome_bind_ok in *.
  change (redeem l rp vm1) with (redeem l rp vm) in *.
  destruct rp as [|q rp].
  - cbn [after_script bool_decide]. rewrite bool_decide_true by done.
    f_equal. apply CheckErrorCondition_finish; unfold hasFlag; cbn;
      [rewrite Hs; by case_decide|exact Hw|by rewrite Hfl|unfold wf_stack; cbn; unfold MaxStackSize in *; zlen_facts; lia].
  - rewrite bool_decide_false in * by done. cbn [after_script]. destruct (HI' _ eq_refl) as [HI1 _].
    assert (length (q :: rp) <= 520)%nat as Hlen.
    { pose proof (encode_all_length (q :: rp)). rewrite Hre in Hrl. unfold zlen, MaxScriptElementSize in *. lia. }
    replace (520 + fuel)%nat with (length (q :: rp) + (520 - length (q :: rp) + fuel))%nat by lia.
    apply last_verdict; [done|unfold redeem; cbn; by rewrite ?Hs..].
Qed.

Lemma p2sh_run h l r vm :
  wf_bytes h -> zlen h = 20 -> at_lock (p2sh_pops h) vm -> zlen l <= 100 ->
  run_pops (p2sh_pops h) (at_ (l ++ [r]) 0 0 vm) =
    (Ok (), at_ (l ++ [fromBool (bool_decide (h = Hash160 r))]) 2 3 vm).
Proof.
  intros Hwf Hl Hal Hsz. pose proof (al_cond _ _ Hal) as Hc. pose proof (al_astack _ _ Hal) as Ha. unfold p2sh_pops.
  erewrite run_cons_ok; [|apply HASH160_ok; [small|done|done]|rewrite Ha; small].
  erewrite run_cons_ok; [|apply PUSH_ok; [done|unfold MaxScriptElementSize; lia|done]|rewrite Ha; small].
  rewrite pushed_hash, <- app_assoc by done. cbn [app].
  erewrite run_cons_ok; [|apply EQUAL_ok; [small|done|done]|rewrite Ha; small]. done.
Qed.

(** The verdict after pushes of a few items and a redeem script. *)

Lemma p2sh_validate ds r h t m i p inp :
  spends t m i p inp -> wf_tx t -> contents (SignatureScript inp) = GenerateP2SHUnlockScript ds r ->
  wf_bytes h -> zlen h = 20 -> Forall push_ok ds -> push_ok r -> r <> [0] -> zlen ds <= 18 ->
  exists vm1, at_lock (p2sh_pops h) vm1 /\ verifyMinimalData (dstack vm1) = true /\
    ScriptValidate (GenerateP2SHLockScript h) t m i =
      Some (if decide (Hash160 r = h) then redeem_verdict vm1 (pushed <$> ds) r else Err ErrEvalFalse).
Proof.
  intros Hsp Ht Hsig Hwf Hl Hds Hr Hr0 Hn. destruct (p2sh_lock h Hwf Hl) as (-> & (Hlp & Hlwf & Hne & Hsz) & Hsh).
  assert (Forall push_ok (ds ++ [r])) as Hok by by rewrite Forall_app, Forall_singleton.
  destruct (pushes_script (ds ++ [r])) as [[_ Hgen] Hsmall]; [done|rewrite zlen_snoc; lia|].
  destruct (validate_pushes (ds ++ [r]) (p2sh_pops h) t m i p inp)
    as (vm1 & fuel & Hal & Hstk & Hmin & Hsv & Hfuel & ->); try done.
  { rewrite Hsig. unfold GenerateP2SHUnlockScript. by rewrite <- AddDatas_snoc, Hgen. }
  { by destruct ds. } { rewrite zlen_snoc. unfold MaxStackSize. lia. }
  rewrite Hsh in Hsv. rewrite fmap_app in Hstk, Hsv. cbn [fmap list_fmap] in Hstk, Hsv.
  rewrite (pushed_id r) in Hstk, Hsv by done. exists vm1. split_and!; [done..|].
  replace fuel with (3 + (520 + (fuel - 523)))%nat by lia. apply (p2sh_tail h); try done.
  rewrite (at_lock_at _ _ Hal) at 1. rewrite Hstk. apply p2sh_run; try done.
  unfold zlen in *. rewrite length_fmap. lia.
Qed.

Lemma p2sh_run_inv h l r vm vm' :
  wf_bytes h -> zlen h = 20 -> at_lock (p2sh_pops h) vm -> zlen (l ++ [r]) <= MaxStackSize ->
  run_pops (p2sh_pops h) (at_ (l ++ [r]) 0 0 vm) = (Ok (), vm') ->
  vm' = at_ (l ++ [fromBool (bool_decide (h = Hash160 r))]) 2 3 vm.
Proof.
  intros Hwf Hl Hal Hsz Hr. pose proof (al_cond _ _ Hal) as Hc. unfold p2sh_pops in Hr.
  eapply run_step_inv in Hr; [|apply HASH160_ok; [small|done|done]].
  eapply run_step_inv in Hr; [|apply PUSH_ok; [done|unfold MaxScriptElementSize; lia|done]].
  rewrite pushed_hash, <- app_assoc in Hr by done. cbn [app] in Hr.
  eapply run_step_inv in Hr; [|apply EQUAL_ok; [small|done|done]]. by injection Hr as <-.
Qed.

Lemma p2sh_accepted h vm fuel :
  wf_bytes h -> zlen h = 20 -> at_lock (p2sh_pops h) vm -> isScriptHash (p2sh_pops h) = true ->
  savedFirstStack vm = stk (dstack vm) -> Execute_loop fuel vm = Some (Ok ()) ->
  exists l r, stk (dstack vm) = l ++ [r] /\ Hash160 r = h /\ redeem_verdict vm l r = Ok ().
Proof.
  intros Hwf Hl Hal Hsh Hsv Hex. apply (Execute_loop_mono 523) in Hex.
  assert (zlen (stk (dstack vm)) <= MaxStackSize) as Hsz by (pose proof (al_I _ _ Hal) as []; zlen_facts; lia).
  pose proof (al_cond _ _ Hal) as Hc. pose proof Hal as [HI [sp Hs] Hidx Hoff _ _ _ _ _ _ _].
  assert (Hlk : scripts vm !! Z.to_nat (scriptIdx vm) = Some ([] ++ p2sh_pops h)) by by rewrite Hs, Hidx.
  destruct (run_pops (p2sh_pops h) vm) as [o vm'] eqn:Hr.
  assert (o = Ok ()) as ->.
  { destruct (Execute_run (p2sh_pops h) [] vm (520 + fuel) HI Hlk Hoff ltac:(done)) as [He _].
    replace (fuel + 523)%nat with (length (p2sh_pops h) + (520 + fuel))%nat in Hex by (cbn; lia).
    rewrite He in Hex. unfold mbind, go_bind in Hex. rewrite Hr in Hex.
    destruct o as [[]| |]; [reflexivity|discriminate Hex..]. }
  destruct (list_snoc_cases (stk (dstack vm))) as [He|(l & r & He)]; rewrite (at_lock_at _ _ Hal), He in Hr.
  { unfold p2sh_pops in Hr. by rewrite (run_cons_err _ _ _ _ _ _ _ _ (HASH160_empty 0 _ _ eq_refl Hc)) in Hr. }
  rewrite He in Hsz. pose proof (p2sh_run_inv _ _ _ _ _ Hwf Hl Hal Hsz Hr) as ->.
  rewrite <- He, <- (at_lock_at _ _ Hal) in Hr. replace (fuel + 523)%nat with (3 + (520 + fuel))%nat in Hex by lia.
  rewrite (p2sh_tail h l r) in Hex by congruence. case_decide; [|discriminate Hex]. injection Hex as Hex. eauto.
Qed.

(** C20: An accepted spend of a pay-to-script-hash output, whatever its signature
    script, left a stack whose top item hashes to the locked hash and parses as a
    script, and the run of that script on the items below it ended with exactly one
    true item. *)
Theorem p2sh_sound h t m i :
  wf_tx t -> wf_bytes h -> zlen h = 20 -> ScriptValidate (GenerateP2SHLockScript h) t m i = Some (Ok ()) ->
  exists vm vm1 l r rp, NewEngine (GenerateP2SHLockScript h) t m i StandardVerifyFlags 0 = Ok vm /\
    rtc step_rel vm vm1 /\ scriptIdx vm1 = 1 /\ scriptOff vm1 = 0 /\ stk (dstack vm1) = l ++ [r] /\
    Hash160 r = h /\ parseScript r = Some (rp, None) /\
    exists vm2 x, run_pops rp (redeem l rp vm1) = (Ok (), vm2) /\ condStack vm2 = [] /\
      stk (dstack vm2) = [x] /\ asBool x = true.
Proof.
  intros Ht Hwf Hl. destruct (p2sh_lock h Hwf Hl) as (-> & (Hlp & Hlwf & Hne & _) & Hsh). unfold ScriptValidate.
  destruct (NewEngine _ _ _ _ _ _) as [vm| |] eqn:Hnew; [intros Hv|done..].
  destruct (reach_lock (p2sh_pops h) t m i vm Hlwf Hlp Hne Ht Hnew Hv) as (vm1 & fuel & Hal & Hsv & Hrtc & Hex).
  specialize (Hsv Hsh). destruct (p2sh_accepted _ _ _ Hwf Hl Hal Hsh Hsv Hex) as (l & r & Hstk & Hh & Hrv).
  unfold redeem_verdict in Hrv. destruct (parseScript_or_err r) as [rp| |] eqn:Hp; [|done..].
  rewrite outcome_bind_ok in Hrv. unfold verdict, finish in Hrv.
  destruct (run_pops rp _) as [[[]| |] vm2] eqn:Hr; [|done..]. case_decide; [|done].
  destruct (stk (dstack vm2)) as [|x [|]] eqn:Es; [done| |done]. destruct (asBool x) eqn:Ex; [|done].
  exists vm, vm1, l, r, rp. split_and!; [done|done|apply Hal|apply Hal|done|done| |by exists vm2, x].
  unfold parseScript_or_err in Hp. destruct (parseScript r) as [[? [|]]|]; [done| |done]. by injection Hp as ->.
Qed.

End Spend.

(** ** Concrete spends *)

#[local] Instance push_ok_dec d : Decision (push_ok d).
Proof. unfold push_ok. apply _. Defined.

Definition toy_sig (k : bool) : bytes := toy_R k [] ++ toy_S k [].
Definition toy_hash (k : bool) : bytes := @Hash160 toy_crypto (toy_compressed k).
Definition toy_redeem : bytes := [OP_1 + 1; OP_1; OP_1 + 2] ++ [OP_NIP; OP_NIP].

Definition example_input (script : bytes) : Input :=
  NewTxIn (Some (NewOutPoint (replicate 32 1) 0 0)) (Some script).

Lemma example_spends script :
  spends (example_tx script) 0 0 (mkPaymentPayload [example_input script] [NewTxOut 1 [OP_1] None] 0) (example_input script).
Proof. split_and!; [lia|lia|reflexivity|reflexivity]. Qed.

Lemma p2pkh_verdict_witness :
  let t pk := example_tx (GenerateP2PKHUnlockScript (toy_sig true) (toy_compressed pk)) in
  @ScriptValidate toy_crypto (GenerateP2PKHLockScript (toy_hash true)) (t true) 0 0 = Some (Ok ()) /\
  @ScriptValidate toy_crypto (GenerateP2PKHLockScript (toy_hash true)) (t false) 0 0 = Some (Err ErrEqualVerify).
Proof.
  cbn zeta. pose proof (fun pk => @p2pkh_verdict toy_crypto toy_crypto_laws (toy_hash true) (toy_sig true)
    (toy_compressed pk) _ _ _ _ _ (example_spends (GenerateP2PKHUnlockScript (toy_sig true) (toy_compressed pk)))) as H.
  split; (rewrite H; [vm_compute; reflexivity|apply example_tx_wf|reflexivity|..]);
    by apply (bool_decide_unpack _); vm_compute.
Defined.

Lemma p2pkh_sound_witness :
  let lock := GenerateP2PKHLockScript (toy_hash true) in
  let t := example_tx (GenerateP2PKHUnlockScript (toy_sig true) (toy_compressed true)) in
  exists vm vm1 sig pk, @NewEngine lock t 0 0 StandardVerifyFlags 0 = Ok vm /\
    rtc (@step_rel toy_crypto) vm vm1 /\ scriptIdx vm1 = 1 /\ scriptOff vm1 = 0 /\ stk (dstack vm1) = [sig; pk] /\
    @Hash160 toy_crypto pk = toy_hash true /\ @VerifySignature toy_crypto pk (@Keccak256 toy_crypto []) sig = true.
Proof.
  cbn zeta. apply (@p2pkh_sound toy_crypto toy_crypto_laws).
  - apply example_tx_wf. by apply (bool_decide_unpack _); vm_compute.
  - by apply (bool_decide_unpack _); vm_compute.
  - reflexivity.
  - vm_compute. reflexivity.
Defined.

Definition toy_p2ch (signs : list bytes) : bytes :=
  match GenerateP2CHUnlockScript signs [OP_1] 7 with Ok s => s | _ => [] end.

Lemma p2ch_verdict_witness :
  let lock := GenerateP2CHLockScript (NewAddress (replicate 20 5) ContractHash) in
  @ScriptValidate toy_crypto lock (example_tx (toy_p2ch [])) 0 0 = Some (Ok ()) /\
  @ScriptValidate toy_crypto lock (example_tx (toy_p2ch [[1; 2]])) 0 0 = Some (Err ErrCleanStack).
Proof.
  cbn zeta. pose proof (fun signs => @p2ch_verdict toy_crypto toy_crypto_laws (NewAddress (replicate 20 5) ContractHash)
    signs [OP_1] 7 (toy_p2ch signs) _ _ _ _ _ (example_spends (toy_p2ch signs))) as H.
  split; (rewrite H; [reflexivity|apply example_tx_wf|split; [reflexivity|]|..|lia|vm_compute; reflexivity|reflexivity]);
    by apply (bool_decide_unpack _); vm_compute.
Defined.

Lemma p2sh_sound_witness :
  let h := @Hash160 toy_crypto toy_redeem in
  exists r rp, @Hash160 toy_crypto r = h /\ parseScript r = Some (rp, None).
Proof.
  cbn zeta. set (h := @Hash160 toy_crypto toy_redeem).
  destruct (@p2sh_sound toy_crypto toy_crypto_laws h (example_tx (GenerateP2SHUnlockScript [] toy_redeem)) 0 0)
    as (vm & vm1 & l & r & rp & Hnew & Hrtc & Hidx & Hoff & Hstk & Hh & Hp & Hrun).
  - apply example_tx_wf. by apply (bool_decide_unpack _); vm_compute.
  - by apply (bool_decide_unpack _); vm_compute.
  - reflexivity.
  - vm_compute. reflexivity.
  - by exists r, rp.
Defined.
