(* ===== verification/ScriptMultiSig.v ===== *)
(** * Multisignature outputs

    The exact verdict of [ScriptValidate] on a pay-to-script-hash output whose redeem
    script is the n-of-m script of [GenerateRedeemScript].  [opcodeCheckMultiSig]
    counts the (signature, public key) pairs that verify, over the distinct
    signatures, and compares that count with n. *)

From S2P Require Import Prelude Digits ScriptErrors ScriptNum ScriptStack Opcodes ScriptParse.
From S2P Require Import HexUtil Transaction Crypto Address OpcodeExec ScriptEngine EngineSafety.
From S2P Require Import EngineProps ScriptBuilder ScriptStandard ScriptRuns ScriptSpend.

#[local] Open Scope Z_scope.

Section MultiSig.
Context {C : Crypto} {L : CryptoLaws}.

(** ** Counting

    [valid_pairs hash sigs keys]: the pairs of a signature of [sigs] and a key of
    [keys] that verify. *)

Definition valid_keys (hash : bytes) (keys : list bytes) (sig : bytes) : nat :=
  length (filter (fun k => VerifySignature k hash sig = true) keys).

Definition valid_pairs (hash : bytes) (sigs keys : list bytes) : Z :=
  Z.of_nat (sum_list_with (valid_keys hash keys) sigs).

Lemma count_keys hash keys sig n :
  foldl (fun validCount pubKey => if VerifySignature pubKey hash sig then validCount + 1 else validCount) n keys =
    n + Z.of_nat (valid_keys hash keys sig).
Proof.
  unfold valid_keys. revert n. induction keys as [|k keys IH]; intros n; cbn [foldl]; [cbn; lia|].
  rewrite IH, filter_cons. destruct (VerifySignature k hash sig); case_decide; cbn [length]; (lia || done).
Qed.

Lemma count_valid_pairs hash sigs keys :
  Forall wf_bytes sigs -> count_valid (Encode <$> sigs) keys hash = valid_pairs hash sigs keys.
Proof.
  intros Hwf. unfold count_valid, valid_pairs. rewrite <- (Z.add_0_l (Z.of_nat _)). generalize 0 as n.
  induction Hwf as [|s sigs Hs Hsigs IH]; intros n; [cbn; lia|].
  cbn [fmap list_fmap foldl sum_list_with]. rewrite Decode_Encode by done. rewrite count_keys, IH. lia.
Qed.

Lemma valid_keys_perm hash keys1 keys2 sig :
  keys1 ≡ₚ keys2 -> valid_keys hash keys1 sig = valid_keys hash keys2 sig.
Proof. intros Hk. unfold valid_keys. by rewrite Hk. Qed.

Lemma valid_pairs_perm hash sigs1 sigs2 keys1 keys2 :
  sigs1 ≡ₚ sigs2 -> keys1 ≡ₚ keys2 -> valid_pairs hash sigs1 keys1 = valid_pairs hash sigs2 keys2.
Proof.
  intros Hs Hk. unfold valid_pairs. rewrite Hs. f_equal. induction sigs2 as [|s sigs2 IH] in sigs1, Hs |- *; [done|].
  cbn. rewrite (valid_keys_perm hash _ _ s Hk). f_equal. by apply (IH sigs2).
Qed.

(** The count does not depend on the order in which the map is enumerated, nor on
    repeated signatures. *)

Lemma signature_map_keys (m : gmap bytes bool) sigs x :
  is_Some (foldl (fun m sig => <[Encode sig := false]> m) m sigs !! x) <-> is_Some (m !! x) \/ x ∈ Encode <$> sigs.
Proof.
  revert m. induction sigs as [|s sigs IH]; intros m; cbn [foldl fmap list_fmap].
  - rewrite elem_of_nil. tauto.
  - rewrite IH, elem_of_cons, lookup_insert_is_Some'. intuition congruence.
Qed.

Lemma signature_map_perm sigs :
  Forall wf_bytes sigs -> (map_to_list (signature_map sigs)).*1 ≡ₚ Encode <$> remove_dups sigs.
Proof.
  intros Hwf. apply NoDup_Permutation.
  - apply NoDup_fst_map_to_list.
  - apply NoDup_fmap_2_strong; [|apply NoDup_remove_dups]. rewrite Forall_forall in Hwf.
    intros x y. rewrite !elem_of_remove_dups. intros Hx Hy. apply Encode_inj; auto.
  - intros x. rewrite !list_elem_of_fmap. setoid_rewrite elem_of_remove_dups. transitivity (x ∈ Encode <$> sigs).
    + pose proof (signature_map_keys ∅ sigs x) as H. fold (signature_map sigs) in H.
      rewrite lookup_empty in H. split.
      * intros ([k v] & -> & Hin%elem_of_map_to_list). cbn. destruct H as [[[? ?]|H] _]; [by eexists|done|done].
      * intros Hx. destruct H as [_ [v Hv]]; [by right|]. exists (x, v). by rewrite elem_of_map_to_list.
    + by rewrite list_elem_of_fmap.
Qed.

Lemma count_multi hash sigs keys :
  Forall wf_bytes sigs ->
  count_valid (map_to_list (signature_map sigs)).*1 keys hash = valid_pairs hash (remove_dups sigs) keys.
Proof.
  intros Hwf. destruct (Permutation_map_inv _ _ (signature_map_perm sigs Hwf)) as (ds & -> & Hds).
  rewrite (valid_pairs_perm hash _ ds keys keys Hds) by done. apply count_valid_pairs.
  rewrite <- Hds. rewrite Forall_forall in Hwf |- *. intros x. rewrite elem_of_remove_dups. auto.
Qed.

Lemma remove_dups_NoDup (l : list bytes) : NoDup l -> remove_dups l ≡ₚ l.
Proof.
  intros Hl. apply NoDup_Permutation; [apply NoDup_remove_dups|done|]. intros x. by rewrite elem_of_remove_dups.
Qed.

Lemma remove_dups_reverse (l : list bytes) : remove_dups (reverse l) ≡ₚ remove_dups l.
Proof.
  apply NoDup_Permutation; [apply NoDup_remove_dups..|]. intros x. by rewrite !elem_of_remove_dups, elem_of_reverse.
Qed.

(** Distinct signatures that one key verifies count once each. *)

Lemma valid_pairs_one_key hash sigs keys key :
  key ∈ keys -> NoDup sigs -> Forall (fun s => VerifySignature key hash s = true) sigs ->
  zlen sigs <= valid_pairs hash (remove_dups sigs) keys.
Proof.
  intros Hin Hnd Hv. rewrite (valid_pairs_perm hash _ sigs keys keys); [|by apply remove_dups_NoDup|done].
  unfold valid_pairs, zlen. apply inj_le. clear Hnd. induction Hv as [|s sigs Hs Hsigs IH]; [done|]. cbn.
  assert (0 < valid_keys hash keys s)%nat; [|lia]. unfold valid_keys.
  assert (key ∈ filter (fun k => VerifySignature k hash s = true) keys) as Hf by by apply list_elem_of_filter.
  destruct (filter _ keys); [by apply elem_of_nil in Hf|cbn; lia].
Qed.

(** Every key with a signature counts. *)

Lemma valid_pairs_key hash sigs key keys :
  valid_pairs hash sigs (key :: keys) =
    zlen (filter (fun s => VerifySignature key hash s = true) sigs) + valid_pairs hash sigs keys.
Proof.
  unfold valid_pairs, zlen. induction sigs as [|s sigs IH]; [done|]. cbn [sum_list_with].
  assert (valid_keys hash (key :: keys) s =
    ((if decide (VerifySignature key hash s = true) then 1 else 0) + valid_keys hash keys s)%nat) as ->.
  { unfold valid_keys. rewrite filter_cons. by case_decide. }
  rewrite filter_cons. case_decide; cbn [length]; lia.
Qed.

Lemma valid_pairs_signers hash sigs signers keys :
  signers `sublist_of` keys ->
  Forall (fun k => exists s, s ∈ sigs /\ VerifySignature k hash s = true) signers ->
  zlen signers <= valid_pairs hash sigs keys.
Proof.
  induction 1 as [|k signers keys Hsub IH|k signers keys Hsub IH]; intros Hs; rewrite ?valid_pairs_key.
  - unfold valid_pairs. change (zlen (@nil bytes)) with 0. lia.
  - apply Forall_cons in Hs as [(s & Hin & Hv) Hs]. rewrite zlen_cons. specialize (IH Hs).
    assert (s ∈ filter (fun s => VerifySignature k hash s = true) sigs) as Hf by by apply list_elem_of_filter.
    destruct (filter _ sigs); [by apply elem_of_nil in Hf|]. rewrite zlen_cons. zlen_lia.
  - specialize (IH Hs). zlen_lia.
Qed.

(** ** The instruction *)

Lemma small_num n b : 1 <= n <= 16 -> makeScriptNum [n] b 4 = Ok n /\ scriptNum_Int32 n = n.
Proof.
  intros Hn. split; [|rewrite scriptNum_Int32_spec; lia].
  destruct (scriptNum_decode n 4 b) as (v & Hv & _ & _ & Hd); [lia|lia|].
  rewrite scriptNum_Bytes_small in Hv by done. by injection Hv as ->.
Qed.

Lemma set_numOps_at l n k vm n' : set_numOps n' (at_ l n k vm) = at_ l n' k vm.
Proof. done. Qed.

Lemma CHECKMULTISIG_ok l sigs keys n k vm :
  in_script vm -> flags vm = StandardVerifyFlags -> condStack vm = [] ->
  1 <= zlen sigs -> zlen sigs <= zlen keys -> zlen keys <= 16 -> zlen l <= 16 -> Forall wf_bytes sigs -> 0 <= n <= 100 ->
  let sz := (zlen sigs <= valid_pairs (Keccak256 []) (remove_dups sigs) keys) in
  executeOpcode (op_pop OP_CHECKMULTISIG) (at_ ((l ++ [[]]) ++ sigs ++ [zlen sigs] :: keys ++ [[zlen keys]]) n k vm) =
    if decide sz then (Ok (), at_ (l ++ [fromBool true]) (n + 1 + zlen keys) k vm)
    else (Err ErrNullFail, at_ l (n + 1 + zlen keys) k vm).
Proof.
  intros (Hp & s & Hs) Hf Hc H1 H2 H3 Hl Hwf Hn sz.
  rewrite executeOpcode_op by (first [done|unfold MaxOpsPerScript; lia|by apply (bool_decide_unpack _); vm_compute]).
  change (opfunc (opc OP_CHECKMULTISIG)) with fn_opcodeCheckMultiSig. cbn [exec_opfunc]. unfold opcodeCheckMultiSig.
  destruct (small_num (zlen keys) (verifyMinimalData (dstack vm))) as [Hk1 Hk2]; [lia|].
  destruct (small_num (zlen sigs) (verifyMinimalData (dstack vm))) as [Hs1 Hs2]; [lia|].
  replace ((l ++ [[]]) ++ sigs ++ [zlen sigs] :: keys ++ [[zlen keys]]) with
    (((((l ++ [[]]) ++ sigs) ++ [[zlen sigs]]) ++ keys) ++ [[zlen keys]]) by by rewrite <- !app_assoc.
  erewrite (go_bind_ok (on_dstack PopInt)) by (apply popint_at; [small|exact Hk1]). rewrite Hk2.
  rewrite !decide_False by (unfold MaxPubKeysPerMultiSig; lia). rewrite go_modify_bind, go_get_bind.
  rewrite decide_False by (cbn; unfold MaxOpsPerScript; lia). cbn zeta.
  rewrite set_numOps_at. change (numOps (at_ _ ?a _ _)) with a.
  replace (Z.to_nat (zlen keys)) with (length keys) by (unfold zlen; lia).
  erewrite (go_bind_ok (popN (length keys))) by (apply popN_at; small).
  erewrite (go_bind_ok (on_dstack PopInt)) by (apply popint_at; [small|exact Hs1]). rewrite Hs2.
  rewrite !decide_False by lia. replace (Z.to_nat (zlen sigs)) with (length sigs) by (unfold zlen; lia).
  erewrite (go_bind_ok (popN (length sigs))) by (apply popN_at; small).
  rewrite pop_at by small. rewrite go_get_bind.
  replace (hasFlag _ ScriptStrictMultiSig) with true by (unfold hasFlag; cbn; by rewrite Hf).
  replace (hasFlag _ ScriptVerifyNullFail) with true by (unfold hasFlag; cbn; by rewrite Hf).
  rewrite bool_decide_false by (intros H; by apply H). cbn [andb].
  rewrite subScript_at, Hs, go_lift_ok. change (tx (at_ l ?a ?b vm)) with (tx vm).
  rewrite calcSignatureHash_const, go_lift_ok by done. cbn zeta.
  rewrite count_multi by by apply Forall_reverse.
  rewrite (valid_pairs_perm _ _ (remove_dups sigs) _ keys) by (apply remove_dups_reverse || apply reverse_Permutation).
  unfold sz. case_decide; [rewrite bool_decide_true by lia; apply pushbool_at|by rewrite bool_decide_false by lia].
Qed.

(** ** The redeem script *)

Lemma multisig_pushes n keys :
  1 <= n <= 16 -> 1 <= zlen keys <= 16 ->
  multisig_pops n keys = (push_pop <$> [n] :: keys ++ [[zlen keys]]) ++ [op_pop OP_CHECKMULTISIG].
Proof.
  intros Hn Hk. unfold multisig_pops. cbn [fmap list_fmap app]. rewrite push_pop_small by done. f_equal.
  rewrite fmap_app, <- app_assoc. cbn [fmap list_fmap app]. by rewrite push_pop_small.
Qed.

Lemma pushed_keys keys : Forall is_key keys -> pushed <$> keys = keys.
Proof.
  induction 1 as [|k keys [_ Hk] Hks IH]; [done|]. cbn [fmap list_fmap]. rewrite IH. f_equal. apply pushed_id.
  intros ->. vm_compute in Hk. by destruct Hk.
Qed.

Lemma small_push_ok n : 1 <= n <= 16 -> push_ok [n].
Proof. intros Hn. split; [|by vm_compute]. constructor; [unfold is_byte; lia|done]. Qed.

Lemma is_key_push_ok k : is_key k -> push_ok k.
Proof. intros [Hk Hl]. split; [done|]. unfold MaxScriptElementSize. lia. Qed.

(** The run of the redeem script on a dummy and the signatures. *)

Lemma multisig_run vm keys sigs :
  in_script vm -> flags vm = StandardVerifyFlags -> condStack vm = [] -> stk (astack vm) = [] ->
  1 <= zlen sigs <= zlen keys -> zlen keys <= 16 -> Forall wf_bytes sigs -> Forall is_key keys ->
  verdict (run_pops (multisig_pops (zlen sigs) keys) (at_ ([] :: sigs) 0 0 vm)) =
    if decide (zlen sigs <= valid_pairs (Keccak256 []) (remove_dups sigs) keys) then Ok () else Err ErrNullFail.
Proof.
  intros Hin Hf Hc Ha [H1 H2] H3 Hwf Hk. rewrite multisig_pushes, run_app by lia.
  set (ps := [zlen sigs] :: keys ++ [[zlen keys]]).
  assert (Forall push_ok ps) as Hps.
  { apply Forall_cons. split; [by apply small_push_ok; lia|]. apply Forall_app. rewrite Forall_singleton. split.
    - eapply Forall_impl; [done|]. apply is_key_push_ok.
    - apply small_push_ok. lia. }
  assert (zlen ps <= 18) as Hl by (unfold ps; rewrite zlen_cons, zlen_snoc; lia).
  rewrite (go_bind_ok _ _ _ _ _ (run_pushes ps ([] :: sigs) 0 0 vm Hps Hc
    ltac:(rewrite zlen_cons, Ha; unfold MaxStackSize; change (zlen (@nil bytes)) with 0; lia))).
  assert (pushed <$> ps = ps) as ->.
  { unfold ps. cbn [fmap list_fmap]. rewrite fmap_app, pushed_keys by done. cbn [fmap list_fmap].
    rewrite !pushed_id by (intros [=]; lia). done. }
  pose proof (CHECKMULTISIG_ok [] sigs keys 0 (0 + zlen ps + 1) vm Hin Hf Hc H1 H2 H3 ltac:(done) Hwf ltac:(lia)) as Hx.
  cbn zeta in Hx. case_decide as Hd.
  - erewrite run_cons_ok; [|exact Hx|rewrite Ha; by vm_compute]. cbn. by rewrite decide_True.
  - by rewrite (run_cons_err _ _ _ _ _ _ _ _ Hx).
Qed.

Definition is_sig (s : bytes) : Prop := push_ok s /\ s <> [0].

Lemma pushed_sigs sigs : Forall is_sig sigs -> pushed <$> sigs = sigs.
Proof. induction 1 as [|s sigs [_ Hs] Hss IH]; [done|]. cbn [fmap list_fmap]. by rewrite IH, pushed_id. Qed.

Lemma redeem_in_script lp vm rp l : at_lock lp vm -> rp <> [] -> in_script (redeem l rp vm).
Proof.
  intros Hal Hne. destruct (at_lock_in_script _ _ Hal) as [Hp _]. split; [done|].
  pose proof Hal as [_ [sp Hs] _ _ _ _ _ _ _ _ _]. unfold subScript, redeem. cbn. rewrite Hs, decide_False by done.
  cbn [app]. rewrite goidx_2, outcome_bind_ok. eexists. unfold goslice. by rewrite decide_True by (zlen_facts; lia).
Qed.

Lemma multisig_validate keys sigs t m i p inp :
  spends t m i p inp -> wf_tx t -> Forall is_key keys -> 2 <= zlen keys <= 16 ->
  Forall is_sig sigs -> 1 <= zlen sigs <= zlen keys ->
  let r := GenerateRedeemScript (zlen sigs) keys in
  zlen r <= MaxScriptElementSize -> contents (SignatureScript inp) = GenerateP2SHUnlockScript ([] :: sigs) r ->
  ScriptValidate (GenerateP2SHLockScript (Hash160 r)) t m i =
    Some (if decide (zlen sigs <= valid_pairs (Keccak256 []) (remove_dups sigs) keys) then Ok () else Err ErrNullFail).
Proof.
  intros Hsp Ht Hk Hkl Hs Hsl r Hrl Hsig. destruct (GenerateRedeemScript_gen (zlen sigs) keys) as [Hp Hr]; [lia|lia|done|].
  fold r in Hr. assert (wf_bytes r) as Hrw by (rewrite Hr; by eapply encode_all_wf).
  assert (r <> [0]) as Hr0.
  { intros Hz. apply (f_equal zlen) in Hz. rewrite Hr in Hz. change (zlen [0]) with 1 in Hz. pose proof (encode_all_length (multisig_pops (zlen sigs) keys)).
    pose proof (multisig_zlen (zlen sigs) keys). unfold zlen in *. lia. }
  destruct (ripemd160_ok (sha256_Sum256 r)) as [Hh1 Hh2].
  destruct (p2sh_validate ([] :: sigs) r (Hash160 r) t m i p inp) as (vm1 & Hal & _ & ->); try done.
  { constructor; [split; [constructor|by vm_compute]|]. eapply Forall_impl; [done|]. by intros ? []. } { rewrite zlen_cons. lia. }
  rewrite decide_True by done. f_equal. unfold redeem_verdict.
  rewrite Hr, parseScript_or_err_encode, outcome_bind_ok by done.
  assert (pushed <$> [] :: sigs = [] :: sigs) as -> by (cbn [fmap list_fmap]; by rewrite pushed_sigs).
  set (rp := multisig_pops (zlen sigs) keys). change (redeem ([] :: sigs) rp vm1) with (at_ ([] :: sigs) 0 0 (redeem ([] :: sigs) rp vm1)).
  unfold rp. rewrite multisig_run; [done|by apply (redeem_in_script _ _ _ _ Hal)|apply Hal|done|done|lia|lia| |done].
  eapply Forall_impl; [done|]. by intros ? [[] ?].
Qed.

(** C7: The exact verdict on an n-of-m pay-to-script-hash output spent with n
    signatures: the spend is accepted when the number of (signature, key) pairs that
    verify, over the distinct signatures, is at least n, and is [ErrNullFail]
    otherwise. *)
Theorem multisig_verdict keys sigs t m i p inp :
  spends t m i p inp -> wf_tx t -> Forall is_key keys -> 2 <= zlen keys <= 16 ->
  Forall is_sig sigs -> 1 <= zlen sigs <= zlen keys ->
  let r := GenerateRedeemScript (zlen sigs) keys in
  zlen r <= MaxScriptElementSize -> contents (SignatureScript inp) = GenerateP2SHUnlockScript ([] :: sigs) r ->
  ScriptValidate (GenerateP2SHLockScript (Hash160 r)) t m i =
    Some (if decide (zlen sigs <= valid_pairs (Keccak256 []) (remove_dups sigs) keys) then Ok () else Err ErrNullFail).
Proof. apply multisig_validate. Qed.

(** An n-of-m output can be spent by the holder of a single one of the m keys:
    n different signatures made with the same key are accepted, whatever the other
    keys are. *)
Theorem multisig_one_key keys key sigs t m i p inp :
  spends t m i p inp -> wf_tx t -> Forall is_key keys -> 2 <= zlen keys <= 16 ->
  Forall is_sig sigs -> 1 <= zlen sigs <= zlen keys ->
  key ∈ keys -> NoDup sigs -> Forall (fun s => VerifySignature key (Keccak256 []) s = true) sigs ->
  let r := GenerateRedeemScript (zlen sigs) keys in
  zlen r <= MaxScriptElementSize -> contents (SignatureScript inp) = GenerateP2SHUnlockScript ([] :: sigs) r ->
  ScriptValidate (GenerateP2SHLockScript (Hash160 r)) t m i = Some (Ok ()).
Proof.
  intros Hsp Ht Hk Hkl Hs Hsl Hin Hnd Hv r Hrl Hsig. unfold r. rewrite (multisig_validate keys sigs t m i p inp) by done.
  rewrite decide_True; [done|]. by apply (valid_pairs_one_key _ _ _ key).
Qed.

End MultiSig.

(** ** Concrete spends *)

Definition toy_keys : list bytes := [toy_compressed true; toy_compressed false].

(** Two signatures by the same key. *)

Definition toy_one_key_sigs : list bytes := [toy_sig true; <[31%nat := 99]> (toy_sig true)].

Definition toy_unlock (sigs : list bytes) : bytes :=
  GenerateP2SHUnlockScript ([] :: sigs) (GenerateRedeemScript (zlen sigs) toy_keys).

Definition toy_lock (n : Z) : bytes := GenerateP2SHLockScript (@Hash160 toy_crypto (GenerateRedeemScript n toy_keys)).

#[local] Instance push_ok_dec d : Decision (push_ok d).
Proof. unfold push_ok. apply _. Defined.

#[local] Instance is_sig_dec d : Decision (is_sig d).
Proof. unfold is_sig. apply _. Defined.

#[local] Instance is_key_dec d : Decision (is_key d).
Proof. unfold is_key. apply _. Defined.

Ltac decided := by apply (bool_decide_unpack _); vm_compute.

Lemma multisig_verdict_witness :
  @ScriptValidate toy_crypto (toy_lock 2) (example_tx (toy_unlock [toy_sig true; toy_sig false])) 0 0 = Some (Ok ()) /\
  @ScriptValidate toy_crypto (toy_lock 2) (example_tx (toy_unlock [toy_sig true; toy_sig true])) 0 0 = Some (Err ErrNullFail).
Proof.
  pose proof (fun sigs => @multisig_verdict toy_crypto toy_crypto_laws toy_keys sigs _ _ _ _ _
    (example_spends (toy_unlock sigs))) as H.
  split.
  - etrans; [apply (H [toy_sig true; toy_sig false]); [apply example_tx_wf; decided|decided..|reflexivity]|vm_compute; reflexivity].
  - etrans; [apply (H [toy_sig true; toy_sig true]); [apply example_tx_wf; decided|decided..|reflexivity]|vm_compute; reflexivity].
Defined.

Lemma multisig_one_key_witness :
  @ScriptValidate toy_crypto (toy_lock 2) (example_tx (toy_unlock toy_one_key_sigs)) 0 0 = Some (Ok ()).
Proof.
  apply (@multisig_one_key toy_crypto toy_crypto_laws toy_keys (toy_compressed true) toy_one_key_sigs _ _ _ _ _
    (example_spends (toy_unlock toy_one_key_sigs))); [apply example_tx_wf; decided|decided..|reflexivity].
Defined.
