(* ===== verification/ScriptSign.v ===== *)
(** * Signing

    [sign.go] of the [txscript] package and the signing functions of
    [tokenengine/api.go]: signatures of one input, signature scripts for each class
    of lock script, and the merge of two partial signature scripts.

    The key and script databases are the interfaces [KeyDB] and [ScriptDB]: functions
    of an address; a nil private key is [None] and a nil script database is [None].
    [mergeScripts] calls itself on the last push of the signature script without
    removing it, so it takes fuel, and [None] is a call that has not returned.

    The theorems: what the node signs it accepts, for a public key hash and for n of
    m keys; and the merge returns exactly when the script it recurses on is not itself
    a pay-to-script-hash pattern. *)

From S2P Require Import Prelude Digits ScriptErrors ScriptNum ScriptStack Opcodes ScriptParse.
From S2P Require Import HexUtil Transaction Crypto Address OpcodeExec ScriptEngine EngineSafety.
From S2P Require Import EngineProps ScriptBuilder ScriptStandard ScriptRuns ScriptSpend ScriptMultiSig.

#[local] Open Scope Z_scope.

(** An error of the script package, of [crypto.Sign], of a database, of the script
    builder, or one of the two refusals of [sign]. *)

Inductive signFailure : Set :=
  | FailScript (e : ErrorCode)
  | FailSign (e : signError)
  | FailKey
  | FailGetScript
  | FailBuilder (e : NotCanonical)
  | FailNullData
  | FailUnknown.

Definition fail_with {E A} (f : E -> signFailure) (o : outcome E A) : outcome signFailure A :=
  match o with Ok a => Ok a | Err e => Err (f e) | Panic => Panic end.

(** [return builder.Script()] where an error makes the caller return it. *)

Definition checked_script (b : ScriptBuilder) : outcome signFailure bytes :=
  match Script b with (s, None) => Ok s | (_, Some e) => Err (FailBuilder e) end.

Section Sign.
Context {C : Crypto}.

(** [GetKey] yields a key, which may be nil, and whether it is compressed. *)

Definition KeyDB : Type := Address -> outcome signFailure (option PrivateKey * bool).
Definition ScriptDB : Type := Address -> outcome signFailure bytes.

(** A nil key passes the length test of [Sign] and is then dereferenced. *)

Definition RawTxInSignature (tx : Transaction) (msgIdx idx : Z) (subScript : bytes) (hashType : Z)
    (key : option PrivateKey) : outcome signFailure bytes :=
  hash ← fail_with FailScript (CalcSignatureHash subScript hashType tx msgIdx idx);
  sign ← match key with
         | Some key => fail_with FailSign (Sign hash key)
         | None => if decide (zlen hash <> 32) then Err (FailSign ErrHashLength) else Panic
         end;
  goslice sign 0 64.

Definition SignatureScript_ (tx : Transaction) (msgIdx idx : Z) (subscript : bytes) (hashType : Z)
    (privKey : option PrivateKey) (compress : bool) : outcome signFailure bytes :=
  sig ← RawTxInSignature tx msgIdx idx subscript hashType privKey;
  match privKey with
  | None => Panic
  | Some privKey =>
      let pk := PrivateKey_PublicKey privKey in
      let pkData := if compress then SerializeCompressed pk else SerializeUncompressed pk in
      checked_script (AddData pkData (AddData sig NewScriptBuilder))
  end.

Definition p2pkSignatureScript (tx : Transaction) (msgIdx idx : Z) (subScript : bytes) (hashType : Z)
    (privKey : option PrivateKey) : outcome signFailure bytes :=
  sig ← RawTxInSignature tx msgIdx idx subScript hashType privKey;
  checked_script (AddData sig NewScriptBuilder).

(** The loop over the addresses: the builder and the number of signatures. *)

Fixpoint signMultiSig_loop (tx : Transaction) (msgIdx idx : Z) (subScript : bytes) (hashType : Z)
    (addresses : list Address) (nRequired : Z) (kdb : KeyDB) (builder : ScriptBuilder) (signed : Z)
    : outcome signFailure (ScriptBuilder * Z) :=
  match addresses with
  | [] => Ok (builder, signed)
  | addr :: rest =>
      let continue := signMultiSig_loop tx msgIdx idx subScript hashType rest nRequired kdb in
      match kdb addr with
      | Panic => Panic
      | Err _ | Ok (None, _) => continue builder signed
      | Ok (Some key, _) =>
          match RawTxInSignature tx msgIdx idx subScript hashType (Some key) with
          | Panic => Panic
          | Err _ => continue builder signed
          | Ok sig =>
              let builder := AddData sig builder in
              let signed := signed + 1 in
              if decide (signed = nRequired) then Ok (builder, signed) else continue builder signed
          end
      end
  end.

Definition signMultiSig (tx : Transaction) (msgIdx idx : Z) (subScript : bytes) (hashType : Z)
    (addresses : list Address) (nRequired : Z) (kdb : KeyDB) : outcome signFailure (bytes * bool) :=
  let builder := AddOp OP_FALSE NewScriptBuilder in
  '(builder, signed) ← signMultiSig_loop tx msgIdx idx subScript hashType addresses nRequired kdb builder 0;
  Ok ((Script builder).1, bool_decide (signed = nRequired)).

Definition sign (tx : Transaction) (msgIdx idx : Z) (subScript : bytes) (hashType : Z) (kdb : KeyDB)
    (sdb : option ScriptDB) : outcome signFailure (bytes * ScriptClass * list Address * Z) :=
  '(class, addresses, nrequired) ← fail_with FailScript (ExtractPkScriptAddrs subScript);
  match class with
  | PubKeyTy =>
      addr ← goidx addresses 0;
      '(key, _) ← kdb addr;
      script ← p2pkSignatureScript tx msgIdx idx subScript hashType key;
      Ok (script, class, addresses, nrequired)
  | PubKeyHashTy =>
      addr ← goidx addresses 0;
      '(key, compressed) ← kdb addr;
      script ← SignatureScript_ tx msgIdx idx subScript hashType key compressed;
      Ok (script, class, addresses, nrequired)
  | ScriptHashTy =>
      addr ← goidx addresses 0;
      script ← match sdb with Some sdb => sdb addr | None => Panic end;
      Ok (script, class, addresses, nrequired)
  | MultiSigTy =>
      '(script, _) ← signMultiSig tx msgIdx idx subScript hashType addresses nrequired kdb;
      Ok (script, class, addresses, nrequired)
  | NullDataTy => Err FailNullData
  | _ => Err FailUnknown
  end.

(** ** Merging

    The transaction and the indices are only passed on by the code, and are left out. *)

Definition extractSigs (pops : list parsedOpcode) (sigs : list bytes) : list bytes :=
  sigs ++ filter (fun d => zlen d = 64) ((fun pop => contents (data pop)) <$> pops).

(** [for _, sig := range possibleSigs { builder.AddData(sig); doneSigs++; if doneSigs == nRequired { break } }] *)

Fixpoint add_sigs (sigs : list bytes) (nRequired doneSigs : Z) (builder : ScriptBuilder) : ScriptBuilder * Z :=
  match sigs with
  | [] => (builder, doneSigs)
  | sig :: rest =>
      let builder := AddData sig builder in
      let doneSigs := doneSigs + 1 in
      if decide (doneSigs = nRequired) then (builder, doneSigs) else add_sigs rest nRequired doneSigs builder
  end.

Definition pad_sigs (n : nat) (builder : ScriptBuilder) : ScriptBuilder := Nat.iter n (AddOp OP_0) builder.

(** [pops, err := parseScript(script); err != nil || len(pops) == 0] *)

Definition parsed_nonempty (script : bytes) : outcome signFailure (option (list parsedOpcode)) :=
  match parseScript_or_err script with
  | Ok [] | Err _ => Ok None
  | Ok pops => Ok (Some pops)
  | Panic => Panic
  end.

Definition mergeMultiSig (nRequired : Z) (pkScript sigScript prevScript : bytes) : outcome signFailure bytes :=
  sigPops ← parsed_nonempty sigScript;
  match sigPops with
  | None => Ok prevScript
  | Some sigPops =>
      prevPops ← parsed_nonempty prevScript;
      match prevPops with
      | None => Ok sigScript
      | Some prevPops =>
          let possibleSigs := extractSigs prevPops (extractSigs sigPops []) in
          let '(builder, doneSigs) := add_sigs possibleSigs nRequired 0 (AddOp OP_FALSE NewScriptBuilder) in
          Ok (Script (pad_sigs (Z.to_nat (nRequired - doneSigs)) builder)).1
      end
  end.

(** [script, _ := unparseScript(pops)]: nil on an error. *)

Definition unparse_ignore (pops : list parsedOpcode) : outcome signFailure bytes :=
  match unparseScript pops with Ok s => Ok s | Err _ => Ok [] | Panic => Panic end.

(** [class, addresses, nrequired, _ := ExtractPkScriptAddrs(script)] *)

Definition extract_ignore (script : bytes) : outcome signFailure (ScriptClass * list Address * Z) :=
  match ExtractPkScriptAddrs script with Ok r => Ok r | Err _ => Ok (NonStandardTy, [], 0) | Panic => Panic end.

Fixpoint mergeScripts (fuel : nat) (pkScript : bytes) (class : ScriptClass) (addresses : list Address)
    (nRequired : Z) (sigScript prevScript : bytes) : option (outcome signFailure bytes) :=
  match fuel with
  | O => None
  | S fuel =>
      match class with
      | ScriptHashTy =>
          match parsed_nonempty sigScript, parsed_nonempty prevScript with
          | Ok None, _ => Some (Ok prevScript)
          | Ok (Some _), Ok None => Some (Ok sigScript)
          | Ok (Some sigPops), Ok (Some prevPops) =>
              let script := contents (data (List.last sigPops (op_pop 0))) in
              match extract_ignore script, unparse_ignore sigPops, unparse_ignore prevPops with
              | Ok (class, addresses, nrequired), Ok sigScript, Ok prevScript =>
                  match mergeScripts fuel script class addresses nrequired sigScript prevScript with
                  | Some (Ok mergedScript) =>
                      Some (Ok (Script (AddData script (AddOps mergedScript NewScriptBuilder))).1)
                  | r => r
                  end
              | _, _, _ => Some Panic
              end
          | _, _ => Some Panic
          end
      | MultiSigTy => Some (mergeMultiSig nRequired pkScript sigScript prevScript)
      | _ => Some (Ok (if decide (zlen sigScript > zlen prevScript) then sigScript else prevScript))
      end
  end.

Definition SignTxOutput (fuel : nat) (tx : Transaction) (msgIdx idx : Z) (pkScript : bytes) (hashType : Z)
    (kdb : KeyDB) (sdb : option ScriptDB) (previousScript : bytes) : option (outcome signFailure bytes) :=
  match sign tx msgIdx idx pkScript hashType kdb sdb with
  | Err e => Some (Err e)
  | Panic => Some Panic
  | Ok (sigScript, class, addresses, nrequired) =>
      let signed :=
        if decide (class = ScriptHashTy) then
          '(realSigScript, _, _, _) ← sign tx msgIdx idx sigScript hashType kdb sdb;
          Ok (Script (AddData sigScript (AddOps realSigScript NewScriptBuilder))).1
        else Ok sigScript in
      match signed with
      | Err e => Some (Err e)
      | Panic => Some Panic
      | Ok sigScript => mergeScripts fuel pkScript class addresses nrequired sigScript previousScript
      end
  end.

(** ** [tokenengine/api.go]

    Signing one input with one key, or with a map of keys and a redeem script. *)

Definition SignOnePaymentInput (fuel : nat) (tx : Transaction) (msgIdx id : Z) (utxoLockScript : bytes)
    (privKey : option PrivateKey) : option (outcome signFailure bytes) :=
  let lookupKey _ := Ok (privKey, true) in
  SignTxOutput fuel tx msgIdx id utxoLockScript SigHashAll lookupKey None [].

Definition lookup_error (privKeys : gmap bytes (option PrivateKey)) : KeyDB := fun a =>
  match privKeys !! a with Some privKey => Ok (privKey, true) | None => Err FailKey end.

Definition MultiSignOnePaymentInput (fuel : nat) (tx : Transaction) (msgIdx id : Z)
    (utxoLockScript redeemScript : bytes) (privKeys : gmap bytes (option PrivateKey)) (previousScript : bytes)
    : option (outcome signFailure bytes) :=
  let lookupRedeemScript _ := Ok redeemScript in
  SignTxOutput fuel tx msgIdx id utxoLockScript SigHashAll (lookup_error privKeys) (Some lookupRedeemScript)
    previousScript.

(** Signing every input of every payment: the transaction, whose signature scripts
    the loops overwrite, and the failure with its position, if any.  A key that is
    not in the map is a nil key and no error. *)

Definition lookup_nil (privKeys : gmap bytes (option PrivateKey)) : KeyDB := fun a =>
  match privKeys !! a with Some privKey => Ok (privKey, true) | None => Ok (None, false) end.

Definition set_sigScript (tx : Transaction) (i j : nat) (s : bytes) : Transaction :=
  mkTransaction (TxHash tx) (alter (fun msg =>
    match payload msg with
    | Payment pay => mkMessage (App msg) (Payment (mkPaymentPayload
        (alter (fun inp => mkInput (PreviousOutPoint inp) (Some s) (Extra inp)) j (Inputs pay)) (Outputs pay) (LockTime pay)))
    | _ => msg
    end) i (TxMessages tx)).

Inductive signAll :=
  | AllSigned (tx : Transaction)
  | SignatureError (tx : Transaction) (InputIndex MsgIndex : Z) (Error : signFailure)
  | SignPanic
  | SignRunning.

Section All.
Variables (fuel : nat) (hashType : Z) (utxoLockScripts : OutPoint -> option bytes) (redeemScript : bytes)
  (privKeys : gmap bytes (option PrivateKey)).

Fixpoint sign_inputs (tx : Transaction) (i j : nat) (outputs : Z) (inputs : list Input) : signAll :=
  match inputs with
  | [] => AllSigned tx
  | input :: rest =>
      match PreviousOutPoint input with
      | None => SignPanic
      | Some outPoint =>
          let utxoLockScript := contents (utxoLockScripts outPoint) in
          if decide (Z.land hashType SigHashSingle <> SigHashSingle \/ Z.of_nat j < outputs) then
            match SignTxOutput fuel tx (Z.of_nat i) (Z.of_nat j) utxoLockScript hashType (lookup_nil privKeys)
                    (Some (fun _ => Ok redeemScript)) (contents (SignatureScript input)) with
            | None => SignRunning
            | Some Panic => SignPanic
            | Some (Err e) => SignatureError tx (u32 (Z.of_nat j)) (u32 (Z.of_nat i)) e
            | Some (Ok sigScript) => sign_inputs (set_sigScript tx i j sigScript) i (S j) outputs rest
            end
          else sign_inputs tx i (S j) outputs rest
      end
  end.

Fixpoint sign_messages (tx : Transaction) (i : nat) (msgs : list Message) : signAll :=
  match msgs with
  | [] => AllSigned tx
  | msg :: rest =>
      if decide (App msg = APP_PAYMENT) then
        match payload msg with
        | Payment pay =>
            match sign_inputs tx i 0 (zlen (Outputs pay)) (Inputs pay) with
            | AllSigned tx => sign_messages tx (S i) rest
            | r => r
            end
        | _ => SignPanic
        end
      else sign_messages tx (S i) rest
  end.

Definition SignTxAllPaymentInput (tx : Transaction) : signAll := sign_messages tx 0 (TxMessages tx).

End All.

(** ** Signatures *)

Context {L : CryptoLaws} {SL : SignatureLaws}.

(** What [RawTxInSignature] yields verifies. *)

Lemma RawTxInSignature_ok tx m i script pops hashType key :
  has_payload tx -> parseScript_or_err script = Ok pops -> PrivateKey_onS256 key = true ->
  exists sig, RawTxInSignature tx m i script hashType (Some key) = Ok sig /\ push_ok sig /\ zlen sig = 64 /\
    VerifySignature (SerializeCompressed (PrivateKey_PublicKey key)) (Keccak256 []) sig = true.
Proof.
  intros Hp Hs Hk. destruct (Sign_verifies key (Keccak256 []) Hk (Keccak256_ok [])) as (sig & Hsig & Hl & Hw & Hv & _).
  unfold RawTxInSignature, CalcSignatureHash. rewrite Hs, outcome_bind_ok, calcSignatureHash_const by done.
  cbn [fail_with]. rewrite outcome_bind_ok, Hsig. cbn [fail_with]. rewrite outcome_bind_ok.
  exists (take 64 sig). unfold goslice. rewrite decide_True by lia. cbn.
  assert (zlen (take 64 sig) = 64) by (unfold zlen in *; rewrite length_take; lia).
  split_and!; [done|split; [done|unfold MaxScriptElementSize; lia]|done|done].
Qed.

Lemma encode_all_pos pops : pops <> [] -> 0 < zlen (encode_all pops).
Proof. intros Hp. pose proof (encode_all_length pops). destruct pops; [done|]. unfold zlen. cbn [length] in *. lia. Qed.

(** ** Public key hashes *)

Lemma extract_p2pkh h :
  wf_bytes h -> zlen h = 20 ->
  ExtractPkScriptAddrs (GenerateP2PKHLockScript h) = Ok (PubKeyHashTy, [NewAddress h PublicKeyHash], 1) /\
  exists pops, parseScript_or_err (GenerateP2PKHLockScript h) = Ok pops.
Proof.
  intros Hwf Hl. destruct (p2pkh_lock h Hwf Hl) as (-> & (Hp & _ & _ & _) & _).
  unfold ExtractPkScriptAddrs. rewrite parseScript_or_err_encode, outcome_bind_ok by done. split; [|by eexists].
  cbn zeta. rewrite p2pkh_class by done. unfold p2pkh_pops. by rewrite goidx_2, outcome_bind_ok, push_pop_data by done.
Qed.

(** C11: The node accepts what it signs: for a pay-to-public-key-hash output of the
    key, [SignOnePaymentInput] returns a signature script, and any transaction whose
    input carries it is accepted. *)
Theorem sign_p2pkh_validates tx m i key :
  has_payload tx -> PrivateKey_onS256 key = true ->
  let lock := GenerateP2PKHLockScript (Hash160 (CompressPubkey (PrivateKey_PublicKey key))) in
  exists script, SignOnePaymentInput 1 tx m i lock (Some key) = Some (Ok script) /\
    forall t' m' i' p inp, spends t' m' i' p inp -> wf_tx t' -> SignatureScript inp = Some script ->
      ScriptValidate lock t' m' i' = Some (Ok ()).
Proof.
  intros Hpay Hk. set (pk := CompressPubkey (PrivateKey_PublicKey key)). set (h := Hash160 pk). intros lock.
  destruct (ripemd160_ok (sha256_Sum256 pk)) as [Hl Hwf]. fold (Hash160 pk) in Hl, Hwf. fold h in Hl, Hwf.
  destruct (extract_p2pkh h Hwf Hl) as [He [pops Hp]]. fold lock in He, Hp.
  destruct (RawTxInSignature_ok tx m i lock pops SigHashAll key Hpay Hp Hk) as (sig & Hsig & Hok & Hsl & Hv).
  destruct (Compressed_ok (PrivateKey_PublicKey key)) as [Hpl Hpw].
  assert (push_ok pk) as Hpk by (split; [done|unfold MaxScriptElementSize; unfold pk, CompressPubkey; lia]).
  assert (Forall push_ok [sig; pk]) as Hds by by rewrite !Forall_cons.
  destruct (pushes_script [sig; pk]) as [[_ Hgen] Hsz]; [done|done|].
  exists (GenerateP2PKHUnlockScript sig pk). split.
  - unfold SignOnePaymentInput, SignTxOutput, sign. rewrite He. cbn [fail_with]. rewrite outcome_bind_ok.
    cbn [goidx]. rewrite goidx_0, !outcome_bind_ok. cbn beta iota. unfold SignatureScript_.
    rewrite Hsig, outcome_bind_ok. fold pk. fold (CompressPubkey (PrivateKey_PublicKey key)). fold pk.
    unfold checked_script. change (AddData pk (AddData sig NewScriptBuilder)) with (AddDatas [sig; pk] NewScriptBuilder).
    rewrite Hgen, outcome_bind_ok, decide_False by done. cbn [mergeScripts].
    rewrite decide_True; [|apply Z.lt_gt, (encode_all_pos (push_pop <$> [sig; pk])); done].
    change (GenerateP2PKHUnlockScript sig pk) with (Script (AddDatas [sig; pk] NewScriptBuilder)).1. by rewrite Hgen.
  - intros t' m' i' p inp Hsp Ht Hin. unfold lock. rewrite (p2pkh_validate h sig pk t' m' i' p inp); try done.
    + rewrite decide_True by done. unfold pk, CompressPubkey. by rewrite Hv.
    + by rewrite Hin.
    + intros ->. by vm_compute in Hsl.
    + intros Hz. unfold pk, CompressPubkey in Hz. rewrite Hz in Hpl. by vm_compute in Hpl.
Qed.

(** [SignTxAllPaymentInput] looks keys up with [lookup_nil]: for an output of a key
    hash that is not in the map, the nil key is dereferenced. *)

Lemma sign_missing_key_panics fuel tx m i h privKeys prev :
  has_payload tx -> wf_bytes h -> zlen h = 20 -> privKeys !! NewAddress h PublicKeyHash = None ->
  SignTxOutput fuel tx m i (GenerateP2PKHLockScript h) SigHashAll (lookup_nil privKeys) None prev = Some Panic.
Proof.
  intros Hp Hwf Hl Hk. destruct (extract_p2pkh h Hwf Hl) as [He [pops Hpops]].
  unfold SignTxOutput, sign. rewrite He. cbn [fail_with]. rewrite outcome_bind_ok, goidx_0, outcome_bind_ok.
  unfold lookup_nil. rewrite Hk, outcome_bind_ok. cbn beta iota. unfold SignatureScript_, RawTxInSignature, CalcSignatureHash.
  rewrite Hpops, outcome_bind_ok, calcSignatureHash_const by done. cbn [fail_with]. rewrite outcome_bind_ok.
  destruct (Keccak256_ok []) as [Hk32 _]. by rewrite decide_False by lia.
Qed.

(** ** n of m keys *)

(** The private key the node has for a public key, if any. *)

Definition signer (privKeys : gmap bytes (option PrivateKey)) (key : bytes) : option PrivateKey :=
  match privKeys !! PubkeyBytesToAddress key with Some k => k | None => None end.

Lemma lookup_signer privKeys key :
  match signer privKeys key with
  | Some k => lookup_error privKeys (PubkeyBytesToAddress key) = Ok (Some k, true)
  | None => lookup_error privKeys (PubkeyBytesToAddress key) = Err FailKey \/
            lookup_error privKeys (PubkeyBytesToAddress key) = Ok (None, true)
  end.
Proof. unfold signer, lookup_error. destruct (privKeys !! _) as [[k|]|]; auto. Qed.

(** The private keys are those of the public keys they are looked up for. *)

Definition own_key (privKeys : gmap bytes (option PrivateKey)) (key : bytes) : Prop :=
  forall k, signer privKeys key = Some k -> PrivateKey_onS256 k = true /\ SerializeCompressed (PrivateKey_PublicKey k) = key.

Definition verifies (key sig : bytes) : Prop := VerifySignature key (Keccak256 []) sig = true.

(** What the loop adds to the builder: signatures [sigs] by keys [signers], taken
    in order, until there are enough. *)

Lemma signMultiSig_loop_ok tx m i script pops n privKeys keys b k :
  has_payload tx -> parseScript_or_err script = Ok pops -> Forall (own_key privKeys) keys -> 0 <= k < n ->
  exists sigs signers,
    signMultiSig_loop tx m i script SigHashAll (PubkeyBytesToAddress <$> keys) n (lookup_error privKeys) b k =
      Ok (AddDatas sigs b, k + zlen sigs) /\
    signers `sublist_of` keys /\ Forall2 verifies signers sigs /\ Forall (fun s => push_ok s /\ zlen s = 64) sigs /\
    zlen sigs = Z.min (n - k) (zlen (filter (fun key => is_Some (signer privKeys key)) keys)).
Proof.
  intros Hp Hs Hown. revert b k. induction Hown as [|key keys Hkey Hkeys IH]; intros b k Hk.
  { exists [], []. rewrite filter_nil, (@zlen_nil bytes), Z.add_0_r. split_and!; [done|done|constructor|constructor|lia]. }
  cbn [fmap list_fmap signMultiSig_loop]. rewrite filter_cons. pose proof (lookup_signer privKeys key) as Hlk.
  destruct (signer privKeys key) as [pk|] eqn:Hsg.
  - rewrite Hlk. destruct (Hkey pk Hsg) as [Hcurve Hpub].
    destruct (RawTxInSignature_ok tx m i script pops SigHashAll pk Hp Hs Hcurve) as (sig & -> & Hok & Hl & Hv).
    rewrite (decide_True (P := is_Some _)) by by eexists. rewrite Hpub in Hv. case_decide as Hn.
    + exists [sig], [key]. split_and!; [done|by apply sublist_skip, sublist_nil_l|by repeat constructor| |].
      * by repeat constructor; destruct Hok.
      * rewrite zlen_cons. change (zlen [sig]) with 1. zlen_lia.
    + destruct (IH (AddData sig b) (k + 1)) as (sigs & signers & -> & Hsub & Hf & Hoks & Hlen); [lia|].
      exists (sig :: sigs), (key :: signers). rewrite !zlen_cons. split_and!.
      * f_equal. f_equal. lia.
      * by apply sublist_skip.
      * by constructor.
      * by constructor.
      * lia.
  - rewrite decide_False by (intros [? [=]]). destruct (IH b k Hk) as (sigs & signers & He & Hsub & H).
    exists sigs, signers. split; [by destruct Hlk as [-> | ->]|]. split; [by apply sublist_cons|done].
Qed.

Lemma Forall2_length_zlen {A B} (R : A -> B -> Prop) l k : Forall2 R l k -> zlen l = zlen k.
Proof. intros H. unfold zlen. by rewrite (Forall2_length _ _ _ H). Qed.

(** The signature script of a redeem script. *)

Lemma extract_p2sh h :
  wf_bytes h -> zlen h = 20 ->
  ExtractPkScriptAddrs (GenerateP2SHLockScript h) = Ok (ScriptHashTy, [NewAddress h ScriptHash], 1).
Proof.
  intros Hwf Hl. destruct (p2sh_lock h Hwf Hl) as (-> & (Hp & _ & _ & _) & _).
  unfold ExtractPkScriptAddrs. rewrite parseScript_or_err_encode, outcome_bind_ok by done.
  cbn zeta. rewrite p2sh_class by done. unfold p2sh_pops. by rewrite goidx_1, outcome_bind_ok, push_pop_data by done.
Qed.

Lemma parsed_nonempty_encode pops :
  Forall (wf_pop opcodeArray) pops -> pops <> [] -> parsed_nonempty (encode_all pops) = Ok (Some pops).
Proof. intros Hp Hne. unfold parsed_nonempty. rewrite parseScript_or_err_encode by done. by destruct pops. Qed.

(** Appending to a script already built is building on. *)

Lemma resume_builder b :
  err b = None -> zlen (script b) <= MaxScriptSize -> AddOps (Script b).1 NewScriptBuilder = b.
Proof.
  intros He Hs. destruct b as [s e]. cbn in *. subst e. unfold AddOps. cbn.
  rewrite decide_False by (intros H; by apply H). rewrite (@zlen_nil Z), decide_False by lia. done.
Qed.

(** C12: The node accepts what it signs with several keys: for the pay-to-script-hash
    output of n of m keys, when it holds the private keys of at least n of them,
    [MultiSignOnePaymentInput] returns a signature script, and any transaction whose
    input carries it is accepted. *)
Theorem sign_multisig_validates tx m i n keys privKeys :
  has_payload tx -> Forall is_key keys -> 2 <= zlen keys <= 16 -> 1 <= n <= zlen keys ->
  Forall (own_key privKeys) keys ->
  n <= zlen (filter (fun key => is_Some (signer privKeys key)) keys) ->
  let r := GenerateRedeemScript n keys in
  let lock := GenerateP2SHLockScript (Hash160 r) in
  zlen r <= MaxScriptElementSize ->
  exists script, MultiSignOnePaymentInput 1 tx m i lock r privKeys [] = Some (Ok script) /\
    forall t' m' i' p inp, spends t' m' i' p inp -> wf_tx t' -> SignatureScript inp = Some script ->
      ScriptValidate lock t' m' i' = Some (Ok ()).
Proof.
  intros Hpay Hk Hkl Hn Hown Havail r lock Hrl.
  destruct (GenerateRedeemScript_gen n keys) as [Hp Hr]; [lia|lia|done|]. fold r in Hr.
  destruct (extract_multisig n keys) as (_ & _ & Her); [lia|lia|done|]. fold r in Her.
  assert (parseScript_or_err r = Ok (multisig_pops n keys)) as Hpr by (rewrite Hr; by apply parseScript_or_err_encode).
  assert (wf_bytes r) as Hrw by (rewrite Hr; by eapply encode_all_wf).
  destruct (ripemd160_ok (sha256_Sum256 r)) as [Hhl Hhw]. pose proof (extract_p2sh _ Hhw Hhl) as Hel.
  fold (Hash160 r) in Hel. fold lock in Hel.
  destruct (signMultiSig_loop_ok tx m i r _ n privKeys keys (AddOp OP_FALSE NewScriptBuilder) 0 Hpay Hpr Hown)
    as (sigs & signers & Hloop & Hsub & Hver & Hsok & Hlen); [lia|].
  rewrite Z.add_0_l in Hloop. assert (zlen sigs = n) as Hsn by lia.
  assert (Forall push_ok ([] :: sigs)) as Hds.
  { constructor; [split; [constructor|by vm_compute]|]. eapply Forall_impl; [done|]. by intros ? []. }
  assert (Forall push_ok (([] :: sigs) ++ [r])) as Hds' by (rewrite Forall_app, Forall_singleton; by split).
  destruct (pushes_script ([] :: sigs)) as [[_ [= Hs1 He1]] Hz1]; [done|rewrite zlen_cons; lia|].
  destruct (pushes_script (([] :: sigs) ++ [r])) as [[Hp2 Hg2] Hz2]; [done|rewrite zlen_snoc, zlen_cons; lia|].
  exists (GenerateP2SHUnlockScript ([] :: sigs) r). split.
  - unfold MultiSignOnePaymentInput, SignTxOutput, sign at 1. rewrite Hel. cbn [fail_with].
    rewrite outcome_bind_ok, goidx_0, !outcome_bind_ok, decide_True by done. unfold sign. rewrite Her. cbn [fail_with].
    rewrite outcome_bind_ok. unfold signMultiSig. rewrite Hloop, !outcome_bind_ok.
    change (AddOp OP_FALSE NewScriptBuilder) with (AddData [] NewScriptBuilder).
    change (AddDatas sigs (AddData [] NewScriptBuilder)) with (AddDatas ([] :: sigs) NewScriptBuilder).
    rewrite resume_builder; [|exact He1|by etrans; [apply Z.eq_le_incl, (f_equal zlen Hs1)|]]. rewrite <- AddDatas_snoc, Hg2. cbn [mergeScripts fst].
    rewrite parsed_nonempty_encode by (done || by destruct sigs).
    change (parsed_nonempty []) with (Ok (E := signFailure) (@None (list parsedOpcode))).
    unfold GenerateP2SHUnlockScript. by rewrite <- AddDatas_snoc, Hg2.
  - intros t' m' i' p inp Hsp Ht Hin. unfold lock, r. rewrite <- Hsn. rewrite (multisig_validate keys sigs t' m' i' p inp); try done.
    + rewrite decide_True; [done|]. rewrite <- (Forall2_length_zlen _ _ _ Hver). apply valid_pairs_signers; [done|].
      eapply Forall2_Forall_l; [exact Hver|]. apply Forall_forall. intros s Hs k Hv. exists s.
      by rewrite elem_of_remove_dups.
    + eapply Forall_impl; [done|]. intros s [? Hl]. split; [done|]. intros ->. by vm_compute in Hl.
    + lia.
    + by rewrite Hsn.
    + by rewrite Hin, Hsn.
Qed.

(** ** Termination of the merge *)

Lemma script_hash_pops pops : typeOfScript pops = ScriptHashTy -> exists p, goidx (E := ErrorCode) pops 1 = Ok p.
Proof.
  unfold typeOfScript. intros Ht. repeat (case_match; try done).
  destruct pops as [|p0 [|p1 pops]]; [by match goal with H : isScriptHash _ = true |- _ => vm_compute in H end| |eauto].
  match goal with H : isScriptHash _ = true |- _ => apply bool_decide_eq_true in H end. done.
Qed.

Lemma extract_class script :
  GetScriptClass script = Ok ScriptHashTy <-> exists addrs n, extract_ignore script = Ok (ScriptHashTy, addrs, n).
Proof.
  unfold extract_ignore, ExtractPkScriptAddrs, GetScriptClass.
  destruct (parseScript_or_err script) as [pops|e|]; [|split; [done|by intros (? & ? & ?)]..].
  rewrite outcome_bind_ok. cbn zeta. split.
  - intros [= Ht]. destruct (script_hash_pops pops Ht) as [p Hp]. rewrite Ht, Hp, outcome_bind_ok. eauto.
  - intros (addrs & n & He). destruct (typeOfScript pops); try done.
    + by destruct (goidx pops 2).
    + destruct (goidx pops 0); [|done..]. destruct (goidx pops (zlen pops - 2)); [|done..].
      rewrite !outcome_bind_ok in He. by destruct (multisig_addrs _ _ _).
    + by destruct (goidx pops 0).
Qed.

Lemma parsed_pops s pops :
  wf_bytes s -> parseScript s = Some (pops, None) -> Forall (wf_pop opcodeArray) pops /\ s = encode_all pops.
Proof.
  intros Hw Hp. assert (parseScript_or_err s = Ok pops) as Ho by (unfold parseScript_or_err; by rewrite Hp).
  destruct (parseScript_or_err_spec s Hw) as [(pops' & He & Hwf & ->)|He]; rewrite He in Ho; [|done]. by injection Ho as <-.
Qed.

Lemma mergeScripts_stuck fuel pk addrs n sigPops prevPops :
  Forall (wf_pop opcodeArray) sigPops -> Forall (wf_pop opcodeArray) prevPops -> sigPops <> [] -> prevPops <> [] ->
  GetScriptClass (contents (data (List.last sigPops (op_pop 0)))) = Ok ScriptHashTy ->
  mergeScripts fuel pk ScriptHashTy addrs n (encode_all sigPops) (encode_all prevPops) = None.
Proof.
  intros Hs Hp Hsn Hpn Hc. revert pk addrs n. induction fuel as [|fuel IH]; intros pk addrs n; [done|].
  cbn [mergeScripts]. rewrite !parsed_nonempty_encode by done. apply extract_class in Hc as (addrs' & n' & ->).
  unfold unparse_ignore. rewrite !(unparse_encode opcodeArray) by done. by rewrite IH.
Qed.

(** Merging the signature script of a pay-to-script-hash output with a previous
    one returns exactly when the redeem script, which is the last push, is not itself
    a pay-to-script-hash pattern; for such a redeem script [mergeScripts] calls itself
    for ever on the same two scripts. *)
Theorem mergeScripts_returns_iff pk addrs n sigScript prevScript sigPops prevPops :
  wf_bytes sigScript -> wf_bytes prevScript ->
  parseScript sigScript = Some (sigPops, None) -> parseScript prevScript = Some (prevPops, None) ->
  sigPops <> [] -> prevPops <> [] ->
  (exists fuel r, mergeScripts fuel pk ScriptHashTy addrs n sigScript prevScript = Some r) <->
  GetScriptClass (contents (data (List.last sigPops (op_pop 0)))) <> Ok ScriptHashTy.
Proof.
  intros Hsw Hpw Hs Hp Hsn Hpn.
  destruct (parsed_pops _ _ Hsw Hs) as [Hsp ->]. destruct (parsed_pops _ _ Hpw Hp) as [Hpp ->]. split.
  - intros (fuel & r & Hm) Hc. by rewrite mergeScripts_stuck in Hm.
  - intros Hc. exists 2%nat. cbn [mergeScripts]. rewrite !parsed_nonempty_encode by done. unfold unparse_ignore.
    rewrite !(unparse_encode opcodeArray) by done. rewrite extract_class in Hc.
    destruct (extract_ignore _) as [[[class addrs'] n']| |]; [|by eexists..].
    destruct class; try by eexists.
    + by destruct Hc; eauto.
    + by destruct (mergeMultiSig _ _ _ _); eexists.
Qed.

End Sign.

(** ** Concrete signatures *)

#[local] Instance is_key_dec d : Decision (is_key d).
Proof. unfold is_key. apply _. Defined.

Ltac decided := by apply (bool_decide_unpack _); vm_compute.

Lemma example_payload s : has_payload (example_tx s).
Proof. constructor. discriminate. Qed.

Definition toy_signed (lock : bytes) : bytes :=
  match @SignOnePaymentInput toy_crypto 1 (example_tx []) 0 0 lock (Some true) with Some (Ok s) => s | _ => [] end.

Lemma sign_p2pkh_validates_witness :
  let lock := GenerateP2PKHLockScript (toy_hash true) in
  @ScriptValidate toy_crypto lock (example_tx (toy_signed lock)) 0 0 = Some (Ok ()).
Proof.
  cbn zeta. set (lock := GenerateP2PKHLockScript (toy_hash true)).
  destruct (@sign_p2pkh_validates toy_crypto toy_crypto_laws toy_signature_laws (example_tx []) 0 0 true
    (example_payload []) eq_refl) as (script & Hs & Hv).
  eapply Hv; [apply (example_spends (toy_signed lock))|apply example_tx_wf; decided|].
  vm_compute in Hs. injection Hs as <-. vm_compute. reflexivity.
Defined.

Definition toy_privKeys : gmap bytes (option bool) :=
  {[ @PubkeyBytesToAddress toy_crypto (toy_compressed true) := Some true;
     @PubkeyBytesToAddress toy_crypto (toy_compressed false) := Some false ]}.

Definition toy_multi_signed : bytes :=
  match @MultiSignOnePaymentInput toy_crypto 1 (example_tx []) 0 0 (toy_lock 2) (GenerateRedeemScript 2 toy_keys)
          toy_privKeys [] with Some (Ok s) => s | _ => [] end.

Lemma sign_multisig_validates_witness :
  @ScriptValidate toy_crypto (toy_lock 2) (example_tx toy_multi_signed) 0 0 = Some (Ok ()).
Proof.
  destruct (@sign_multisig_validates toy_crypto toy_crypto_laws toy_signature_laws (example_tx []) 0 0 2 toy_keys
    toy_privKeys (example_payload [])) as (script & Hs & Hv).
  - decided.
  - decided.
  - decided.
  - apply Forall_forall. intros key Hin. unfold toy_keys in Hin. apply elem_of_cons in Hin as [->|Hin].
    + intros k Hk. vm_compute in Hk. by injection Hk as <-.
    + apply list_elem_of_singleton in Hin as ->. intros k Hk. vm_compute in Hk. by injection Hk as <-.
  - vm_compute. discriminate.
  - vm_compute. discriminate.
  - eapply Hv; [apply (example_spends toy_multi_signed)|apply example_tx_wf; decided|].
    vm_compute in Hs. injection Hs as <-. vm_compute. reflexivity.
Defined.

(** A redeem script that is itself a pay-to-script-hash pattern. *)

Definition nested_redeem : bytes := GenerateP2SHLockScript (replicate 20 7).

Lemma mergeScripts_returns_iff_witness :
  let s := GenerateP2SHUnlockScript [[1; 2]] nested_redeem in
  ~ exists fuel r, @mergeScripts toy_crypto fuel [] ScriptHashTy [] 1 s s = Some r.
Proof.
  cbn zeta. intros H. set (ps := [push_pop [1; 2]; push_pop nested_redeem]).
  refine (proj1 (@mergeScripts_returns_iff toy_crypto [] [] 1 _ _ ps ps _ _ _ _ _ _) H _).
  - decided.
  - decided.
  - vm_compute. reflexivity.
  - vm_compute. reflexivity.
  - discriminate.
  - discriminate.
  - vm_compute. reflexivity.
Defined.
