(* ===== verification/Mediators.v ===== *)
(** * Mediators: the production schedule

    [dag/modules/mediator_schedule.go], [dag/modules/global_property.go] and the
    schedule functions of [dag/mediator_schedule.go] and [dag/unit_production.go]:
    the sorted list of active mediators, the shuffle, the mediator of a slot, slot
    times, and the update of the properties when a unit is applied.

    A [time.Time] is its number of nanoseconds since the epoch, without bound;
    integers have their width.  The property and state databases are the fields of
    [Dag].  The enumeration order of the map of active mediators is an argument
    where it matters. *)

From S2P Require Import Prelude Transaction Crypto Address.
From stdpp Require Import sorting.

#[local] Open Scope Z_scope.

(** ** Strings in the order of [sort.Strings] *)

Fixpoint bytes_leb (a b : bytes) : bool :=
  match a, b with
  | [], _ => true
  | _ :: _, [] => false
  | x :: a, y :: b => if decide (x < y) then true else if decide (y < x) then false else bytes_leb a b
  end.

Definition bytes_le (a b : bytes) : Prop := bytes_leb a b = true.

#[export] Instance bytes_le_dec : RelDecision bytes_le.
Proof. intros a b. unfold bytes_le. apply _. Defined.

Definition sort_Strings (l : list bytes) : list bytes := merge_sort bytes_le l.

(** ** Properties *)

Record GlobalProperty := mkGlobalProperty {
  MediatorInterval : Z;   (* uint8 *)
  ActiveMediators : gmap bytes bool
}.

Record DynamicGlobalProperty := mkDynamicGlobalProperty {
  HeadUnitNum : Z;   (* uint64 *)
  HeadUnitHash : bytes;
  HeadUnitTime : Z;   (* int64 *)
  CurrentASlot : Z;   (* uint64 *)
  LastIrreversibleUnitNum : Z
}.

Abbreviation PalletOne100Percent := 10000 (only parsing).
Abbreviation PalletOne1Percent := (PalletOne100Percent / 100) (only parsing).
Abbreviation PalletOneIrreversibleThreshold := (70 * PalletOne1Percent) (only parsing).

Definition GetActiveMediatorCount (gp : GlobalProperty) : Z := Z.of_nat (size (ActiveMediators gp)).

Definition GetCurThreshold (gp : GlobalProperty) : Z :=
  let aSize := GetActiveMediatorCount gp in
  let offset := Z.quot ((PalletOne100Percent - PalletOneIrreversibleThreshold) * aSize) PalletOne100Percent in
  aSize - offset.

Section Sorting.
Context `{B : Base58}.

(** [adds[i], _ = common.StringToAddress(addStr)]: the zero address on an error. *)

Definition string_to_address (s : bytes) : outcome addressError Address :=
  match StringToAddress s with
  | Ok a => Ok a
  | Err _ => Ok zero_Address
  | Panic => Panic
  end.

Fixpoint parse_all (l : list bytes) : outcome addressError (list Address) :=
  match l with
  | [] => Ok []
  | s :: l => a ← string_to_address s; rest ← parse_all l; Ok (a :: rest)
  end.

Definition sortAddress (adds : list Address) : outcome addressError (list Address) :=
  parse_all (sort_Strings (Address_Str <$> adds)).

(** [GetActiveMediators] when the map is enumerated in the order [order]. *)

Definition GetActiveMediators (order : list Address) : outcome addressError (list Address) := sortAddress order.

Definition enumerates (gp : GlobalProperty) (order : list Address) : Prop :=
  order ≡ₚ (map_to_list (ActiveMediators gp)).*1.

(** ** The shuffle *)

Definition multiplier : Z := 2685821657736338717.

Definition next_random (nowHi i : Z) : Z :=
  let k := u64 (nowHi + u64 (i * multiplier)) in
  let k := Z.lxor k (Z.shiftr k 12) in
  let k := Z.lxor k (u64 (Z.shiftl k 25)) in
  let k := Z.lxor k (Z.shiftr k 27) in
  u64 (k * multiplier).

(** [for ; i < aSize; i++ { ... }], with [n] rounds to go. *)

Fixpoint shuffle_loop (n : nat) (aSize nowHi i : Z) (l : list Address) : outcome addressError (list Address) :=
  match n with
  | O => Ok l
  | S n =>
      let k := next_random nowHi i in
      let jmax := aSize - i in
      let j := i + k mod jmax in
      a ← goidx l i;
      b ← goidx l j;
      shuffle_loop n aSize nowHi (i + 1) (<[Z.to_nat j := a]> (<[Z.to_nat i := b]> l))
  end.

(** [cur := make([]Address, aSize); for i, add := range meds { cur[i] = add }] *)

Definition fill (aSize : Z) (meds : list Address) : outcome addressError (list Address) :=
  if decide (zlen meds > aSize) then Panic
  else Ok (list_inserts 0 meds (replicate (Z.to_nat aSize) zero_Address)).

Definition UpdateMediatorSchedule (gp : GlobalProperty) (order : list Address) (dgp : DynamicGlobalProperty)
    (ms : list Address) : outcome addressError (list Address) :=
  let aSize := Z.of_nat (size (ActiveMediators gp)) in
  if decide (aSize = 0) then Ok ms else
  if decide (HeadUnitNum dgp mod aSize <> 0) then Ok ms else
  meds ← GetActiveMediators order;
  cur ← fill aSize meds;
  let nowHi := u64 (Z.shiftl (HeadUnitTime dgp) 32) in
  shuffle_loop (Z.to_nat aSize) aSize nowHi 0 cur.

Definition InitMediatorSchl (gp : GlobalProperty) (order : list Address) (dgp : DynamicGlobalProperty)
    : outcome addressError (list Address) :=
  let aSize := Z.of_nat (size (ActiveMediators gp)) in
  meds ← GetActiveMediators order;
  ms ← fill aSize meds;
  UpdateMediatorSchedule gp order dgp ms.

(** [slotNum] is a [uint32]. *)

Definition GetScheduledMediator (ms : list Address) (dgp : DynamicGlobalProperty) (slotNum : Z) : Address :=
  let currentASlot := u64 (CurrentASlot dgp + slotNum) in
  let csmLen := zlen ms in
  if decide (csmLen = 0) then zero_Address else
  let index := u64 (currentASlot - 1) mod csmLen in
  nth (Z.to_nat index) ms zero_Address.

(** ** Slot times *)

Definition second : Z := 10 ^ 9.
Definition time_Unix (sec : Z) : Z := sec * second.
Definition Unix (t : Z) : Z := t / second.

Definition GetSlotTime (gp : GlobalProperty) (dgp : DynamicGlobalProperty) (slotNum : Z) : outcome addressError Z :=
  if decide (slotNum = 0) then Ok (time_Unix 0) else
  let interval := MediatorInterval gp in
  if decide (HeadUnitNum dgp = 0) then
    let genesisTime := HeadUnitTime dgp in
    Ok (time_Unix (i64 (genesisTime + i64 (slotNum * interval))))
  else if decide (interval = 0) then Panic else
  let unitAbsSlot := Z.quot (HeadUnitTime dgp) interval in
  let verifiedUnitSlotTime := time_Unix (i64 (unitAbsSlot * interval)) in
  Ok (verifiedUnitSlotTime + i64 (i64 (second * slotNum) * interval)).

Definition GetSlotAtTime (gp : GlobalProperty) (dgp : DynamicGlobalProperty) (when : Z) : outcome addressError Z :=
  firstSlotTime ← GetSlotTime gp dgp 1;
  if decide (when < firstSlotTime) then Ok 0 else
  let diffSecs := i64 (Unix when - Unix firstSlotTime) in
  let interval := MediatorInterval gp in
  if decide (interval = 0) then Ok 0 else
  Ok (u32 (u32 (Z.quot diffSecs interval) + 1)).

(** ** The properties and state of the node *)

Record Mediator := mkMediator {
  Med_Address : Address;
  TotalMissed : Z   (* int64 *)
}.

Record Unit := mkUnit {
  Creationdate : Z;
  Number_Index : Z;
  UnitHash : bytes;
  ParentsHash : list bytes;
  UnitAuthor : Address
}.

Record Dag := mkDag {
  dag_gp : GlobalProperty;
  dag_dgp : DynamicGlobalProperty;
  dag_ms : list Address;
  dag_mediators : gmap bytes Mediator
}.

Definition UpdateDynGlobalProp (unit : Unit) (missedUnits : Z) (dgp : DynamicGlobalProperty) : DynamicGlobalProperty :=
  mkDynamicGlobalProperty (Number_Index unit) (UnitHash unit) (Creationdate unit)
    (u64 (CurrentASlot dgp + u64 (missedUnits + 1))) (LastIrreversibleUnitNum dgp).

(** [for ; i < missedUnits; i++]: one more missed unit for the mediator of each
    slot.  A mediator that is not stored is a nil pointer. *)

Fixpoint miss_loop (n : nat) (i : Z) (d : Dag) : outcome addressError Dag :=
  match n with
  | O => Ok d
  | S n =>
      let mediatorMissed := GetScheduledMediator (dag_ms d) (dag_dgp d) (u32 (i + 1)) in
      match dag_mediators d !! mediatorMissed with
      | None => Panic
      | Some med =>
          let med := mkMediator (Med_Address med) (i64 (TotalMissed med + 1)) in
          miss_loop n (i + 1) (mkDag (dag_gp d) (dag_dgp d) (dag_ms d) (<[Med_Address med := med]> (dag_mediators d)))
      end
  end.

Definition UpdateMediatorMissedUnits (unit : Unit) (d : Dag) : outcome addressError (Z * Dag) :=
  missedUnits ← GetSlotAtTime (dag_gp d) (dag_dgp d) (time_Unix (Creationdate unit));
  if decide (missedUnits = 0) then Ok (0, d) else
  let missedUnits := missedUnits - 1 in
  let aSize := GetActiveMediatorCount (dag_gp d) in
  d ← (if decide (missedUnits < u32 aSize) then miss_loop (Z.to_nat missedUnits) 0 d else Ok d);
  Ok (missedUnits, d).

Definition ApplyUnit (nextUnit : Unit) (order : list Address) (d : Dag) : outcome addressError Dag :=
  '(missed, d) ← UpdateMediatorMissedUnits nextUnit d;
  let dgp := UpdateDynGlobalProp nextUnit missed (dag_dgp d) in
  ms ← UpdateMediatorSchedule (dag_gp d) order dgp (dag_ms d);
  Ok (mkDag (dag_gp d) dgp ms (dag_mediators d)).

(** [ParentHash()[0]] panics without parents. *)

Definition validateMediatorSchedule (nextUnit : Unit) (d : Dag) : outcome addressError bool :=
  parent ← goidx (ParentsHash nextUnit) 0;
  if decide (HeadUnitHash (dag_dgp d) <> parent) then Ok false else
  if decide (HeadUnitTime (dag_dgp d) >= Creationdate nextUnit) then Ok false else
  slotNum ← GetSlotAtTime (dag_gp d) (dag_dgp d) (time_Unix (Creationdate nextUnit));
  if decide (slotNum <= 0) then Ok false else
  let scheduledMediator := GetScheduledMediator (dag_ms d) (dag_dgp d) slotNum in
  if Address_Equal (UnitAuthor nextUnit) scheduledMediator then Ok false else Ok true.

End Sorting.

(** The threshold is the least number of mediators that is at least 70 percent. *)

Lemma GetCurThreshold_spec gp :
  let n := GetActiveMediatorCount gp in let t := GetCurThreshold gp in 7 * n <= 10 * t /\ 10 * (t - 1) < 7 * n.
Proof.
  cbn zeta. unfold GetCurThreshold. cbv zeta. change (10000 / 100) with 100. change (10000 - 70 * 100) with 3000.
  assert (0 <= GetActiveMediatorCount gp) by (unfold GetActiveMediatorCount; lia).
  generalize dependent (GetActiveMediatorCount gp). intros n Hn.
  pose proof (Z.quot_div_nonneg (3000 * n) 10000 ltac:(lia) ltac:(lia)) as ->.
  pose proof (Z.div_mod (3000 * n) 10000). pose proof (Z.mod_pos_bound (3000 * n) 10000). lia.
Qed.

(** ** The order of strings is total *)

Lemma bytes_le_cons x y a b :
  bytes_le (x :: a) (y :: b) <-> x < y \/ (x = y /\ bytes_le a b).
Proof.
  unfold bytes_le. cbn [bytes_leb]. case_decide; [by intuition lia|]. case_decide; [intuition (lia || done)|].
  assert (x = y) as -> by lia. intuition lia.
Qed.

#[export] Instance bytes_le_trans : Transitive bytes_le.
Proof.
  intros a. induction a as [|x a IH]; intros [|y b] [|z c]; try done.
  rewrite !bytes_le_cons. intros [?|[-> ?]] [?|[-> ?]]; [left; lia|left; lia|left; lia|right; eauto].
Qed.

#[export] Instance bytes_le_total : Total bytes_le.
Proof.
  intros a. induction a as [|x a IH]; intros [|y b]; try by (left + right).
  rewrite !bytes_le_cons. destruct (Z.lt_trichotomy x y) as [?|[->|?]]; [by left; left| |by right; left].
  destruct (IH b); [left|right]; by right.
Qed.

#[export] Instance bytes_le_antisymm : AntiSymm (=) bytes_le.
Proof.
  intros a. induction a as [|x a IH]; intros [|y b]; try done.
  rewrite !bytes_le_cons. intros [?|[-> ?]] [?|[? ?]]; try lia. f_equal. by apply IH.
Qed.

Lemma sort_Strings_perm l1 l2 : l1 ≡ₚ l2 -> sort_Strings l1 = sort_Strings l2.
Proof.
  intros Hp. unfold sort_Strings. apply (StronglySorted_unique bytes_le).
  - apply StronglySorted_merge_sort; apply _.
  - apply StronglySorted_merge_sort; apply _.
  - by rewrite !merge_sort_Permutation.
Qed.

(** ** Active mediators *)

Section ActiveMediators.
Context `{B : Base58} `{L : !Base58Laws}.

(** An address whose type is known, so that its text parses back. *)

Definition typed_address (a : Address) : Prop :=
  wf_address a /\ GetType a ∈ [PublicKeyHash; ScriptHash; ContractHash].

Definition gp_ok (gp : GlobalProperty) : Prop :=
  forall a, is_Some (ActiveMediators gp !! a) -> typed_address a.

Definition keys (gp : GlobalProperty) : list Address := (map_to_list (ActiveMediators gp)).*1.

Lemma keys_NoDup gp : NoDup (keys gp).
Proof. apply NoDup_fst_map_to_list. Qed.

Lemma keys_length gp : length (keys gp) = size (ActiveMediators gp).
Proof. unfold keys. by rewrite length_fmap, length_map_to_list. Qed.

Lemma elem_of_keys gp a : a ∈ keys gp <-> is_Some (ActiveMediators gp !! a).
Proof.
  unfold keys. rewrite list_elem_of_fmap. split.
  - intros ([k v] & -> & Hin%elem_of_map_to_list). by exists v.
  - intros [v Hv]. exists (a, v). by rewrite elem_of_map_to_list.
Qed.

Lemma keys_typed gp : gp_ok gp -> Forall typed_address (keys gp).
Proof.
  intros Hok. apply Forall_forall. intros a Ha. by apply Hok, elem_of_keys.
Qed.

Lemma parse_all_Str l : Forall typed_address l -> parse_all (Address_Str <$> l) = Ok l.
Proof.
  induction 1 as [|a l [Ha Ht] Hl IH]; [done|]. cbn [fmap list_fmap parse_all]. unfold string_to_address.
  rewrite StringToAddress_Str by done. cbn [mbind outcome_bind]. by rewrite IH.
Qed.

Lemma sortAddress_spec adds :
  Forall typed_address adds ->
  exists l, sortAddress adds = Ok l /\ l ≡ₚ adds /\ Sorted bytes_le (Address_Str <$> l).
Proof.
  intros Ht. unfold sortAddress. pose proof (merge_sort_Permutation bytes_le (Address_Str <$> adds)) as Hp.
  destruct (Permutation_map_inv _ _ Hp) as (l & He & Hl). exists l. unfold sort_Strings. split_and!.
  - rewrite He. apply parse_all_Str. by rewrite <- Hl.
  - by symmetry.
  - change (Address_Str <$> l) with (map Address_Str l). rewrite <- He. apply Sorted_merge_sort. apply _.
Qed.

Lemma sortAddress_perm l1 l2 : l1 ≡ₚ l2 -> sortAddress l1 = sortAddress l2.
Proof. intros Hp. unfold sortAddress. f_equal. apply sort_Strings_perm. by rewrite Hp. Qed.

Lemma GetActiveMediators_spec gp order :
  gp_ok gp -> enumerates gp order ->
  exists l, GetActiveMediators order = Ok l /\ GetActiveMediators (keys gp) = Ok l /\ l ≡ₚ keys gp /\
    Sorted bytes_le (Address_Str <$> l).
Proof.
  intros Hok Ho. destruct (sortAddress_spec (keys gp)) as (l & Hs & Hp & Hso); [by apply keys_typed|].
  exists l. unfold GetActiveMediators. by rewrite (sortAddress_perm order (keys gp)).
Qed.

(** C33: Every node computes the same list of active mediators: whatever the order in
    which the map of mediators is enumerated, [GetActiveMediators] yields the same
    list, which has every active mediator exactly once, in the order of their text. *)
Theorem active_mediators_deterministic gp order1 order2 :
  gp_ok gp -> enumerates gp order1 -> enumerates gp order2 ->
  exists l, GetActiveMediators order1 = Ok l /\ GetActiveMediators order2 = Ok l /\
    NoDup l /\ (forall a, a ∈ l <-> is_Some (ActiveMediators gp !! a)) /\ Sorted bytes_le (Address_Str <$> l).
Proof.
  intros Hok H1 H2. destruct (GetActiveMediators_spec gp order1 Hok H1) as (l & Hl & Hk & Hp & Hs).
  destruct (GetActiveMediators_spec gp order2 Hok H2) as (l' & Hl' & Hk' & _). exists l. split_and!; try done.
  - rewrite Hl'. congruence.
  - rewrite Hp. apply keys_NoDup.
  - intros a. rewrite Hp. apply elem_of_keys.
Qed.

(** ** The shuffle permutes *)

Lemma swap_perm (l : list Address) i j a b :
  l !! i = Some a -> l !! j = Some b -> <[j := a]> (<[i := b]> l) ≡ₚ l.
Proof.
  intros Hi Hj. pose proof (lookup_lt_Some _ _ _ Hi). pose proof (lookup_lt_Some _ _ _ Hj).
  apply Permutation_inj. split; [by rewrite !length_insert|].
  exists (fun k => if decide (k = i) then j else if decide (k = j) then i else k). split.
  - intros x y. repeat case_decide; congruence.
  - intros k. destruct (decide (k = j)) as [->|Hkj].
    + rewrite list_lookup_insert_eq by by rewrite length_insert. case_decide as Hji; [|by rewrite ?decide_True].
      subst i. congruence.
    + rewrite list_lookup_insert_ne by done. destruct (decide (k = i)) as [->|Hki].
      * by rewrite list_lookup_insert_eq.
      * by rewrite list_lookup_insert_ne.
Qed.

Lemma shuffle_loop_perm n aSize nowHi i l :
  0 <= i -> i + Z.of_nat n = aSize -> zlen l = aSize ->
  exists l', shuffle_loop n aSize nowHi i l = Ok l' /\ l' ≡ₚ l.
Proof.
  revert i l. induction n as [|n IH]; intros i l Hi Hn Hl; cbn [shuffle_loop]; [by exists l|]. cbn zeta.
  pose proof (Z.mod_pos_bound (next_random nowHi i) (aSize - i) ltac:(lia)) as Hj.
  set (j := i + next_random nowHi i mod (aSize - i)) in *.
  destruct (goidx_in_range (E := addressError) l i) as (a & -> & Ha); [lia|].
  destruct (goidx_in_range (E := addressError) l j) as (b & -> & Hb); [lia|]. rewrite !outcome_bind_ok.
  destruct (IH (i + 1) (<[Z.to_nat j := a]> (<[Z.to_nat i := b]> l))) as (l' & -> & Hp); [lia|lia| |].
  - unfold zlen in *. by rewrite !length_insert.
  - exists l'. split; [done|]. rewrite Hp. by apply swap_perm.
Qed.

Lemma fill_full meds : fill (zlen meds) meds = Ok meds.
Proof.
  unfold fill. rewrite decide_False by lia. f_equal. unfold zlen. rewrite Nat2Z.id.
  apply list_eq. intros k. destruct (decide (k < length meds)%nat) as [Hk|Hk].
  - by rewrite list_lookup_inserts, Nat.sub_0_r by (rewrite ?length_replicate; lia).
  - rewrite !lookup_ge_None_2; [done|lia|rewrite length_inserts, length_replicate; lia].
Qed.

Definition schedule_ok (gp : GlobalProperty) (ms : list Address) : Prop := ms ≡ₚ keys gp.

Definition aSize_of (gp : GlobalProperty) : Z := Z.of_nat (size (ActiveMediators gp)).

Lemma UpdateMediatorSchedule_spec gp order dgp ms :
  gp_ok gp -> enumerates gp order ->
  exists ms', UpdateMediatorSchedule gp order dgp ms = Ok ms' /\
    (if decide (aSize_of gp <> 0 /\ HeadUnitNum dgp mod aSize_of gp = 0) then schedule_ok gp ms' else ms' = ms).
Proof.
  intros Hok Ho. unfold UpdateMediatorSchedule. fold (aSize_of gp). cbn zeta.
  destruct (decide (aSize_of gp = 0)) as [Hz|Hz]; [exists ms; by rewrite decide_False by tauto|].
  destruct (decide (HeadUnitNum dgp mod aSize_of gp <> 0)) as [Hm|Hm]; [exists ms; by rewrite decide_False by tauto|].
  destruct (GetActiveMediators_spec gp order Hok Ho) as (l & -> & _ & Hp & _).
  assert (zlen l = aSize_of gp) as Hl by (unfold zlen, aSize_of; by rewrite Hp, keys_length).
  rewrite outcome_bind_ok, <- Hl, fill_full, outcome_bind_ok.
  destruct (shuffle_loop_perm (Z.to_nat (zlen l)) (zlen l) (u64 (Z.shiftl (HeadUnitTime dgp) 32)) 0 l)
    as (ms' & -> & Hms); [lia|unfold zlen; lia|done|]. exists ms'. split; [done|].
  rewrite decide_True by (rewrite ?Hl; split; [done|lia]). unfold schedule_ok. by rewrite Hms.
Qed.

(** ** Slots *)

(** The position in the schedule of the mediator of a slot. *)

Lemma GetScheduledMediator_index ms dgp s :
  ms <> [] -> 1 <= CurrentASlot dgp + s < 2 ^ 64 ->
  GetScheduledMediator ms dgp s = nth (Z.to_nat ((CurrentASlot dgp + s - 1) mod zlen ms)) ms zero_Address.
Proof.
  intros Hne Hs. unfold GetScheduledMediator. rewrite decide_False; [|destruct ms; [done|rewrite zlen_cons; zlen_lia]].
  cbn zeta. unfold u64. rewrite (Z.mod_small (CurrentASlot dgp + s)), (Z.mod_small (_ - 1)) by lia. done.
Qed.

(** A window of as many consecutive slots as there are mediators covers the schedule. *)

Lemma window_perm (ms : list Address) (start : Z) :
  0 <= start ->
  (fun d => nth (Z.to_nat ((start + Z.of_nat d) mod zlen ms)) ms zero_Address) <$> seq 0 (length ms) ≡ₚ ms.
Proof.
  intros Hst. set (n := length ms). destruct (decide (n = O)) as [Hz|Hz].
  { unfold n in *. destruct ms; [done|]. by cbn in Hz. }
  set (r := Z.to_nat (start mod zlen ms)).
  assert (r < n)%nat as Hr by (unfold r, n, zlen in *; pose proof (Z.mod_pos_bound start (Z.of_nat (length ms))); lia).
  transitivity (drop r ms ++ take r ms); [|by rewrite Permutation_app_comm, take_drop].
  apply reflexive_eq, list_eq. intros k. rewrite list_lookup_fmap.
  destruct (decide (k < n)%nat) as [Hk|Hk].
  - rewrite lookup_seq_lt by lia. cbn [fmap option_fmap option_map]. rewrite Nat.add_0_l, nth_lookup.
    assert (Z.to_nat ((start + Z.of_nat k) mod zlen ms) = if decide (k < n - r)%nat then (r + k)%nat else (k - (n - r))%nat) as ->.
    { rewrite <- Zplus_mod_idemp_l. fold r in Hr. replace (start mod zlen ms) with (Z.of_nat r)
        by (unfold r; pose proof (Z.mod_pos_bound start (zlen ms)); unfold zlen, n in *; lia).
      case_decide; [rewrite Z.mod_small by (unfold zlen, n in *; lia); lia|].
      rewrite <- (Z_mod_plus_full _ (-1)), Z.mod_small by (unfold zlen, n in *; lia). unfold zlen, n in *. lia. }
    case_decide as Hd.
    + rewrite lookup_app_l, lookup_drop by (rewrite length_drop; unfold n in *; lia).
      destruct (lookup_lt_is_Some_2 ms (r + k)) as [x ->]; [unfold n in *; lia|done].
    + rewrite lookup_app_r, lookup_take_lt by (rewrite length_drop; unfold n in *; lia). rewrite length_drop. fold n.
      destruct (lookup_lt_is_Some_2 ms (k - (n - r))) as [x ->]; [unfold n in *; lia|done].
  - rewrite !lookup_ge_None_2; [done| |by rewrite length_seq; lia].
    rewrite length_app, length_drop, length_take. unfold n in *. lia.
Qed.

(** Units produced on time: each is the next unit, made in the first slot by the
    mediator of that slot, and is applied. *)

Inductive on_time : Dag -> list Address -> Dag -> Prop :=
  | on_time_nil d : on_time d [] d
  | on_time_cons d unit order d' l d'' :
      enumerates (dag_gp d) order -> Number_Index unit = HeadUnitNum (dag_dgp d) + 1 ->
      GetSlotAtTime (dag_gp d) (dag_dgp d) (time_Unix (Creationdate unit)) = Ok 1 ->
      UnitAuthor unit = GetScheduledMediator (dag_ms d) (dag_dgp d) 1 ->
      ApplyUnit unit order d = Ok d' -> on_time d' l d'' ->
      on_time d (UnitAuthor unit :: l) d''.

Lemma ApplyUnit_on_time unit order d :
  gp_ok (dag_gp d) -> enumerates (dag_gp d) order ->
  GetSlotAtTime (dag_gp d) (dag_dgp d) (time_Unix (Creationdate unit)) = Ok 1 ->
  exists ms', ApplyUnit unit order d =
      Ok (mkDag (dag_gp d) (UpdateDynGlobalProp unit 0 (dag_dgp d)) ms' (dag_mediators d)) /\
    (if decide (aSize_of (dag_gp d) <> 0 /\ Number_Index unit mod aSize_of (dag_gp d) = 0)
     then schedule_ok (dag_gp d) ms' else ms' = dag_ms d).
Proof.
  intros Hok Ho Hs. unfold ApplyUnit, UpdateMediatorMissedUnits. rewrite Hs, !outcome_bind_ok.
  rewrite decide_False by done. change (Z.to_nat (1 - 1)) with O. cbn [miss_loop].
  replace (if decide (1 - 1 < u32 (GetActiveMediatorCount (dag_gp d))) then Ok d else Ok d)
    with (Ok (E := addressError) d) by by case_decide. rewrite !outcome_bind_ok. cbn beta iota.
  destruct (UpdateMediatorSchedule_spec (dag_gp d) order (UpdateDynGlobalProp unit 0 (dag_dgp d)) (dag_ms d) Hok Ho)
    as (ms' & Hms & Hif). change (1 - 1) with 0. rewrite Hms, outcome_bind_ok. by exists ms'.
Qed.

Definition window (ms : list Address) (start : Z) (n : nat) : list Address :=
  (fun d => nth (Z.to_nat ((start + Z.of_nat d) mod zlen ms)) ms zero_Address) <$> seq 0 n.

Lemma window_S ms start n :
  window ms start (S n) = nth (Z.to_nat (start mod zlen ms)) ms zero_Address :: window ms (start + 1) n.
Proof.
  unfold window. cbn [seq fmap list_fmap]. rewrite Z.add_0_r. f_equal.
  rewrite <- fmap_S_seq, <- list_fmap_compose. apply list_fmap_ext. intros _ d _. unfold compose.
  by replace (start + Z.of_nat (S d)) with (start + 1 + Z.of_nat d) by lia.
Qed.

Lemma on_time_window d l d' :
  on_time d l d' -> gp_ok (dag_gp d) -> schedule_ok (dag_gp d) (dag_ms d) ->
  0 < aSize_of (dag_gp d) -> 0 <= CurrentASlot (dag_dgp d) -> CurrentASlot (dag_dgp d) + zlen l < 2 ^ 64 ->
  HeadUnitNum (dag_dgp d) mod aSize_of (dag_gp d) + zlen l <= aSize_of (dag_gp d) ->
  l = window (dag_ms d) (CurrentASlot (dag_dgp d)) (length l) /\
  dag_gp d' = dag_gp d /\ schedule_ok (dag_gp d') (dag_ms d') /\
  CurrentASlot (dag_dgp d') = CurrentASlot (dag_dgp d) + zlen l /\
  HeadUnitNum (dag_dgp d') = HeadUnitNum (dag_dgp d) + zlen l.
Proof.
  induction 1 as [d|d unit order d1 l d2 Ho Hn Hs Ha Happ Hon IH]; intros Hok Hms Hpos Hc Hb Hm.
  { rewrite (@zlen_nil Address), !Z.add_0_r. done. }
  rewrite zlen_cons in *. pose proof (zlen_nonneg l).
  destruct (ApplyUnit_on_time unit order d Hok Ho Hs) as (ms' & Happ' & Hif). rewrite Happ' in Happ. injection Happ as <-.
  cbn [dag_gp dag_dgp dag_ms UpdateDynGlobalProp CurrentASlot HeadUnitNum] in *. rewrite Hn in *.
  assert (u64 (CurrentASlot (dag_dgp d) + u64 (0 + 1)) = CurrentASlot (dag_dgp d) + 1) as Hc1
    by (change (u64 (0 + 1)) with 1; unfold u64; rewrite Z.mod_small; lia). rewrite Hc1 in *.
  set (a := aSize_of (dag_gp d)) in *. set (h := HeadUnitNum (dag_dgp d)) in *.
  assert (dag_ms d <> []) as Hne.
  { intros He. rewrite He in Hms. apply Permutation_length in Hms. rewrite keys_length in Hms. cbn in Hms.
    unfold a, aSize_of in Hpos. lia. }
  rewrite Ha, GetScheduledMediator_index by (done || lia). rewrite Z.add_simpl_r. cbn [length]. rewrite window_S.
  destruct (decide (l = [])) as [->|Hl].
  - inversion Hon; subst. cbn [dag_gp dag_dgp dag_ms UpdateDynGlobalProp CurrentASlot HeadUnitNum] in *.
    rewrite (@zlen_nil Address), Hc1, Hn. split_and!; [done|done| |done|done].
    case_decide; [done|]. by subst ms'.
  - assert (0 < zlen l) by (destruct l; [done|rewrite zlen_cons; zlen_lia]).
    assert ((h + 1) mod a = h mod a + 1) as Hmod.
    { rewrite <- Zplus_mod_idemp_l, Z.mod_small; [done|]. pose proof (Z.mod_pos_bound h a). lia. }
    rewrite decide_False in Hif by (rewrite Hmod; pose proof (Z.mod_pos_bound h a); lia). subst ms'.
    destruct IH as (IHl & IHg & IHs & IHc & IHh); [done|done|done|lia|lia|rewrite Hmod; lia|].
    split_and!; [by rewrite <- IHl|done|done|lia|lia].
Qed.

(** C34: Every active mediator gets its turn.  Starting where a round starts, with a
    schedule of the active mediators, after as many units produced on time as there
    are mediators each of them has produced exactly one; and the node is again where a
    round starts, with a schedule of the active mediators. *)
Theorem round_liveness d producers d' :
  gp_ok (dag_gp d) -> schedule_ok (dag_gp d) (dag_ms d) -> 0 < aSize_of (dag_gp d) ->
  HeadUnitNum (dag_dgp d) mod aSize_of (dag_gp d) = 0 ->
  0 <= CurrentASlot (dag_dgp d) -> CurrentASlot (dag_dgp d) + aSize_of (dag_gp d) < 2 ^ 64 ->
  on_time d producers d' -> zlen producers = aSize_of (dag_gp d) ->
  NoDup producers /\ (forall a, a ∈ producers <-> is_Some (ActiveMediators (dag_gp d) !! a)) /\
  schedule_ok (dag_gp d') (dag_ms d') /\ HeadUnitNum (dag_dgp d') mod aSize_of (dag_gp d') = 0.
Proof.
  intros Hok Hms Hpos Hh Hc Hb Hon Hl.
  destruct (on_time_window d producers d' Hon Hok Hms Hpos Hc) as (Hw & Hg & Hs & _ & Hn); [lia|lia|].
  assert (producers ≡ₚ keys (dag_gp d)) as Hp.
  { rewrite Hw. unfold schedule_ok in Hms. rewrite <- Hms. apply Permutation_length in Hms as Hml.
    rewrite keys_length in Hml. unfold aSize_of, zlen in Hl. replace (length producers) with (length (dag_ms d)) by lia.
    by apply window_perm. }
  split_and!; [rewrite Hp; apply keys_NoDup| |done|].
  - intros a. rewrite Hp. apply elem_of_keys.
  - rewrite Hg, Hn, Hl, <- Zplus_mod_idemp_l, Hh, Z.add_0_l. apply Z_mod_same_full.
Qed.

(** ** The schedule under any units *)

Lemma miss_loop_frame n i d d' :
  miss_loop n i d = Ok d' -> dag_gp d' = dag_gp d /\ dag_dgp d' = dag_dgp d /\ dag_ms d' = dag_ms d.
Proof.
  revert i d. induction n as [|n IH]; intros i d; cbn [miss_loop]; [by intros [= <-]|].
  cbn zeta. destruct (dag_mediators d !! _); [|done]. intros H. by apply IH in H.
Qed.

Lemma UpdateMediatorMissedUnits_frame unit d missed d' :
  UpdateMediatorMissedUnits unit d = Ok (missed, d') ->
  dag_gp d' = dag_gp d /\ dag_dgp d' = dag_dgp d /\ dag_ms d' = dag_ms d.
Proof.
  unfold UpdateMediatorMissedUnits. destruct (GetSlotAtTime _ _ _) as [slot| |]; [|done..]. rewrite outcome_bind_ok.
  case_decide; [by intros [= _ <-]|]. case_decide; [|rewrite outcome_bind_ok; by intros [= _ <-]].
  destruct (miss_loop _ _ _) as [d1| |] eqn:Hm; [|done..]. rewrite outcome_bind_ok. intros [= _ <-].
  by eapply miss_loop_frame.
Qed.

(** The node applies some unit. *)

Definition applies (d d' : Dag) : Prop :=
  exists unit order, enumerates (dag_gp d) order /\ ApplyUnit unit order d = Ok d'.

Lemma applies_schedule d d' :
  gp_ok (dag_gp d) -> schedule_ok (dag_gp d) (dag_ms d) -> applies d d' ->
  dag_gp d' = dag_gp d /\ schedule_ok (dag_gp d') (dag_ms d').
Proof.
  intros Hok Hms (unit & order & Ho & Ha). unfold ApplyUnit in Ha.
  destruct (UpdateMediatorMissedUnits unit d) as [[missed d1]| |] eqn:Hm; [|done..]. rewrite outcome_bind_ok in Ha.
  destruct (UpdateMediatorMissedUnits_frame _ _ _ _ Hm) as (Hg & Hd & Hs). rewrite Hg, Hs in Ha.
  destruct (UpdateMediatorSchedule_spec (dag_gp d) order (UpdateDynGlobalProp unit missed (dag_dgp d1)) (dag_ms d) Hok Ho)
    as (ms' & Hms' & Hif). rewrite Hms', outcome_bind_ok in Ha. injection Ha as <-. split; [done|].
  cbn [dag_gp dag_ms]. case_decide; [done|]. by subst ms'.
Qed.

Lemma scheduled_mem ms dgp s : ms <> [] -> GetScheduledMediator ms dgp s ∈ ms.
Proof.
  intros Hne. unfold GetScheduledMediator.
  assert (0 < zlen ms) as Hl by (destruct ms; [done|rewrite zlen_cons; zlen_lia]). rewrite decide_False by lia. cbn zeta.
  pose proof (Z.mod_pos_bound (u64 (u64 (CurrentASlot dgp + s) - 1)) (zlen ms) Hl).
  apply list_elem_of_In, nth_In. unfold zlen in *. lia.
Qed.

Lemma InitMediatorSchl_spec gp order dgp :
  gp_ok gp -> enumerates gp order -> exists ms, InitMediatorSchl gp order dgp = Ok ms /\ schedule_ok gp ms.
Proof.
  intros Hok Ho. unfold InitMediatorSchl. destruct (GetActiveMediators_spec gp order Hok Ho) as (l & -> & _ & Hp & _).
  assert (zlen l = Z.of_nat (size (ActiveMediators gp))) as Hl by (unfold zlen; by rewrite Hp, keys_length).
  rewrite outcome_bind_ok, <- Hl, fill_full, outcome_bind_ok.
  destruct (UpdateMediatorSchedule_spec gp order dgp l Hok Ho) as (ms & Hms & Hif). exists ms. split; [done|].
  case_decide; [done|]. by subst ms.
Qed.

(** C8: The schedule is always made of the active mediators.  The initial schedule
    exists and has every active mediator exactly once; so has every schedule after any
    sequence of applied units, early, late or double; and the mediator of any slot is
    an active one. *)
Theorem schedule_invariant gp order dgp meds :
  gp_ok gp -> enumerates gp order -> ActiveMediators gp <> ∅ ->
  exists ms0, InitMediatorSchl gp order dgp = Ok ms0 /\
    forall d, rtc applies (mkDag gp dgp ms0 meds) d ->
      dag_gp d = gp /\ NoDup (dag_ms d) /\ (forall a, a ∈ dag_ms d <-> is_Some (ActiveMediators gp !! a)) /\
      forall s, is_Some (ActiveMediators gp !! GetScheduledMediator (dag_ms d) (dag_dgp d) s).
Proof.
  intros Hok Ho Hne. destruct (InitMediatorSchl_spec gp order dgp Hok Ho) as (ms0 & Hi & Hms0). exists ms0.
  split; [done|]. intros d Hr.
  assert (dag_gp d = gp /\ schedule_ok gp (dag_ms d)) as [Hg Hs].
  { remember (mkDag gp dgp ms0 meds) as d0 eqn:Hd0.
    assert (dag_gp d0 = gp /\ schedule_ok gp (dag_ms d0)) as H0 by by subst d0. clear Hd0.
    induction Hr as [d|d1 d2 d3 Hstep Hr IH]; [done|]. apply IH. destruct H0 as [Hg0 Hs0].
    destruct (applies_schedule d1 d2) as [Hg2 Hs2]; [by rewrite Hg0|by rewrite Hg0|done|].
    rewrite Hg2, Hg0 in *. done. }
  unfold schedule_ok in Hs. split_and!; [done|rewrite Hs; apply keys_NoDup| |].
  - intros a. rewrite Hs. apply elem_of_keys.
  - intros s. apply elem_of_keys. rewrite <- Hs. apply scheduled_mem. intros He. rewrite He in Hs.
    apply Permutation_length in Hs. rewrite keys_length in Hs. symmetry in Hs. by apply map_size_empty_iff in Hs.
Qed.

(** ** Slot times *)

Definition slot_base (gp : GlobalProperty) (dgp : DynamicGlobalProperty) : Z :=
  if decide (HeadUnitNum dgp = 0) then HeadUnitTime dgp
  else Z.quot (HeadUnitTime dgp) (MediatorInterval gp) * MediatorInterval gp.

Lemma slot_base_bound gp dgp :
  0 < MediatorInterval gp -> 0 <= HeadUnitTime dgp -> 0 <= slot_base gp dgp <= HeadUnitTime dgp.
Proof.
  intros Hi Ht. unfold slot_base. case_decide; [lia|]. rewrite Z.quot_div_nonneg by lia.
  pose proof (Z.mul_div_le (HeadUnitTime dgp) (MediatorInterval gp) Hi). pose proof (Z.div_pos (HeadUnitTime dgp) (MediatorInterval gp)). nia.
Qed.

Lemma GetSlotTime_spec gp dgp n :
  0 < MediatorInterval gp < 256 -> 0 <= HeadUnitTime dgp < 2 ^ 62 -> 1 <= n -> n * MediatorInterval gp <= 2 ^ 33 ->
  GetSlotTime gp dgp n = Ok (time_Unix (slot_base gp dgp + n * MediatorInterval gp)).
Proof.
  intros Hi Ht Hn Hb. pose proof (slot_base_bound gp dgp ltac:(lia) ltac:(lia)) as Hsb.
  unfold GetSlotTime. rewrite decide_False by lia. unfold slot_base in *. unfold time_Unix, second. destruct (decide (HeadUnitNum dgp = 0)).
  - rewrite (i64_id (n * _)) by nia. by rewrite i64_id by nia.
  - rewrite decide_False by lia. rewrite (i64_id (10 ^ 9 * n)), !i64_id by nia. f_equal. lia.
Qed.

(** [GetSlotAtTime] is the slot of a time: the greatest [n] for which
    [GetSlotTime n] is not after it, and 0 before the first slot. *)
Theorem slot_at_time gp dgp when :
  0 < MediatorInterval gp < 256 -> 0 <= HeadUnitTime dgp < 2 ^ 62 ->
  when < time_Unix (slot_base gp dgp + 2 ^ 31) ->
  exists n, GetSlotAtTime gp dgp when = Ok n /\ 0 <= n /\
    forall k t, 1 <= k -> k * MediatorInterval gp <= 2 ^ 33 -> GetSlotTime gp dgp k = Ok t -> (t <= when <-> k <= n).
Proof.
  intros Hi Ht Hw. set (iv := MediatorInterval gp) in *. set (b := slot_base gp dgp) in *.
  pose proof (slot_base_bound gp dgp ltac:(lia) ltac:(lia)) as Hsb. fold b in Hsb.
  assert (forall k t, 1 <= k -> k * iv <= 2 ^ 33 -> GetSlotTime gp dgp k = Ok t -> (t <= when <-> b + k * iv <= Unix when)) as Hk.
  { intros k t Hk1 Hk2. rewrite GetSlotTime_spec by (done || lia). fold iv b. intros [= <-]. unfold time_Unix, Unix, second.
    split; intros H; [apply Z.div_le_lower_bound; lia|]. pose proof (Z.mul_div_le when (10 ^ 9)). lia. }
  unfold GetSlotAtTime. rewrite (GetSlotTime_spec gp dgp 1), outcome_bind_ok by lia. fold iv b. rewrite Z.mul_1_l.
  assert (Unix (time_Unix (b + iv)) = b + iv) as Hu by (unfold Unix, time_Unix, second; by rewrite Z.div_mul by lia).
  case_decide as Hf.
  - exists 0. split_and!; [done|lia|]. intros k t Hk1 Hk2 Hs. rewrite (Hk k t) by done.
    split; [|lia]. intros Hge. enough (time_Unix (b + iv) <= when) by lia.
    rewrite (Hk 1 (time_Unix (b + iv))); [nia|lia|lia|]. rewrite GetSlotTime_spec by lia. by fold iv b; rewrite Z.mul_1_l.
  - assert (b + iv <= Unix when < b + 2 ^ 31) as Hr.
    { unfold Unix, time_Unix, second in *. split; [apply Z.div_le_lower_bound; lia|apply Z.div_lt_upper_bound; lia]. }
    rewrite Hu, i64_id, (decide_False (P := iv = 0)), Z.quot_div_nonneg by lia.
    set (q := (Unix when - (b + iv)) / iv).
    assert (0 <= q < 2 ^ 31) as Hq by (unfold q; split; [apply Z.div_pos; lia|apply Z.div_lt_upper_bound; nia]).
    assert (u32 (u32 q + 1) = q + 1) as -> by (unfold u32; rewrite (Z.mod_small q) by lia; by rewrite Z.mod_small by lia).
    exists (q + 1). split_and!; [done|lia|]. intros k t Hk1 Hk2 Hs. rewrite (Hk k t) by done. unfold q. split; intros H.
    + enough (k - 1 <= (Unix when - (b + iv)) / iv) by lia. apply Z.div_le_lower_bound; [lia|nia].
    + pose proof (Z.mul_div_le (Unix when - (b + iv)) iv). nia.
Qed.

(** ** The check of a unit's producer *)

(** [validateMediatorSchedule] has its last test inverted: a unit that extends the
    head at a later slot is refused exactly when its author is the mediator scheduled
    for its slot, and is accepted from anybody else. *)
Theorem validateMediatorSchedule_inverted d unit slot :
  head (ParentsHash unit) = Some (HeadUnitHash (dag_dgp d)) -> HeadUnitTime (dag_dgp d) < Creationdate unit ->
  GetSlotAtTime (dag_gp d) (dag_dgp d) (time_Unix (Creationdate unit)) = Ok slot -> 0 < slot ->
  wf_address (UnitAuthor unit) -> Forall wf_address (dag_ms d) ->
  validateMediatorSchedule unit d =
    Ok (bool_decide (UnitAuthor unit <> GetScheduledMediator (dag_ms d) (dag_dgp d) slot)).
Proof.
  intros Hp Ht Hs Hpos Ha Hms. unfold validateMediatorSchedule.
  destruct (ParentsHash unit) as [|parent ps]; [done|]. injection Hp as ->. rewrite goidx_0, outcome_bind_ok.
  rewrite !decide_False by (congruence || lia). rewrite Hs, outcome_bind_ok, decide_False by lia. cbn zeta.
  set (m := GetScheduledMediator _ _ _). assert (wf_address m) as Hm.
  { destruct (decide (dag_ms d = [])) as [He|He].
    - unfold m, GetScheduledMediator. rewrite He. by apply (bool_decide_unpack _); vm_compute.
    - rewrite Forall_forall in Hms. by apply Hms, scheduled_mem. }
  destruct (Address_Equal (UnitAuthor unit) m) eqn:Heq; f_equal; symmetry.
  - apply bool_decide_eq_false. intros H. apply H. apply Address_Equal_spec; [|done]. destruct Ha, Hm. congruence.
  - apply bool_decide_eq_true. intros He. by rewrite He, (proj2 (Address_Equal_spec m m eq_refl) eq_refl) in Heq.
Qed.

End ActiveMediators.

(** ** A concrete network of three mediators *)

Definition toy_med (x : Z) : Address := NewAddress (replicate 20 x) PublicKeyHash.

Definition toy_gp : GlobalProperty :=
  mkGlobalProperty 5 {[ toy_med 9 := true; toy_med 4 := true; toy_med 6 := true ]}.

Definition toy_dgp : DynamicGlobalProperty := mkDynamicGlobalProperty 0 zero_Hash 1000 0 0.

Definition toy_ms : list Address :=
  match @InitMediatorSchl toy_base58 toy_gp (keys toy_gp) toy_dgp with Ok ms => ms | _ => [] end.

Definition toy_dag : Dag := mkDag toy_gp toy_dgp toy_ms ∅.

(** The unit the mediator of the next slot produces on time. *)

Definition toy_unit (d : Dag) : Unit :=
  mkUnit (match GetSlotTime (dag_gp d) (dag_dgp d) 1 with Ok t => Unix t | _ => 0 end)
    (HeadUnitNum (dag_dgp d) + 1) zero_Hash [HeadUnitHash (dag_dgp d)] (GetScheduledMediator (dag_ms d) (dag_dgp d) 1).

Definition toy_next (d : Dag) : Dag :=
  match @ApplyUnit toy_base58 (toy_unit d) (keys (dag_gp d)) d with Ok d => d | _ => d end.

Lemma toy_gp_ok : gp_ok toy_gp.
Proof.
  intros a Ha. apply elem_of_keys in Ha.
  assert (Forall (fun a => zlen a = AddressLength /\ wf_bytes a /\ GetType a ∈ [PublicKeyHash; ScriptHash; ContractHash]) (keys toy_gp)) as H
    by (by apply (bool_decide_unpack _); vm_compute).
  rewrite Forall_forall in H. destruct (H a Ha) as (? & ? & ?). split; [by split|done].
Qed.

Lemma enumerates_keys gp : enumerates gp (keys gp).
Proof. unfold enumerates, keys. done. Qed.

Lemma toy_schedule_ok : schedule_ok toy_gp toy_ms.
Proof.
  destruct (@InitMediatorSchl_spec toy_base58 toy_base58_laws toy_gp (keys toy_gp) toy_dgp toy_gp_ok)
    as (ms & Hi & Hs); [apply enumerates_keys|]. unfold toy_ms. by rewrite Hi.
Qed.

Lemma active_mediators_deterministic_witness :
  exists l, @GetActiveMediators toy_base58 (keys toy_gp) = Ok l /\
    @GetActiveMediators toy_base58 (reverse (keys toy_gp)) = Ok l.
Proof.
  destruct (@active_mediators_deterministic toy_base58 toy_base58_laws toy_gp (keys toy_gp) (reverse (keys toy_gp)) toy_gp_ok)
    as (l & H1 & H2 & _); [apply enumerates_keys|apply reverse_Permutation|]. exists l. split; assumption.
Defined.

Lemma round_liveness_witness :
  exists producers d', zlen producers = 3 /\ NoDup producers /\
    (forall a, a ∈ producers <-> is_Some (ActiveMediators toy_gp !! a)) /\ schedule_ok toy_gp (dag_ms d').
Proof.
  set (d1 := toy_next toy_dag). set (d2 := toy_next d1). set (d3 := toy_next d2).
  set (ps := [UnitAuthor (toy_unit toy_dag); UnitAuthor (toy_unit d1); UnitAuthor (toy_unit d2)]).
  assert (@on_time toy_base58 toy_dag ps d3) as Hon.
  { eapply on_time_cons; [apply enumerates_keys|reflexivity|vm_compute; reflexivity|reflexivity|vm_compute; reflexivity|].
    eapply on_time_cons; [apply enumerates_keys|reflexivity|vm_compute; reflexivity|reflexivity|vm_compute; reflexivity|].
    eapply on_time_cons; [apply enumerates_keys|reflexivity|vm_compute; reflexivity|reflexivity|vm_compute; reflexivity|].
    apply on_time_nil. }
  exists ps, d3. split; [reflexivity|].
  destruct (@round_liveness toy_base58 toy_base58_laws toy_dag ps d3 toy_gp_ok toy_schedule_ok) as (H1 & H2 & H3 & _);
    [reflexivity|reflexivity|by vm_compute|by vm_compute|exact Hon|reflexivity|].
  split_and!; assumption.
Defined.

Lemma schedule_invariant_witness :
  is_Some (ActiveMediators toy_gp !! GetScheduledMediator (dag_ms (toy_next toy_dag)) (dag_dgp (toy_next toy_dag)) 7).
Proof.
  destruct (@schedule_invariant toy_base58 toy_base58_laws toy_gp (keys toy_gp) toy_dgp ∅ toy_gp_ok) as (ms0 & Hi & Hr).
  - apply enumerates_keys.
  - by apply (bool_decide_unpack _); vm_compute.
  - assert (ms0 = toy_ms) as -> by (unfold toy_ms; by rewrite Hi).
    destruct (Hr (toy_next toy_dag)) as (_ & _ & _ & H); [|exact (H 7)].
    apply rtc_once. exists (toy_unit toy_dag), (keys toy_gp). split; [apply enumerates_keys|]. vm_compute. reflexivity.
Defined.

Lemma slot_at_time_witness :
  exists n, @GetSlotAtTime toy_gp toy_dgp (time_Unix 1013) = Ok n /\
    forall k t, 1 <= k -> k * 5 <= 2 ^ 33 -> GetSlotTime toy_gp toy_dgp k = Ok t -> (t <= time_Unix 1013 <-> k <= n).
Proof.
  destruct (slot_at_time toy_gp toy_dgp (time_Unix 1013)) as (n & Hn & _ & H); [split; reflexivity|split; [discriminate|reflexivity]|reflexivity|].
  exists n. split; assumption.
Defined.

Lemma validateMediatorSchedule_inverted_witness :
  validateMediatorSchedule (toy_unit toy_dag) toy_dag = Ok false.
Proof.
  rewrite (validateMediatorSchedule_inverted toy_dag (toy_unit toy_dag) 1); [vm_compute; reflexivity|reflexivity|reflexivity|vm_compute; reflexivity|reflexivity| |].
  - split; [reflexivity|]. by apply (bool_decide_unpack _); vm_compute.
  - apply Forall_forall. intros a Ha. split; [|].
    + assert (Forall (fun a => zlen a = AddressLength) (dag_ms toy_dag)) as H by (by apply (bool_decide_unpack _); vm_compute).
      rewrite Forall_forall in H. by apply H.
    + assert (Forall wf_bytes (dag_ms toy_dag)) as H by (by apply (bool_decide_unpack _); vm_compute).
      rewrite Forall_forall in H. by apply H.
Defined.
