(* ===== verification/Vote.v ===== *)
(** * Vote: the ballot boxes of [dag/vote]

    The base vote counts scores per candidate ([model_baseVote.go]); the open vote
    adds voters with weights, ballots and delegation ([model_openVote.go] and the
    three plugins).  An [interface{}] is nil ([None]) or a comparable value; a Go map
    is a [gmap], and the order in which [range] enumerates it is an argument.
    [sort.Sort] is a parameter of which only its contract is used.

    The theorems: what the winners of a base vote are; that delegation stays without
    cycles and [SetAgent] ends, as long as nobody names themselves, and what happens
    otherwise; the tally of an open vote; and that the tally depends on the order of
    enumeration once delegations are chained. *)

From S2P Require Import Prelude.
From stdpp Require Import sorting gmultiset.

#[local] Open Scope Z_scope.

Inductive vote_error : Set := ErrInvalidCandidate.

Section Vote.
Context {A : Type} `{Countable A}.

Abbreviation iface := (option A).

(** An argument of type [interface{}] that may be a container. *)

Inductive container : Type := Slice (l : list iface) | MapKeys (l : list iface).
Inductive arg : Type := Nil | One (a : A) | Many (c : container).

Definition elems_of (c : container) : list iface := match c with Slice l | MapKeys l => l end.

Definition ToInterfaceSlice (s : arg) : list iface :=
  match s with Nil => [None] | One a => [Some a] | Many c => elems_of c end.

(** ** The base vote *)

Record BaseVoteModel : Type := mkBase { candidatesStatus : gmap iface Z }.

Record ScoreCard : Type := mkCard { object : iface; score : Z }.

Definition NewBaseVoteModel : BaseVoteModel := mkBase ∅.

Definition ExistCandidate (bv : BaseVoteModel) (c : iface) : bool := bool_decide (is_Some (candidatesStatus bv !! c)).

Definition GetCandidateScore (bv : BaseVoteModel) (c : iface) : outcome vote_error Z :=
  if ExistCandidate bv c then Ok (default 0 (candidatesStatus bv !! c)) else Err ErrInvalidCandidate.

Definition GetCandidates (order : list (iface * Z)) : list iface := order.*1.

Definition RegisterCandidates (candidates : container) (bv : BaseVoteModel) : BaseVoteModel :=
  mkBase (foldl (fun m c => <[c := 0]> m) (candidatesStatus bv) (elems_of candidates)).

Definition add_score (s : Z) (bv : BaseVoteModel) (c : iface) : BaseVoteModel :=
  if ExistCandidate bv c then
    mkBase (<[c := u64 (default 0 (candidatesStatus bv !! c) + s)]> (candidatesStatus bv))
  else bv.

(** Only slices are taken apart; a map as the key of a map panics. *)

Definition AddToBox (s : Z) (candidates : arg) (bv : BaseVoteModel) : outcome vote_error BaseVoteModel :=
  match candidates with
  | Many (Slice l) => Ok (foldl (add_score s) bv l)
  | Many (MapKeys _) => Panic
  | One a => Ok (add_score s bv (Some a))
  | Nil => Ok (add_score s bv None)
  end.

Definition NewMapSorter (order : list (iface * Z)) : list ScoreCard := (fun os => mkCard os.1 os.2) <$> order.

Definition Less (a b : ScoreCard) : bool := bool_decide (score a > score b).

Definition resultNumber (inputLen resLenth : Z) : Z :=
  if decide (inputLen = 0 \/ inputLen > resLenth) then resLenth else inputLen.

(** [sort.Sort] leaves a permutation without an inversion. *)

Class Sorting : Type := { sort_Sort : list ScoreCard -> list ScoreCard }.

Class SortingLaws `{Sorting} : Prop := {
  sort_perm l : sort_Sort l ≡ₚ l;
  sort_sorted l i j a b : (i < j)%nat -> sort_Sort l !! i = Some a -> sort_Sort l !! j = Some b -> Less b a = false
}.

(** [reflect.Append] of the nil interface panics. *)

Definition winner (cards : list ScoreCard) (i : Z) : outcome vote_error A :=
  card ← goidx cards i; match object card with Some a => Ok a | None => Panic end.

Definition GetResult `{Sorting} (number : Z) (order : list (iface * Z)) : outcome vote_error (list A) :=
  let VoteSorter := sort_Sort (NewMapSorter order) in
  let resNumber := resultNumber number (u8 (zlen VoteSorter)) in
  mapM (winner VoteSorter) (seqZ 0 resNumber).

(** ** The open vote *)

Record openVoteModel : Type := mkOpen {
  base : BaseVoteModel;
  currentVoter : iface;
  processMap : gmap iface (list iface);
  weightMap : gmap iface Z;
  agentMap : gmap iface iface
}.

Definition NewOpenVoteModel : openVoteModel := mkOpen NewBaseVoteModel None ∅ ∅ ∅.

Definition set_base (b : BaseVoteModel) (m : openVoteModel) : openVoteModel :=
  mkOpen b (currentVoter m) (processMap m) (weightMap m) (agentMap m).
Definition set_process (p : gmap iface (list iface)) (m : openVoteModel) : openVoteModel :=
  mkOpen (base m) (currentVoter m) p (weightMap m) (agentMap m).
Definition set_agents (g : gmap iface iface) (m : openVoteModel) : openVoteModel :=
  mkOpen (base m) (currentVoter m) (processMap m) (weightMap m) g.

Definition SetCurrentVoter (voter : iface) (m : openVoteModel) : openVoteModel :=
  mkOpen (base m) voter (processMap m) (weightMap m) (agentMap m).

Definition open_RegisterCandidates (candidates : container) (m : openVoteModel) : openVoteModel :=
  set_base (RegisterCandidates candidates (base m)) m.

Definition SetProcess (tosi : arg) (m : openVoteModel) : openVoteModel :=
  match tosi with
  | Nil => set_process (delete (currentVoter m) (processMap m)) m
  | _ => set_process (<[currentVoter m := ToInterfaceSlice tosi]> (processMap m)) m
  end.

Definition GetWeight (w : gmap iface Z) (voter : iface) : Z := default 0 (w !! voter).

Definition SetWeight (weight : Z) (m : openVoteModel) : openVoteModel :=
  mkOpen (base m) (currentVoter m) (processMap m) (<[currentVoter m := weight]> (weightMap m)) (agentMap m).

(** Reading an agent that is not set gives nil. *)

Definition agent_of (g : gmap iface iface) (v : iface) : iface := default None (g !! v).

(** [for nextAgent != nilInterface]: the end of the chain of agents from [currAgent],
    or [None] where the chain comes to [voter]. *)

Inductive chase : Type := Found (v : iface) | LoopReference | OutOfFuel.

Fixpoint follow (fuel : nat) (g : gmap iface iface) (voter currAgent nextAgent : iface) : chase :=
  match fuel with
  | O => OutOfFuel
  | S fuel =>
      if decide (nextAgent = None) then Found currAgent
      else if decide (nextAgent = voter) then LoopReference
      else follow fuel g voter nextAgent (agent_of g nextAgent)
  end.

(** [deligateVotePlugin.SetAgent]; [None] is a call that does not return. *)

Definition plugin_SetAgent (fuel : nat) (voter agent : iface) (g : gmap iface iface) : option (bool * gmap iface iface) :=
  if decide (agent = None) then Some (true, delete voter g) else
  match follow fuel g voter agent (agent_of g agent) with
  | Found currAgent => Some (true, <[voter := currAgent]> g)
  | LoopReference => Some (false, g)
  | OutOfFuel => None
  end.

Definition SetAgent (fuel : nat) (agent : iface) (m : openVoteModel) : option openVoteModel :=
  '(_, g) ← plugin_SetAgent fuel (currentVoter m) agent (agentMap m);
  Some (SetProcess Nil (set_agents g m)).

Definition open_AddToBox (tos : arg) (m : openVoteModel) : openVoteModel :=
  let m := SetProcess tos m in set_agents (delete (currentVoter m) (agentMap m)) m.

(** [CountVote], for the orders in which the two maps are enumerated. *)

Definition pass_on (w : gmap iface Z) (d : iface * iface) : gmap iface Z :=
  <[d.2 := u64 (GetWeight w d.2 + GetWeight w d.1)]> w.

Definition cast (w : gmap iface Z) (bv : BaseVoteModel) (b : iface * list iface) : BaseVoteModel :=
  foldl (add_score (GetWeight w b.1)) bv b.2.

Definition CountVote (agents : list (iface * iface)) (ballots : list (iface * list iface)) (m : openVoteModel) : openVoteModel :=
  let w := foldl pass_on (weightMap m) agents in
  set_base (foldl (cast w) (base m) ballots) m.

(** [range] is the order in which Go enumerates the map of the scores. *)

Definition open_GetResult `{Sorting} (agents : list (iface * iface)) (ballots : list (iface * list iface))
    (range : gmap iface Z -> list (iface * Z)) (number : Z) (m : openVoteModel) : outcome vote_error (list A) * openVoteModel :=
  let m := CountVote agents ballots m in (GetResult number (range (candidatesStatus (base m))), m).
End Vote.

Arguments chase : clear implicits.

(** ** Winners of a base vote *)

Section Winners.
Context {A : Type} `{Countable A} `{S : !Sorting (A := A)} `{!SortingLaws (A := A)}.

Definition score_of (bv : BaseVoteModel (A := A)) (a : A) : Z := default 0 (candidatesStatus bv !! Some a).

Lemma resultNumber_bounds n k : 0 <= n -> 0 <= k -> 0 <= resultNumber n k <= k.
Proof. unfold resultNumber. intros. case_decide; lia. Qed.

Lemma resultNumber_count n t :
  resultNumber n (u8 t) = if decide (n = 0 \/ t `mod` 256 < n) then t `mod` 256 else n.
Proof. unfold resultNumber, u8. change (2 ^ 8) with 256. repeat case_decide; lia. Qed.

Lemma winner_at (pre : list (ScoreCard (A := A))) c cs a :
  object c = Some a -> winner (pre ++ c :: cs) (zlen pre) = Ok a.
Proof. intros Ha. unfold winner. rewrite <- (Z.add_0_r (zlen pre)), goidx_app_r, goidx_0 by lia. cbn [mbind outcome_bind]. by rewrite Ha. Qed.

Lemma winners_ok (cards : list (ScoreCard (A := A))) n :
  (forall card, card ∈ cards -> is_Some (object card)) -> 0 <= n <= zlen cards ->
  exists ws, mapM (winner cards) (seqZ 0 n) = Ok ws /\ Some <$> ws = object <$> take (Z.to_nat n) cards.
Proof.
  intros Hs Hn. unfold seqZ. rewrite <- (Z2Nat.id n) in Hn by lia. set (k := Z.to_nat n) in *. clearbody k. clear n.
  assert (k <= length cards)%nat as Hk by (unfold zlen in *; lia). clear Hn.
  rewrite (list_fmap_ext _ (fun i : nat => Z.of_nat i)) by (intros; lia).
  enough (forall cs pre, cards = pre ++ cs -> forall k, (k <= length cs)%nat -> exists ws,
    mapM (winner cards) (Z.of_nat <$> seq (length pre) k) = Ok ws /\ Some <$> ws = object <$> take k cs) as Hg
    by by apply (Hg cards []).
  induction cs as [|c cs IH]; intros pre -> j Hj; cbn in Hj.
  - destruct j; [|lia]. by exists [].
  - destruct j as [|j]; [by exists []|].
    destruct (IH (pre ++ [c]) ltac:(by rewrite <- app_assoc) j ltac:(lia)) as (ws & E & Hw).
    rewrite length_app in E. cbn in E. rewrite Nat.add_1_r in E.
    destruct (Hs c ltac:(set_unfold; tauto)) as [a Ha].
    exists (a :: ws). cbn [seq fmap list_fmap mapM]. change (Z.of_nat (length pre)) with (zlen pre).
    rewrite (winner_at pre c cs a Ha). cbn [mbind outcome_bind]. rewrite E. cbn. rewrite Ha. split; by f_equal.
Qed.

Lemma sorted_prefix (l : list (ScoreCard (A := A))) n a b :
  a ∈ take n (sort_Sort l) -> b ∈ drop n (sort_Sort l) -> score b <= score a.
Proof.
  intros Ha Hb. apply list_elem_of_lookup in Ha as [i Hi]. apply list_elem_of_lookup in Hb as [j Hj].
  apply lookup_take_Some in Hi as [Hi Hlt]. rewrite lookup_drop in Hj.
  pose proof (sort_sorted l i (n + j) a b ltac:(lia) Hi Hj) as Hl. unfold Less in Hl.
  apply bool_decide_eq_false in Hl. lia.
Qed.

Lemma NewMapSorter_objects (order : list (option A * Z)) : object <$> NewMapSorter order = order.*1.
Proof. unfold NewMapSorter. rewrite <- list_fmap_compose. by apply list_fmap_ext. Qed.

Lemma card_score (bv : BaseVoteModel (A := A)) order card a :
  order ≡ₚ map_to_list (candidatesStatus bv) -> card ∈ NewMapSorter order -> object card = Some a ->
  score card = score_of bv a.
Proof.
  intros Ho Hc Ha. unfold NewMapSorter in Hc. apply list_elem_of_fmap in Hc as ([o s] & -> & Hin). cbn in *. subst o.
  rewrite Ho in Hin. apply elem_of_map_to_list in Hin. unfold score_of. by rewrite Hin.
Qed.

(** C29: The result of a base vote.  However the map is enumerated and whatever
    [sort.Sort] does with equal scores, [GetResult] returns distinct registered
    candidates, and nobody left out has a higher score than anybody elected.  With
    [total] candidates, they are [total] modulo 256 where 0 or more than that are asked
    for, and as many as asked for otherwise: up to 255 candidates these are all of them
    or as many as asked for, and with 256 candidates nobody is elected. *)
Theorem base_winners (bv : BaseVoteModel (A := A)) order number :
  order ≡ₚ map_to_list (candidatesStatus bv) -> candidatesStatus bv !! None = None -> 0 <= number ->
  let total := Z.of_nat (base.size (candidatesStatus bv)) in
  exists ws, GetResult number order = Ok ws /\ NoDup ws /\
    zlen ws = (if decide (number = 0 \/ total `mod` 256 < number) then total `mod` 256 else number) /\
    (forall w, w ∈ ws -> ExistCandidate bv (Some w) = true) /\
    (forall w c, w ∈ ws -> ExistCandidate bv (Some c) = true -> c ∉ ws -> score_of bv c <= score_of bv w).
Proof.
  intros Ho Hnil Hnum total. unfold GetResult. set (cards := sort_Sort (NewMapSorter order)).
  assert (cards ≡ₚ NewMapSorter order) as Hp by apply sort_perm.
  assert (zlen cards = zlen order) as Hl by (unfold zlen; rewrite Hp; unfold NewMapSorter; by rewrite length_fmap).
  assert (object <$> cards ≡ₚ (map_to_list (candidatesStatus bv)).*1) as Hobj.
  { by rewrite Hp, NewMapSorter_objects, Ho. }
  assert (forall x, x ∈ object <$> cards <-> is_Some (candidatesStatus bv !! x)) as Hin.
  { intros x. rewrite Hobj, list_elem_of_fmap. split.
    - intros ([y s] & -> & Hy). apply elem_of_map_to_list in Hy. by eexists.
    - intros [s Hs]. exists (x, s). split; [done|]. by apply elem_of_map_to_list. }
  assert (zlen cards = total) as Htotal.
  { rewrite Hl. unfold zlen, total. by rewrite Ho, length_map_to_list. }
  set (n := resultNumber number (u8 (zlen cards))).
  assert (0 <= n <= zlen cards) as Hn.
  { subst n. pose proof (u8_byte (zlen cards)) as Hb. unfold is_byte in Hb.
    pose proof (resultNumber_bounds number (u8 (zlen cards)) Hnum ltac:(lia)).
    assert (u8 (zlen cards) <= zlen cards) by (unfold u8; apply Z.mod_le; [apply zlen_nonneg|lia]). lia. }
  destruct (winners_ok cards n) as (ws & E & Hw); [|done|].
  { intros card Hc. assert (object card ∈ object <$> cards) as Hc' by (apply list_elem_of_fmap; eauto).
    apply Hin in Hc' as [s Hs]. destruct (object card); [by eexists|congruence]. }
  assert (forall w, w ∈ ws <-> Some w ∈ object <$> take (Z.to_nat n) cards) as Hws.
  { intros w. rewrite <- Hw, list_elem_of_fmap. split; [eauto|]. by intros (? & [= ->] & ?). }
  exists ws. rewrite E. split_and!; [done| | | |].
  - apply (NoDup_fmap_1 Some). rewrite Hw, fmap_take. eapply sublist_NoDup; [|apply sublist_take].
    rewrite Hobj. apply NoDup_fst_map_to_list.
  - replace (zlen ws) with (zlen (object <$> take (Z.to_nat n) cards)) by (rewrite <- Hw; unfold zlen; by rewrite length_fmap).
    rewrite <- resultNumber_count, <- Htotal. fold n. unfold zlen in *. rewrite length_fmap, length_take. lia.
  - intros w Hin_w. apply Hws in Hin_w. unfold ExistCandidate. apply bool_decide_eq_true, Hin.
    rewrite fmap_take in Hin_w. by eapply elem_of_sublist; [|apply sublist_take].
  - intros w c Hin_w Hc Hnot. apply bool_decide_eq_true, Hin in Hc. rewrite Hws in Hin_w, Hnot.
    rewrite <- (take_drop (Z.to_nat n) cards), fmap_app, elem_of_app in Hc. destruct Hc as [Hc|Hc]; [done|].
    apply list_elem_of_fmap in Hin_w as (cw & Hcw & Hw1). apply list_elem_of_fmap in Hc as (cc & Hcc & Hc1).
    rewrite <- (card_score bv order cw w), <- (card_score bv order cc c); try done.
    + by eapply sorted_prefix.
    + rewrite <- Hp. by eapply elem_of_sublist; [|apply sublist_drop].
    + rewrite <- Hp. by eapply elem_of_sublist; [|apply sublist_take].
Qed.
End Winners.

(** ** Chains of delegation *)

Section Delegation.
Context {A : Type} `{Countable A}.

(** [chain g v l r]: from [v] the agents are [l] in turn, and the last of them, [r],
    has none. *)

Inductive chain (g : gmap (option A) (option A)) : option A -> list (option A) -> option A -> Prop :=
  | chain_end v : agent_of g v = None -> chain g v [] v
  | chain_step v a l r : agent_of g v = a -> a <> None -> chain g a l r -> chain g v (a :: l) r.

Definition acyclic (g : gmap (option A) (option A)) : Prop := forall v, exists l r, chain g v l r.

#[local] Hint Constructors chain : core.

Lemma chain_det g v l r : chain g v l r -> forall l' r', chain g v l' r' -> l = l' /\ r = r'.
Proof.
  induction 1 as [v Hv|v a l r Hv Ha _ IH]; intros l' r' Hc; inversion Hc as [? Hv'|? a' l2 ? Hv' Ha' Hc']; subst; try congruence.
  - done.
  - apply IH in Hc' as [-> ->]. done.
Qed.

Lemma chain_root g v l r : chain g v l r -> agent_of g r = None /\ (r = v \/ r ∈ l).
Proof.
  induction 1 as [v Hv|v a l r Hv Ha _ [IH1 IH2]]; [by split; [|left]|]. split; [done|]. right.
  destruct IH2 as [->|]; set_unfold; tauto.
Qed.

Lemma chain_suffix g v l r x : chain g v l r -> x ∈ l -> exists k, chain g x k r /\ (length k < length l)%nat.
Proof.
  induction 1 as [v Hv|v a l r Hv Ha Hc IH]; intros Hx; [by apply not_elem_of_nil in Hx|].
  apply elem_of_cons in Hx as [->|Hx]; [exists l; split; [done|cbn; lia]|].
  destruct (IH Hx) as (k & Hk & Hl). exists k. split; [done|cbn; lia].
Qed.

Lemma chain_NoDup g v l r : chain g v l r -> NoDup (v :: l).
Proof.
  induction 1 as [v Hv|v a l r Hv Ha Hc IH]; [apply NoDup_singleton|]. constructor; [|done].
  intros Hin. pose proof (chain_step g v a l r Hv Ha Hc) as Hv'.
  destruct (chain_suffix g v (a :: l) r v Hv' Hin) as (k & Hk & Hl). destruct (chain_det _ _ _ _ Hk _ _ Hv') as [-> _]. lia.
Qed.

Lemma chain_keys g v l r : chain g v l r -> exists k, v :: l = k ++ [r] /\ Forall (fun x => is_Some (g !! x)) k.
Proof.
  induction 1 as [v Hv|v a l r Hv Ha _ (k & Hk & HF)]; [by exists []|].
  exists (v :: k). cbn. rewrite Hk. split; [done|]. constructor; [|done].
  unfold agent_of in Hv. destruct (g !! v); [by eexists|cbn in Hv; congruence].
Qed.

(** A chain is no longer than the map is large. *)

Lemma chain_length g v l r : chain g v l r -> (length l <= size g)%nat.
Proof.
  intros Hc. pose proof (chain_NoDup _ _ _ _ Hc) as Hnd. destruct (chain_keys _ _ _ _ Hc) as (k & Hk & HF).
  rewrite Hk in Hnd. apply list.NoDup_app in Hnd as (Hnd & _ & _).
  assert (length l = length k) as -> by (apply (f_equal length) in Hk; rewrite length_app in Hk; cbn in Hk; lia).
  rewrite <- size_dom, <- (size_list_to_set (C := gset (option A)) k) by done.
  apply subseteq_size. intros x Hx. apply elem_of_list_to_set in Hx. rewrite list.Forall_forall in HF.
  apply elem_of_dom. by apply HF.
Qed.

Lemma follow_chain g voter v l r fuel :
  chain g v l r -> (length l < fuel)%nat ->
  follow fuel g voter v (agent_of g v) = if decide (voter ∈ l) then LoopReference else Found r.
Proof.
  intros Hc. revert fuel. induction Hc as [v Hv|v a l r Hv Ha Hc IH]; intros [|fuel] Hf; cbn in Hf; try lia; cbn [follow].
  - rewrite Hv, decide_True by done. by rewrite decide_False by apply not_elem_of_nil.
  - rewrite Hv, decide_False by done. destruct (decide (a = voter)) as [->|Hne].
    + by rewrite decide_True by apply list_elem_of_here.
    + rewrite IH by lia. destruct (decide (voter ∈ l)); [rewrite decide_True|rewrite decide_False]; try done.
      * by apply list_elem_of_further.
      * rewrite elem_of_cons. intros [->|]; tauto.
Qed.

Lemma agent_of_insert (g : gmap (option A) (option A)) v w x : agent_of (<[v := w]> g) x = if decide (x = v) then w else agent_of g x.
Proof. unfold agent_of. case_decide; [subst; by rewrite lookup_insert_eq|by rewrite lookup_insert_ne by congruence]. Qed.

Lemma agent_of_delete (g : gmap (option A) (option A)) v x : agent_of (delete v g) x = if decide (x = v) then None else agent_of g x.
Proof. unfold agent_of. case_decide; [subst; by rewrite lookup_delete_eq|by rewrite lookup_delete_ne by congruence]. Qed.

Lemma acyclic_insert g voter r :
  acyclic g -> agent_of g r = None -> r <> voter -> r <> None -> acyclic (<[voter := r]> g).
Proof.
  intros Hg Hr Hne Hn. assert (exists l, chain (<[voter := r]> g) voter l r) as [lv Hv].
  { exists [r]. econstructor; [by rewrite agent_of_insert, decide_True|done|]. constructor.
    by rewrite agent_of_insert, decide_False. }
  intros v. destruct (Hg v) as (l & r' & Hc). induction Hc as [v Hv'|v a l r' Ha Hna Hc IH].
  - destruct (decide (v = voter)) as [->|]; [eauto|]. exists [], v. constructor. by rewrite agent_of_insert, decide_False.
  - destruct (decide (v = voter)) as [->|]; [eauto|]. destruct IH as (l' & r2 & IH). exists (a :: l'), r2.
    econstructor; [by rewrite agent_of_insert, decide_False|done|done].
Qed.

Lemma acyclic_delete g voter : acyclic g -> acyclic (delete voter g).
Proof.
  intros Hg v. destruct (Hg v) as (l & r & Hc). induction Hc as [v Hv|v a l r Ha Hna Hc IH].
  - exists [], v. constructor. rewrite agent_of_delete. by case_decide.
  - destruct (decide (v = voter)) as [->|]; [exists [], voter; constructor; by rewrite agent_of_delete, decide_True|].
    destruct IH as (l' & r' & IH). exists (a :: l'), r'. econstructor; [by rewrite agent_of_delete, decide_False|done|done].
Qed.

(** The operations of an open vote. *)

Inductive vote_step (m : openVoteModel (A := A)) : openVoteModel (A := A) -> Prop :=
  | step_register c : vote_step m (open_RegisterCandidates c m)
  | step_voter v : vote_step m (SetCurrentVoter v m)
  | step_weight w : vote_step m (SetWeight w m)
  | step_ballot tos : vote_step m (open_AddToBox tos m)
  | step_agent fuel agent m' : agent <> currentVoter m -> SetAgent fuel agent m = Some m' -> vote_step m m'
  | step_count agents ballots : vote_step m (CountVote agents ballots m).

Definition delegation_ok (m : openVoteModel (A := A)) : Prop :=
  acyclic (agentMap m) /\ forall v, is_Some (processMap m !! v) -> agentMap m !! v = None.

Lemma SetAgent_cases fuel agent (m m' : openVoteModel (A := A)) :
  SetAgent fuel agent m = Some m' ->
  exists b g, plugin_SetAgent fuel (currentVoter m) agent (agentMap m) = Some (b, g) /\
    agentMap m' = g /\ processMap m' = delete (currentVoter m) (processMap m).
Proof.
  unfold SetAgent. destruct (plugin_SetAgent _ _ _ _) as [[b g]|]; [|done]. cbn. intros [= <-]. by exists b, g.
Qed.

Lemma follow_more (g : gmap (option A) (option A)) voter fuel k : forall curr next,
  follow fuel g voter curr next <> OutOfFuel -> follow (fuel + k) g voter curr next = follow fuel g voter curr next.
Proof.
  induction fuel as [|fuel IH]; intros curr next Hx; [done|]. cbn [follow Nat.add] in *.
  case_decide; [done|]. case_decide; [done|]. by apply IH.
Qed.

Lemma plugin_SetAgent_spec (g : gmap (option A) (option A)) fuel voter agent res :
  acyclic g -> agent <> None -> plugin_SetAgent fuel voter agent g = Some res ->
  exists l r, chain g agent l r /\ res = if decide (voter ∈ l) then (false, g) else (true, <[voter := r]> g).
Proof.
  intros Hg Hn E. destruct (Hg agent) as (l & r & Hc). exists l, r. split; [done|].
  unfold plugin_SetAgent in E. rewrite decide_False in E by done.
  pose proof (follow_more g voter fuel (S (length l)) agent (agent_of g agent)) as Hm.
  rewrite (follow_chain _ _ _ _ _ (fuel + S (length l)) Hc ltac:(lia)) in Hm.
  destruct (follow fuel g voter agent _); try discriminate E; specialize (Hm ltac:(done)); injection E as <-;
    destruct (decide (voter ∈ l)); congruence.
Qed.

Lemma chain_not_nil (g : gmap (option A) (option A)) v l r : chain g v l r -> None ∉ l.
Proof. induction 1; [apply not_elem_of_nil|]. rewrite elem_of_cons. intros [?|?]; [by subst|done]. Qed.

Lemma plugin_SetAgent_ok (g g' : gmap (option A) (option A)) fuel voter agent b :
  acyclic g -> agent <> voter -> plugin_SetAgent fuel voter agent g = Some (b, g') ->
  acyclic g' /\ forall v, v <> voter -> g' !! v = g !! v.
Proof.
  intros Hg Hne E. destruct (decide (agent = None)) as [->|Hnil].
  - injection E as <- <-. split; [by apply acyclic_delete|]. intros v Hv. by rewrite lookup_delete_ne by congruence.
  - destruct (plugin_SetAgent_spec _ _ _ _ _ Hg Hnil E) as (l & r & Hc & Heq).
    case_decide as Hin; injection Heq as -> ->; [done|].
    destruct (chain_root _ _ _ _ Hc) as [Hr Hr']. split; [|intros v Hv; by rewrite lookup_insert_ne by congruence].
    apply acyclic_insert; [done|done| |]; destruct Hr' as [->|Hr']; try done; [by intros ->|].
    intros ->. by apply (chain_not_nil _ _ _ _ Hc).
Qed.

Lemma plugin_SetAgent_returns (g : gmap (option A) (option A)) voter agent :
  acyclic g -> is_Some (plugin_SetAgent (S (size g)) voter agent g).
Proof.
  intros Hg. unfold plugin_SetAgent. case_decide; [by eexists|]. destruct (Hg agent) as (l & r & Hc).
  rewrite (follow_chain _ _ _ _ _ _ Hc); [|pose proof (chain_length _ _ _ _ Hc); lia]. case_decide; by eexists.
Qed.

Lemma delegation_step m m' : vote_step m m' -> delegation_ok m -> delegation_ok m'.
Proof.
  intros Hs [Hg Hp]. destruct Hs as [c|v|w|tos|fuel agent m' Hne E|agents ballots]; try (split; [exact Hg|exact Hp]).
  - split; [destruct tos; by apply acyclic_delete|]. intros v Hv. unfold open_AddToBox.
    destruct (decide (v = currentVoter m)) as [->|Hv'].
    + destruct tos; cbn; by rewrite lookup_delete_eq.
    + destruct tos; cbn in *; rewrite lookup_delete_ne by congruence; apply Hp;
        first [by rewrite lookup_delete_ne in Hv by congruence|by rewrite lookup_insert_ne in Hv by congruence].
  - destruct (SetAgent_cases _ _ _ _ E) as (b & g & Eg & Hag & Hpr).
    destruct (plugin_SetAgent_ok _ _ _ _ _ _ Hg Hne Eg) as [Hg' Hother]. rewrite <- Hag in *. split; [done|].
    intros v Hv. rewrite Hpr in Hv. destruct (decide (v = currentVoter m)) as [->|Hv'].
    + rewrite lookup_delete_eq in Hv. by destruct Hv.
    + rewrite lookup_delete_ne in Hv by congruence. rewrite Hother by done. by apply Hp.
Qed.

(** C13: Delegation has no cycles.  After any operations on a new open vote in which
    nobody names themselves as their agent, following agents from any voter comes to
    an end, nobody has both a ballot and an agent, and the next call of [SetAgent],
    by and for anybody, returns: the loop runs at most once for every delegation. *)
Theorem delegation_acyclic m :
  rtc vote_step NewOpenVoteModel m ->
  delegation_ok m /\ forall voter agent, is_Some (SetAgent (S (size (agentMap m))) agent (SetCurrentVoter voter m)).
Proof.
  intros Hr. assert (delegation_ok m) as Hok.
  { assert (delegation_ok (NewOpenVoteModel (A := A))) as H0.
    { split; [intros v; exists [], v; by constructor|]. intros v. cbn. rewrite lookup_empty. by intros []. }
    induction Hr as [|m1 m2 m3 Hs _ IH]; [done|]. by apply IH, (delegation_step m1). }
  split; [done|]. intros voter agent. unfold SetAgent. cbn [agentMap SetCurrentVoter currentVoter].
  destruct (plugin_SetAgent_returns (agentMap m) voter agent) as [[b g] ->]; [apply Hok|]. by eexists.
Qed.

(** Whoever names themselves is followed for ever. *)

Lemma follow_self (g : gmap (option A) (option A)) voter v fuel :
  g !! Some v = Some (Some v) -> voter <> Some v -> follow fuel g voter (Some v) (Some v) = OutOfFuel.
Proof.
  intros Hv Hne. induction fuel as [|fuel IH]; [done|]. cbn [follow]. rewrite decide_False, decide_False by congruence.
  unfold agent_of. by rewrite Hv.
Qed.

(** A voter without an agent who names themselves as their agent is accepted,
    and from then on any other voter who names them never gets an answer. *)
Theorem self_agent_diverges (m m' : openVoteModel (A := A)) v w fuel fuel' :
  agentMap m !! Some v = None -> v <> w ->
  SetAgent (S fuel) (Some v) (SetCurrentVoter (Some v) m) = Some m' ->
  SetAgent fuel' (Some v) (SetCurrentVoter (Some w) m') = None.
Proof.
  intros Hv Hne E. destruct (SetAgent_cases _ _ _ _ E) as (b & g & Eg & Hag & _). cbn in Eg.
  unfold plugin_SetAgent in Eg. rewrite decide_False in Eg by done.
  assert (agent_of (agentMap m) (Some v) = None) as Ha by (unfold agent_of; by rewrite Hv).
  rewrite Ha in Eg. cbn [follow] in Eg. rewrite decide_True in Eg by done. injection Eg as <- <-.
  unfold SetAgent, plugin_SetAgent. cbn [currentVoter agentMap SetCurrentVoter]. rewrite decide_False by done.
  assert (agentMap m' !! Some v = Some (Some v)) as Hs by (rewrite Hag; apply lookup_insert_eq).
  assert (agent_of (agentMap m') (Some v) = Some v) as -> by (unfold agent_of; by rewrite Hs).
  by rewrite follow_self by congruence.
Qed.
End Delegation.

(** ** The tally *)

Section Tally.
Context {A : Type} `{Countable A}.

Definition zsum {B} (f : B -> Z) (l : list B) : Z := foldr (fun x s => f x + s) 0 l.

#[local] Arguments zsum : simpl never.

Lemma zsum_cons {B} (f : B -> Z) x l : zsum f (x :: l) = f x + zsum f l.
Proof. done. Qed.

#[global] Instance zsum_perm {B} (f : B -> Z) : Proper ((≡ₚ) ==> (=)) (zsum f).
Proof. intros l k Hp. induction Hp as [| |x y l|l1 l2 l3 _ IH1 _ IH2]; rewrite ?zsum_cons; lia. Qed.

Lemma zsum_ext {B} (f g : B -> Z) l : (forall x, x ∈ l -> f x = g x) -> zsum f l = zsum g l.
Proof.
  induction l as [|x l IH]; intros Hfg; [done|]. rewrite !zsum_cons, Hfg, IH; [done| |apply list_elem_of_here].
  intros y Hy. apply Hfg. by apply list_elem_of_further.
Qed.

(** How often a ballot names a candidate; the weight delegated to a voter. *)

Definition times (c : option A) (tos : list (option A)) : Z := zsum (fun x => if decide (x = c) then 1 else 0) tos.

Definition delegated (w : gmap (option A) Z) (v : option A) (agents : list (option A * option A)) : Z :=
  zsum (fun d => if decide (d.2 = v) then GetWeight w d.1 else 0) agents.

(** No agent has an agent. *)

Definition flat (agents : list (option A * option A)) : Prop := forall d e, d ∈ agents -> e ∈ agents -> d.1 <> e.2.

Lemma pass_on_weight (w : gmap (option A) Z) d v :
  GetWeight (pass_on w d) v = if decide (v = d.2) then u64 (GetWeight w d.2 + GetWeight w d.1) else GetWeight w v.
Proof.
  unfold pass_on, GetWeight. case_decide; [subst; by rewrite lookup_insert_eq|by rewrite lookup_insert_ne by congruence].
Qed.

Lemma pass_on_all (agents : list (option A * option A)) : forall (w : gmap (option A) Z) v,
  flat agents -> GetWeight (foldl pass_on w agents) v mod 2 ^ 64 = (GetWeight w v + delegated w v agents) mod 2 ^ 64.
Proof.
  induction agents as [|d agents IH]; intros w v Hf; [cbn; by rewrite Z.add_0_r|]. cbn [foldl].
  rewrite IH by (intros e e' He He'; apply Hf; by apply list_elem_of_further).
  assert (delegated (pass_on w d) v agents = delegated w v agents) as ->.
  { apply zsum_ext. intros e He. case_decide; [|done]. rewrite pass_on_weight, decide_False; [done|].
    apply Hf; [by apply list_elem_of_further|apply list_elem_of_here]. }
  rewrite pass_on_weight. unfold delegated at 2. rewrite zsum_cons. fold (delegated w v agents).
  destruct (decide (v = d.2)) as [->|Hne]; [rewrite decide_True by done|rewrite decide_False by congruence].
  - unfold u64. rewrite Z.add_mod_idemp_l by done. f_equal. lia.
  - f_equal; lia.
Qed.

Lemma add_score_spec s (bv : BaseVoteModel (A := A)) x c :
  candidatesStatus (add_score s bv x) !! c =
    if decide (x = c) then (fun z => u64 (z + s)) <$> candidatesStatus bv !! c else candidatesStatus bv !! c.
Proof.
  unfold add_score, ExistCandidate. case_bool_decide as Hx.
  - cbn. destruct (decide (x = c)) as [->|Hne]; [|by rewrite lookup_insert_ne by done].
    rewrite lookup_insert_eq. destruct Hx as [z Hz]. by rewrite Hz.
  - destruct (decide (x = c)) as [->|Hne]; [|done]. destruct (candidatesStatus bv !! c) eqn:E; [|done]. destruct Hx. by eexists.
Qed.

(** The score of a candidate modulo [2 ^ 64], if registered. *)

Definition tally_of (bv : BaseVoteModel (A := A)) (c : option A) : option Z :=
  (fun z => z mod 2 ^ 64) <$> candidatesStatus bv !! c.

Lemma add_scores s tos : forall (bv : BaseVoteModel (A := A)) c,
  tally_of (foldl (add_score s) bv tos) c = (fun z => (z + times c tos * s) mod 2 ^ 64) <$> tally_of bv c.
Proof.
  unfold tally_of. induction tos as [|x tos IH]; intros bv c; cbn [foldl].
  - rewrite <- option_fmap_compose. apply option_fmap_ext. intros z. cbn. by rewrite Z.mul_0_l, Z.add_0_r, Z.mod_mod by done.
  - rewrite IH, add_score_spec. unfold times at 2. rewrite zsum_cons. fold (times c tos).
    case_decide; rewrite <- ?option_fmap_compose; apply option_fmap_ext; intros z; cbn; unfold u64.
    + rewrite Z.mod_mod, !Z.add_mod_idemp_l by done. f_equal. lia.
    + f_equal; lia.
Qed.

Lemma cast_all (w : gmap (option A) Z) ballots : forall (bv : BaseVoteModel (A := A)) c,
  tally_of (foldl (cast w) bv ballots) c =
    (fun z => (z + zsum (fun b => times c b.2 * GetWeight w b.1) ballots) mod 2 ^ 64) <$> tally_of bv c.
Proof.
  induction ballots as [|b ballots IH]; intros bv c; cbn [foldl].
  - unfold tally_of. rewrite <- option_fmap_compose. apply option_fmap_ext. intros z. cbn.
    by rewrite Z.add_0_r, Z.mod_mod by done.
  - rewrite IH. unfold cast. rewrite add_scores, <- option_fmap_compose. apply option_fmap_ext. intros z. cbn.
    rewrite zsum_cons, Z.add_mod_idemp_l by done. f_equal. lia.
Qed.

Lemma zsum_mod {B} (f g : B -> Z) l n :
  n <> 0 -> (forall x, x ∈ l -> f x mod n = g x mod n) -> zsum f l mod n = zsum g l mod n.
Proof.
  intros Hn. induction l as [|x l IH]; intros Hfg; [done|]. rewrite !zsum_cons, Z.add_mod, (Z.add_mod (g x)) by done.
  rewrite Hfg, IH; [done| |apply list_elem_of_here]. intros y Hy. apply Hfg. by apply list_elem_of_further.
Qed.

(** What a count adds to the score of [c]. *)

Definition votes_for (c : option A) (m : openVoteModel (A := A)) : Z :=
  zsum (fun b => times c b.2 * (GetWeight (weightMap m) b.1 + delegated (weightMap m) b.1 (map_to_list (agentMap m))))
    (map_to_list (processMap m)).

(** C28: The tally of an open vote.  Where no agent has an agent, [CountVote] does
    not depend on the order in which the maps are enumerated: it adds to the score
    of every registered candidate, for each ballot, the weight of the voter together
    with the weights delegated to them, as often as the ballot names the candidate,
    modulo [2 ^ 64], and changes nothing else.  It adds to the scores of earlier
    counts, so that asking for the result again counts every vote again. *)
Theorem open_vote_tally (m : openVoteModel (A := A)) agents ballots c :
  agents ≡ₚ map_to_list (agentMap m) -> ballots ≡ₚ map_to_list (processMap m) -> flat agents ->
  let m' := CountVote agents ballots m in
  tally_of (base m') c = (fun z => (z + votes_for c m) mod 2 ^ 64) <$> tally_of (base m) c /\
  weightMap m' = weightMap m /\ agentMap m' = agentMap m /\ processMap m' = processMap m.
Proof.
  intros Ha Hb Hf m'. split_and!; [|done..]. unfold m', CountVote. cbn [base set_base]. rewrite cast_all.
  apply option_fmap_ext. intros z. rewrite Z.add_mod, (Z.add_mod z (votes_for _ _)) by done. f_equal. f_equal.
  unfold votes_for. rewrite <- Hb. apply zsum_mod; [done|]. intros b _.
  rewrite <- Zmult_mod_idemp_r, pass_on_all, Zmult_mod_idemp_r by done. unfold delegated. by rewrite Ha.
Qed.
End Tally.

(** ** Instances *)

#[export] Instance card_above_dec {A} `{Countable A} :
  RelDecision (fun a b : ScoreCard (A := A) => score b <= score a).
Proof. intros a b. apply _. Defined.

Definition merge_sorting {A} `{Countable A} : Sorting (A := A) :=
  {| sort_Sort := merge_sort (fun a b => score b <= score a) |}.

#[export] Instance merge_sorting_laws {A} `{Countable A} : SortingLaws (A := A) (H0 := merge_sorting).
Proof.
  assert (Total (fun a b : ScoreCard (A := A) => score b <= score a)) by (intros a b; lia).
  assert (Transitive (fun a b : ScoreCard (A := A) => score b <= score a)) by (intros a b c; lia).
  split; [intros l; apply merge_sort_Permutation|]. intros l i j a b Hij Hi Hj. unfold Less. apply bool_decide_eq_false.
  pose proof (StronglySorted_merge_sort _ l : StronglySorted _ (sort_Sort (Sorting := merge_sorting) l)) as Hs.
  revert i j Hij Hi Hj. induction Hs as [|x l' _ IH HF]; intros [|i] [|j] Hij Hi Hj; try lia; try done; cbn in *.
  - injection Hi as ->. pose proof (Forall_lookup_1 _ _ _ _ HF Hj) as Hx. cbn in Hx. lia.
  - apply (IH i j); [lia|done|done].
Qed.

(** ** Examples *)

Definition say (v w : Z) (m : openVoteModel (A := Z)) : openVoteModel := SetWeight w (SetCurrentVoter (Some v) m).
Definition name (a : Z) (m : openVoteModel (A := Z)) : openVoteModel := default m (SetAgent 5 (Some a) m).

(** 1 follows 2, 2 follows 3, and 3 votes for 9. *)

Definition chained : openVoteModel (A := Z) :=
  open_AddToBox (One 9) (say 3 1 (name 3 (say 2 1 (name 2 (say 1 1
    (open_RegisterCandidates (Slice [Some 9]) NewOpenVoteModel)))))).

Lemma say_steps v w m m' : rtc vote_step m m' -> rtc vote_step m (say v w m').
Proof. intros Hr. eapply rtc_r; [eapply rtc_r; [exact Hr|apply step_voter]|apply step_weight]. Qed.

Lemma name_step a m m' :
  rtc vote_step m m' -> currentVoter m' <> Some a -> is_Some (SetAgent 5 (Some a) m') -> rtc vote_step m (name a m').
Proof.
  intros Hr Hne [m2 E]. eapply rtc_r; [exact Hr|]. apply (step_agent _ 5 (Some a)); [congruence|]. unfold name. by rewrite E.
Qed.

Lemma chained_reachable : rtc vote_step NewOpenVoteModel chained.
Proof.
  unfold chained. eapply rtc_r; [|apply step_ballot]. apply say_steps, name_step; [|done|by eexists; vm_compute].
  apply say_steps, name_step; [|done|by eexists; vm_compute]. apply say_steps, rtc_once, step_register.
Qed.

(** With chained delegations the result of a vote is not determined.  There is
    an open vote, reached by the operations of its interface, which gives one and
    the same candidate 3 or 2 votes depending on the order in which Go happens to
    enumerate the map of agents: a weight passed on too late is lost. *)
Theorem tally_depends_on_order :
  exists (m : openVoteModel (A := Z)) agents agents' ballots,
    rtc vote_step NewOpenVoteModel m /\
    agents ≡ₚ map_to_list (agentMap m) /\ agents' ≡ₚ map_to_list (agentMap m) /\ ballots ≡ₚ map_to_list (processMap m) /\
    tally_of (base (CountVote agents ballots m)) (Some 9) = Some 3 /\
    tally_of (base (CountVote agents' ballots m)) (Some 9) = Some 2.
Proof.
  exists chained, [(Some 1, Some 2); (Some 2, Some 3)], [(Some 2, Some 3); (Some 1, Some 2)], [(Some 3, [Some 9])].
  assert (map_to_list (agentMap chained) ≡ₚ [(Some 1, Some 2); (Some 2, Some 3)]) as Ha.
  { apply (bool_decide_unpack _). by vm_compute. }
  split_and!; [apply chained_reachable|done| | |by vm_compute|by vm_compute].
  - rewrite Ha. apply Permutation_swap.
  - apply (bool_decide_unpack _). by vm_compute.
Qed.

Definition three_candidates : BaseVoteModel (A := Z) :=
  mkBase (list_to_map [(Some 1, 10); (Some 2, 30); (Some 3, 20)]).

Lemma base_winners_witness :
  exists ws, GetResult (H0 := merge_sorting) 2 (map_to_list (candidatesStatus three_candidates)) = Ok ws /\ NoDup ws /\ zlen ws = 2.
Proof.
  destruct (base_winners (S := merge_sorting) three_candidates (map_to_list (candidatesStatus three_candidates)) 2)
    as (ws & E & Hnd & Hn & _); [done|done|lia|]. exists ws. split; [exact E|split; [exact Hnd|exact Hn]].
Defined.

Lemma delegation_acyclic_witness : delegation_ok chained.
Proof. apply (delegation_acyclic chained), chained_reachable. Defined.

Lemma self_agent_diverges_witness :
  exists m', SetAgent 1 (Some 7) (SetCurrentVoter (Some 7) NewOpenVoteModel) = Some m' /\
    SetAgent 1000 (Some 7) (SetCurrentVoter (Some 8) m') = None.
Proof.
  eexists. split; [reflexivity|].
  apply (self_agent_diverges (A := Z) NewOpenVoteModel _ 7 8 0 1000); [done|done|reflexivity].
Defined.

(** 1 follows 3, who votes for 9 and 8. *)

Definition tallied : openVoteModel (A := Z) :=
  open_AddToBox (Many (Slice [Some 9; Some 8])) (say 3 5 (name 3 (say 1 2
    (open_RegisterCandidates (Slice [Some 9; Some 8]) NewOpenVoteModel)))).

Lemma open_vote_tally_witness :
  tally_of (base (CountVote (map_to_list (agentMap tallied)) (map_to_list (processMap tallied)) tallied)) (Some 8) = Some 7.
Proof.
  destruct (open_vote_tally tallied (map_to_list (agentMap tallied)) (map_to_list (processMap tallied)) (Some 8))
    as [-> _]; [done|done| |by vm_compute].
  intros d e Hd He. change (map_to_list (agentMap tallied)) with [(Some 1, Some 3)] in Hd, He.
  apply list_elem_of_singleton in Hd as ->. apply list_elem_of_singleton in He as ->. done.
Defined.
