(* ===== verification/KvStore.v ===== *)
(** * KvStore: the key-value database and the storage of values in it

    The interface [ptndb.Database] of [common/ptndb/interface.go] as a class with its
    laws, the memory database of [common/ptndb/memory_database.go] as an instance,
    and on top of the interface the helpers of [dag/storage/storage.go] and
    [dag/storage/getor.go], which store values as RLP, with or without the version
    of [dag/modules/message.go] in front.

    The database does not fail: errors of the disk are branches of the definitions
    but no law of the class gives rise to them.  The buffers of the encoder come
    from a pool; that its result does not depend on them is a theorem of [RlpEncode].

    The theorems: what is stored is retrieved, and what is stored with a version is
    retrieved without its first byte. *)

From S2P Require Import Prelude Digits HexUtil Transaction Crypto Address Rlp RlpEncode RlpDecode RlpSound RlpRoundTrip RlpPartial.

#[local] Open Scope Z_scope.

Inductive storage_error : Type :=
  | LevelNotFound                  (* "leveldb: not found" *)
  | RlpError (e : rlp_error)
  | ErrIrregular                   (* "the data is irregular." *)
  | ErrUtxoNotFound
  | ErrStateNull
  | ErrEvenCandidates
  | ErrInvalidMode
  | OtherError.

#[export] Instance storage_error_eq_dec : EqDecision storage_error.
Proof. solve_decision. Defined.

Definition rlp_out {A} (o : outcome rlp_error A) : outcome storage_error A :=
  match o with Ok a => Ok a | Err e => Err (RlpError e) | Panic => Panic end.

(** ** The interface *)

Class Database (D : Type) : Type := {
  Get : D -> bytes -> outcome storage_error bytes;
  Has : D -> bytes -> outcome storage_error bool;
  Put : bytes -> bytes -> go D storage_error unit;
  Delete : bytes -> go D storage_error unit;
  NewIteratorWithPrefix : D -> bytes -> list (bytes * bytes)  (* the entries, as Next passes them *)
}.

Class DatabaseLaws (D : Type) `{Database D} : Type := {
  contents : D -> gmap bytes bytes;
  Get_spec d k : Get d k = match contents d !! k with Some v => Ok v | None => Err LevelNotFound end;
  Has_spec d k : Has d k = Ok (bool_decide (is_Some (contents d !! k)));
  Put_spec d k v : exists d', Put k v d = (Ok tt, d') /\ contents d' = <[k := v]> (contents d);
  Delete_spec d k : exists d', Delete k d = (Ok tt, d') /\ contents d' = delete k (contents d);
  Iterator_spec d p : NewIteratorWithPrefix d p ≡ₚ filter (fun kv => HasPrefix kv.1 p = true) (map_to_list (contents d))
}.

(** ** The memory database *)

Record MemDatabase : Type := mkMem { mem_db : gmap bytes bytes }.

Definition CopyBytes (b : bytes) : bytes := gocopy (replicate (length b) 0) b.

Definition NewMemDatabase : MemDatabase := mkMem ∅.

Definition Mem_Get (d : MemDatabase) (key : bytes) : outcome storage_error bytes :=
  match mem_db d !! key with Some entry => Ok (CopyBytes entry) | None => Err LevelNotFound end.

Definition Mem_Has (d : MemDatabase) (key : bytes) : outcome storage_error bool :=
  Ok (bool_decide (is_Some (mem_db d !! key))).

Definition Mem_Put (key value : bytes) : go MemDatabase storage_error unit :=
  modify (fun d => mkMem (<[key := CopyBytes value]> (mem_db d))).

Definition Mem_Delete (key : bytes) : go MemDatabase storage_error unit :=
  modify (fun d => mkMem (delete key (mem_db d))).

(** [MemIterator]: a snapshot, and the position before it or in it. *)

Record MemIterator : Type := mkMemIterator { it_result : list (bytes * bytes); it_idx : Z }.

Definition Mem_NewIteratorWithPrefix (d : MemDatabase) (prefix : bytes) : MemIterator :=
  mkMemIterator (filter (fun kv => HasPrefix kv.1 prefix = true) (map_to_list (mem_db d))) (-1).

Definition it_Next (i : MemIterator) : bool * MemIterator :=
  let idx := it_idx i + 1 in (bool_decide (idx < zlen (it_result i)), mkMemIterator (it_result i) idx).

(** [nil] before the first call of [Next]. *)

Definition it_Key (i : MemIterator) : outcome storage_error (option bytes) :=
  if decide (it_idx i = -1) then Ok None else kv ← goidx (it_result i) (it_idx i); Ok (Some kv.1).

Definition it_Value (i : MemIterator) : outcome storage_error (option bytes) :=
  if decide (it_idx i = -1) then Ok None else kv ← goidx (it_result i) (it_idx i); Ok (Some kv.2).

(** [for iter.Next() { ... iter.Key() ... iter.Value() ... }] *)

Fixpoint iterate (fuel : nat) (i : MemIterator) : outcome storage_error (list (option bytes * option bytes)) :=
  match fuel with
  | O => Ok []
  | S fuel =>
      let '(more, i) := it_Next i in
      if more then k ← it_Key i; v ← it_Value i; l ← iterate fuel i; Ok ((k, v) :: l) else Ok []
  end.

#[export] Instance Mem_Database : Database MemDatabase := {|
  Get := Mem_Get; Has := Mem_Has; Put := Mem_Put; Delete := Mem_Delete;
  NewIteratorWithPrefix d p := it_result (Mem_NewIteratorWithPrefix d p)
|}.

(** A batch collects writes and performs them together. *)

Record memBatch : Type := mkBatch { b_writes : list (bytes * bytes); b_size : Z }.

Definition batch_Put (key value : bytes) (b : memBatch) : memBatch :=
  mkBatch (b_writes b ++ [(CopyBytes key, CopyBytes value)]) (b_size b + zlen value).

Definition batch_Write (b : memBatch) (d : MemDatabase) : MemDatabase :=
  mkMem (foldl (fun m kv => <[kv.1 := kv.2]> m) (mem_db d) (b_writes b)).

Definition batch_Reset (b : memBatch) : memBatch := mkBatch [] 0.

(** ** Identifiers and versions *)

Definition ID_LENGTH : Z := 16.

Definition ZeroIdType16 : bytes := replicate 16 0.
Definition wf_id (i : bytes) : Prop := zlen i = ID_LENGTH /\ wf_bytes i.

Definition ID_Bytes (it : bytes) : bytes := it.

Definition ID_SetBytes (it b : bytes) : bytes :=
  let b := if decide (zlen b > zlen it) then drop (Z.to_nat (zlen b - ID_LENGTH)) b else b in
  copy_at (ID_LENGTH - zlen b) it b.

Definition ID_String (it : bytes) : bytes := HexUtil.Encode (ID_Bytes it).

Definition SetIdTypeByHex (id : bytes) : outcome decError bytes :=
  match HexUtil.Decode id with (b, None) => Ok (gocopy ZeroIdType16 b) | (_, Some e) => Err e end.

Record ChainIndex : Type := mkChainIndex { AssetID : bytes; IsMain : bool; Index : Z }.
Record StateVersion : Type := mkStateVersion { Height : ChainIndex; TxIndex : Z }.

(** [binary.LittleEndian]: [PutUint64], [PutUint32], [Uint64], [Uint32]. *)

Definition PutUint64_le (v : Z) : bytes := le_field 8 v.
Definition PutUint32_le (v : Z) : bytes := le_field 4 v.
Definition Uint64_le (b : bytes) : outcome storage_error Z := if decide (zlen b < 8) then Panic else Ok (le_val (take 8 b)).
Definition Uint32_le (b : bytes) : outcome storage_error Z := if decide (zlen b < 4) then Panic else Ok (le_val (take 4 b)).

Definition Version_Bytes (version : StateVersion) : bytes :=
  let idx := PutUint64_le (Index (Height version)) in
  let b := ID_Bytes (AssetID (Height version)) ++ idx in
  let b := b ++ [if IsMain (Height version) then 1 else 0] in
  let txIdx := PutUint32_le (TxIndex version) in
  b ++ txIdx.

Definition Version_SetBytes (b : bytes) : outcome storage_error StateVersion :=
  head ← goslice b 0 16;
  let asset := ID_SetBytes ZeroIdType16 head in
  mid ← goslice b 16 24;
  heightIdx ← Uint64_le mid;
  isMain ← goidx b 24;
  last ← goslice b 25 (zlen b);
  txIdx ← Uint32_le last;
  let cidx := mkChainIndex asset (bool_decide (isMain = 1)) heightIdx in
  Ok (mkStateVersion cidx txIdx).

(** ** Values in the database *)

(** A Go type as it is serialised. *)

Class RlpValue (A : Type) : Type := {
  rlp_type : rtype;
  to_rval : A -> rval;
  of_rval : rval -> option A
}.
Arguments rlp_type A {_}.

Definition rv_bytes (v : rval) : option bytes := match v with VBytes b => Some b | _ => None end.

#[export] Instance rlp_bytes_value : RlpValue bytes := {|
  rlp_type := TByteSlice; to_rval := VBytes; of_rval := rv_bytes |}.

Definition decode_value {A} `{RlpValue A} (data : bytes) : outcome storage_error A :=
  v ← rlp_out (DecodeBytes data (rlp_type A)); match of_rval v with Some a => Ok a | None => Panic end.

Section Store.
Context {D : Type} `{Database D}.

(** Replacing is deleting and inserting. *)

Definition replace_bytes (key val : bytes) : go D storage_error unit := fun d =>
  match Get d key with
  | Err e => if decide (e = LevelNotFound) then Put key val d else (Err e, d)
  | Ok _ => (_ ← Delete key; Put key val) d
  | Panic => (Panic, d)
  end.

Definition StoreBytes {A} `{RlpValue A} (key : bytes) (value : A) : go D storage_error unit :=
  val ← lift (rlp_out (EncodeToBytes new_encbuf (rlp_type A) (to_rval value)));
  replace_bytes key val.

Definition retrieve {A} `{RlpValue A} (d : D) (key : bytes) : outcome storage_error A :=
  data ← Get d key; decode_value data.

(** [retrieve(db, key, &v)] for a struct [v] that is a zero value and is used also where
    [retrieve] fails: what is left in [v], and the error. *)

Definition retrieve_left {A} `{RlpValue A} (torn : rtype -> bytes -> rval) (zero : A) (d : D) (key : bytes) :
    outcome storage_error (A * option storage_error) :=
  match retrieve d key with
  | Ok a => Ok (a, None)
  | Err e =>
      match Get d key, rlp_type A with
      | Ok data, TStruct fields => v ← rlp_out (left_by torn fields data); Ok (default zero (of_rval v), Some e)
      | _, _ => Ok (zero, Some e)
      end
  | Panic => Panic
  end.

Definition StoreBytesWithVersion {A} `{RlpValue A} (key : bytes) (version : StateVersion) (value : A) :
    go D storage_error unit :=
  val ← lift (rlp_out (EncodeToBytes new_encbuf (rlp_type A) (to_rval value)));
  replace_bytes key (Version_Bytes version ++ val).

Definition splitValueAndVersion (data : bytes) : outcome storage_error (bytes * StateVersion) :=
  if decide (zlen data <= 29) then Err ErrIrregular else
  verBytes ← goslice data 0 29;
  objData ← goslice data 30 (zlen data);
  version ← Version_SetBytes verBytes;
  Ok (objData, version).

Definition retrieveWithVersion (d : D) (key : bytes) : outcome storage_error (bytes * StateVersion) :=
  data ← Get d key; splitValueAndVersion data.

Definition getprefix (d : D) (prefix : bytes) : gmap bytes bytes :=
  foldl (fun m kv => <[kv.1 := kv.2]> m) ∅ (NewIteratorWithPrefix d prefix).

Definition getCountByPrefix (d : D) (prefix : bytes) : Z := zlen (NewIteratorWithPrefix d prefix).
End Store.

(** ** Versions *)

Definition wf_version (v : StateVersion) : Prop :=
  wf_id (AssetID (Height v)) /\ 0 <= Index (Height v) < 2 ^ 64 /\ 0 <= TxIndex v < 2 ^ 32.

Lemma ID_SetBytes_full i : zlen i = ID_LENGTH -> ID_SetBytes ZeroIdType16 i = i.
Proof.
  unfold ID_SetBytes, ID_LENGTH. intros Hi. change (zlen ZeroIdType16) with 16. rewrite decide_False by lia.
  unfold copy_at. replace (Z.to_nat (16 - zlen i)) with O by (unfold zlen in *; lia). rewrite take_0, drop_0. cbn [app].
  assert (length i = length ZeroIdType16) as Hl by (unfold zlen in *; cbn; lia).
  unfold gocopy. rewrite Hl, drop_all, app_nil_r. by apply take_ge; rewrite Hl.
Qed.

Lemma Version_Bytes_length v : wf_version v -> zlen (Version_Bytes v) = 29.
Proof.
  intros ([Hi _] & _). unfold Version_Bytes, ID_Bytes, ID_LENGTH in *. rewrite !zlen_app, Hi. unfold zlen.
  unfold PutUint64_le, PutUint32_le. rewrite !le_field_length. destruct (IsMain (Height v)); done.
Qed.

Lemma Version_roundtrip v : wf_version v -> Version_SetBytes (Version_Bytes v) = Ok v.
Proof.
  intros Hv. pose proof (Version_Bytes_length v Hv) as Hl. destruct Hv as ([Hi _] & Hx & Ht).
  destruct v as [[asset main idx] tx]. cbn [Height AssetID IsMain Index TxIndex] in *. revert Hl. unfold Version_SetBytes.
  unfold Version_Bytes, ID_Bytes, PutUint64_le, PutUint32_le. cbn [Height AssetID IsMain Index TxIndex]. cbv zeta.
  set (m := [if main then 1 else 0]). rewrite <- !app_assoc. intros Hl.
  assert (zlen (le_field 8 idx) = 8 /\ zlen (le_field 4 tx) = 4) as [H8 H4] by (unfold zlen; by rewrite !le_field_length).
  unfold ID_LENGTH in Hi. assert (zlen m = 1) as Hm by done.
  pose proof (goslice_prefix (E := storage_error) asset (le_field 8 idx ++ m ++ le_field 4 tx)) as Hp.
  rewrite Hi in Hp. rewrite Hp. cbn [mbind outcome_bind].
  rewrite (goslice_mid asset (le_field 8 idx) _ 16 24) by lia. cbn [mbind outcome_bind].
  unfold Uint64_le. rewrite decide_False by lia. rewrite take_ge, le_field_val
    by (rewrite ?le_field_length; (lia || (change (256 ^ Z.of_nat 8) with (2 ^ 64); lia))). cbn [mbind outcome_bind].
  replace 24 with (zlen (asset ++ le_field 8 idx) + 0) by (rewrite zlen_app; lia).
  rewrite (app_assoc asset), goidx_app_r by lia.
  change (goidx (m ++ le_field 4 tx) 0) with (Ok (E := storage_error) (if main then 1 else 0)). cbn [mbind outcome_bind].
  rewrite (app_assoc _ m).
  replace 25 with (zlen ((asset ++ le_field 8 idx) ++ m)) by (rewrite !zlen_app; lia).
  rewrite goslice_suffix. cbn [mbind outcome_bind].
  unfold Uint32_le. rewrite decide_False by lia. rewrite take_ge, le_field_val
    by (rewrite ?le_field_length; (lia || (change (256 ^ Z.of_nat 4) with (2 ^ 32); lia))). cbn [mbind outcome_bind].
  rewrite ID_SetBytes_full by done. do 2 f_equal. subst m. destruct main; done.
Qed.

(** ** The memory database keeps the laws *)

Lemma CopyBytes_id b : CopyBytes b = b.
Proof.
  unfold CopyBytes, gocopy. rewrite length_replicate, firstn_all, drop_ge, app_nil_r; [done|].
  by rewrite length_replicate.
Qed.

#[export] Instance Mem_laws : DatabaseLaws MemDatabase.
Proof.
  refine {| contents := mem_db |}.
  - intros d k. cbn. unfold Mem_Get. destruct (mem_db d !! k); [by rewrite CopyBytes_id|done].
  - done.
  - intros d k v. eexists. split; [done|]. cbn. by rewrite CopyBytes_id.
  - intros d k. by eexists.
  - done.
Defined.

(** The loop over an iterator passes the entries of its snapshot in order. *)

Lemma iterate_from pre l fuel :
  (length l < fuel)%nat ->
  iterate fuel (mkMemIterator (pre ++ l) (zlen pre - 1)) = Ok ((fun kv => (Some kv.1, Some kv.2)) <$> l).
Proof.
  revert pre fuel. induction l as [|[k v] l IH]; intros pre [|fuel] Hf; cbn in Hf; try lia;
    cbn [iterate it_Next it_result it_idx]; replace (zlen pre - 1 + 1) with (zlen pre) by lia.
  - rewrite bool_decide_false by (rewrite zlen_app; change (zlen (@nil (bytes * bytes))) with 0; lia). done.
  - pose proof (zlen_nonneg pre). pose proof (zlen_nonneg l). rewrite bool_decide_true by (rewrite zlen_app, zlen_cons; lia).
    unfold it_Key, it_Value. cbn [it_result it_idx]. rewrite !(decide_False (P := zlen pre = -1)) by lia.
    pose proof (goidx_app_r (E := storage_error) pre ((k, v) :: l) 0 ltac:(lia)) as Hg. rewrite Z.add_0_r in Hg.
    rewrite Hg, goidx_0. cbn [mbind outcome_bind]. specialize (IH (pre ++ [(k, v)]) fuel ltac:(lia)).
    rewrite zlen_snoc, Z.add_simpl_r, <- app_assoc in IH. cbn [app] in IH. by rewrite IH.
Qed.

Lemma iterate_all (d : MemDatabase) prefix :
  iterate (S (length (it_result (Mem_NewIteratorWithPrefix d prefix)))) (Mem_NewIteratorWithPrefix d prefix) =
    Ok ((fun kv => (Some kv.1, Some kv.2)) <$> NewIteratorWithPrefix d prefix).
Proof. exact (iterate_from [] (it_result (Mem_NewIteratorWithPrefix d prefix)) _ (le_n _)). Qed.

(** A batch has the effect of its writes one after the other. *)

Lemma batch_Put_Write k v b d :
  batch_Write (batch_Put k v b) d = (Mem_Put k v (batch_Write b d)).2.
Proof. unfold batch_Write, batch_Put, Mem_Put. cbn. by rewrite foldl_app, !CopyBytes_id. Qed.

(** ** Storing and retrieving *)

Definition encodable {A} `{RlpValue A} (a : A) : Prop :=
  genTypeInfo (rlp_type A) = Ok tt /\ has_type (rlp_type A) (to_rval a) = true /\ rsize (to_rval a) < 2 ^ 62 /\
  exists xs, items no_tags (rlp_type A) (to_rval a) = Ok xs.

Definition storable {A} `{RlpValue A} (a : A) : Prop :=
  genTypeInfo (rlp_type A) = Ok tt /\ survives no_tags (rlp_type A) (to_rval a) = true /\
  rsize (to_rval a) < 2 ^ 62 /\ of_rval (to_rval a) = Some a.

Definition encoding {A} `{RlpValue A} (a : A) : bytes :=
  match items no_tags (rlp_type A) (to_rval a) with Ok xs => all_bytes_of xs | _ => [] end.

(** A value, with its type, and the key under which it is stored. *)

Record storing : Type := Storing { st_key : bytes; st_type : Type; st_rlp : RlpValue st_type; st_value : st_type }.
Arguments Storing st_key {st_type st_rlp} st_value.
#[local] Existing Instance st_rlp.

Fixpoint last_stored (key : bytes) (l : list storing) : option storing :=
  match l with
  | [] => None
  | s :: l =>
      match last_stored key l with
      | Some s' => Some s'
      | None => if decide (st_key s = key) then Some s else None
      end
  end.

Lemma storable_encodable {A} `{RlpValue A} (a : A) : storable a -> encodable a.
Proof.
  intros (Hg & Hs & Hn & _). split_and!; [done|by eapply survives_type|done|by eapply survives_items].
Qed.

Lemma encodable_encodes {A} `{RlpValue A} (a : A) :
  encodable a -> EncodeToBytes new_encbuf (rlp_type A) (to_rval a) = Ok (encoding a) /\ zlen (encoding a) <= rsize (to_rval a).
Proof.
  intros (Hg & Ht & Hn & xs & Hx). pose proof (items_rsize _ _ _ _ Ht Hn Hx) as Hl.
  unfold encoding. rewrite Hx. split; [apply EncodeToBytes_ok; (done || lia)|done].
Qed.

Lemma storable_decodes {A} `{RlpValue A} (a : A) : storable a -> decode_value (encoding a) = Ok a.
Proof.
  intros Ha. destruct (storable_encodable a Ha) as (_ & Ht & _ & xs & Hx). destruct Ha as (Hg & Hs & Hn & Ho).
  pose proof (items_rsize _ _ _ _ Ht Hn Hx) as Hl. unfold encoding, decode_value. rewrite Hx.
  rewrite <- (app_nil_r (all_bytes_of xs)). rewrite (survives_decodes _ (to_rval a)) by (rewrite ?app_nil_r; (done || lia)).
  cbn. by rewrite Ho.
Qed.

Section StoreLemmas.
Context {D : Type} `{DatabaseLaws D}.

Lemma replace_bytes_spec d k v :
  exists d', replace_bytes k v d = (Ok tt, d') /\ contents d' = <[k := v]> (contents d).
Proof.
  unfold replace_bytes. rewrite Get_spec. destruct (contents d !! k) eqn:Hk.
  - destruct (Delete_spec d k) as (d1 & E1 & Hd1). destruct (Put_spec d1 k v) as (d2 & E2 & Hd2). exists d2.
    rewrite (go_bind_ok _ _ _ _ _ E1), E2, Hd2, Hd1. by rewrite insert_delete_eq.
  - rewrite decide_True by done. apply Put_spec.
Qed.

Lemma StoreBytes_spec {A} `{RlpValue A} (a : A) key d :
  encodable a -> exists d', StoreBytes key a d = (Ok tt, d') /\ contents d' = <[key := encoding a]> (contents d).
Proof.
  intros Ha. destruct (encodable_encodes a Ha) as [He _]. unfold StoreBytes. rewrite He. cbn [rlp_out].
  rewrite go_lift_ok. apply replace_bytes_spec.
Qed.

Lemma retrieve_spec {A} `{RlpValue A} (a : A) d key :
  storable a -> contents d !! key = Some (encoding a) -> retrieve d key = Ok a.
Proof. intros Ha Hk. unfold retrieve. rewrite Get_spec, Hk. by apply storable_decodes. Qed.

Lemma Get_contents d1 d2 k : contents d1 !! k = contents d2 !! k -> Get d1 k = Get d2 k.
Proof. intros Hk. by rewrite !Get_spec, Hk. Qed.

(** A sequence of values, of any types, each stored under a key. *)

Fixpoint store_all (l : list storing) : go D storage_error unit :=
  match l with
  | [] => mret tt
  | Storing key a :: l => _ ← StoreBytes key a; store_all l
  end.

Lemma store_all_spec l d :
  Forall (fun s => encodable (st_value s)) l ->
  exists d', store_all l d = (Ok tt, d') /\
    forall key, contents d' !! key = match last_stored key l with Some s => Some (encoding (st_value s)) | None => contents d !! key end.
Proof.
  intros Hl. revert d. induction Hl as [|[k A R a] l Ha _ IH]; intros d; [by exists d|].
  destruct (StoreBytes_spec a k d Ha) as (d1 & E & Hd). destruct (IH d1) as (d' & E' & Hd'). exists d'. split.
  - cbn [store_all]. by rewrite (go_bind_ok _ _ _ _ _ E).
  - intros key. rewrite Hd'. cbn [last_stored st_key]. destruct (last_stored key l); [done|]. rewrite Hd.
    case_decide as Hk; [subst; by rewrite lookup_insert_eq|by rewrite lookup_insert_ne].
Qed.

(** C30: What is stored is retrieved.  In any database that keeps its contract, any
    sequence of values, of any types that can be serialised, is stored under any keys.
    Afterwards retrieving a key gives the last value stored under it, if that value
    survives the RLP round trip, and a key under which nothing was stored holds what
    it held before. *)
Theorem store_retrieve (l : list storing) (d : D) :
  Forall (fun s => encodable (st_value s)) l ->
  exists d', store_all l d = (Ok tt, d') /\
    forall key, match last_stored key l with
                | Some s => storable (st_value s) -> retrieve d' key = Ok (st_value s)
                | None => Get d' key = Get d key
                end.
Proof.
  intros Hl. destruct (store_all_spec l d Hl) as (d' & E & Hd). exists d'. split; [done|]. intros key. specialize (Hd key).
  destruct (last_stored key l) as [s|]; [intros Hs; by apply retrieve_spec|by apply Get_contents].
Qed.

(** The same under a version, whose last byte is followed by a byte that is lost. *)

Lemma StoreBytesWithVersion_spec {A} `{RlpValue A} (a : A) key ver d :
  encodable a -> exists d', StoreBytesWithVersion key ver a d = (Ok tt, d') /\
    contents d' = <[key := Version_Bytes ver ++ encoding a]> (contents d).
Proof.
  intros Ha. destruct (encodable_encodes a Ha) as [He _]. unfold StoreBytesWithVersion. rewrite He. cbn [rlp_out].
  rewrite go_lift_ok. apply replace_bytes_spec.
Qed.

Lemma splitValueAndVersion_spec ver val :
  wf_version ver -> 1 <= zlen val -> splitValueAndVersion (Version_Bytes ver ++ val) = Ok (drop 1 val, ver).
Proof.
  intros Hv Hl. pose proof (Version_Bytes_length ver Hv) as H29. unfold splitValueAndVersion.
  rewrite decide_False by (rewrite zlen_app; lia).
  pose proof (goslice_prefix (E := storage_error) (Version_Bytes ver) val) as Hp. rewrite H29 in Hp. rewrite Hp.
  destruct val as [|x val]; [change (zlen (@nil Z)) with 0 in Hl; lia|].
  pose proof (goslice_suffix (E := storage_error) (Version_Bytes ver ++ [x]) val) as Hsx.
  rewrite zlen_snoc, H29, <- app_assoc in Hsx. change (29 + 1) with 30 in Hsx. cbn [app] in Hsx.
  cbn [mbind outcome_bind]. rewrite Hsx. cbn [mbind outcome_bind]. rewrite Version_roundtrip by done. done.
Qed.

Lemma retrieveWithVersion_spec d key ver val :
  wf_version ver -> 1 <= zlen val -> contents d !! key = Some (Version_Bytes ver ++ val) ->
  retrieveWithVersion d key = Ok (drop 1 val, ver).
Proof.
  intros Hv Hl Hk. unfold retrieveWithVersion. rewrite Get_spec, Hk. cbn [mbind outcome_bind]. by apply splitValueAndVersion_spec.
Qed.
End StoreLemmas.

(** ** Prefixes *)

Lemma foldl_insert_Some (l : list (bytes * bytes)) : forall (m : gmap bytes bytes) k v,
  NoDup (l.*1) -> foldl (fun (m : gmap bytes bytes) kv => <[kv.1 := kv.2]> m) m l !! k = Some v <->
    (k, v) ∈ l \/ ((k ∉ l.*1) /\ m !! k = Some v).
Proof.
  induction l as [|[k0 v0] l IH]; intros m k v Hnd; cbn in *.
  - rewrite elem_of_nil. split; [intros ?; right; split; [apply not_elem_of_nil|done]|]. by intros [?|[_ ?]].
  - apply NoDup_cons in Hnd as [Hk0 Hnd]. rewrite IH, !elem_of_cons by done. split.
    + intros [?|[Hk Hm]]; [tauto|]. destruct (decide (k = k0)) as [->|Hne].
      * rewrite lookup_insert_eq in Hm. injection Hm as ->. tauto.
      * rewrite lookup_insert_ne in Hm by done. right. split; [|done]. by intros [->|].
    + intros [[Heq|Hin]|[Hk Hm]]; [|by left|].
      * injection Heq as -> ->. right. by rewrite lookup_insert_eq.
      * right. rewrite lookup_insert_ne by (intros ->; apply Hk; by left). split; [|done]. intros ?. apply Hk. by right.
Qed.

Lemma NoDup_fst_filter (P : bytes * bytes -> Prop) `{!forall x, Decision (P x)} (l : list (bytes * bytes)) :
  NoDup (l.*1) -> NoDup ((filter P l).*1).
Proof.
  induction l as [|x l IH]; intros Hnd; [done|]. cbn in Hnd. apply NoDup_cons in Hnd as [Hx Hnd]. rewrite filter_cons.
  case_decide; [|by apply IH]. cbn. constructor; [|by apply IH].
  intros Hin. apply Hx. apply list_elem_of_fmap in Hin as (y & -> & Hy). apply list_elem_of_filter in Hy as [_ Hy].
  by apply list_elem_of_fmap_2.
Qed.

Section Prefixes.
Context {D : Type} `{DatabaseLaws D}.

Lemma getprefix_spec (d : D) p : getprefix d p = filter (fun kv => HasPrefix kv.1 p = true) (contents d).
Proof.
  apply map_eq. intros k. apply option_eq. intros v. unfold getprefix.
  assert (NoDup ((NewIteratorWithPrefix d p).*1)) as Hnd.
  { rewrite Iterator_spec. apply NoDup_fst_filter, NoDup_fst_map_to_list. }
  rewrite foldl_insert_Some by done. rewrite Iterator_spec, list_elem_of_filter, elem_of_map_to_list, lookup_empty,
    map_lookup_filter_Some. cbn [fst]. split; [intros [[? ?]|[_ ?]]; done|]. intros [? ?]. by left.
Qed.

Lemma getCountByPrefix_spec (d : D) p : getCountByPrefix d p = Z.of_nat (base.size (getprefix d p)).
Proof.
  unfold getCountByPrefix, zlen. f_equal. rewrite getprefix_spec, Iterator_spec, <- length_map_to_list.
  apply Permutation_length, NoDup_Permutation.
  - apply NoDup_filter, NoDup_map_to_list.
  - apply NoDup_map_to_list.
  - intros [k v]. rewrite list_elem_of_filter, !elem_of_map_to_list, map_lookup_filter_Some. tauto.
Qed.
End Prefixes.

(** ** Byte strings *)

Lemma bytes_storable (b : bytes) : wf_bytes b -> zlen b < 2 ^ 61 -> storable b.
Proof.
  intros Hb Hl. unfold storable. cbn [rlp_type to_rval of_rval rlp_bytes_value genTypeInfo survives rsize rv_bytes].
  split_and!; [done|by apply bool_decide_eq_true|lia|done].
Qed.

(** The second value stored under a key replaces the first. *)

Lemma store_retrieve_witness :
  exists d', store_all (D := MemDatabase) [Storing [1] [7; 200]; Storing [2] [9]; Storing [1] [8]] NewMemDatabase = (Ok tt, d') /\
    retrieve d' [1] = Ok [8].
Proof.
  assert (forall b : bytes, wf_bytes b -> zlen b < 2 ^ 61 -> encodable b) as He by (intros; by apply storable_encodable, bytes_storable).
  destruct (store_retrieve (D := MemDatabase) [Storing [1] [7; 200]; Storing [2] [9]; Storing [1] [8]] NewMemDatabase) as (d' & E & Hr).
  - repeat constructor; apply He; try done; by apply (bool_decide_unpack _).
  - exists d'. split; [exact E|]. apply (Hr [1]). apply bytes_storable; [by apply (bool_decide_unpack _)|done].
Defined.
