(* ===== verification/StateDb.v ===== *)
(** * StateDb: accounts, votes, contract state, mediators and properties on disk

    The state and property databases of [dag/storage] ([statedb*.go], [mediator.go],
    [global_property.go], [mediator_schedule.go]) over any [Database], with the
    records they serialise.  Keys are a prefix of [dag/constants] and an identifier.
    The points of the threshold signature (kyber) and the nodes of the network are
    kept as the abstract values their text stands for.

    The theorems: which contract states are read back as they were written; what a
    vote for mediators does to an account, and whom it is read back for; that
    counting votes stops the node as soon as there is a voter; which mediators and
    which dynamic properties are retrieved as they were stored, and what becomes of
    a mediator with too many missed units. *)

From S2P Require Import Prelude Digits HexUtil Transaction Crypto Address Rlp RlpEncode RlpDecode RlpSound RlpRoundTrip RlpPartial.
From S2P Require Import KvStore Vote Mediators.

#[local] Open Scope Z_scope.

(** ** Keys *)

Definition lit (s : string) : bytes := (fun c => Z.of_N (Ascii.N_of_ascii c)) <$> String.list_ascii_of_string s.

Abbreviation CONTRACT_STATE_PREFIX := (lit "cs") (only parsing).
Abbreviation CONTRACT_TPL := (lit "ct") (only parsing).
Abbreviation MEDIATOR_INFO_PREFIX := (lit "mi") (only parsing).
Abbreviation DYNAMIC_GLOBALPROPERTY_PREFIX := (lit "dp") (only parsing).
Abbreviation MEDIATOR_SCHEME_PREFIX := (lit "ms") (only parsing).
Abbreviation ACCOUNT_INFO_PREFIX := (lit "ai") (only parsing).
Abbreviation CONF_PREFIX := (lit "cf") (only parsing).
Abbreviation CURRENTCHAININDEX_PREFIX := (lit "ccix") (only parsing).
Abbreviation STATE_VOTER_LIST := (lit "vl") (only parsing).
Abbreviation CREATE_VOTE_PREFIX := (lit "vo") (only parsing).

Definition KeyConnector (keys : list bytes) : bytes := foldl app [] keys.

Abbreviation DynGlobalPropDBKey := (DYNAMIC_GLOBALPROPERTY_PREFIX ++ lit "DynamicGlobalProperty") (only parsing).
Abbreviation MediatorSchlDBKey := (MEDIATOR_SCHEME_PREFIX ++ lit "MediatorSchedule") (only parsing).

(** ** What is serialised *)

Definition rv_int (v : rval) : option Z := match v with VInt z => Some z | _ => None end.
Definition rv_list (v : rval) : option (list rval) := match v with VList l => Some l | _ => None end.

Record uint16 : Type := U16 { u16_val : Z }.

#[export] Instance rlp_uint16 : RlpValue uint16 := {|
  rlp_type := TUint 16; to_rval t := VInt (u16_val t); of_rval v := U16 <$> rv_int v |}.

#[export] Instance rlp_bytes_list : RlpValue (list bytes) := {|
  rlp_type := TSlice TByteSlice;
  to_rval l := VList (VBytes <$> l);
  of_rval v := l ← rv_list v; mapM rv_bytes l |}.

Record VoteInfo : Type := mkVoteInfo { VoteType : Z; VoteContent : bytes }.
Record AccountInfo : Type := mkAccountInfo { PtnBalance : Z; Votes : list VoteInfo }.

Definition TYPE_MEDIATOR : Z := 0.

Definition VoteInfo_type : rtype := TStruct [(no_tags, TUint 8); (no_tags, TByteSlice)].
Definition VoteInfo_to (v : VoteInfo) : rval := VList [VInt (VoteType v); VBytes (VoteContent v)].
Definition VoteInfo_of (v : rval) : option VoteInfo :=
  match v with VList [VInt t; VBytes c] => Some (mkVoteInfo t c) | _ => None end.

#[export] Instance rlp_AccountInfo : RlpValue AccountInfo := {|
  rlp_type := TStruct [(no_tags, TUint 64); (no_tags, TSlice VoteInfo_type)];
  to_rval a := VList [VInt (PtnBalance a); VList (VoteInfo_to <$> Votes a)];
  of_rval v := match v with
               | VList [VInt b; VList vs] => mkAccountInfo b <$> mapM VoteInfo_of vs
               | _ => None
               end |}.

Record MediatorInfo : Type := mkMediatorInfo {
  AddStr : bytes; InitPartPub_str : bytes; Node_str : bytes; Url_str : bytes; TotalMissed_info : Z }.

#[export] Instance rlp_MediatorInfo : RlpValue MediatorInfo := {|
  rlp_type := TStruct [(no_tags, TString); (no_tags, TString); (no_tags, TString); (no_tags, TString); (no_tags, TInt 64)];
  to_rval m := VList [VBytes (AddStr m); VBytes (InitPartPub_str m); VBytes (Node_str m); VBytes (Url_str m);
                      VInt (TotalMissed_info m)];
  of_rval v := match v with
               | VList [VBytes a; VBytes p; VBytes n; VBytes u; VInt t] => Some (mkMediatorInfo a p n u t)
               | _ => None
               end |}.

#[export] Instance rlp_DynamicGlobalProperty : RlpValue DynamicGlobalProperty := {|
  rlp_type := TStruct [(no_tags, TUint 64); (no_tags, TByteArray 32); (no_tags, TInt 64); (no_tags, TUint 64); (no_tags, TUint 32)];
  to_rval p := VList [VInt (HeadUnitNum p); VBytes (HeadUnitHash p); VInt (HeadUnitTime p); VInt (CurrentASlot p);
                      VInt (LastIrreversibleUnitNum p)];
  of_rval v := match v with
               | VList [VInt n; VBytes h; VInt t; VInt a; VInt l] => Some (mkDynamicGlobalProperty n h t a l)
               | _ => None
               end |}.

Record MediatorSchl : Type := mkMediatorSchl { CurrentShuffledMediators : list Address }.

#[export] Instance rlp_MediatorSchl : RlpValue MediatorSchl := {|
  rlp_type := TStruct [(no_tags, TSlice (TByteArray 21))];
  to_rval m := VList [VList (VBytes <$> CurrentShuffledMediators m)];
  of_rval v := match v with VList [VList l] => mkMediatorSchl <$> mapM rv_bytes l | _ => None end |}.

#[export] Instance rlp_ChainIndex : RlpValue ChainIndex := {|
  rlp_type := TStruct [(no_tags, TByteArray 16); (no_tags, TBool); (no_tags, TUint 64)];
  to_rval c := VList [VBytes (AssetID c); VBool (IsMain c); VInt (Index c)];
  of_rval v := match v with VList [VBytes a; VBool m; VInt i] => Some (mkChainIndex a m i) | _ => None end |}.

(** ** Accounts and votes *)

Definition read {D A} (f : D -> outcome storage_error A) : go D storage_error A := fun d => (f d, d).

Definition addr_out {A} (o : outcome addressError A) : outcome storage_error A :=
  match o with Ok a => Ok a | Err _ => Err OtherError | Panic => Panic end.

Section Accounts.
Context {D : Type} `{Database D}.

Definition account_key (address : Address) : bytes := ACCOUNT_INFO_PREFIX ++ Address_Bytes address.

Definition GetAccountInfo (address : Address) (d : D) : outcome storage_error AccountInfo := retrieve d (account_key address).

Definition SaveAccountInfo (address : Address) (info : AccountInfo) : go D storage_error unit :=
  StoreBytes (account_key address) info.

(** [nil] on an error. *)

Definition GetAccountVoteInfo (address : Address) (voteType : Z) (d : D) : outcome storage_error (list bytes) :=
  match GetAccountInfo address d with
  | Ok accountInfo => Ok (VoteContent <$> filter (fun v => VoteType v = voteType) (Votes accountInfo))
  | Err _ => Ok []
  | Panic => Panic
  end.

Definition AddVote2Account (address : Address) (voteInfo : VoteInfo) : go D storage_error unit :=
  accountInfo ← read (GetAccountInfo address);
  SaveAccountInfo address (mkAccountInfo (PtnBalance accountInfo) (Votes accountInfo ++ [voteInfo])).

Definition BytesEqual (a b : bytes) : bool := bool_decide (a = b).

(** [candidates[i+stride]], where [stride] is the number of all candidates. *)

Definition replace_one (candidates : list Address) (stride i : Z) (v : VoteInfo) : outcome storage_error VoteInfo :=
  c ← goidx candidates i;
  if BytesEqual (VoteContent v) (Address_Bytes c) then
    c' ← goidx candidates (i + stride); Ok (mkVoteInfo (VoteType v) (Address_Bytes c'))
  else Ok v.

Fixpoint replace_all (candidates : list Address) (stride : Z) (indices : list Z) (votes : list VoteInfo) :
    outcome storage_error (list VoteInfo) :=
  match indices with
  | [] => Ok votes
  | i :: indices => votes ← mapM (replace_one candidates stride i) votes; replace_all candidates stride indices votes
  end.

Definition new_votes (mode : Z) (candidates : list Address) (votes : list VoteInfo) : outcome storage_error (list VoteInfo) :=
  let newVotes := filter (fun v => VoteType v <> 0) votes in
  let mediatorVotes := filter (fun v => VoteType v = 0) votes in
  if decide (mode = 0) then Ok (newVotes ++ ((fun c => mkVoteInfo TYPE_MEDIATOR (Address_Bytes c)) <$> candidates))
  else if decide (mode = 1) then
    if decide (zlen candidates mod 2 <> 0) then Err ErrEvenCandidates else
    let stride := zlen candidates in
    mediatorVotes ← replace_all candidates stride (seqZ 0 stride) mediatorVotes;
    Ok (newVotes ++ mediatorVotes)
  else if decide (mode = 2) then
    let pairFlag v := existsb (fun c => BytesEqual (Address_Bytes c) (VoteContent v)) candidates in
    Ok (newVotes ++ filter (fun v => pairFlag v = false) mediatorVotes)
  else if decide (mode = 3) then Ok newVotes
  else Err ErrInvalidMode.

Definition UpdateMediatorVote (voter : Address) (candidates : list Address) (mode : Z) : go D storage_error unit :=
  accountInfo ← read (GetAccountInfo voter);
  newVotes ← lift (new_votes mode candidates (Votes accountInfo));
  SaveAccountInfo voter (mkAccountInfo (PtnBalance accountInfo) newVotes).

Definition GetAccountMediatorVote (voterAddress : Address) (d : D) : outcome storage_error (list Address * Z) :=
  accountInfo ← GetAccountInfo voterAddress d;
  let mediatorVotes := (fun v => BytesToAddress (VoteContent v)) <$> filter (fun v => VoteType v = 0) (Votes accountInfo) in
  Ok (mediatorVotes, PtnBalance accountInfo).

Definition UpdateVoterList (voter : Address) (voteType term : Z) : go D storage_error unit :=
  StoreBytes (KeyConnector [STATE_VOTER_LIST; [u8 voteType]; Address_Bytes voter]) (U16 term).

Definition CreateUserVote (detail : list bytes) (bHash : bytes) : go D storage_error unit :=
  StoreBytes (KeyConnector [CREATE_VOTE_PREFIX; bHash]) detail.

(** [*p] *)

Definition deref {A} (p : option A) : outcome storage_error A := match p with Some a => Ok a | None => Panic end.

Context `{Base58}.

(** [rlp.DecodeBytes(term, pTerm)] refuses the nil pointer [pTerm], which is then
    dereferenced. *)

Fixpoint voter_loop (MinTermLimit : Z) (entries : list (bytes * bytes)) (res : list Address) : outcome storage_error (list Address) :=
  match entries with
  | [] => Ok res
  | (voter, term) :: entries =>
      let pTerm : option Z := None in
      t ← deref pTerm;
      if decide (t >= MinTermLimit) then
        address ← addr_out (string_to_address voter); voter_loop MinTermLimit entries (res ++ [address])
      else voter_loop MinTermLimit entries res
  end.

Definition voter_list_key (voteType : Z) : bytes := KeyConnector [STATE_VOTER_LIST; [u8 voteType]].

Definition GetVoterList (voteType MinTermLimit : Z) (d : D) : outcome storage_error (list Address) :=
  voter_loop MinTermLimit (map_to_list (getprefix d (voter_list_key voteType))) [].
End Accounts.

(** ** Contract state and configuration *)

Section Contracts.
Context {D : Type} `{Database D}.

Definition SaveContractState_prefix {A} `{RlpValue A} (prefix id field : bytes) (value : A) (version : StateVersion) :
    go D storage_error unit :=
  let key := prefix ++ id in
  let key := key ++ field in
  StoreBytesWithVersion key version value.

Definition SaveContractState {A} `{RlpValue A} (id name : bytes) (value : A) (version : StateVersion) : go D storage_error unit :=
  SaveContractState_prefix CONTRACT_STATE_PREFIX id name value version.

Definition SaveContractTemplateState {A} `{RlpValue A} (id name : bytes) (value : A) (version : StateVersion) :
    go D storage_error unit :=
  SaveContractState_prefix CONTRACT_TPL id name value version.

(** [nil, nil] on an error. *)

Definition GetContractState (id field : bytes) (d : D) : outcome storage_error (option (StateVersion * bytes)) :=
  let key := CONTRACT_STATE_PREFIX ++ id in
  let key := key ++ field in
  match retrieveWithVersion d key with
  | Ok (data, version) => Ok (Some (version, data))
  | Err _ => Ok None
  | Panic => Panic
  end.

(** The states and the last error of the loop over the entries; a state that cannot
    be split has nil fields. *)

Fixpoint states_loop (n : nat) (entries : list (bytes * bytes)) (result : gmap bytes (option (bytes * StateVersion)))
    (err : option storage_error) : outcome storage_error (gmap bytes (option (bytes * StateVersion)) * option storage_error) :=
  match entries with
  | [] => Ok (result, err)
  | (dbkey, state_version) :: entries =>
      realKey ← goslice dbkey (Z.of_nat n) (zlen dbkey);
      let add st := if decide (realKey <> []) then <[realKey := st]> result else result in
      match splitValueAndVersion state_version with
      | Ok (state, version) => states_loop n entries (add (Some (state, version))) err
      | Err err0 => states_loop n entries (add None) (Some err0)
      | Panic => Panic
      end
  end.

Definition GetContractStatesById (id : bytes) (d : D) :
    outcome storage_error (gmap bytes (option (bytes * StateVersion)) * option storage_error) :=
  let key := CONTRACT_STATE_PREFIX ++ id in
  let data := map_to_list (getprefix d key) in
  if decide (data = []) then Err ErrStateNull else states_loop (length key) data ∅ None.

Record ContractWriteSet : Type := mkContractWriteSet { IsDelete : bool; ws_Key : bytes; ws_Value : bytes }.

Definition GetConfig (name : bytes) (d : D) : outcome storage_error (bytes * StateVersion) :=
  retrieveWithVersion d (CONF_PREFIX ++ name).

Fixpoint SaveConfig (confs : list ContractWriteSet) (stateVersion : StateVersion) : go D storage_error unit :=
  match confs with
  | [] => mret tt
  | conf :: confs =>
      _ ← StoreBytesWithVersion (CONF_PREFIX ++ ws_Key conf) stateVersion (ws_Value conf);
      SaveConfig confs stateVersion
  end.

Definition SaveChainIndex (index : ChainIndex) : go D storage_error unit :=
  bytes ← lift (rlp_out (EncodeToBytes new_encbuf (rlp_type ChainIndex) (to_rval index)));
  Put (CURRENTCHAININDEX_PREFIX ++ ID_String (AssetID index)) bytes.

Definition GetCurrentChainIndex (assetId : bytes) (d : D) : outcome storage_error ChainIndex :=
  bytes ← Get d (CURRENTCHAININDEX_PREFIX ++ ID_String assetId); decode_value bytes.
End Contracts.

(** ** Mediators and properties *)

(** The encodings of the characters that [strings.TrimSpace] trims. *)

Definition spaces : list bytes :=
  [[9]; [10]; [11]; [12]; [13]; [32]; [0xC2; 0x85]; [0xC2; 0xA0]; [0xE1; 0x9A; 0x80]; [0xE2; 0x80; 0xA8];
   [0xE2; 0x80; 0xA9]; [0xE2; 0x80; 0xAF]; [0xE2; 0x81; 0x9F]; [0xE3; 0x80; 0x80]] ++
  ((fun i => [0xE2; 0x80; 0x80 + i]) <$> seqZ 0 11).

Definition quotes : list bytes := [[34]].

Definition trim_one (cut : list bytes) (s : bytes) : option bytes :=
  match find (fun c => HasPrefix s c) cut with Some c => Some (drop (length c) s) | None => None end.

Fixpoint trim_left (fuel : nat) (cut : list bytes) (s : bytes) : bytes :=
  match fuel with
  | O => s
  | S fuel => match trim_one cut s with Some s => trim_left fuel cut s | None => s end
  end.

Definition trim (cut : list bytes) (s : bytes) : bytes :=
  let s := trim_left (length s) cut s in rev (trim_left (length s) (map (@rev Z) cut) (rev s)).

Definition TrimSpace (s : bytes) : bytes := trim spaces s.
Definition Trim_quotes (s : bytes) : bytes := trim quotes s.

Section Mediators.
Context {D : Type} `{Database D} `{Base58}.
Context {Point Node : Type} (PointToStr : Point -> bytes) (StrToPoint : bytes -> Point).
Context (Node_String : Node -> bytes) (ParseNode : bytes -> option Node).

Record core_Mediator : Type := mkCoreMediator {
  cm_Address : Address; cm_InitPartPub : Point; cm_Node : option Node; cm_Url : bytes; cm_TotalMissed : Z }.

(** An invalid address is logged and used. *)

Definition StrToMedAdd (addStr : bytes) : outcome storage_error Address :=
  addr_out (string_to_address (Trim_quotes (TrimSpace addStr))).

Definition mediatorKey (address : Address) : bytes := MEDIATOR_INFO_PREFIX ++ Address_Str address.

(** [md.Node.String()] panics without a node. *)

Definition mediatorToInfo (md : core_Mediator) : outcome storage_error MediatorInfo :=
  node ← deref (cm_Node md);
  Ok (mkMediatorInfo (Address_Str (cm_Address md)) (PointToStr (cm_InitPartPub md)) (Node_String node) [] (cm_TotalMissed md)).

Definition infoToMediator (mi : MediatorInfo) : outcome storage_error core_Mediator :=
  address ← StrToMedAdd (AddStr mi);
  Ok (mkCoreMediator address (StrToPoint (InitPartPub_str mi)) (ParseNode (Node_str mi)) [] (TotalMissed_info mi)).

Definition StoreMediatorInfo (mi : MediatorInfo) : go D storage_error unit :=
  add ← lift (StrToMedAdd (AddStr mi)); StoreBytes (mediatorKey add) mi.

Definition StoreMediator (med : core_Mediator) : go D storage_error unit :=
  mi ← lift (mediatorToInfo med); StoreMediatorInfo mi.

(** Every error is logged and gives [nil, nil]. *)

Definition RetrieveMediator (address : Address) (d : D) : outcome storage_error (option core_Mediator) :=
  match retrieve d (mediatorKey address) with
  | Ok mi => med ← infoToMediator mi; Ok (Some med)
  | Err _ => Ok None
  | Panic => Panic
  end.

Definition GetMediatorCount (d : D) : Z := getCountByPrefix d MEDIATOR_INFO_PREFIX.

Definition IsMediator (address : Address) (d : D) : outcome storage_error bool := Has d (mediatorKey address).

Fixpoint mediators_loop (entries : list (bytes * bytes)) (result : gmap bytes bool) : outcome storage_error (gmap bytes bool) :=
  match entries with
  | [] => Ok result
  | (key, _) :: entries =>
      let addStr := if HasPrefix key MEDIATOR_INFO_PREFIX then drop (length MEDIATOR_INFO_PREFIX) key else key in
      address ← StrToMedAdd addStr; mediators_loop entries (<[address := true]> result)
  end.

Definition GetMediators (d : D) : outcome storage_error (gmap bytes bool) :=
  mediators_loop (NewIteratorWithPrefix d MEDIATOR_INFO_PREFIX) ∅.

(** [GetMediator], [TotalMissed++] and [SaveMediator], whose error is dropped. *)

Definition miss_unit (mediatorMissed : Address) : go D storage_error unit :=
  med ← read (RetrieveMediator mediatorMissed);
  med ← lift (deref med);
  let med := mkCoreMediator (cm_Address med) (cm_InitPartPub med) (cm_Node med) (cm_Url med) (i64 (cm_TotalMissed med + 1)) in
  ignore_err (StoreMediator med).
End Mediators.

Definition NewDynGlobalProp : DynamicGlobalProperty := mkDynamicGlobalProperty 0 (replicate 32 0) 0 0 0.

(** The readers of the properties return what they have read, together with the error. *)

Section Properties.
Context {D : Type} `{Database D} (torn : rtype -> bytes -> rval).

Definition StoreDynGlobalProp (dgp : DynamicGlobalProperty) : go D storage_error unit := StoreBytes DynGlobalPropDBKey dgp.

Definition RetrieveDynGlobalProp (d : D) : outcome storage_error (DynamicGlobalProperty * option storage_error) :=
  retrieve_left torn NewDynGlobalProp d DynGlobalPropDBKey.

(** The error is dropped. *)

Definition GetDynGlobalProp (d : D) : outcome storage_error DynamicGlobalProperty :=
  '(dgp, _) ← RetrieveDynGlobalProp d; Ok dgp.

Definition StoreMediatorSchl (ms : MediatorSchl) : go D storage_error unit := StoreBytes MediatorSchlDBKey ms.

Definition RetrieveMediatorSchl (d : D) : outcome storage_error (MediatorSchl * option storage_error) :=
  retrieve_left torn (mkMediatorSchl []) d MediatorSchlDBKey.
End Properties.

(** ** Counting the votes for mediators *)

Section Sorted.
Context {D : Type} `{Database D} `{Base58} `{!Sorting (A := bytes)}.

Fixpoint ballot_loop (voters : list Address) (d : D) (voteBox : BaseVoteModel (A := bytes)) :
    outcome storage_error (BaseVoteModel (A := bytes)) :=
  match voters with
  | [] => Ok voteBox
  | voter :: voters =>
      '(to, weight) ← GetAccountMediatorVote voter d;
      match AddToBox weight (Many (Slice (Some <$> to))) voteBox with
      | Ok voteBox => ballot_loop voters d voteBox
      | _ => Panic
      end
  end.

(** [range] is the order in which Go enumerates the map of the candidates. *)

Definition GetSortedVote (range : gmap (option bytes) Z -> list (option bytes * Z)) (ReturnNumber voteType minTermLimit : Z)
    (d : D) : outcome storage_error (list Address) :=
  voterList ← GetVoterList voteType minTermLimit d;
  addresses ← GetMediators d;
  let voteBox := RegisterCandidates (MapKeys (Some <$> (map_to_list addresses).*1)) NewBaseVoteModel in
  voteBox ← ballot_loop voterList d voteBox;
  match GetResult ReturnNumber (range (candidatesStatus voteBox)) with Ok res => Ok res | _ => Panic end.
End Sorted.

(** ** Contract state *)

Lemma bytes_encoding (b : bytes) : encoding b = rlp_bytes (Str b).
Proof. unfold encoding. cbn [rlp_type to_rval rlp_bytes_value items]. apply all_bytes_1. Qed.

Lemma Str_nonempty b : 1 <= zlen (rlp_bytes (Str b)).
Proof.
  cbn [rlp_bytes]. destruct (single b) eqn:Hs.
  - destruct b; [discriminate Hs|]. rewrite zlen_cons. zlen_facts. lia.
  - unfold encoded. rewrite zlen_app. pose proof (zlen_nonneg b). pose proof (header_length 128 183 (zlen b)).
    unfold zlen in *. lia.
Qed.

Lemma drop_header b :
  drop 1 (rlp_bytes (Str b)) = if single b then [] else if decide (zlen b <= 55) then b else be_min (zlen b) ++ b.
Proof.
  cbn [rlp_bytes]. destruct (single b) eqn:Hs; [by destruct b as [|x [|y b]]|]. unfold encoded, header.
  destruct (decide (zlen b < 56)); [by rewrite decide_True by lia|by rewrite decide_False by lia].
Qed.

Lemma read_back_iff b :
  (if single b then [] else if decide (zlen b <= 55) then b else be_min (zlen b) ++ b) = b <-> single b = false /\ zlen b <= 55.
Proof.
  destruct (single b) eqn:Hs; [split; [intros <-; discriminate Hs|by intros []]|].
  case_decide; [tauto|]. split; [|intros []; lia]. intros E. apply (f_equal zlen) in E.
  rewrite zlen_app, be_min_zlen in E. pose proof (bytelen_spec (zlen b) ltac:(lia)). lia.
Qed.

Section ContractState.
Context {D : Type} `{DatabaseLaws D}.

(** C32: Which contract states are read back.  [GetContractState] after
    [SaveContractState] gives the version, and the value without the first byte of
    its encoding.  A single byte below 128 comes back empty, any other value of at most
    55 bytes comes back as it was, and a longer value comes back with its length, in as
    few big-endian bytes as it takes, in front; so what comes back is the value itself
    exactly if it is not a single byte below 128 and has at most 55 bytes. *)
Theorem contract_state_readback (id name b : bytes) ver (d : D) :
  wf_version ver -> wf_bytes b -> zlen b < 2 ^ 61 ->
  let data := if single b then [] else if decide (zlen b <= 55) then b else be_min (zlen b) ++ b in
  exists d', SaveContractState id name b ver d = (Ok tt, d') /\
    GetContractState id name d' = Ok (Some (ver, data)) /\
    (data = b <-> single b = false /\ zlen b <= 55).
Proof.
  intros Hv Hb Hl data. set (key := (CONTRACT_STATE_PREFIX ++ id) ++ name).
  destruct (StoreBytesWithVersion_spec b key ver d (storable_encodable b (bytes_storable b Hb Hl))) as (d' & E & Hd).
  exists d'. split_and!; [exact E| |apply read_back_iff].
  unfold GetContractState. cbv zeta. fold key.
  rewrite (retrieveWithVersion_spec d' key ver (rlp_bytes (Str b))); [by rewrite drop_header|done|apply Str_nonempty|].
  by rewrite Hd, lookup_insert_eq, bytes_encoding.
Qed.
End ContractState.

(** ** Votes of an account *)

Definition wf_vote (v : VoteInfo) : Prop := is_byte (VoteType v) /\ wf_bytes (VoteContent v).

Definition wf_account (a : AccountInfo) : Prop :=
  0 <= PtnBalance a < 2 ^ 64 /\ Forall wf_vote (Votes a) /\ rsize (to_rval a) < 2 ^ 62.

Lemma votes_back vs : mapM VoteInfo_of (VoteInfo_to <$> vs) = Some vs.
Proof. induction vs as [|[t c] vs IH]; [done|]. cbn. by rewrite IH. Qed.

Lemma account_storable a : wf_account a -> storable a.
Proof.
  intros (Hb & Hv & Hs). unfold storable. split_and!; [done| |done|].
  - cbn [rlp_type to_rval rlp_AccountInfo survives tail no_tags negb orb]. rewrite !andb_true_r.
    apply andb_true_iff. split; [by apply bool_decide_eq_true|].
    clear -Hv. induction Hv as [|v vs [Ht Hc] _ IH]; [done|]. cbn [fmap list_fmap forallb]. rewrite IH, andb_true_r.
    cbn [VoteInfo_type VoteInfo_to survives tail no_tags negb orb]. rewrite !andb_true_r. apply andb_true_iff.
    split; by apply bool_decide_eq_true.
  - cbn [to_rval of_rval rlp_AccountInfo]. rewrite votes_back. by destruct a.
Qed.

(** The address a stored vote is read back for. *)

Definition shifted (c : Address) : Address := 0 :: take 20 c.

Lemma BytesToAddress_shift c : wf_address c -> BytesToAddress (Address_Bytes c) = shifted c.
Proof.
  intros [Hl _]. unfold AddressLength, zlen in Hl. do 21 (destruct c as [|? c]; [cbn in Hl; lia|]).
  destruct c; [done|cbn in Hl; lia].
Qed.

Lemma shifted_fixpoint c : wf_address c -> shifted c = c -> c = zero_Address.
Proof.
  intros [Hl _] Hc. unfold AddressLength, zlen in Hl. do 21 (destruct c as [|? c]; [cbn in Hl; lia|]).
  destruct c; [|cbn in Hl; lia]. unfold shifted in Hc. cbn in Hc. by simplify_eq.
Qed.

(** What replacing votes does: [candidates[i+stride]] is always out of range. *)

Definition voted_for (votes : list VoteInfo) (c : Address) : bool :=
  existsb (fun v => BytesEqual (VoteContent v) (Address_Bytes c)) votes.

Lemma mapM_outcome_cons {E A B} (f : A -> outcome E B) x l : mapM f (x :: l) = y ← f x; k ← mapM f l; mret (y :: k).
Proof. done. Qed.

Lemma replace_one_spec cs i c v :
  goidx (E := storage_error) cs i = Ok c -> 0 <= i ->
  replace_one cs (zlen cs) i v = if BytesEqual (VoteContent v) (Address_Bytes c) then Panic else Ok v.
Proof. intros Hc Hi. unfold replace_one. rewrite Hc. cbn. by rewrite goidx_out_of_range by lia. Qed.

Lemma replace_pass cs i c votes :
  goidx (E := storage_error) cs i = Ok c -> 0 <= i ->
  mapM (replace_one cs (zlen cs) i) votes = if voted_for votes c then Panic else Ok votes.
Proof.
  intros Hc Hi. induction votes as [|v votes IH]; [done|]. rewrite mapM_outcome_cons, (replace_one_spec _ _ c), IH by done.
  cbn [voted_for existsb]. fold (voted_for votes c). by destruct (BytesEqual _ _), (voted_for votes c).
Qed.

Lemma replace_all_spec cs votes l r k :
  cs = l ++ r -> k = zlen l ->
  replace_all cs (zlen cs) (seqZ k (zlen r)) votes = if existsb (voted_for votes) r then Panic else Ok votes.
Proof.
  revert l k. induction r as [|c r IH]; intros l k -> ->; [done|].
  rewrite zlen_cons, seqZ_cons by zlen_lia. cbn [replace_all existsb].
  rewrite (replace_pass _ _ c) by (try zlen_lia; replace (zlen l) with (zlen l + 0) by lia; by rewrite goidx_app_r by lia).
  destruct (voted_for votes c); [done|]. cbn [mbind outcome_bind orb].
  replace (Z.pred (1 + zlen r)) with (zlen r) by lia. apply (IH (l ++ [c])); [by rewrite <- app_assoc|]. by rewrite zlen_app.
Qed.

Lemma new_votes_replace cs vs :
  new_votes 1 cs vs =
    if decide (zlen cs mod 2 <> 0) then Err ErrEvenCandidates
    else if existsb (voted_for (filter (fun v => VoteType v = 0) vs)) cs then Panic
    else Ok (filter (fun v => VoteType v <> 0) vs ++ filter (fun v => VoteType v = 0) vs).
Proof.
  unfold new_votes. rewrite decide_False, decide_True by done. case_decide; [done|].
  rewrite (replace_all_spec cs _ [] cs 0) by done. by case_match.
Qed.

Definition votes_size (vs : list VoteInfo) : Z := foldr (fun v n => rsize (VoteInfo_to v) + n) 0 vs.

Lemma account_rsize a : rsize (to_rval a) = 36 + bytelen (PtnBalance a) + votes_size (Votes a).
Proof.
  cbn [to_rval rlp_AccountInfo rsize foldr]. unfold votes_size.
  rewrite foldr_fmap. lia.
Qed.

Lemma votes_size_app l k : votes_size (l ++ k) = votes_size l + votes_size k.
Proof. unfold votes_size. induction l as [|v l IH]; [done|]. cbn [app foldr]. lia. Qed.

Lemma votes_size_filter (P : VoteInfo -> Prop) `{!forall v, Decision (P v)} l : votes_size (filter P l) <= votes_size l.
Proof.
  induction l as [|v l IH]; [done|]. rewrite filter_cons. pose proof (rsize_pos (VoteInfo_to v)).
  case_decide; unfold votes_size in *; cbn [foldr]; lia.
Qed.

Definition mediator_vote (c : Address) : VoteInfo := mkVoteInfo TYPE_MEDIATOR (Address_Bytes c).

Lemma mediator_votes_size cs : votes_size (mediator_vote <$> cs) <= 60 * zlen cs.
Proof.
  unfold votes_size. induction cs as [|c cs IH]; [done|]. rewrite zlen_cons. cbn [fmap list_fmap foldr].
  enough (rsize (VoteInfo_to (mediator_vote c)) <= 60) by lia. clear.
  cbn [VoteInfo_to mediator_vote rsize foldr VoteType VoteContent]. unfold TYPE_MEDIATOR. change (bytelen 0) with 0.
  unfold Address_Bytes, zlen. rewrite length_take. lia.
Qed.

Lemma mediator_vote_wf c : wf_address c -> wf_vote (mediator_vote c).
Proof. intros [_ Hc]. split; [done|]. by apply Forall_take. Qed.

Definition recast (a : AccountInfo) (cs : list Address) : AccountInfo :=
  mkAccountInfo (PtnBalance a) (filter (fun v => VoteType v <> 0) (Votes a) ++ (mediator_vote <$> cs)).

Lemma Forall_filter_sub {A} (P Q : A -> Prop) `{!forall x, Decision (Q x)} l : Forall P l -> Forall P (filter Q l).
Proof. induction 1 as [|x l Hx _ IH]; [by constructor|]. rewrite filter_cons. case_decide; [by constructor|done]. Qed.

Lemma recast_wf a cs :
  wf_account a -> Forall wf_address cs -> rsize (to_rval a) + 60 * zlen cs < 2 ^ 62 -> wf_account (recast a cs).
Proof.
  intros (Hb & Hv & _) Hc Hs. split; [done|split].
  - apply Forall_app. split; [by apply Forall_filter_sub|]. apply Forall_fmap.
    exact (Forall_impl _ _ _ Hc mediator_vote_wf).
  - rewrite account_rsize in Hs |- *. cbn [recast PtnBalance Votes]. rewrite votes_size_app.
    pose proof (votes_size_filter (fun v => VoteType v <> 0) (Votes a)). pose proof (mediator_votes_size cs). lia.
Qed.

Lemma filter_all {A} (P : A -> Prop) `{!forall x, Decision (P x)} l : Forall P l -> filter P l = l.
Proof. induction 1 as [|x l Hx _ IH]; [done|]. by rewrite filter_cons, decide_True, IH by done. Qed.

Lemma filter_none {A} (P : A -> Prop) `{!forall x, Decision (P x)} l : Forall (fun x => ~ P x) l -> filter P l = [].
Proof. induction 1 as [|x l Hx _ IH]; [done|]. by rewrite filter_cons, decide_False, IH by done. Qed.

Lemma recast_mediator a cs : filter (fun v => VoteType v = 0) (Votes (recast a cs)) = mediator_vote <$> cs.
Proof.
  cbn [recast Votes]. rewrite filter_app, filter_none, filter_all; [done| |].
  - apply Forall_fmap, Forall_true. done.
  - apply Forall_forall. intros v [Hv _]%list_elem_of_filter. exact Hv.
Qed.

(** A reordering of the votes is as large as the votes. *)

Lemma reorder_wf a vs : wf_account a -> vs ≡ₚ Votes a -> wf_account (mkAccountInfo (PtnBalance a) vs).
Proof.
  intros (Hb & Hv & Hs) Hp. split; [done|split; [cbn [Votes]; by rewrite Hp|]]. rewrite account_rsize in Hs |- *. cbn [PtnBalance Votes].
  enough (votes_size vs = votes_size (Votes a)) by lia. clear -Hp. unfold votes_size.
  induction Hp; cbn [foldr]; lia.
Qed.

Lemma split_votes vs : filter (fun v => VoteType v <> 0) vs ++ filter (fun v => VoteType v = 0) vs ≡ₚ vs.
Proof.
  induction vs as [|v vs IH]; [done|]. rewrite !filter_cons. destruct (decide (VoteType v = 0)) as [Hv|Hv].
  - rewrite decide_False by tauto. by rewrite <- Permutation_middle, IH.
  - rewrite decide_True by done. cbn [app]. by rewrite IH.
Qed.

Lemma voted_for_true vs cs :
  existsb (voted_for vs) cs = true <-> exists c v, c ∈ cs /\ v ∈ vs /\ VoteContent v = Address_Bytes c.
Proof.
  rewrite existsb_exists. unfold voted_for, BytesEqual. split.
  - intros (c & Hc & (v & Hv & He%bool_decide_eq_true)%existsb_exists). exists c, v. by rewrite !list_elem_of_In.
  - intros (c & v & Hc & Hv & He). exists c. rewrite existsb_exists. split; [by apply list_elem_of_In|].
    exists v. split; [by apply list_elem_of_In|by apply bool_decide_eq_true].
Qed.

Section AccountVotes.
Context {D : Type} `{DatabaseLaws D}.

(** C35: For whom a vote is counted.  [UpdateMediatorVote] in mode 0 replaces the
    mediator votes of the account and keeps the others, and the account is read back
    as written.  But [GetAccountMediatorVote] gives, for each candidate, the address
    of a zero byte followed by the 20 bytes of the hash: the stored bytes lack the
    type, and [BytesToAddress] aligns them to the right.  The votes it gives are the
    candidates exactly if each of them is the zero address. *)
Theorem mediator_votes_shifted (voter : Address) (cs : list Address) (a : AccountInfo) (d : D) :
  GetAccountInfo voter d = Ok a -> wf_account a -> Forall wf_address cs -> rsize (to_rval a) + 60 * zlen cs < 2 ^ 62 ->
  exists d', UpdateMediatorVote voter cs 0 d = (Ok tt, d') /\
    GetAccountInfo voter d' = Ok (recast a cs) /\
    GetAccountMediatorVote voter d' = Ok (shifted <$> cs, PtnBalance a) /\
    (shifted <$> cs = cs <-> Forall (eq zero_Address) cs).
Proof.
  intros Ha Hw Hc Hs. pose proof (account_storable _ (recast_wf a cs Hw Hc Hs)) as Hst.
  destruct (StoreBytes_spec (recast a cs) (account_key voter) d (storable_encodable _ Hst)) as (d' & E & Hd).
  assert (GetAccountInfo voter d' = Ok (recast a cs)) as Hr.
  { apply retrieve_spec; [done|]. by rewrite Hd, lookup_insert_eq. }
  exists d'. split_and!; [|done| |].
  - unfold UpdateMediatorVote. erewrite go_bind_ok by (unfold read; by rewrite Ha). exact E.
  - unfold GetAccountMediatorVote. rewrite Hr. cbn [mbind outcome_bind]. rewrite recast_mediator, <- list_fmap_compose.
    do 2 f_equal. apply list_fmap_ext. intros i c Hi. apply BytesToAddress_shift. by eapply Forall_lookup_1.
  - split.
    + clear -Hc. induction Hc as [|c cs Hw _ IH]; [done|]. cbn [fmap list_fmap]. intros [= Hh Ht]. constructor; [|auto].
      symmetry. by apply shifted_fixpoint.
    + clear. by induction 1 as [|? cs <- _ IH]; [|cbn [fmap list_fmap]; f_equal].
Qed.

(** Replacing votes.  [UpdateMediatorVote] in mode 1, which is to replace the
    first half of the candidates by the second, never replaces anything: an odd
    number of candidates is an error, a vote for any of the candidates makes it
    panic with the index out of range, and otherwise it stores the same votes, those
    for mediators last. *)
Theorem replacing_votes (voter : Address) (cs : list Address) (a : AccountInfo) (d : D) :
  GetAccountInfo voter d = Ok a -> wf_account a ->
  let others := filter (fun v => VoteType v <> 0) (Votes a) in
  let mediators := filter (fun v => VoteType v = 0) (Votes a) in
  match UpdateMediatorVote voter cs 1 d with
  | (Err e, d') => e = ErrEvenCandidates /\ d' = d /\ zlen cs mod 2 = 1
  | (Panic, d') => d' = d /\ zlen cs mod 2 = 0 /\ exists c v, c ∈ cs /\ v ∈ mediators /\ VoteContent v = Address_Bytes c
  | (Ok tt, d') => zlen cs mod 2 = 0 /\ (forall c v, c ∈ cs -> v ∈ mediators -> VoteContent v <> Address_Bytes c) /\
      GetAccountInfo voter d' = Ok (mkAccountInfo (PtnBalance a) (others ++ mediators))
  end.
Proof.
  intros Ha Hw others mediators. unfold UpdateMediatorVote. erewrite go_bind_ok by (unfold read; by rewrite Ha).
  rewrite new_votes_replace. fold others mediators. case_decide as Ho; [split_and!; [done..|]|].
  { pose proof (Z.mod_pos_bound (zlen cs) 2). lia. }
  assert (zlen cs mod 2 = 0) as Hz by lia. destruct (existsb _ cs) eqn:Hx; [by apply voted_for_true in Hx|].
  rewrite go_lift_ok. pose proof (reorder_wf a (others ++ mediators) Hw (split_votes _)) as Hw'%account_storable.
  destruct (StoreBytes_spec _ (account_key voter) d (storable_encodable _ Hw')) as (d' & E & Hd).
  unfold SaveAccountInfo. rewrite E. split_and!; [done| |].
  - intros c v Hc Hv He. apply not_true_iff_false in Hx. destruct Hx. apply voted_for_true. eauto.
  - apply retrieve_spec; [done|]. by rewrite Hd, lookup_insert_eq.
Qed.
End AccountVotes.

(** ** Counting *)

Lemma HasPrefix_app p s : HasPrefix (p ++ s) p = true.
Proof. unfold HasPrefix. by rewrite take_app_length, bool_decide_eq_true. Qed.

Section Counting.
Context {D : Type} `{DatabaseLaws D} `{Base58}.

Lemma GetVoterList_panics (d : D) voteType limit k v :
  contents d !! (voter_list_key voteType ++ k) = Some v -> GetVoterList voteType limit d = Panic.
Proof.
  intros Hk. unfold GetVoterList. destruct (map_to_list _) as [|[k' v'] l] eqn:Hl; [|done].
  exfalso. apply map_to_list_empty_iff in Hl. rewrite getprefix_spec in Hl.
  refine (map_filter_empty_not_lookup _ _ _ _ Hl _ Hk). apply HasPrefix_app.
Qed.

(** A record of one kind of vote is not among those of another. *)

Lemma GetVoterList_other (d d' : D) voteType voteType' limit k v :
  contents d' = <[voter_list_key voteType ++ k := v]> (contents d) -> u8 voteType' <> u8 voteType ->
  GetVoterList voteType' limit d' = GetVoterList voteType' limit d.
Proof.
  intros Hd Hne. unfold GetVoterList. rewrite !getprefix_spec, Hd. do 2 f_equal.
  assert (HasPrefix (voter_list_key voteType ++ k) (voter_list_key voteType') <> true) as Hp.
  { intros Hp. apply bool_decide_eq_true in Hp. injection Hp as Hp. congruence. }
  apply map_eq. intros k'. apply option_eq. intros x. rewrite !map_lookup_filter_Some. cbn [fst].
  split; intros [Hx Hk]; (split; [|done]); destruct (decide (k' = voter_list_key voteType ++ k)) as [->|Hk']; try done;
    by rewrite ?lookup_insert_ne in * by congruence.
Qed.

(** C36: Counting the votes crashes.  Once any voter of a kind of vote is recorded by
    [UpdateVoterList], whatever the term, [GetVoterList] and [GetSortedVote] for that
    kind panic, for every limit, number of winners and order of the candidates: the
    term is decoded into a nil pointer, which is then dereferenced.  The list of the
    voters of any other kind of vote is as before. *)
Theorem counting_votes_panics `{!Sorting (A := bytes)} (voter : Address) (voteType term : Z) (d : D) :
  0 <= term < 2 ^ 16 ->
  exists d', UpdateVoterList voter voteType term d = (Ok tt, d') /\
    (forall limit, GetVoterList voteType limit d' = Panic) /\
    (forall range number limit, GetSortedVote range number voteType limit d' = Panic) /\
    (forall voteType' limit, u8 voteType' <> u8 voteType -> GetVoterList voteType' limit d' = GetVoterList voteType' limit d).
Proof.
  intros Ht. assert (storable (U16 term)) as Hs.
  { split; [done|]. split_and!; [by apply bool_decide_eq_true| |done]. cbn. pose proof (bytelen_u64 term). lia. }
  destruct (StoreBytes_spec (U16 term) (voter_list_key voteType ++ Address_Bytes voter) d (storable_encodable _ Hs))
    as (d' & E & Hd).
  assert (forall limit, GetVoterList voteType limit d' = Panic) as Hp.
  { intros limit. eapply GetVoterList_panics. by rewrite Hd, lookup_insert_eq. }
  exists d'. split_and!; [exact E|exact Hp| |].
  - intros range number limit. unfold GetSortedVote. by rewrite Hp.
  - intros voteType' limit Hne. by eapply GetVoterList_other.
Qed.
End Counting.

(** ** The dynamic properties *)

Definition wf_dgp (p : DynamicGlobalProperty) : Prop :=
  0 <= HeadUnitNum p < 2 ^ 64 /\ (wf_bytes (HeadUnitHash p) /\ zlen (HeadUnitHash p) = 32) /\
  0 <= HeadUnitTime p < 2 ^ 63 /\ 0 <= CurrentASlot p < 2 ^ 64 /\ 0 <= LastIrreversibleUnitNum p < 2 ^ 32.

(** The nonnegative integers whose shortest form starts with a zero byte. *)

Definition unreadable (i : Z) : Prop := 128 <= i < 256 ^ (intlen i - 1).

#[export] Instance unreadable_dec i : Decision (unreadable i).
Proof. unfold unreadable. apply _. Defined.

Lemma readable_back i : 0 <= i -> ~ unreadable i -> int_read_back i = Ok i.
Proof.
  unfold unreadable, int_read_back. intros Hi Hn. repeat case_decide; try done; lia.
Qed.

Lemma dgp_rsize p : wf_dgp p -> rsize (to_rval p) < 2 ^ 62.
Proof.
  intros (Hn & [_ Hh] & Ht & Ha & Hl). cbn [to_rval rlp_DynamicGlobalProperty rsize foldr].
  pose proof (bytelen_u64 (HeadUnitNum p)). pose proof (bytelen_u64 (HeadUnitTime p)).
  pose proof (bytelen_u64 (CurrentASlot p)). pose proof (bytelen_u64 (LastIrreversibleUnitNum p)). lia.
Qed.

Lemma dgp_storable p : wf_dgp p -> ~ unreadable (HeadUnitTime p) -> storable p.
Proof.
  intros Hw Hr. pose proof (dgp_rsize p Hw) as Hs. destruct Hw as (Hn & [Hwb Hh] & Ht & Ha & Hl).
  split; [done|split; [|split; [done|by destruct p]]].
  cbn [rlp_type to_rval rlp_DynamicGlobalProperty survives tail no_tags negb orb]. rewrite !andb_true_r.
  rewrite !andb_true_iff. split_and!; try done; apply bool_decide_eq_true; split_and!; try done; try lia.
  - intros Hz. rewrite Hz in Hh. discriminate Hh.
  - apply readable_back; [lia|done].
Qed.

Lemma dgp_encodable p : wf_dgp p -> encodable p.
Proof.
  intros Hw. pose proof (dgp_rsize p Hw) as Hs. destruct Hw as (Hn & [Hwb Hh] & Ht & Ha & Hl).
  split; [done|split; [|split; [done|by eexists]]].
  cbn [rlp_type to_rval rlp_DynamicGlobalProperty has_type]. rewrite !andb_true_r.
  rewrite !andb_true_iff. split_and!; apply bool_decide_eq_true; split_and!; try done; lia.
Qed.

Lemma dgp_unreadable torn p : wf_dgp p -> unreadable (HeadUnitTime p) ->
  let fields := [(no_tags, TUint 64); (no_tags, TByteArray 32); (no_tags, TInt 64); (no_tags, TUint 64); (no_tags, TUint 32)] in
  DecodeBytes (encoding p) (TStruct fields) = Err (decodeError msgCanonInt) /\
  left_by torn fields (encoding p) = Ok (VList [VInt (HeadUnitNum p); VBytes (HeadUnitHash p); VInt 0; VInt 0; VInt 0]).
Proof.
  intros Hw Hr fields. pose proof (encodable_encodes p (dgp_encodable p Hw)) as [_ Hl]. pose proof (dgp_rsize p Hw).
  destruct (dgp_encodable p Hw) as (_ & _ & _ & xs & Hx). unfold encoding in *. rewrite Hx in *.
  destruct Hw as (Hn & [Hwb Hh] & Ht & _). set (pre := [(TUint 64, VInt (HeadUnitNum p)); (TByteArray 32, VBytes (HeadUnitHash p))]).
  assert (Forall (fun x => survives no_tags x.1 x.2 = true /\ genTypeInfo x.1 = Ok tt) pre) as Hpre.
  { repeat constructor; cbn [fst snd survives is_width]; [by apply bool_decide_eq_true|].
    apply bool_decide_eq_true. split_and!; try done. intros Hz. rewrite Hz in Hh. discriminate Hh. }
  pose (post := [(no_tags, TUint 64); (no_tags, TUint 32)]). pose (vs := [VInt (CurrentASlot p); VInt (LastIrreversibleUnitNum p)]).
  split; [apply (bad_int_refused pre 64 (HeadUnitTime p) post vs xs)|apply (bad_int_left torn pre 64 (HeadUnitTime p) post vs xs)];
    try done; lia.
Qed.

Section DynamicProperties.
Context {D : Type} `{DatabaseLaws D} (torn : rtype -> bytes -> rval).

(** C37: The dynamic properties are read back as stored, unless the time of the head
    unit has a shortest form that starts with a zero byte: reading then gives an error,
    together with properties in which the time of the head unit, the current slot and
    the last irreversible unit are zero, and the node, which drops the error, goes on
    with these.  The times from 2^31 to 2^32, which start in January 2038, are of that
    kind. *)
Theorem dynamic_properties_readback (p : DynamicGlobalProperty) (d : D) :
  wf_dgp p ->
  exists d', StoreDynGlobalProp p d = (Ok tt, d') /\
    let left := mkDynamicGlobalProperty (HeadUnitNum p) (HeadUnitHash p) 0 0 0 in
    let bad := bool_decide (unreadable (HeadUnitTime p)) in
    RetrieveDynGlobalProp torn d' = Ok (if bad then (left, Some (RlpError (decodeError msgCanonInt))) else (p, None)) /\
    GetDynGlobalProp torn d' = Ok (if bad then left else p).
Proof.
  intros Hw. destruct (StoreBytes_spec p DynGlobalPropDBKey d (dgp_encodable p Hw)) as (d' & E & Hd).
  exists d'. split; [exact E|]. cbv zeta. unfold GetDynGlobalProp, RetrieveDynGlobalProp, retrieve_left.
  destruct (bool_decide _) eqn:Hr.
  - apply bool_decide_eq_true in Hr. destruct (dgp_unreadable torn p Hw Hr) as [Hu Hleft].
    unfold retrieve, decode_value. rewrite Get_spec, Hd, lookup_insert_eq. cbn [mbind outcome_bind rlp_type rlp_DynamicGlobalProperty].
    rewrite Hu. cbn [rlp_out mbind outcome_bind]. by rewrite Hleft.
  - apply bool_decide_eq_false in Hr. rewrite (retrieve_spec p); [done|by apply dgp_storable|by rewrite Hd, lookup_insert_eq].
Qed.
End DynamicProperties.

(** ** Mediators *)

(** The text that base58 writes: letters and digits, at most two for a byte of the
    payload, which has the version and four bytes of the checksum. *)

Definition plain (c : Z) : Prop := 49 <= c <= 122.

Class Base58Text `{Base58} : Prop := {
  CheckEncode_plain b v : Forall plain (CheckEncode b v);
  CheckEncode_zlen b v : zlen (CheckEncode b v) <= 2 * (zlen b + 5)
}.

Lemma trim_left_plain cut s n :
  Forall (fun c => exists x l, c = x :: l /\ ~ plain x) cut -> (forall x l, s = x :: l -> plain x) ->
  trim_left n cut s = s.
Proof.
  intros Hc Hs. destruct n as [|n]; [done|]. cbn [trim_left]. assert (trim_one cut s = None) as ->; [|done].
  unfold trim_one. induction Hc as [|c cut (x & l & -> & Hx) _ IH]; [done|]. cbn [find]. unfold HasPrefix at 1.
  rewrite bool_decide_eq_false_2; [exact IH|]. destruct s as [|y s]; [done|]. cbn [length take].
  intros [= -> _]. by apply Hx, (Hs x s).
Qed.

Definition quoted (cut : list bytes) : Prop :=
  Forall (fun c => exists x l, c = x :: l /\ ~ plain x) cut /\
  Forall (fun c => exists x l, c = x :: l /\ ~ plain x) (map (@rev Z) cut).

Ltac not_plain :=
  repeat first [apply Forall_nil_2 | apply Forall_cons_2; [do 2 eexists; split; [reflexivity|unfold plain; lia]|]].

Lemma quoted_spaces : quoted spaces.
Proof. split; vm_compute spaces; cbn [map rev app]; not_plain. Qed.

Lemma quoted_quotes : quoted quotes.
Proof. split; unfold quotes; cbn [map rev app]; not_plain. Qed.

Lemma trim_plain cut s : quoted cut -> Forall plain s -> trim cut s = s.
Proof.
  intros [Hl Hr] Hs. unfold trim. cbv zeta. rewrite !(trim_left_plain cut s); [|done|intros x l ->; by inversion Hs].
  rewrite (trim_left_plain _ (rev s)); [apply rev_involutive|done|]. intros x l Hx. rewrite list.Forall_forall in Hs.
  apply Hs, list_elem_of_In, in_rev. rewrite Hx. by left.
Qed.

Definition known (a : Address) : Prop := wf_address a /\ GetType a ∈ [PublicKeyHash; ScriptHash; ContractHash].

Lemma StrToMedAdd_Str `{Base58} `{!Base58Laws} `{!Base58Text} a : known a -> StrToMedAdd (Address_Str a) = Ok a.
Proof.
  intros [Ha Ht]. assert (Forall plain (Address_Str a)) as Hp.
  { constructor; [done|apply CheckEncode_plain]. }
  unfold StrToMedAdd, TrimSpace, Trim_quotes. rewrite (trim_plain spaces), (trim_plain quotes) by (done || apply quoted_spaces || apply quoted_quotes).
  unfold string_to_address. by rewrite StringToAddress_Str.
Qed.

(** What is stored of a mediator. *)

Definition text (s : bytes) : Prop := wf_bytes s /\ zlen s < 2 ^ 32.

Lemma text_nil : text [].
Proof. by split; [constructor|]. Qed.

Definition wf_info (mi : MediatorInfo) : Prop :=
  text (AddStr mi) /\ text (InitPartPub_str mi) /\ text (Node_str mi) /\ text (Url_str mi) /\ 0 <= TotalMissed_info mi < 2 ^ 63.

Lemma info_rsize mi : wf_info mi -> rsize (to_rval mi) < 2 ^ 62.
Proof.
  intros ([_ Ha] & [_ Hp] & [_ Hn] & [_ Hu] & Ht). cbn [to_rval rlp_MediatorInfo rsize foldr].
  pose proof (bytelen_u64 (TotalMissed_info mi)). lia.
Qed.

Lemma info_storable mi : wf_info mi -> ~ unreadable (TotalMissed_info mi) -> storable mi.
Proof.
  intros Hw Hr. pose proof (info_rsize mi Hw) as Hs. destruct Hw as ([Ha _] & [Hp _] & [Hn _] & [Hu _] & Ht).
  split; [done|split; [|split; [done|by destruct mi]]].
  cbn [rlp_type to_rval rlp_MediatorInfo survives tail no_tags negb orb]. rewrite !andb_true_r, !andb_true_iff.
  split_and!; try done; apply bool_decide_eq_true; try done. split; [lia|]. apply readable_back; [lia|done].
Qed.

Lemma info_encodable mi : wf_info mi -> encodable mi.
Proof.
  intros Hw. pose proof (info_rsize mi Hw) as Hs. destruct Hw as ([Ha _] & [Hp _] & [Hn _] & [Hu _] & Ht).
  split; [done|split; [|split; [done|by eexists]]].
  cbn [rlp_type to_rval rlp_MediatorInfo has_type]. rewrite !andb_true_r, !andb_true_iff.
  split_and!; apply bool_decide_eq_true; first [done|lia].
Qed.

Lemma info_unreadable mi : wf_info mi -> unreadable (TotalMissed_info mi) ->
  DecodeBytes (encoding mi) (rlp_type MediatorInfo) = Err (decodeError msgCanonInt).
Proof.
  intros Hw Hr. pose proof (encodable_encodes mi (info_encodable mi Hw)) as [_ Hl]. pose proof (info_rsize mi Hw).
  destruct (info_encodable mi Hw) as (_ & _ & _ & xs & Hx). unfold encoding in *. rewrite Hx in *.
  destruct Hw as ([Ha _] & [Hp _] & [Hn _] & [Hu _] & Ht).
  apply (bad_int_refused [(TString, VBytes (AddStr mi)); (TString, VBytes (InitPartPub_str mi));
    (TString, VBytes (Node_str mi)); (TString, VBytes (Url_str mi))] 64 (TotalMissed_info mi) [] [] xs);
    try done; [|lia|lia].
  repeat constructor; cbn [fst snd survives]; by apply bool_decide_eq_true.
Qed.

(** What the text of a public key share and of a node is for. *)

Class MediatorText {Point Node : Type} (PointToStr : Point -> bytes) (StrToPoint : bytes -> Point)
    (Node_String : Node -> bytes) (ParseNode : bytes -> option Node) : Prop := {
  point_back p : StrToPoint (PointToStr p) = p;
  node_back n : ParseNode (Node_String n) = Some n;
  point_text p : text (PointToStr p);
  node_text n : text (Node_String n)
}.

Section MissedUnits.
Context {D : Type} `{DatabaseLaws D} `{Base58} `{!Base58Laws} `{!Base58Text}.
Context {Point Node : Type} (PointToStr : Point -> bytes) (StrToPoint : bytes -> Point).
Context (Node_String : Node -> bytes) (ParseNode : bytes -> option Node).
Context `{!MediatorText PointToStr StrToPoint Node_String ParseNode}.

(** The mediator [a] with share [p] and node [n] that has missed [k] units. *)

Definition info_of (a : Address) (p : Point) (n : Node) (k : Z) : MediatorInfo :=
  mkMediatorInfo (Address_Str a) (PointToStr p) (Node_String n) [] k.

Definition med_of (a : Address) (p : Point) (n : Node) (url : bytes) (k : Z) : core_Mediator (Point := Point) (Node := Node) :=
  mkCoreMediator a p (Some n) url k.

Lemma info_of_wf a p n k : known a -> 0 <= k < 2 ^ 63 -> wf_info (info_of a p n k).
Proof.
  intros [[Ha _] _] Hk. unfold wf_info, info_of. cbn [AddStr InitPartPub_str Node_str Url_str TotalMissed_info].
  split; [|split; [apply point_text|split; [apply node_text|split; [apply text_nil|exact Hk]]]]. split.
  - constructor; [done|]. eapply Forall_impl; [apply CheckEncode_plain|]. unfold plain, is_byte. intros x ?. lia.
  - unfold Address_Str. rewrite zlen_cons. pose proof (CheckEncode_zlen (take 20 a) (nth 20 a 0)) as Hz.
    unfold zlen at 2 in Hz. rewrite length_take in Hz. lia.
Qed.

Lemma StoreMediator_spec a p n url k (d : D) :
  known a -> 0 <= k < 2 ^ 63 ->
  exists d', StoreMediator PointToStr Node_String (med_of a p n url k) d = (Ok tt, d') /\
    contents d' !! mediatorKey a = Some (encoding (info_of a p n k)).
Proof.
  intros Ha Hk. destruct (StoreBytes_spec (info_of a p n k) (mediatorKey a) d (info_encodable _ (info_of_wf a p n k Ha Hk)))
    as (d' & E & Hd).
  exists d'. split; [|by rewrite Hd, lookup_insert_eq]. unfold StoreMediator, mediatorToInfo, med_of.
  cbn [cm_Address cm_InitPartPub cm_Node cm_TotalMissed deref mbind outcome_bind]. rewrite go_lift_ok.
  unfold StoreMediatorInfo. cbn [AddStr]. by rewrite StrToMedAdd_Str, go_lift_ok.
Qed.

Lemma RetrieveMediator_spec a p n k (d : D) :
  known a -> 0 <= k < 2 ^ 63 -> contents d !! mediatorKey a = Some (encoding (info_of a p n k)) ->
  RetrieveMediator StrToPoint ParseNode a d = Ok (if decide (unreadable k) then None else Some (med_of a p n [] k)).
Proof.
  intros Ha Hk Hd. pose proof (info_of_wf a p n k Ha Hk) as Hw. unfold RetrieveMediator. case_decide as Hr.
  - unfold retrieve. rewrite Get_spec, Hd. cbn [mbind outcome_bind]. unfold decode_value. by rewrite info_unreadable.
  - rewrite (retrieve_spec (info_of a p n k)) by (done || by apply info_storable). unfold infoToMediator, info_of.
    cbn [AddStr InitPartPub_str Node_str TotalMissed_info]. rewrite StrToMedAdd_Str by done. cbn [mbind outcome_bind].
    by rewrite point_back, node_back.
Qed.

Lemma miss_unit_spec a p n k (d : D) :
  known a -> 0 <= k < 2 ^ 62 -> contents d !! mediatorKey a = Some (encoding (info_of a p n k)) ->
  if decide (unreadable k) then miss_unit PointToStr StrToPoint Node_String ParseNode a d = (Panic, d)
  else exists d', miss_unit PointToStr StrToPoint Node_String ParseNode a d = (Ok tt, d') /\
    contents d' !! mediatorKey a = Some (encoding (info_of a p n (k + 1))).
Proof.
  intros Ha Hk Hd. pose proof (RetrieveMediator_spec a p n k d Ha ltac:(lia) Hd) as Hr. unfold miss_unit.
  erewrite go_bind_ok by (unfold read; by rewrite Hr). case_decide as Hu; [done|].
  cbn [deref]. rewrite go_lift_ok. unfold med_of. cbn [cm_Address cm_InitPartPub cm_Node cm_Url cm_TotalMissed].
  rewrite i64_id by lia. destruct (StoreMediator_spec a p n [] (k + 1) d Ha ltac:(lia)) as (d' & E & Hd').
  exists d'. split; [|done]. unfold ignore_err. unfold med_of in E. by rewrite E.
Qed.

Fixpoint miss_units (n : nat) (a : Address) : go D storage_error unit :=
  match n with
  | O => mret tt
  | S n => _ ← miss_unit PointToStr StrToPoint Node_String ParseNode a; miss_units n a
  end.

Lemma readable_small k : 0 <= k < 128 -> ~ unreadable k.
Proof. unfold unreadable. lia. Qed.

Lemma miss_units_spec j a p n k (d : D) :
  known a -> 0 <= k -> k + Z.of_nat j <= 128 -> contents d !! mediatorKey a = Some (encoding (info_of a p n k)) ->
  exists d', miss_units j a d = (Ok tt, d') /\
    contents d' !! mediatorKey a = Some (encoding (info_of a p n (k + Z.of_nat j))).
Proof.
  revert k d. induction j as [|j IH]; intros k d Ha Hk Hj Hd.
  - exists d. split; [done|]. by rewrite Z.add_0_r.
  - pose proof (miss_unit_spec a p n k d Ha ltac:(lia) Hd) as Hm.
    rewrite decide_False in Hm by (apply readable_small; lia). destruct Hm as (d1 & E1 & H1').
    destruct (IH (k + 1) d1 Ha ltac:(lia) ltac:(lia) H1') as (d2 & E2 & H2'). exists d2. cbn [miss_units].
    rewrite (go_bind_ok _ _ _ _ _ E1). split; [done|]. rewrite H2'. do 3 f_equal. lia.
Qed.

(** C14: The node halts when a mediator has missed 128 units.  Counting a missed unit
    reads the mediator, adds one and stores it.  Of a mediator that was stored with
    no missed unit, 128 can be counted; the count 128 is stored in a form that the
    decoder refuses, [RetrieveMediator] then gives nil for both its results, and
    counting the next missed unit dereferences it. *)
Theorem missed_units_halt a p n url (d : D) :
  known a ->
  exists d0 d', StoreMediator PointToStr Node_String (med_of a p n url 0) d = (Ok tt, d0) /\
    RetrieveMediator StrToPoint ParseNode a d0 = Ok (Some (med_of a p n [] 0)) /\
    miss_units 128 a d0 = (Ok tt, d') /\
    RetrieveMediator StrToPoint ParseNode a d' = Ok None /\
    miss_unit PointToStr StrToPoint Node_String ParseNode a d' = (Panic, d').
Proof.
  intros Ha. destruct (StoreMediator_spec a p n url 0 d Ha ltac:(lia)) as (d0 & E0 & H0').
  destruct (miss_units_spec 128 a p n 0 d0 Ha ltac:(lia) ltac:(lia) H0') as (d' & E' & H').
  change (0 + Z.of_nat 128) with 128 in H'. assert (unreadable 128) as Hu by (unfold unreadable; split; [lia|vm_compute; done]).
  pose proof (miss_unit_spec a p n 128 d' Ha ltac:(lia) H') as Hm. rewrite decide_True in Hm by done.
  exists d0, d'. rewrite (RetrieveMediator_spec a p n 0 d0 Ha ltac:(lia) H0'), (RetrieveMediator_spec a p n 128 d' Ha ltac:(lia) H').
  rewrite decide_False by (apply readable_small; lia). by rewrite decide_True.
Qed.
End MissedUnits.

(** ** Instances *)

(** A base58 of two letters for a byte, without a checksum. *)

Definition letters (b : Z) : bytes := [65 + b / 16 mod 16; 65 + b mod 16].

Fixpoint unletters (s : bytes) : option bytes :=
  match s with
  | h :: l :: s => cons ((h - 65) * 16 + (l - 65)) <$> unletters s
  | [] => Some []
  | _ => None
  end.

Definition letters_base58 : Base58 := {|
  CheckEncode b v := concat (map letters (v :: b));
  CheckDecode s := match unletters s with Some (v :: b) => Some (b, v) | _ => None end
|}.

Lemma unletters_letters b : wf_bytes b -> unletters (concat (map letters b)) = Some b.
Proof.
  induction 1 as [|x b Hx _ IH]; [done|]. cbn [map concat letters app unletters]. rewrite IH. cbn. do 2 f_equal.
  unfold is_byte in Hx. rewrite (Z.mod_small (x / 16) 16).
  - pose proof (Z.div_mod x 16). lia.
  - split; [apply Z.div_pos; lia|apply Z.div_lt_upper_bound; lia].
Qed.

Lemma letters_laws : @Base58Laws letters_base58.
Proof. split. intros b v Hb Hv. cbn [CheckEncode CheckDecode letters_base58]. by rewrite (unletters_letters (v :: b)) by by constructor. Qed.

Lemma letters_text : @Base58Text letters_base58.
Proof.
  split; intros b v; cbn [CheckEncode letters_base58].
  - generalize (v :: b). intros l. induction l as [|x l IH]; [constructor|]. cbn [map concat letters app].
    pose proof (Z.mod_pos_bound x 16). pose proof (Z.mod_pos_bound (x / 16) 16).
    do 2 (constructor; [unfold plain; lia|]). exact IH.
  - assert (forall l, zlen (concat (map letters l)) = 2 * zlen l) as Hl.
    { intros l. induction l as [|x l IH]; [done|]. cbn [map concat letters]. rewrite zlen_app, IH, zlen_cons. unfold zlen. cbn. lia. }
    rewrite Hl, zlen_cons. lia.
Qed.

(** One share, and nodes named by one byte. *)

Definition node_number (n : bool) : bytes := [if n then 1 else 0].

Lemma bool_text : MediatorText (fun _ : unit => []) (fun _ => tt) node_number
  (fun s => match s with [1] => Some true | [0] => Some false | _ => None end).
Proof. split; [by intros []|by intros []|intros; apply text_nil|intros []; split; by apply (bool_decide_unpack _)]. Qed.

Definition sevens : Address := NewAddress (replicate 20 7) PublicKeyHash.

Lemma sevens_wf : wf_address sevens.
Proof. split; [reflexivity|]. by apply (bool_decide_unpack _). Qed.

Definition sevens_account : AccountInfo := mkAccountInfo 1000 [mkVoteInfo 1 [5]; mkVoteInfo 0 (Address_Bytes sevens)].

Definition sevens_db : MemDatabase := (SaveAccountInfo sevens sevens_account NewMemDatabase).2.

Lemma sevens_account_wf : wf_account sevens_account.
Proof. split; [done|split; [|done]]. repeat constructor; cbn; try (by apply (bool_decide_unpack _)). Qed.

Lemma sevens_stored : GetAccountInfo sevens sevens_db = Ok sevens_account.
Proof. vm_compute. reflexivity. Qed.

Lemma contract_state_readback_witness :
  exists d', SaveContractState [1] [2] (replicate 60 7) (mkStateVersion (mkChainIndex (replicate 16 3) true 4) 5) NewMemDatabase = (Ok tt, d') /\
    GetContractState [1] [2] d' = Ok (Some (mkStateVersion (mkChainIndex (replicate 16 3) true 4) 5, 60 :: replicate 60 7)).
Proof.
  destruct (contract_state_readback [1] [2] (replicate 60 7) (mkStateVersion (mkChainIndex (replicate 16 3) true 4) 5) NewMemDatabase)
    as (d' & E & Hg & _).
  - split; [split; [done|by apply (bool_decide_unpack _)]|]. done.
  - by apply (bool_decide_unpack _).
  - done.
  - exists d'. split; [exact E|exact Hg].
Defined.

Lemma mediator_votes_shifted_witness :
  exists d', UpdateMediatorVote sevens [sevens] 0 sevens_db = (Ok tt, d') /\
    GetAccountMediatorVote sevens d' = Ok ([shifted sevens], 1000).
Proof.
  destruct (mediator_votes_shifted sevens [sevens] sevens_account sevens_db) as (d' & E & _ & Hv & _).
  - apply sevens_stored.
  - apply sevens_account_wf.
  - constructor; [apply sevens_wf|constructor].
  - done.
  - exists d'. by split.
Defined.

Lemma replacing_votes_witness :
  UpdateMediatorVote sevens [sevens; zero_Address] 1 sevens_db = (Panic, sevens_db) /\
  exists c v, c ∈ [sevens; zero_Address] /\ v ∈ filter (fun v => VoteType v = 0) (Votes sevens_account) /\
    VoteContent v = Address_Bytes c.
Proof.
  pose proof (replacing_votes sevens [sevens; zero_Address] sevens_account sevens_db sevens_stored sevens_account_wf) as H.
  cbv zeta in H.
  assert (UpdateMediatorVote sevens [sevens; zero_Address] 1 sevens_db = (Panic, sevens_db)) as E by (vm_compute; reflexivity).
  rewrite E in H. split; [exact E|]. by destruct H as (_ & _ & H).
Defined.

Lemma counting_votes_panics_witness :
  exists d', UpdateVoterList sevens 0 3 NewMemDatabase = (Ok tt, d') /\
    GetVoterList (H0 := letters_base58) 0 1 d' = Panic.
Proof.
  destruct (counting_votes_panics (H1 := letters_base58) (Sorting0 := merge_sorting) sevens 0 3 NewMemDatabase) as (d' & E & Hp & _);
    [lia|]. exists d'. split; [exact E|apply Hp].
Defined.

Lemma dynamic_properties_readback_witness :
  exists d', StoreDynGlobalProp (mkDynamicGlobalProperty 9 (replicate 32 1) 2200000000 3 4) NewMemDatabase = (Ok tt, d') /\
    GetDynGlobalProp (fun _ _ => VNil) d' = Ok (mkDynamicGlobalProperty 9 (replicate 32 1) 0 0 0).
Proof.
  destruct (dynamic_properties_readback (fun _ _ => VNil) (mkDynamicGlobalProperty 9 (replicate 32 1) 2200000000 3 4) NewMemDatabase)
    as (d' & E & _ & Hg).
  - split; [done|split; [split; [by apply (bool_decide_unpack _)|done]|done]].
  - exists d'. split; [exact E|exact Hg].
Defined.

Lemma missed_units_halt_witness :
  exists d', (miss_unit (H0 := letters_base58) (fun _ : unit => []) (fun _ => tt) node_number
    (fun s => match s with [1] => Some true | [0] => Some false | _ => None end) sevens d').1 = Panic (A := unit).
Proof.
  destruct (missed_units_halt (D := MemDatabase) (H2 := letters_laws) (H3 := letters_text) (fun _ : unit => []) (fun _ => tt) node_number
    (fun s => match s with [1] => Some true | [0] => Some false | _ => None end) (MediatorText0 := bool_text)
    sevens tt true [] NewMemDatabase) as (d0 & d' & _ & _ & _ & _ & E).
  - split; [apply sevens_wf|by left].
  - exists d'. by rewrite E.
Defined.
