(* ===== verification/Utxo.v ===== *)
(** * Utxo: unspent outputs and their storage

    [dag/modules/utxo.go] (assets, unspent outputs and their flags, the keys of the
    database), [dag/storage/utxodb.go] and [dag/storage/indexdb.go], over any
    [Database].

    A pointer is an option.  The lock script of an output is read by
    [GetAddressFromScript] of the token engine, whose error is ignored.

    The theorems: the key of an output gives the output back, so that outputs do not
    share keys; and what saving a view of outputs does to the set of the database,
    with the outputs it leaves out. *)

From stdpp Require Import pretty.
From S2P Require Import Prelude Digits HexUtil Transaction Crypto Address Rlp RlpEncode RlpDecode RlpSound RlpRoundTrip.
From S2P Require Import ScriptErrors ScriptStandard KvStore StateDb.

#[local] Open Scope Z_scope.

(** ** Assets *)

Abbreviation UTXO_PREFIX := (lit "uo") (only parsing).
Abbreviation UTXO_INDEX_PREFIX := (lit "ui") (only parsing).
Abbreviation AddrOutPoint_Prefix := (lit "ap") (only parsing).
Abbreviation ASSET_INFO_PREFIX := (lit "ai") (only parsing).

Definition Asset_String (asset : Asset) : bytes :=
  if decide (UniqueId asset = ZeroIdType16) then ID_String (AssetId asset)
  else ID_String (AssetId asset) ++ lit "-" ++ ID_String (UniqueId asset).

(** [strings.EqualFold] on ASCII text. *)

Definition to_lower (c : Z) : Z := if decide (65 <= c <= 90) then c + 32 else c.
Definition EqualFold (s t : bytes) : bool := bool_decide (to_lower <$> s = to_lower <$> t).

Definition IsSimilar (asset similar : Asset) : bool :=
  EqualFold (ID_String (AssetId asset)) (ID_String (AssetId similar)) &&
  EqualFold (ID_String (UniqueId asset)) (ID_String (UniqueId similar)).

(** ** Unspent outputs *)

Abbreviation tfCoinBase := 1 (only parsing).
Abbreviation tfSpent := 2 (only parsing).
Abbreviation tfModified := 4 (only parsing).

Record Utxo : Type := mkUtxo {
  u_Amount : Z; u_Asset : option Asset; u_PkScript : bytes; u_LockTime : Z; u_VoteResult : Address; u_Flags : Z }.

Definition zero_Utxo : Utxo := mkUtxo 0 None [] 0 zero_Address 0.

Definition set_Flags (f : Z) (u : Utxo) : Utxo :=
  mkUtxo (u_Amount u) (u_Asset u) (u_PkScript u) (u_LockTime u) (u_VoteResult u) f.

Definition Utxo_IsEmpty (u : Utxo) : bool :=
  if decide (zlen (u_PkScript u) <> 0 \/ u_Amount u > 0 \/ u_LockTime u > 0 \/ u_Asset u <> None) then false else true.

(** The product of two [uint8]. *)

Definition IsModified (u : Utxo) : bool := bool_decide (u8 (u_Flags u * tfModified) = tfModified).
Definition IsSpent (u : Utxo) : bool := bool_decide (Z.land (u_Flags u) tfSpent = tfSpent).
Definition IsCoinBase (u : Utxo) : bool := bool_decide (Z.land (u_Flags u) tfCoinBase = tfCoinBase).

Definition Spend (u : Utxo) : Utxo := if IsSpent u then u else set_Flags (Z.lor (u_Flags u) (Z.lor tfSpent tfModified)) u.
Definition SetCoinBase (u : Utxo) : Utxo := set_Flags (Z.lor (u_Flags u) tfCoinBase) u.

(** ** Keys *)

#[export] Instance OutPoint_countable : Countable OutPoint.
Proof.
  refine (inj_countable' (fun o => (op_TxHash o, MessageIndex o, OutIndex o)) (fun x => mkOutPoint x.1.1 x.1.2 x.2) _).
  by intros [].
Defined.

Definition OutPoint_ToKey (op : OutPoint) : bytes :=
  let key := UTXO_PREFIX ++ op_TxHash op in
  let key := key ++ EncodeNumberUint32 (MessageIndex op) in
  key ++ EncodeNumberUint32 (OutIndex op).

Definition KeyToOutpoint (key : bytes) : outcome storage_error OutPoint :=
  let preLen := zlen UTXO_PREFIX in
  sTxHash ← goslice key preLen (zlen key - 8);
  sMessage ← goslice key (preLen + HashLength) (zlen key - 4);
  sIndex ← goslice key (preLen + HashLength + 4) (zlen key);
  MessageIndex ← DecodeNumberUint32 sMessage;
  OutIndex ← DecodeNumberUint32 sIndex;
  Ok (mkOutPoint (Hash_SetBytes zero_Hash sTxHash) MessageIndex OutIndex).

Definition OutPoint_IsEmpty (op : OutPoint) : bool := bool_decide (Hash_Hex (op_TxHash op) = Hash_Hex zero_Hash).

(** ["%d"] of an unsigned integer. *)

Definition decimal (n : Z) : bytes := lit (pretty (Z.to_N n)).

(** The formatter of a hash drops the flag of ["%#x"]. *)

Definition OutPoint_String (op : OutPoint) : bytes :=
  lit "Outpoint[TxId:{" ++ hex_Encode (op_TxHash op) ++ lit "},MsgIdx:{" ++ decimal (MessageIndex op) ++
  lit "},OutIdx:{" ++ decimal (OutIndex op) ++ lit "}]".

Record UtxoIndexValue : Type := mkUtxoIndexValue { iv_Amount : Z; iv_LockTime : Z }.

Section Keys.
Context `{Base58}.

Record UtxoIndex : Type := mkUtxoIndex { AccountAddr : Address; ui_Asset : option Asset; ui_OutPoint : OutPoint }.

(** A nil asset is dereferenced. *)

Definition AssetKey (account : Address) (asset : Asset) : bytes :=
  UTXO_INDEX_PREFIX ++ Address_Str account ++ lit "||" ++ Asset_String asset.

Definition index_ToKey (i : UtxoIndex) : outcome storage_error bytes :=
  asset ← deref (ui_Asset i);
  Ok (UTXO_INDEX_PREFIX ++ Address_Str (AccountAddr i) ++ lit "||" ++ Asset_String asset ++ lit "||" ++ OutPoint_String (ui_OutPoint i)).
End Keys.

(** ** What is serialised *)

Definition asset_of (v : rval) : option (option Asset) :=
  match v with
  | VPtr (VList [VBytes a; VBytes u; VInt c]) => Some (Some (mkAsset a u c))
  | VNil => Some None
  | _ => None
  end.

#[export] Instance rlp_Utxo : RlpValue Utxo := {|
  rlp_type := TStruct [(no_tags, TUint 64); (no_tags, TPtr asset_type); (no_tags, TByteSlice); (no_tags, TUint 32);
                       (no_tags, TByteArray 21); (no_tags, TUint 8)];
  to_rval u := VList [VInt (u_Amount u); asset_to (u_Asset u); VBytes (u_PkScript u); VInt (u_LockTime u);
                      VBytes (u_VoteResult u); VInt (u_Flags u)];
  of_rval v := match v with
               | VList [VInt n; a; VBytes s; VInt l; VBytes r; VInt f] => (fun a => mkUtxo n a s l r f) <$> asset_of a
               | _ => None
               end |}.

#[export] Instance rlp_OutPoint : RlpValue OutPoint := {|
  rlp_type := outpoint_type;
  to_rval := outpoint_to;
  of_rval v := match v with VList [VBytes h; VInt m; VInt i] => Some (mkOutPoint h m i) | _ => None end |}.

#[export] Instance rlp_UtxoIndexValue : RlpValue UtxoIndexValue := {|
  rlp_type := TStruct [(no_tags, TUint 64); (no_tags, TUint 32)];
  to_rval i := VList [VInt (iv_Amount i); VInt (iv_LockTime i)];
  of_rval v := match v with VList [VInt a; VInt l] => Some (mkUtxoIndexValue a l) | _ => None end |}.

Record AssetInfo : Type := mkAssetInfo {
  Alias : bytes; ai_AssetID : option Asset; InitialTotal : Z; Decimal : Z; DecimalUnit : bytes; OriginalHolder : Address }.

#[export] Instance rlp_AssetInfo : RlpValue AssetInfo := {|
  rlp_type := TStruct [(no_tags, TString); (no_tags, TPtr asset_type); (no_tags, TUint 64); (no_tags, TUint 32);
                       (no_tags, TString); (no_tags, TByteArray 21)];
  to_rval i := VList [VBytes (Alias i); asset_to (ai_AssetID i); VInt (InitialTotal i); VInt (Decimal i);
                      VBytes (DecimalUnit i); VBytes (OriginalHolder i)];
  of_rval v := match v with
               | VList [VBytes n; a; VInt t; VInt d; VBytes u; VBytes h] => (fun a => mkAssetInfo n a t d u h) <$> asset_of a
               | _ => None
               end |}.

Definition Tokey (info : AssetInfo) : outcome storage_error bytes :=
  asset ← deref (ai_AssetID info); Ok (ASSET_INFO_PREFIX ++ ID_String (AssetId asset)).

(** ** The database of outputs *)

Section UtxoDb.
Context {D : Type} `{Database D} `{Crypto}.

(** [address, _ := tokenengine.GetAddressFromScript(script)]: the zero address on an error. *)

Definition script_address (script : bytes) : outcome storage_error Address :=
  match GetAddressFromScript script with
  | Ok a => Ok a
  | Err _ => Ok zero_Address
  | Panic => Panic
  end.

(** [rlp.RlpHash]: an error of the encoder leaves the hash of nothing. *)

Definition OutPoint_Hash (op : OutPoint) : bytes :=
  match EncodeToBytes new_encbuf (rlp_type OutPoint) (to_rval op) with Ok b => Keccak256 b | _ => Keccak256 [] end.

Definition SaveUtxoEntity (outpoint : OutPoint) (utxo : Utxo) : go D storage_error unit :=
  StoreBytes (OutPoint_ToKey outpoint) utxo.

Definition SaveUtxoOutpoint (key : bytes) (outpoint : OutPoint) : go D storage_error unit := StoreBytes key outpoint.

(** One entry of the view. *)

Definition save_entry (outpoint : OutPoint) (utxo : option Utxo) : go D storage_error unit :=
  match utxo with
  | None => mret tt
  | Some utxo =>
      if IsModified utxo then mret tt
      else
        let key := OutPoint_ToKey outpoint in
        address ← lift (script_address (u_PkScript utxo));
        let outpoint_key := AddrOutPoint_Prefix ++ Address_Bytes address in
        if IsSpent utxo then
          _ ← Delete key; ignore_err (Delete (outpoint_key ++ OutPoint_Hash outpoint))
        else
          val ← lift (rlp_out (EncodeToBytes new_encbuf (rlp_type Utxo) (to_rval utxo)));
          _ ← Put key val; ignore_err (SaveUtxoOutpoint (outpoint_key ++ OutPoint_Hash outpoint) outpoint)
  end.

(** The view in the order in which the map is enumerated. *)

Fixpoint SaveUtxoView (view : list (OutPoint * option Utxo)) : go D storage_error unit :=
  match view with
  | [] => mret tt
  | (outpoint, utxo) :: view => _ ← save_entry outpoint utxo; SaveUtxoView view
  end.

Definition DeleteUtxo (outpoint : OutPoint) : go D storage_error unit := Delete (OutPoint_ToKey outpoint).

Definition GetUtxoEntry (outpoint : OutPoint) (d : D) : outcome storage_error Utxo :=
  match Get d (OutPoint_ToKey outpoint) with
  | Ok data => decode_value data
  | Err e => if decide (e = LevelNotFound) then Err ErrUtxoNotFound else Err e
  | Panic => Panic
  end.

(** An entry that fails to decode is skipped; the error is that of the last entry. *)

Fixpoint all_utxos (items : list (bytes * bytes)) (view : gmap OutPoint Utxo) (err : option storage_error) :
    outcome storage_error (gmap OutPoint Utxo * option storage_error) :=
  match items with
  | [] => Ok (view, err)
  | (key, item) :: items =>
      match decode_value item with
      | Ok utxo => outpoint ← KeyToOutpoint key; all_utxos items (<[outpoint := utxo]> view) None
      | Err e => all_utxos items view (Some e)
      | Panic => Panic
      end
  end.

Definition GetAllUtxos (d : D) : outcome storage_error (gmap OutPoint Utxo * option storage_error) :=
  all_utxos (map_to_list (getprefix d UTXO_PREFIX)) ∅ None.

(** [SaveIndexValue] of the index database and [SaveAssetInfo] of the state database,
    which are kept in the same database. *)

Definition SaveIndexValue {A} `{RlpValue A} (key : bytes) (value : A) : go D storage_error unit := StoreBytes key value.

Definition SaveAssetInfo (info : AssetInfo) : go D storage_error unit := key ← lift (Tokey info); StoreBytes key info.
End UtxoDb.

(** ** The keys of outputs *)

Definition wf_outpoint (o : OutPoint) : Prop :=
  wf_hash (op_TxHash o) /\ 0 <= MessageIndex o < 2 ^ 32 /\ 0 <= OutIndex o < 2 ^ 32.

#[export] Instance wf_outpoint_dec o : Decision (wf_outpoint o).
Proof. unfold wf_outpoint, wf_hash. apply _. Defined.

Lemma EncodeNumberUint32_zlen n : zlen (EncodeNumberUint32 n) = 4.
Proof. done. Qed.

Lemma DecodeNumberUint32_Encode {E} n suf :
  0 <= n < 2 ^ 32 -> DecodeNumberUint32 (E := E) (EncodeNumberUint32 n ++ suf) = Ok n.
Proof.
  intros Hn. unfold DecodeNumberUint32. rewrite decide_False by (rewrite zlen_app, EncodeNumberUint32_zlen; zlen_lia).
  change (take 4 (EncodeNumberUint32 n ++ suf)) with (EncodeNumberUint32 n). f_equal.
  unfold SetBytes_big, EncodeNumberUint32, u8. cbn [fmap list_fmap foldl]. rewrite !Z.shiftr_div_pow2 by lia.
  Z.to_euclidean_division_equations. lia.
Qed.

Lemma ToKey_shape o : OutPoint_ToKey o = lit "uo" ++ op_TxHash o ++ EncodeNumberUint32 (MessageIndex o) ++ EncodeNumberUint32 (OutIndex o).
Proof. unfold OutPoint_ToKey. cbv zeta. by rewrite <- !app_assoc. Qed.

Lemma Hash_SetBytes_full h : zlen h = 32 -> Hash_SetBytes zero_Hash h = h.
Proof.
  intros Hl. unfold Hash_SetBytes, HashLength. change (zlen zero_Hash) with 32. rewrite !Hl, decide_False by lia.
  rewrite Hl. by apply copy_at_full.
Qed.

Lemma KeyToOutpoint_ToKey o : wf_outpoint o -> KeyToOutpoint (OutPoint_ToKey o) = Ok o.
Proof.
  intros ([Hl Hw] & Hm & Hi). rewrite ToKey_shape. unfold KeyToOutpoint. cbv zeta. set (h := op_TxHash o) in *.
  set (m := EncodeNumberUint32 (MessageIndex o)). set (i := EncodeNumberUint32 (OutIndex o)). unfold HashLength in *.
  assert (zlen (lit "uo" ++ h ++ m ++ i) = 42) as ->.
  { rewrite !zlen_app, Hl. done. }
  change (zlen (lit "uo")) with 2.
  rewrite (goslice_mid (lit "uo") h (m ++ i) 2 (42 - 8)) by (rewrite ?Hl; done). cbn [mbind outcome_bind].
  replace (lit "uo" ++ h ++ m ++ i) with ((lit "uo" ++ h) ++ m ++ i) by by rewrite <- !app_assoc.
  rewrite (goslice_mid (lit "uo" ++ h) m i (2 + 32) (42 - 4)) by (rewrite ?zlen_app, ?Hl; done). cbn [mbind outcome_bind].
  replace ((lit "uo" ++ h) ++ m ++ i) with ((lit "uo" ++ h ++ m) ++ i ++ []) by by rewrite app_nil_r, <- !app_assoc.
  rewrite (goslice_mid (lit "uo" ++ h ++ m) i []) by (rewrite ?zlen_app, ?Hl; done). cbn [mbind outcome_bind].
  rewrite <- (app_nil_r m), <- (app_nil_r i). unfold m, i. rewrite !DecodeNumberUint32_Encode by done. cbn [mbind outcome_bind].
  rewrite Hash_SetBytes_full by done. by destruct o.
Qed.

Lemma ToKey_inj o1 o2 : wf_outpoint o1 -> wf_outpoint o2 -> OutPoint_ToKey o1 = OutPoint_ToKey o2 -> o1 = o2.
Proof. intros H1%KeyToOutpoint_ToKey H2%KeyToOutpoint_ToKey Hk. rewrite Hk in H1. congruence. Qed.

(** ** Outputs that are read back *)

Definition wf_asset (a : Asset) : Prop := wf_id (AssetId a) /\ wf_id (UniqueId a) /\ 0 <= ChainId a < 2 ^ 64.

Definition wf_utxo (u : Utxo) : Prop :=
  0 <= u_Amount u < 2 ^ 64 /\ (match u_Asset u with Some a => wf_asset a | None => False end) /\
  (wf_bytes (u_PkScript u) /\ zlen (u_PkScript u) < 2 ^ 61) /\ 0 <= u_LockTime u < 2 ^ 32 /\
  wf_address (u_VoteResult u) /\ is_byte (u_Flags u).

#[export] Instance wf_utxo_dec u : Decision (wf_utxo u).
Proof. unfold wf_utxo, wf_asset, wf_id, wf_address. destruct (u_Asset u); apply _. Defined.

Lemma utxo_storable u : wf_utxo u -> storable u.
Proof.
  destruct u as [n [a|] s l v f]; intros (Hn & Ha & [Hs Hl] & Ht & [Hv Hvw] & Hf); [|done].
  cbn [u_Amount u_Asset u_PkScript u_LockTime u_VoteResult u_Flags] in *. destruct a as [ai au ac], Ha as ([Hi Hiw] & [Hu Huw] & Hc).
  cbn [AssetId UniqueId ChainId] in *. unfold ID_LENGTH, AddressLength in *. unfold storable. split_and!; [done| | |done].
  - cbn. rewrite !andb_true_r. rewrite !bool_decide_true; try done; split_and!; try done; by intros ->.
  - unfold is_byte in Hf. cbn. pose proof (bytelen_u64 n). pose proof (bytelen_u64 ac). pose proof (bytelen_u64 l).
    pose proof (bytelen_u64 f). lia.
Qed.

(** ** The set of unspent outputs

    The outputs of a database: what it holds under the keys that start with the
    prefix of outputs. *)

Section UtxoSet.
Context {D : Type} `{DatabaseLaws D} `{Crypto}.

Definition represents (d : D) (S : gmap OutPoint Utxo) : Prop :=
  map_Forall (fun o u => wf_outpoint o /\ wf_utxo u) S /\
  forall k v, HasPrefix k UTXO_PREFIX = true ->
    contents d !! k = Some v <-> exists o u, S !! o = Some u /\ k = OutPoint_ToKey o /\ v = encoding u.

Lemma ToKey_prefix o : HasPrefix (OutPoint_ToKey o) UTXO_PREFIX = true.
Proof. rewrite ToKey_shape. apply HasPrefix_app. Qed.

Lemma represents_lookup d S o : represents d S -> wf_outpoint o -> contents d !! OutPoint_ToKey o = encoding <$> S !! o.
Proof.
  intros [Hw Hc] Ho. destruct (S !! o) as [u|] eqn:Hu.
  - apply Hc; [apply ToKey_prefix|]. by exists o, u.
  - destruct (contents d !! OutPoint_ToKey o) as [v|] eqn:Hv; [|done].
    apply Hc in Hv as (o' & u & Hu' & Hk & _); [|apply ToKey_prefix].
    apply ToKey_inj in Hk as ->; [congruence|done|]. by destruct (Hw _ _ Hu').
Qed.

Lemma represents_frame d d' S :
  represents d S -> (forall k, HasPrefix k UTXO_PREFIX = true -> contents d' !! k = contents d !! k) -> represents d' S.
Proof. intros [Hw Hc] Hf. split; [done|]. intros k v Hk. rewrite Hf by done. by apply Hc. Qed.

Lemma represents_insert d d' S o u :
  represents d S -> wf_outpoint o -> wf_utxo u -> contents d' = <[OutPoint_ToKey o := encoding u]> (contents d) ->
  represents d' (<[o := u]> S).
Proof.
  intros [Hw Hc] Ho Hu Hd. split; [by apply map_Forall_insert_2|]. intros k v Hk. rewrite Hd.
  destruct (decide (k = OutPoint_ToKey o)) as [->|Hne].
  - rewrite lookup_insert_eq. split; [intros [= <-]; exists o, u; by rewrite lookup_insert_eq|].
    intros (o' & u' & Hu' & Ho' & ->). apply lookup_insert_Some in Hu' as [[-> ->]|[Hne Hu']]; [done|].
    destruct (Hw _ _ Hu'). by apply ToKey_inj in Ho'.
  - rewrite lookup_insert_ne, Hc by done. split; intros (o' & u' & Hu' & -> & ->); exists o', u'.
    + rewrite lookup_insert_ne by (by intros ->). done.
    + rewrite lookup_insert_ne in Hu' by (by intros ->). done.
Qed.

Lemma represents_delete d d' S o :
  represents d S -> wf_outpoint o -> contents d' = delete (OutPoint_ToKey o) (contents d) -> represents d' (delete o S).
Proof.
  intros [Hw Hc] Ho Hd. split; [by apply map_Forall_delete|]. intros k v Hk. rewrite Hd.
  destruct (decide (k = OutPoint_ToKey o)) as [->|Hne].
  - rewrite lookup_delete_eq. split; [done|]. intros (o' & u' & Hu' & Ho' & ->).
    apply lookup_delete_Some in Hu' as [Hne Hu']. destruct (Hw _ _ Hu'). by apply ToKey_inj in Ho'.
  - rewrite lookup_delete_ne, Hc by done. split; intros (o' & u' & Hu' & -> & ->); exists o', u'.
    + rewrite lookup_delete_ne by (by intros ->). done.
    + rewrite lookup_delete_ne in Hu' by (by intros ->). done.
Qed.

Lemma GetUtxoEntry_spec d S o :
  represents d S -> wf_outpoint o ->
  GetUtxoEntry o d = match S !! o with Some u => Ok u | None => Err ErrUtxoNotFound end.
Proof.
  intros Hr Ho. unfold GetUtxoEntry. rewrite Get_spec, (represents_lookup d S o Hr Ho).
  destruct (S !! o) as [u|] eqn:Hu; cbn [fmap option_fmap option_map]; [|done].
  apply storable_decodes, utxo_storable. by apply Hr in Hu as [_ ?].
Qed.

(** An operation of the database that always returns [a] and does [f] to the set. *)

Definition refines {A} (m : go D storage_error A) (a : A) (f : gmap OutPoint Utxo -> gmap OutPoint Utxo) : Prop :=
  forall d S, represents d S -> exists d', m d = (Ok a, d') /\ represents d' (f S).

Lemma refines_ret {A} (a : A) : refines (mret a) a id.
Proof. intros d S Hr. by exists d. Qed.

Lemma refines_bind {A B} (m : go D storage_error A) (k : A -> go D storage_error B) a b f g :
  refines m a f -> refines (k a) b g -> refines (m ≫= k) b (g ∘ f).
Proof.
  intros Hm Hk d S Hr. destruct (Hm d S Hr) as (d1 & E1 & R1). destruct (Hk d1 _ R1) as (d2 & E2 & R2).
  exists d2. by rewrite (go_bind_ok _ _ _ _ _ E1).
Qed.

Lemma refines_then {A B} (m : go D storage_error A) (k : A -> go D storage_error B) a b f :
  refines m a f -> refines (k a) b id -> refines (m ≫= k) b f.
Proof. intros Hm Hk. exact (refines_bind m k a b f id Hm Hk). Qed.

Lemma refines_lift {A B} (o : outcome storage_error A) (a : A) (b : B) k f : o = Ok a -> refines (k a) b f -> refines (lift o ≫= k) b f.
Proof. intros -> Hk d S Hr. rewrite go_lift_ok. by apply Hk. Qed.

Lemma refines_ignore m f : refines m tt f -> refines (ignore_err m) tt f.
Proof. intros Hm d S Hr. destruct (Hm d S Hr) as (d1 & E1 & R1). exists d1. unfold ignore_err. by rewrite E1. Qed.

Lemma refines_Delete_other k : HasPrefix k UTXO_PREFIX = false -> refines (Delete k) tt id.
Proof.
  intros Hk d S Hr. destruct (Delete_spec d k) as (d' & E & Hd). exists d'. split; [done|].
  apply (represents_frame d); [done|]. intros k' Hk'. rewrite Hd, lookup_delete_ne; [done|]. congruence.
Qed.

Lemma refines_StoreBytes_other {A} `{RlpValue A} k (a : A) :
  HasPrefix k UTXO_PREFIX = false -> encodable a -> refines (StoreBytes k a) tt id.
Proof.
  intros Hk Ha d S Hr. destruct (StoreBytes_spec a k d Ha) as (d' & E & Hd). exists d'. split; [done|].
  apply (represents_frame d); [done|]. intros k' Hk'. rewrite Hd, lookup_insert_ne; [done|]. congruence.
Qed.

Lemma refines_Delete o : wf_outpoint o -> refines (DeleteUtxo o) tt (delete o).
Proof.
  intros Ho d S Hr. destruct (Delete_spec d (OutPoint_ToKey o)) as (d' & E & Hd). exists d'. split; [done|].
  by apply (represents_delete d).
Qed.

Lemma refines_Put o u : wf_outpoint o -> wf_utxo u -> refines (Put (OutPoint_ToKey o) (encoding u)) tt <[o := u]>.
Proof.
  intros Ho Hu d S Hr. destruct (Put_spec d (OutPoint_ToKey o) (encoding u)) as (d' & E & Hd). exists d'. split; [done|].
  by apply (represents_insert d).
Qed.

Lemma refines_SaveUtxoEntity o u : wf_outpoint o -> wf_utxo u -> refines (SaveUtxoEntity o u) tt <[o := u]>.
Proof.
  intros Ho Hu d S Hr.
  destruct (StoreBytes_spec u (OutPoint_ToKey o) d (storable_encodable u (utxo_storable u Hu))) as (d' & E & Hd).
  exists d'. split; [done|]. by apply (represents_insert d).
Qed.

Lemma outpoint_encodable o : wf_outpoint o -> encodable o.
Proof.
  intros ([Hl Hw] & Hm & Hi). apply storable_encodable. destruct o as [h m i]. cbn [op_TxHash MessageIndex OutIndex] in *.
  unfold HashLength in Hl. unfold storable. split_and!; [done| | |done].
  - cbn. rewrite !andb_true_r, !bool_decide_true; try done. split_and!; try done. by intros ->.
  - cbn. pose proof (bytelen_u64 m). pose proof (bytelen_u64 i). lia.
Qed.

Lemma ap_prefix s : HasPrefix (AddrOutPoint_Prefix ++ s) UTXO_PREFIX = false.
Proof. done. Qed.

(** ** Saving a view *)

Lemma script_address_ok s : wf_bytes s -> exists a, script_address s = Ok a.
Proof.
  intros Hs. unfold script_address. pose proof (GetAddressFromScript_safe s Hs) as Hp.
  destruct (GetAddressFromScript s); [by eexists..|done].
Qed.

(** [IsModified] multiplies the flags by 4 modulo 256. *)

Lemma IsModified_iff u : is_byte (u_Flags u) -> IsModified u = true <-> u_Flags u `mod` 64 = 1.
Proof.
  unfold is_byte, IsModified, u8. intros Hf. rewrite bool_decide_eq_true. Z.to_euclidean_division_equations. lia.
Qed.

Lemma IsSpent_testbit u : IsSpent u = Z.testbit (u_Flags u) 1.
Proof.
  unfold IsSpent. change 2 with (2 ^ 1). destruct (Z.testbit (u_Flags u) 1) eqn:Ht.
  - apply bool_decide_true, Z.bits_inj'. intros n Hn. rewrite Z.land_spec, Z.pow2_bits_eqb by lia.
    destruct (Z.eqb_spec 1 n) as [<-|]; [by rewrite Ht|apply andb_false_r].
  - apply bool_decide_false. intros Hl. apply (f_equal (fun z => Z.testbit z 1)) in Hl. by rewrite Z.land_spec, Ht in Hl.
Qed.

(** What one entry does to the set. *)

Definition view_entry (S : gmap OutPoint Utxo) (e : OutPoint * option Utxo) : gmap OutPoint Utxo :=
  match e.2 with
  | None => S
  | Some u => if decide (u_Flags u `mod` 64 = 1) then S else if Z.testbit (u_Flags u) 1 then delete e.1 S else <[e.1 := u]> S
  end.

Definition wf_entry (e : OutPoint * option Utxo) : Prop :=
  wf_outpoint e.1 /\ match e.2 with Some u => wf_utxo u | None => True end.

(** [Spend] is what removes an output with the next view; a new output that [SetCoinBase]
    has marked is never stored. *)

Lemma view_Spend S o u : view_entry S (o, Some (Spend u)) = delete o S.
Proof.
  assert (Z.testbit (u_Flags (Spend u)) 1 = true) as Hb.
  { unfold Spend. pose proof (IsSpent_testbit u) as E. destruct (IsSpent u); [done|]. change (Z.testbit (Z.lor (u_Flags u) 6) 1 = true). by rewrite Z.lor_spec, orb_true_r. }
  unfold view_entry. cbn [fst snd]. rewrite Hb, decide_False; [done|].
  intros Hm. apply (f_equal (fun z => Z.testbit z 1)) in Hm. change 64 with (2 ^ 6) in Hm. by rewrite Z.mod_pow2_bits_low, Hb in Hm by lia.
Qed.

Lemma view_SetCoinBase S o u : u_Flags u = 0 -> IsCoinBase (SetCoinBase u) = true /\ view_entry S (o, Some (SetCoinBase u)) = S.
Proof. intros Hf. unfold IsCoinBase, view_entry, SetCoinBase. cbn. by rewrite Hf. Qed.

#[export] Instance wf_entry_dec e : Decision (wf_entry e).
Proof. unfold wf_entry. destruct e.2; apply _. Defined.

Lemma save_entry_refines e : wf_entry e -> refines (save_entry e.1 e.2) tt (fun S => view_entry S e).
Proof.
  destruct e as [o [u|]]; intros [Ho Hu]; [|apply refines_ret]. cbn in Ho, Hu. unfold save_entry, view_entry. cbn [fst snd].
  destruct (decide _) as [Hm|Hm].
  - rewrite (proj2 (IsModified_iff u ltac:(apply Hu)) Hm). apply refines_ret.
  - destruct (IsModified u) eqn:Hi; [by apply IsModified_iff in Hi; [|apply Hu]|]. cbv zeta.
    destruct (script_address_ok (u_PkScript u)) as [a Ha]; [apply Hu|]. apply (refines_lift _ a); [done|]. rewrite IsSpent_testbit.
    destruct (Z.testbit (u_Flags u) 1).
    + apply (refines_then _ _ tt); [by apply refines_Delete|]. apply refines_ignore, refines_Delete_other, ap_prefix.
    + destruct (encodable_encodes u (storable_encodable u (utxo_storable u Hu))) as [He _].
      apply (refines_lift _ (encoding u)); [by rewrite He|]. apply (refines_then _ _ tt); [by apply refines_Put|].
      apply refines_ignore. unfold SaveUtxoOutpoint. apply refines_StoreBytes_other; [apply ap_prefix|by apply outpoint_encodable].
Qed.

Lemma SaveUtxoView_refines view : Forall wf_entry view -> refines (SaveUtxoView view) tt (fun S => foldl view_entry S view).
Proof.
  induction 1 as [|[o u] view He _ IH]; [apply refines_ret|].
  exact (refines_bind _ (fun _ => SaveUtxoView view) tt tt (fun S => view_entry S (o, u)) _ (save_entry_refines (o, u) He) IH).
Qed.

(** ** Reading all outputs *)

Definition entry_of (S : gmap OutPoint Utxo) (kv : bytes * bytes) : Prop :=
  exists o u, S !! o = Some u /\ kv = (OutPoint_ToKey o, encoding u).

Lemma all_utxos_spec S l :
  map_Forall (fun o u => wf_outpoint o /\ wf_utxo u) S -> Forall (entry_of S) l ->
  forall view, view ⊆ S -> exists m, all_utxos l view None = Ok (m, None) /\ view ⊆ m /\ m ⊆ S /\
    forall o u, S !! o = Some u -> (OutPoint_ToKey o, encoding u) ∈ l -> m !! o = Some u.
Proof.
  intros Hw. induction 1 as [|kv l (o & u & Hu & ->) _ IH]; intros view Hv; cbn [all_utxos].
  { exists view. split; [done|]. split; [done|]. split; [done|]. by intros o u _ ?%not_elem_of_nil. }
  destruct (Hw _ _ Hu) as [Ho Hwu]. rewrite (storable_decodes u (utxo_storable u Hwu)), (KeyToOutpoint_ToKey o Ho).
  cbn [mbind outcome_bind]. destruct (IH (<[o := u]> view)) as (m & E & Hs & Hm & Hl); [by apply insert_subseteq_l|].
  assert (m !! o = Some u) as Hmo by (eapply lookup_weaken; [apply lookup_insert_eq|done]).
  exists m. split; [done|]. split; [|split; [done|]].
  - apply map_subseteq_spec. intros o' u' Hu'. destruct (decide (o = o')) as [<-|Hne].
    + rewrite Hmo. rewrite <- Hu. by apply (lookup_weaken view).
    + eapply lookup_weaken; [|done]. by rewrite lookup_insert_ne.
  - intros o' u' Hu' [Hk|Hin]%elem_of_cons; [|by apply Hl]. apply (f_equal fst) in Hk. cbn [fst] in Hk.
    apply ToKey_inj in Hk as ->; [congruence|by destruct (Hw _ _ Hu')|done].
Qed.

Lemma GetAllUtxos_spec d S : represents d S -> GetAllUtxos d = Ok (S, None).
Proof.
  intros [Hw Hc]. unfold GetAllUtxos. rewrite getprefix_spec. set (fm := filter _ (contents d)).
  assert (forall k v, fm !! k = Some v <-> entry_of S (k, v)) as Hf.
  { intros k v. unfold fm. rewrite map_lookup_filter_Some. cbn. split.
    - intros [Hk Hp]. apply (Hc k v Hp) in Hk as (o & u & Hu & -> & ->). by exists o, u.
    - intros (o & u & Hu & [-> ->]%pair_eq). split; [|apply ToKey_prefix]. apply Hc; [apply ToKey_prefix|]. by exists o, u. }
  destruct (all_utxos_spec S (map_to_list fm) Hw) with (view := (∅ : gmap OutPoint Utxo)) as (m & E & _ & Hm & Hl).
  - apply list.Forall_forall. intros [k v] Hin%elem_of_map_to_list. by apply Hf.
  - apply map_empty_subseteq.
  - rewrite E. do 2 f_equal. apply (anti_symm (⊆)); [done|]. apply map_subseteq_spec. intros o u Hu. apply Hl; [done|].
    apply elem_of_map_to_list, Hf. by exists o, u.
Qed.

(** C10: Saving a view of outputs.  In any database that keeps its contract and holds
    exactly the set [S] of unspent outputs, [SaveUtxoView] succeeds on every view of
    well-formed entries, and reading all outputs back gives [S] with the view applied
    to it entry by entry: a nil entry and an entry whose flags are 1 modulo 64 (an
    unspent coinbase output that carries no modification) change nothing, a spent one is
    removed, and every other one is stored, modified or not. *)
Theorem saving_a_view (view : list (OutPoint * option Utxo)) (d : D) (S : gmap OutPoint Utxo) :
  represents d S -> Forall wf_entry view ->
  exists d', SaveUtxoView view d = (Ok tt, d') /\ represents d' (foldl view_entry S view) /\
    GetAllUtxos d' = Ok (foldl view_entry S view, None).
Proof.
  intros Hr Hv. destruct (SaveUtxoView_refines view Hv d S Hr) as (d' & E & Hr'). exists d'.
  split; [done|]. split; [done|]. by apply GetAllUtxos_spec.
Qed.
End UtxoSet.

Lemma represents_empty : represents (mkMem ∅) ∅.
Proof.
  split; [apply map_Forall_empty|]. intros k v _. cbn. rewrite lookup_empty. split; [done|]. intros (o & u & Hu & _). by rewrite lookup_empty in Hu.
Qed.

Definition toy_asset : Asset := mkAsset (replicate 16 1) (replicate 16 2) 1.
Definition toy_outpoint (n : Z) : OutPoint := mkOutPoint (replicate 32 7) 0 n.
Definition toy_utxo (amount flags : Z) : Utxo := mkUtxo amount (Some toy_asset) [0x51] 0 zero_Address flags.

(** A view with a new coinbase output, which is not saved, an ordinary one and a spent one. *)

Definition toy_view : list (OutPoint * option Utxo) :=
  [(toy_outpoint 0, Some (toy_utxo 5 1)); (toy_outpoint 1, Some (toy_utxo 6 0)); (toy_outpoint 2, Some (toy_utxo 7 6))].

Lemma saving_a_view_witness :
  exists d', @SaveUtxoView _ _ toy_crypto toy_view (mkMem ∅) = (Ok tt, d') /\
    GetAllUtxos d' = Ok (<[toy_outpoint 1 := toy_utxo 6 0]> ∅, None).
Proof.
  destruct (saving_a_view (H1 := toy_crypto) toy_view (mkMem ∅) ∅ represents_empty) as (d' & E & _ & Hall).
  - by apply (bool_decide_unpack _).
  - exists d'. split; [exact E|]. by rewrite Hall.
Defined.
