(* ===== verification/TxRlp.v ===== *)
(** * TxRlp: transactions on the wire

    [dag/modules/transaction_rlp.go]: what a peer reads of a transaction that
    [EncodeRLP] wrote, and the hash and size of a transaction
    ([dag/modules/transaction.go]).

    [DecodeRLP] drops the errors of the decoder, and goes on with what the failed
    decoding left ([left_by] of [RlpPartial]).  A nil input that a slice holds after a
    failure has no counterpart in the model.

    The theorems: which transactions come back as they were sent, with the payloads
    that are lost; and that the payment of a coinbase transaction is never read back. *)

From S2P Require Import Prelude Digits HexUtil Transaction Crypto Address Rlp RlpEncode RlpDecode RlpSound RlpRoundTrip RlpPartial KvStore Utxo.

#[local] Open Scope Z_scope.

(** ** Hash and size *)

Section Hash.
Context `{Crypto}.

(** [rlp.RlpHash(tx)]: an error of the encoder leaves the hash of nothing. *)

Definition RlpHash (tx : Transaction) : outcome rlp_error bytes :=
  match EncodeRLP tx with Ok b => Ok (Keccak256 b) | Err _ => Ok (Keccak256 []) | Panic => Panic end.

(** The hash is kept in the transaction. *)

Definition Transaction_Hash : go Transaction rlp_error bytes :=
  tx ← get;
  if decide (TxHash tx <> zero_Hash) then mret (TxHash tx)
  else
    v ← lift (RlpHash tx);
    _ ← put (mkTransaction v (TxMessages tx));
    mret v.
End Hash.

Definition Transaction_Size (tx : Transaction) : outcome rlp_error Z :=
  match EncodeRLP tx with Ok b => Ok (zlen b) | Err _ => Ok 0 | Panic => Panic end.

(** ** Reading back *)

Section Received.
Context (torn : rtype -> bytes -> rval).

Definition outpoint_of (v : rval) : option OutPoint :=
  match v with VPtr (VList [VBytes h; VInt m; VInt i]) => Some (mkOutPoint h m i) | _ => None end.

Definition input_of (v : rval) : option Input :=
  match v with
  | VPtr (VList [o; VBytes s; VBytes e]) => Some (mkInput (outpoint_of o) (Some s) (Some e))
  | _ => None
  end.

Definition output_of (v : rval) : option Output :=
  match v with VPtr (VList [VInt n; VBytes s; a]) => mkOutput n s <$> asset_of a | _ => None end.

Definition payment_of (v : rval) : PaymentPayload :=
  match v with
  | VList [ins; outs; VInt l] =>
      mkPaymentPayload (match ins with VList ins => omap input_of ins | _ => [] end)
        (match outs with VList outs => omap output_of outs | _ => [] end) l
  | _ => mkPaymentPayload [] [] 0
  end.

Definition messageTemp_of (v : rval) : option messageTemp :=
  match v with VList [VInt a; VBytes d] => Some (mkMessageTemp a d) | _ => None end.

Definition temp_of (v : rval) : transactionTemp :=
  match v with
  | VList [VBytes h; VList ms] => mkTransactionTemp h (omap messageTemp_of ms)
  | VList [VBytes h; _] => mkTransactionTemp h []
  | _ => mkTransactionTemp zero_Hash []
  end.

(** ** Decoding *)

(** The types a message is decoded to; a message of another type keeps a nil payload. *)

Definition decoded_type (app : Z) : option PayloadType :=
  if decide (app = APP_PAYMENT) then Some T_PaymentPayload
  else if decide (app = APP_TEXT) then Some T_TextPayload
  else if decide (app = APP_CONTRACT_INVOKE) then Some T_ContractInvokePayload
  else if decide (app = APP_CONTRACT_DEPLOY) then Some T_ContractDeployPayload
  else if decide (app = APP_CONFIG) then Some T_ConfigPayload
  else if decide (app = APP_CONTRACT_TPL) then Some T_ContractTplPayload
  else if decide (app = OP_MEDIATOR_CREATE) then Some T_MediatorCreateOperation
  else None.

Definition payload_of (t : PayloadType) (v : rval) : Payload :=
  match t with T_PaymentPayload => Payment (payment_of v) | _ => OtherPayload t v end.

Definition payload_fields (t : PayloadType) : list (tags * rtype) :=
  match payload_struct t with TStruct fields => fields | _ => [] end.

Definition message_of (m : messageTemp) : outcome rlp_error Message :=
  match decoded_type (mt_App m) with
  | Some t => v ← left_by torn (payload_fields t) (mt_Data m); Ok (mkMessage (mt_App m) (payload_of t v))
  | None => Ok (mkMessage (mt_App m) NilPayload)
  end.

Fixpoint messages_of (ms : list messageTemp) : outcome rlp_error (list Message) :=
  match ms with
  | [] => Ok []
  | m :: ms => msg ← message_of m; msgs ← messages_of ms; Ok (msg :: msgs)
  end.

Definition temp2Tx (temp : transactionTemp) (tx : Transaction) : outcome rlp_error Transaction :=
  msgs ← messages_of (tt_TxMessages temp);
  Ok (mkTransaction (tt_TxHash temp) (TxMessages tx ++ msgs)).

Definition transactionTemp_fields : list (tags * rtype) :=
  match transactionTemp_type with TStruct fields => fields | _ => [] end.

Definition DecodeRLP (tx : Transaction) : dec Transaction :=
  raw ← Raw_;
  temp ← lift (left_by torn transactionTemp_fields raw);
  lift (temp2Tx (temp_of temp) tx).
End Received.

(** ** The bytes of an encoding *)

Lemma Str_wf b : wf_bytes b -> zlen b < 2 ^ 62 -> wf_bytes (rlp_bytes (Str b)).
Proof.
  intros Hb Hl. cbn [rlp_bytes]. destruct (single b); [done|]. unfold encoded. apply wf_bytes_app. split; [|done].
  zlen_facts. apply header_wf; lia.
Qed.

Lemma Lst_wf l : wf_bytes (all_bytes_of l) -> zlen (all_bytes_of l) < 2 ^ 62 -> wf_bytes (rlp_bytes (Lst l)).
Proof.
  intros Hb Hl. cbn [rlp_bytes]. fold (all_bytes_of l). unfold encoded. apply wf_bytes_app. split; [|done].
  zlen_facts. apply header_wf; lia.
Qed.

Lemma app_bound (a b : bytes) n : zlen (a ++ b) < n -> zlen a < n /\ zlen b < n.
Proof. rewrite zlen_app. zlen_facts. lia. Qed.

(** What the items of a value encode to, once their length is known. *)

Definition encodes_wf (o : outcome rlp_error (list item)) : Prop :=
  forall xs, o = Ok xs -> zlen (all_bytes_of xs) < 2 ^ 62 -> wf_bytes (all_bytes_of xs).

Lemma encodes_wf_pair o o' : encodes_wf o -> encodes_wf o' -> encodes_wf (x ← o; xs ← o'; Ok (x ++ xs)).
Proof.
  intros Ho Ho' xs Hx Hl. destruct o as [x| |]; [|discriminate Hx..]. cbn [mbind outcome_bind] in Hx.
  destruct o' as [y| |]; [|discriminate Hx..]. injection Hx as <-. rewrite all_bytes_app in *. apply app_bound in Hl as [H1 H2].
  apply wf_bytes_app. split; [by apply Ho|by apply Ho'].
Qed.

Lemma encodes_wf_list o : encodes_wf o -> encodes_wf (xs ← o; Ok [Lst xs]).
Proof.
  intros Ho xs Hx Hl. destruct o as [x| |]; [|discriminate Hx..]. injection Hx as <-. rewrite all_bytes_1 in *.
  assert (zlen (all_bytes_of x) < 2 ^ 62) as Hb.
  { cbn [rlp_bytes] in Hl. fold (all_bytes_of x) in Hl. unfold encoded in Hl. by apply app_bound in Hl as [_ ?]. }
  apply Lst_wf; [by apply Ho|done].
Qed.

Lemma encodes_wf_str b : wf_bytes b -> encodes_wf (Ok [Str b]).
Proof.
  intros Hb xs [= <-] Hl. rewrite all_bytes_1 in *. apply Str_wf; [done|]. cbn [rlp_bytes] in Hl. destruct (single b); [done|].
  unfold encoded in Hl. by apply app_bound in Hl as [_ ?].
Qed.

Lemma encodes_wf_int z : - 2 ^ 63 <= z < 2 ^ 63 -> encodes_wf (Ok [int_item z]).
Proof.
  intros Hz xs [= <-] Hl. rewrite all_bytes_1 in *. unfold int_item in *. case_decide; [apply wf_bytes_1; done|].
  cbn [rlp_bytes]. apply wf_bytes_cons. split; [|apply be_field_wf].
  pose proof (int_item_zlen z Hz) as Hi. unfold int_item in Hi. rewrite decide_False in Hi by done. cbn [rlp_bytes] in Hi.
  rewrite zlen_cons in Hi. unfold zlen in Hi. rewrite be_field_length in Hi. unfold is_byte, intlen in *. lia.
Qed.

Lemma nil_item_wf t : encodes_wf (Ok [nil_item t]).
Proof.
  intros xs [= <-] _. rewrite all_bytes_1. induction t; try done; try (apply wf_bytes_1; done); by repeat constructor.
Qed.

Lemma collect_wf f vs : Forall (fun v => encodes_wf (f v)) vs -> encodes_wf (collect f vs).
Proof.
  induction 1 as [|v vs Hv _ IH]; [by intros xs [= <-] _; constructor|]. cbn [collect]. by apply encodes_wf_pair.
Qed.

Lemma collect_fields_wf vs : forall fields,
  Forall (fun v => forall ts t, has_type t v = true -> encodes_wf (items ts t v)) vs ->
  has_type (TStruct fields) (VList vs) = true -> encodes_wf (collect_fields items fields vs).
Proof.
  induction vs as [|v vs IH]; intros [|[ts t] fields] HF Ht; try discriminate Ht; [by intros xs [= <-] _; constructor|].
  apply Forall_cons in HF as [Hv HF].
  change (has_type (TStruct ((ts, t) :: fields)) (VList (v :: vs)))
    with (has_type t v && has_type (TStruct fields) (VList vs)) in Ht. apply andb_true_iff in Ht as [Ht1 Ht2].
  cbn [collect_fields]. apply encodes_wf_pair; [by apply Hv|by apply IH].
Qed.

Lemma collect_entries_wf f g l :
  Forall (fun kv => encodes_wf (f kv.1) /\ encodes_wf (g kv.2)) l -> encodes_wf (collect_entries f g l).
Proof.
  induction 1 as [|[k v] l [Hk Hv] _ IH]; [by intros xs [= <-] _; constructor|]. cbn [collect_entries fst snd] in *.
  intros xs Hx Hl. destruct (f k) as [x| |]; [|discriminate Hx..]. cbn [mbind outcome_bind] in Hx.
  revert Hx Hl. intros Hx Hl. pose proof (encodes_wf_pair _ _ Hv IH) as Hp.
  destruct (g v) as [y| |]; [|discriminate Hx..]. cbn [mbind outcome_bind] in *.
  destruct (collect_entries f g l) as [ys| |]; [|discriminate Hx..]. injection Hx as <-. rewrite all_bytes_app in *.
  apply app_bound in Hl as [H1 H2]. apply wf_bytes_app. split; [by apply Hk|by apply (Hp (y ++ ys))].
Qed.

Lemma items_wf v : forall ts t, has_type t v = true -> encodes_wf (items ts t v).
Proof.
  induction v as [b|z|b|vs IH|l IH| |v IH|t' v IH] using rval_nested_ind; intros ts t Ht.
  - destruct t; try discriminate Ht; cbn in Ht; apply bool_decide_eq_true in Ht; try (by apply encodes_wf_str);
      [|by apply encodes_wf_str, Ht]. intros xs [= <-] _. by rewrite all_bytes_1.
  - destruct t; try discriminate Ht; cbn [items]; try (apply encodes_wf_str, be_min_wf).
    + case_decide; [done|]. apply encodes_wf_str, be_min_wf.
    + apply encodes_wf_str, le_field_wf.
    + cbn in Ht. apply bool_decide_eq_true in Ht as [Hr Hb]. apply encodes_wf_int.
      pose proof (Z.pow_le_mono_r 2 (bits - 1) 63). lia.
  - cbn [items]. apply encodes_wf_str. destruct b; [by apply wf_bytes_1|constructor].
  - assert (forall t, forallb (has_type t) vs = true -> encodes_wf (collect (items no_tags t) vs)) as Hel.
    { intros t' Hts. apply collect_wf. eapply forallb_Forall_impl; [|exact Hts]. eapply Forall_impl; [exact IH|].
      intros v Hv Htv. by apply Hv. }
    destruct t; try discriminate Ht; cbn [items]; [|cbn in Ht; apply andb_true_iff in Ht as [_ Ht]|].
    1,2: destruct (tail ts); [|by apply encodes_wf_list, Hel]; intros xs Hx Hl; apply (Hel t Ht); [|done];
      by destruct (collect _ vs); [|discriminate Hx..].
    apply encodes_wf_list. by apply collect_fields_wf.
  - destruct t; try discriminate Ht; cbn [items]. cbn in Ht. apply encodes_wf_list, collect_entries_wf.
    eapply forallb_Forall_impl; [|exact Ht]. eapply Forall_impl; [exact IH|].
    intros [k v] [Hk Hv] Hkv. apply andb_true_iff in Hkv as [H1 H2]. split; [by apply Hk|by apply Hv].
  - destruct t; try discriminate Ht; [apply nil_item_wf|]. intros xs [= <-] _. rewrite all_bytes_1. by apply wf_bytes_1.
  - destruct t; try discriminate Ht. by apply IH.
  - destruct t; try discriminate Ht. cbn [items]. destruct (genTypeInfo t'); [by apply IH|done..].
Qed.

(** ** Transactions that come back *)

Definition wf_input (i : Input) : Prop :=
  match PreviousOutPoint i, SignatureScript i, Extra i with
  | Some o, Some s, Some e => wf_outpoint o /\ wf_bytes s /\ wf_bytes e
  | _, _, _ => False
  end.

Definition wf_output (o : Output) : Prop :=
  0 <= Value o < 2 ^ 64 /\ wf_bytes (PkScript o) /\ match out_Asset o with Some a => wf_asset a | None => False end.

Definition wf_payment (p : PaymentPayload) : Prop :=
  Forall wf_input (Inputs p) /\ Forall wf_output (Outputs p) /\ 0 <= LockTime p < 2 ^ 32.

Definition payload_value (p : Payload) : rval :=
  match p with NilPayload => VNil | Payment pay => payment_to pay | OtherPayload _ v => v end.

Definition wf_payload (p : Payload) : Prop :=
  match p with
  | NilPayload => False
  | Payment pay => wf_payment pay
  | OtherPayload t v => t <> T_PaymentPayload /\ survives no_tags (payload_struct t) v = true
  end.

(** The type of message that announces a payload, and the types of message whose payload
    is not read back. *)

Definition app_of (t : PayloadType) : Z :=
  match t with
  | T_PaymentPayload => APP_PAYMENT
  | T_ContractTplPayload => APP_CONTRACT_TPL
  | T_ContractDeployPayload => APP_CONTRACT_DEPLOY
  | T_ContractInvokePayload => APP_CONTRACT_INVOKE
  | T_ContractInvokeRequestPayload => APP_CONTRACT_INVOKE_REQUEST
  | T_ConfigPayload => APP_CONFIG
  | T_TextPayload => APP_TEXT
  | T_VotePayload => APP_VOTE
  | T_SignaturePayload => APP_SIGNATURE
  | T_MediatorCreateOperation => OP_MEDIATOR_CREATE
  end.

Definition lost (app : Z) : Prop :=
  app = APP_VOTE \/ app = APP_CONTRACT_INVOKE_REQUEST \/ app = APP_SIGNATURE \/ OP_MEDIATOR_CREATE < app.

#[export] Instance lost_dec app : Decision (lost app).
Proof. unfold lost. apply _. Defined.

Definition wf_message (m : Message) : Prop :=
  is_byte (App m) /\ wf_payload (payload m) /\ (lost (App m) \/ Some (App m) = app_of <$> payload_type (payload m)).

(** A bound on the size of its serialisation. *)

Definition messages_size (ms : list Message) : Z := foldr (fun m n => 50 + rsize (payload_value (payload m)) + n) 0 ms.

Definition wf_transaction (tx : Transaction) : Prop :=
  wf_hash (TxHash tx) /\ Forall wf_message (TxMessages tx) /\ 100 + messages_size (TxMessages tx) < 2 ^ 62.

#[export] Instance wf_input_dec i : Decision (wf_input i).
Proof. unfold wf_input. destruct (PreviousOutPoint i), (SignatureScript i), (Extra i); apply _. Defined.
#[export] Instance wf_output_dec o : Decision (wf_output o).
Proof. unfold wf_output, wf_asset, wf_id. destruct (out_Asset o); apply _. Defined.
#[export] Instance wf_message_dec m : Decision (wf_message m).
Proof. unfold wf_message, wf_payload, wf_payment. destruct (payload m); apply _. Defined.
#[export] Instance wf_transaction_dec tx : Decision (wf_transaction tx).
Proof. unfold wf_transaction, wf_hash. apply _. Defined.

(** What the receiver of a message gets. *)

Definition received (m : Message) : Message := if decide (lost (App m)) then mkMessage (App m) NilPayload else m.

Lemma decoded_lost app : lost app -> decoded_type app = None.
Proof. intros Hl. unfold decoded_type. by rewrite !decide_False by (unfold lost in Hl; lia). Qed.

Lemma decoded_app t : ~ lost (app_of t) -> decoded_type (app_of t) = Some t.
Proof. intros Hl. destruct t; try done; destruct Hl; unfold lost; cbn; lia. Qed.

Lemma byte_array_survives n b :
  zlen b = n -> 1 < n -> wf_bytes b -> bool_decide (wf_bytes b /\ zlen b = n /\ b <> [0]) = true.
Proof. intros Hl Hn Hb. apply bool_decide_eq_true. split_and!; try done. intros ->. change (zlen [0]) with 1 in Hl. lia. Qed.

Lemma outpoint_survives o : wf_outpoint o -> survives no_tags outpoint_type (outpoint_to o) = true.
Proof.
  intros ([Hl Hw] & Hm & Hi). unfold HashLength in Hl. cbn. rewrite (byte_array_survives 32) by (done || lia).
  by rewrite !bool_decide_true by done.
Qed.

Lemma asset_survives a : wf_asset a -> survives no_tags (TPtr asset_type) (asset_to (Some a)) = true.
Proof.
  intros ([Hi Hiw] & [Hu Huw] & Hc). unfold ID_LENGTH in *. cbn. rewrite !(byte_array_survives 16) by (done || lia).
  by rewrite !bool_decide_true by done.
Qed.

Lemma input_survives i : wf_input i -> survives no_tags (TPtr input_type) (input_to i) = true /\ input_of (input_to i) = Some i.
Proof.
  destruct i as [[o|] [s|] [e|]]; try done. intros (Ho & Hs & He). split; [|by destruct o].
  pose proof (outpoint_survives o Ho) as Hso. cbn in Hso |- *. rewrite Hso. by rewrite !bool_decide_true by done.
Qed.

Lemma output_survives o : wf_output o -> survives no_tags (TPtr output_type) (output_to o) = true /\ output_of (output_to o) = Some o.
Proof.
  destruct o as [n s [a|]]; intros (Hn & Hs & Ha); [|done]. split; [|by destruct a].
  pose proof (asset_survives a Ha) as Hsa. cbn in Hn, Hs, Hsa |- *. rewrite Hsa. by rewrite !bool_decide_true by done.
Qed.

Lemma elements_survive {A} (t : rtype) (f : A -> rval) (g : rval -> option A) (wf : A -> Prop) l :
  (forall a, wf a -> survives no_tags t (f a) = true /\ g (f a) = Some a) -> Forall wf l ->
  forallb (survives no_tags t) (f <$> l) = true /\ omap g (f <$> l) = l.
Proof.
  intros Hf. induction 1 as [|a l Ha _ [IH1 IH2]]; [done|]. destruct (Hf a Ha) as [Hs Hg].
  cbn. rewrite Hs, Hg. split; [done|]. by f_equal.
Qed.

Lemma payment_survives p :
  wf_payment p -> survives no_tags (payload_struct T_PaymentPayload) (payment_to p) = true /\ payment_of (payment_to p) = p.
Proof.
  intros (Hi & Ho & Hl).
  destruct (elements_survive _ _ _ _ _ input_survives Hi) as [Hi1 Hi2].
  destruct (elements_survive _ _ _ _ _ output_survives Ho) as [Ho1 Ho2]. split.
  - change (survives no_tags (payload_struct T_PaymentPayload) (payment_to p)) with
      (forallb (survives no_tags (TPtr input_type)) (input_to <$> Inputs p) && true &&
       (forallb (survives no_tags (TPtr output_type)) (output_to <$> Outputs p) && true &&
        (bool_decide (0 <= LockTime p < 2 ^ 32) && true && true))).
    rewrite Hi1, Ho1. by rewrite bool_decide_true by done.
  - cbn [payment_of payment_to]. rewrite Hi2, Ho2. by destruct p.
Qed.

Lemma payload_struct_ok t : genTypeInfo (payload_struct t) = Ok tt.
Proof. by destruct t. Qed.

Lemma payload_survives p t :
  wf_payload p -> payload_type p = Some t ->
  survives no_tags (payload_struct t) (payload_value p) = true /\ payload_of t (payload_value p) = p.
Proof.
  destruct p as [|pay|t' v]; [done|..]; intros Hp [= <-].
  - destruct (payment_survives pay Hp) as [Hs Ho]. split; [done|]. cbn [payload_of payload_value]. by rewrite Ho.
  - destruct Hp as [Hne Hs]. split; [done|]. by destruct t'.
Qed.

Lemma payload_data_ok p t :
  wf_payload p -> payload_type p = Some t -> rsize (payload_value p) < 2 ^ 62 ->
  exists data, payload_data p = Ok data /\ wf_bytes data /\ zlen data <= rsize (payload_value p) /\
    forall torn, left_by torn (payload_fields t) data = Ok (payload_value p).
Proof.
  intros Hp Ht Hn. destruct (payload_survives p t Hp Ht) as [Hs _]. pose proof (survives_type _ _ _ Hs) as Hty.
  destruct (survives_items _ _ _ Hs) as [xs Hx]. pose proof (items_rsize _ _ _ _ Hty Hn Hx) as Hl. exists (all_bytes_of xs).
  split; [|split; [by apply (items_wf _ no_tags _ Hty); [|lia]|split; [done|]]].
  - assert (EncodeToBytes new_encbuf (TPtr (payload_struct t)) (VPtr (payload_value p)) = Ok (all_bytes_of xs)) as He.
    { apply EncodeToBytes_ok; try done; [apply payload_struct_ok|lia]. }
    destruct p as [|pay|t' v]; [done|..]; injection Ht as <-; cbn [payload_data payload_value] in *; by rewrite He.
  - intros torn. unfold left_by. change (TStruct (payload_fields t)) with (payload_struct t).
    rewrite <- (app_nil_r (all_bytes_of xs)).
    rewrite (survives_decodes _ (payload_value p)) by (rewrite ?app_nil_r; (done || lia || apply payload_struct_ok)). done.
Qed.

Section Wire.
Context (torn : rtype -> bytes -> rval).

Definition carries (m : Message) (t : messageTemp) : Prop :=
  mt_App t = App m /\ is_byte (App m) /\ wf_bytes (mt_Data t) /\ zlen (mt_Data t) <= rsize (payload_value (payload m)).

Definition sent (m : Message) (t : messageTemp) : Prop := carries m t /\ message_of torn t = Ok (received m).

Lemma messages_size_nonneg ms : 0 <= messages_size ms.
Proof. induction ms as [|m ms IH]; cbn; [done|]. pose proof (rsize_pos (payload_value (payload m))). unfold messages_size in IH. lia. Qed.

Lemma message_sent m :
  wf_message m -> rsize (payload_value (payload m)) < 2 ^ 62 ->
  exists data, payload_data (payload m) = Ok data /\ sent m (mkMessageTemp (App m) data).
Proof.
  intros (Hb & Hp & Hd) Hn. destruct (payload_type (payload m)) as [t|] eqn:Ht; [|by destruct (payload m)].
  destruct (payload_data_ok _ t Hp Ht Hn) as (data & E & Hw & Hl & Hdec). exists data. split; [done|].
  split; [unfold carries; cbn [mt_App mt_Data]; split_and!; try done; apply Hb|]. unfold message_of, received. cbn [mt_App mt_Data].
  destruct (decide (lost (App m))) as [Hx|Hx]; [by rewrite decoded_lost|]. destruct Hd as [?|Ha]; [done|].
  cbn in Ha. injection Ha as Ha. rewrite Ha in Hx |- *. rewrite (decoded_app t Hx), Hdec. cbn [mbind outcome_bind].
  destruct (payload_survives _ t Hp Ht) as [_ ->]. rewrite <- Ha. by destruct m.
Qed.

Lemma messages_sent ms :
  Forall wf_message ms -> messages_size ms < 2 ^ 62 ->
  exists temps, messages2Temp ms = Ok temps /\ Forall2 sent ms temps.
Proof.
  induction 1 as [|m ms Hm _ IH]; intros Hn; [by exists []|]. pose proof (messages_size_nonneg ms).
  change (messages_size (m :: ms)) with (50 + rsize (payload_value (payload m)) + messages_size ms) in Hn.
  destruct (message_sent m Hm) as (data & E & Hs). { lia. }
  pose proof (rsize_pos (payload_value (payload m))). destruct (IH ltac:(lia)) as (temps & Et & HF).
  exists (mkMessageTemp (App m) data :: temps). cbn [messages2Temp]. rewrite E. cbn [mbind outcome_bind]. rewrite Et.
  split; [done|by constructor].
Qed.

Lemma messages_received ms temps : Forall2 sent ms temps -> messages_of torn temps = Ok (received <$> ms).
Proof.
  induction 1 as [|m t ms temps [_ E] _ IH]; [done|]. cbn [messages_of]. rewrite E. cbn [mbind outcome_bind].
  by rewrite IH.
Qed.

Definition msg_to (t : messageTemp) : rval := VList [VInt (mt_App t); VBytes (mt_Data t)].

Lemma temps_survive ms temps :
  Forall2 carries ms temps ->
  forallb (survives no_tags (TStruct [(no_tags, TUint 8); (no_tags, TByteSlice)])) (msg_to <$> temps) = true /\
  omap messageTemp_of (msg_to <$> temps) = temps /\
  foldr (fun v n => rsize v + n) 0 (msg_to <$> temps) <= messages_size ms.
Proof.
  induction 1 as [|m t ms temps (Ha & Hb & Hw & Hl) _ (IH1 & IH2 & IH3)]; [done|].
  change (messages_size (m :: ms)) with (50 + rsize (payload_value (payload m)) + messages_size ms).
  unfold is_byte in Hb. pose proof (bytelen_le (App m) 1 ltac:(lia) ltac:(lia)).
  split_and!.
  - cbn [fmap list_fmap forallb]. rewrite IH1, andb_true_r. cbn. rewrite Ha, !bool_decide_true by done. done.
  - cbn. rewrite IH2. by destruct t.
  - cbn in IH3 |- *. rewrite Ha. lia.
Qed.

(** The serialisation of a transaction whose payloads have been serialised. *)

Lemma tx_encodes tx temps :
  wf_hash (TxHash tx) -> messages2Temp (TxMessages tx) = Ok temps -> Forall2 carries (TxMessages tx) temps ->
  100 + messages_size (TxMessages tx) < 2 ^ 62 ->
  exists c, EncodeRLP tx = Ok (encoded List_ c) /\ zlen (encoded List_ c) <= 100 + messages_size (TxMessages tx) /\
    left_by torn transactionTemp_fields (encoded List_ c) = Ok (temp_to (mkTransactionTemp (TxHash tx) temps)).
Proof.
  intros [Hh Hhw] Et HF Hn. destruct (temps_survive _ _ HF) as (Hs & Ho & Hr). set (temp := mkTransactionTemp (TxHash tx) temps).
  assert (survives no_tags transactionTemp_type (temp_to temp) = true) as Hst.
  { change (survives no_tags transactionTemp_type (temp_to temp)) with
      (bool_decide (wf_bytes (TxHash tx) /\ zlen (TxHash tx) = 32 /\ TxHash tx <> [0]) && true &&
       (forallb (survives no_tags (TStruct [(no_tags, TUint 8); (no_tags, TByteSlice)])) (msg_to <$> temps) && true && true)).
    rewrite Hs. by rewrite (byte_array_survives 32). }
  pose proof (survives_type _ _ _ Hst) as Hty. destruct (survives_items _ _ _ Hst) as [xs Hx].
  assert (rsize (temp_to temp) <= 100 + messages_size (TxMessages tx)) as Hsz.
  { cbn [temp_to rsize foldr tt_TxHash tt_TxMessages temp]. unfold HashLength in Hh. unfold msg_to in Hr. lia. }
  pose proof (items_rsize _ _ _ _ Hty ltac:(lia) Hx) as Hl.
  assert (exists c, all_bytes_of xs = encoded List_ c) as [c Hc].
  { cbn [items temp_to transactionTemp_type] in Hx. destruct (collect_fields _ _ _) as [ys| |]; [|discriminate Hx..].
    injection Hx as <-. exists (all_bytes_of ys). by rewrite all_bytes_1. }
  exists c. rewrite <- Hc. split_and!.
  - unfold EncodeRLP, tx2Temp. rewrite Et. cbn [mbind outcome_bind]. by apply EncodeToBytes_ok; [..|lia].
  - lia.
  - unfold left_by. change (TStruct transactionTemp_fields) with transactionTemp_type. rewrite <- (app_nil_r (all_bytes_of xs)).
    by rewrite (survives_decodes _ (temp_to temp)) by (rewrite ?app_nil_r; (done || lia)).
Qed.

Lemma wire tx temps msgs :
  wf_hash (TxHash tx) -> messages2Temp (TxMessages tx) = Ok temps -> Forall2 carries (TxMessages tx) temps ->
  messages_of torn temps = Ok msgs -> 100 + messages_size (TxMessages tx) < 2 ^ 62 ->
  exists e, EncodeRLP tx = Ok e /\
    forall junk, zlen (e ++ junk) < 2 ^ 62 ->
      (DecodeRLP torn zero_Transaction (NewStream (e ++ junk) true (zlen (e ++ junk)))).1 = Ok (mkTransaction (TxHash tx) msgs).
Proof.
  intros Hh Et HF Hms Hn. destruct (tx_encodes tx temps Hh Et HF Hn) as (c & E & Hl & Hlb). exists (encoded List_ c).
  split; [done|]. intros junk Hj. destruct (temps_survive _ _ HF) as (_ & Ho & _).
  destruct (Raw_reads List_ c ltac:(done) _ junk _ _ (NewStream_at (encoded List_ c ++ junk) Hj)) as (s' & Es & _).
  { apply NewStream_enough; [|done]. rewrite zlen_app. zlen_facts. lia. }
  unfold DecodeRLP. rewrite (go_bind_ok _ _ _ _ _ Es), Hlb, go_lift_ok. unfold temp2Tx.
  cbn [temp_to temp_of tt_TxHash tt_TxMessages]. fold msg_to. rewrite Ho. by rewrite Hms.
Qed.

Lemma wire_received tx :
  wf_transaction tx ->
  exists e, EncodeRLP tx = Ok e /\
    forall junk, zlen (e ++ junk) < 2 ^ 62 ->
      (DecodeRLP torn zero_Transaction (NewStream (e ++ junk) true (zlen (e ++ junk)))).1 =
        Ok (mkTransaction (TxHash tx) (received <$> TxMessages tx)).
Proof.
  intros (Hh & Hm & Hn). destruct (messages_sent _ Hm ltac:(lia)) as (temps & Et & HF).
  apply (wire tx temps); try done; [|by apply messages_received]. eapply Forall2_impl; [exact HF|]. by intros m t [? _].
Qed.

(** C9: Transactions on the wire.  A transaction with a hash, whose messages carry
    payloads that serialise (payments whose inputs name an output and whose outputs
    name an asset, other payloads whose fields survive), is serialised, and a peer that
    decodes it, from a stream with any bytes after it and whatever a failed decoding
    would leave, gets the same transaction, message by message, except that a vote, a
    request to invoke a contract, a signature and a message of an unknown type arrive
    with a nil payload. *)
Theorem transaction_on_the_wire (tx : Transaction) :
  wf_transaction tx ->
  exists e, EncodeRLP tx = Ok e /\
    forall junk, zlen (e ++ junk) < 2 ^ 62 ->
      (DecodeRLP torn zero_Transaction (NewStream (e ++ junk) true (zlen (e ++ junk)))).1 =
        Ok (mkTransaction (TxHash tx) (received <$> TxMessages tx)).
Proof. apply wire_received. Qed.
End Wire.

(** A payment and a vote: the vote is lost. *)

Definition toy_payment : PaymentPayload :=
  mkPaymentPayload [mkInput (Some (toy_outpoint 1)) (Some [1; 2]) (Some [])] [mkOutput 5 [0x51] (Some toy_asset)] 0.

Definition toy_vote : Payload := OtherPayload T_VotePayload (VList [VList [VBytes [7]]; VInt 0; VInt 1]).

Definition toy_tx : Transaction :=
  mkTransaction (replicate 32 9) [mkMessage APP_PAYMENT (Payment toy_payment); mkMessage APP_VOTE toy_vote].

Lemma transaction_on_the_wire_witness :
  exists e, EncodeRLP toy_tx = Ok e /\
    (DecodeRLP (fun _ _ => VNil) zero_Transaction (NewStream e true (zlen e))).1 =
      Ok (mkTransaction (replicate 32 9) [mkMessage APP_PAYMENT (Payment toy_payment); mkMessage APP_VOTE NilPayload]).
Proof.
  destruct (transaction_on_the_wire (fun _ _ => VNil) toy_tx) as (e & E & Hd); [by apply (bool_decide_unpack _)|].
  exists e. split; [exact E|]. specialize (Hd []). rewrite app_nil_r in Hd. rewrite Hd; [done|].
  vm_compute in E. injection E as <-. done.
Defined.

(** ** Payments without an output to spend *)

Lemma outpoint_refused : refuses (decoder no_tags (TPtr outpoint_type)) (encoded List_ []) (decodeError msgTooFew).
Proof. apply refuses_ptr, refuses_empty_struct, decoder_ends; done. Qed.

Lemma input_refused rest :
  refuses (decoder no_tags (TPtr input_type)) (encoded List_ (encoded List_ [] ++ rest)) (decodeError msgTooFew).
Proof. apply refuses_ptr, refuses_first_field; [apply outpoint_refused|done]. Qed.

Lemma nil_outpoint_lost torn i ins outs l xs :
  PreviousOutPoint i = None -> items no_tags (payload_struct T_PaymentPayload) (payment_to (mkPaymentPayload (i :: ins) outs l)) = Ok xs ->
  zlen (all_bytes_of xs) < 2 ^ 62 ->
  exists u, left_by torn (payload_fields T_PaymentPayload) (all_bytes_of xs) =
    Ok (VList [torn (TSlice (TPtr input_type)) u; VList []; VInt 0]).
Proof.
  intros Hi Hx Hl. unfold payload_struct, payment_to in Hx. cbn [fmap list_fmap Inputs Outputs LockTime] in Hx.
  unfold input_to at 1 in Hx. rewrite Hi in Hx. cbn [items collect_fields collect input_type nil_item outpoint_type mbind outcome_bind tail no_tags] in Hx.
  destruct (collect _ (input_to <$> ins)) as [ys| |]; [|discriminate Hx..]. cbn [mbind outcome_bind] in Hx.
  destruct (collect _ (output_to <$> outs)) as [zs| |]; [|discriminate Hx..]. injection Hx as <-.
  rewrite all_bytes_1 in *. set (xi := Lst [Lst []; _; _]) in *.
  assert (refuses (decoder no_tags (TSlice (TPtr input_type))) (rlp_bytes (Lst (xi :: ys))) (decodeError msgTooFew)) as Hd.
  { apply (refuses_first_elem _ (rlp_bytes xi) (all_bytes_of ys)); [apply input_refused|done|].
    unfold xi. cbn [rlp_bytes encoded]. unfold header. rewrite zlen_app. zlen_facts. case_decide; [done|]. rewrite zlen_cons. zlen_facts. lia. }
  destruct (left_by_refused torn no_tags (TSlice (TPtr input_type)) [(no_tags, TSlice (TPtr output_type)); (no_tags, TUint 32)]
    (rlp_bytes (Lst (xi :: ys))) (all_bytes_of [Lst zs; Str (be_min l)]) _ eq_refl Hd ltac:(done) Hl) as [s E].
  exists (unread s). exact E.
Qed.

Lemma payment_items p : exists xs, items no_tags (payload_struct T_PaymentPayload) (payment_to p) = Ok xs.
Proof.
  destruct (collect_ok (items no_tags (TPtr input_type)) (input_to <$> Inputs p)) as [xi Hi].
  { apply Forall_fmap, Forall_true. intros i. cbn. destruct (PreviousOutPoint i); by eexists. }
  destruct (collect_ok (items no_tags (TPtr output_type)) (output_to <$> Outputs p)) as [os Ho].
  { apply Forall_fmap, Forall_true. intros o. cbn. destruct (out_Asset o); by eexists. }
  eexists. unfold payload_struct, payment_to. cbn [fmap list_fmap items collect_fields mbind outcome_bind tail no_tags].
  rewrite Hi. cbn [mbind outcome_bind]. rewrite Ho. done.
Qed.

(** One payment, on its way out. *)

Lemma payment_carried pay :
  has_type (payload_struct T_PaymentPayload) (payment_to pay) = true -> rsize (payment_to pay) < 2 ^ 62 ->
  exists xs, items no_tags (payload_struct T_PaymentPayload) (payment_to pay) = Ok xs /\
    payload_data (Payment pay) = Ok (all_bytes_of xs) /\
    carries (mkMessage APP_PAYMENT (Payment pay)) (mkMessageTemp APP_PAYMENT (all_bytes_of xs)).
Proof.
  intros Ht Hn. destruct (payment_items pay) as [xs Hx]. pose proof (items_rsize _ _ _ _ Ht Hn Hx) as Hl. exists xs.
  split; [done|split].
  - cbn [payload_data]. rewrite (EncodeToBytes_ok new_encbuf (TPtr (payload_struct T_PaymentPayload)) (VPtr (payment_to pay)) xs);
      (done || lia).
  - unfold carries. cbn [mt_App mt_Data App payload payload_value]. split_and!; try done.
    by apply (items_wf _ no_tags _ Ht); [|lia].
Qed.

(** A transaction of one payment whose first input names no output: its outputs and
    its lock time are gone. *)

Lemma payment_lost torn h i ins outs l :
  let pay := mkPaymentPayload (i :: ins) outs l in
  wf_hash h -> PreviousOutPoint i = None -> has_type (payload_struct T_PaymentPayload) (payment_to pay) = true ->
  200 + rsize (payment_to pay) < 2 ^ 62 ->
  exists e lost, EncodeRLP (mkTransaction h [mkMessage APP_PAYMENT (Payment pay)]) = Ok e /\
    forall junk, zlen (e ++ junk) < 2 ^ 62 ->
      (DecodeRLP torn zero_Transaction (NewStream (e ++ junk) true (zlen (e ++ junk)))).1 =
        Ok (mkTransaction h [mkMessage APP_PAYMENT (Payment (mkPaymentPayload lost [] 0))]).
Proof.
  intros pay Hh Hi Ht Hn. destruct (payment_carried pay Ht ltac:(lia)) as (xs & Hx & Hd & Hc).
  pose proof (items_rsize _ _ _ _ Ht ltac:(lia) Hx) as Hl. destruct (nil_outpoint_lost torn i ins outs l xs Hi Hx ltac:(lia)) as [u Hu].
  edestruct (wire torn (mkTransaction h [mkMessage APP_PAYMENT (Payment pay)]) [mkMessageTemp APP_PAYMENT (all_bytes_of xs)])
    as (e & E & Hdec); [exact Hh| |constructor; [exact Hc|constructor]| | |].
  - cbn [messages2Temp TxMessages payload App]. by rewrite Hd.
  - cbn [messages_of]. unfold message_of. cbn [mt_App mt_Data]. change (decoded_type 0) with (Some T_PaymentPayload). cbv iota.
    by rewrite Hu.
  - cbn [TxMessages messages_size foldr payload payload_value]. lia.
  - eexists e, _. split; [exact E|exact Hdec].
Qed.

(** The size of a transaction of one payment. *)

Lemma payment_size h pay :
  wf_hash h -> has_type (payload_struct T_PaymentPayload) (payment_to pay) = true -> 200 + rsize (payment_to pay) < 2 ^ 62 ->
  exists n, Transaction_Size (mkTransaction h [mkMessage APP_PAYMENT (Payment pay)]) = Ok n /\ n <= 150 + rsize (payment_to pay).
Proof.
  intros Hh Ht Hn. destruct (payment_carried pay Ht ltac:(lia)) as (xs & Hx & Hd & Hc).
  destruct (tx_encodes (fun _ _ => VNil) (mkTransaction h [mkMessage APP_PAYMENT (Payment pay)])
    [mkMessageTemp APP_PAYMENT (all_bytes_of xs)]) as (c & E & Hl & _); [exact Hh| |constructor; [exact Hc|constructor]| |].
  - cbn [messages2Temp TxMessages payload App]. by rewrite Hd.
  - cbn [TxMessages messages_size foldr payload payload_value]. lia.
  - unfold Transaction_Size. rewrite E. eexists. split; [done|]. etransitivity; [exact Hl|].
    cbn [TxMessages messages_size foldr payload payload_value]. lia.
Qed.
