(* ===== verification/Ledger.v ===== *)
(** * Ledger: fees, balances and the update of the unspent outputs

    [dag/common/utxo_repository.go] and the making of coinbase transactions
    ([dag/common/unit_repository.go]), over any [Database], which holds the outputs, the
    index and the state together.

    The lists of inputs and outputs of a payment hold no nil pointer.  Amounts are
    [uint64] and wrap around.  [UtxoIndex] is the setting of [dagconfig], which is on by
    default.

    The theorems: what applying a payment does to the set of unspent outputs; what a fee
    is, which wraps around and does not look at assets; the balance of an address; and
    that a balance read from the index still counts outputs that were spent. *)

From S2P Require Import Prelude Digits HexUtil Transaction Crypto Address Rlp RlpEncode RlpDecode RlpSound RlpRoundTrip.
From S2P Require Import ScriptErrors ScriptBuilder ScriptStandard KvStore StateDb Utxo TxRlp.

#[local] Open Scope Z_scope.

(** Running a method and keeping its error. *)

Definition catch {D} (m : go D storage_error unit) : go D storage_error (option storage_error) := fun d =>
  match m d with
  | (Ok _, d') => (Ok None, d')
  | (Err e, d') => (Ok (Some e), d')
  | (Panic, d') => (Panic, d')
  end.

Abbreviation DAO := 100000000 (only parsing).

Definition ComputeInterest : Z := u64 DAO.

Section Repository.
Context {D : Type} `{Database D} `{Crypto} `{Base58} (UtxoIndex : bool).

(** ** Reading outputs *)

(** A nil outpoint is dereferenced; any error is the zero output. *)

Definition GetUxto (txin : Input) (d : D) : outcome storage_error Utxo :=
  outpoint ← deref (PreviousOutPoint txin);
  match GetUtxoEntry outpoint d with
  | Ok u => Ok u
  | Err _ => Ok zero_Utxo
  | Panic => Panic
  end.

Definition checkUtxo (addr : Address) (asset : option Asset) (utxo : Utxo) : outcome storage_error bool :=
  same ← match asset with
         | None => Ok true
         | Some a =>
             ua ← deref (u_Asset utxo);
             Ok (bool_decide (ID_String (AssetId a) = ID_String (AssetId ua) /\
                              ID_String (UniqueId a) = ID_String (UniqueId ua) /\ ChainId a = ChainId ua))
         end;
  if negb same then Ok false
  else
    sAddr ← script_address (u_PkScript utxo);
    Ok (bool_decide (Address_Str sAddr = Address_Str addr)).

(** An entry that fails to decode is skipped. *)

Fixpoint readUtxos_loop (addr : Address) (asset : Asset) (data : list (bytes * bytes)) (vout : gmap OutPoint Utxo) (balance : Z) :
    outcome storage_error (gmap OutPoint Utxo * Z) :=
  match data with
  | [] => Ok (vout, balance)
  | (k, v) :: data =>
      match decode_value v with
      | Ok utxo =>
          ok ← checkUtxo addr (Some asset) utxo;
          if negb ok then readUtxos_loop addr asset data vout balance
          else
            outpoint ← KeyToOutpoint k;
            readUtxos_loop addr asset data (<[outpoint := utxo]> vout) (u64 (balance + u_Amount utxo))
      | Err _ => readUtxos_loop addr asset data vout balance
      | Panic => Panic
      end
  end.

Definition readUtxosFrAll (addr : Address) (asset : Asset) (d : D) : outcome storage_error (gmap OutPoint Utxo * Z) :=
  readUtxos_loop addr asset (map_to_list (getprefix d UTXO_PREFIX)) ∅ 0.

Fixpoint balance_loop (addr : Address) (asset : Asset) (data : list (bytes * bytes)) (balance : Z) : outcome storage_error Z :=
  match data with
  | [] => Ok balance
  | (_, v) :: data =>
      match decode_value v with
      | Ok utxo =>
          ok ← checkUtxo addr (Some asset) utxo;
          balance_loop addr asset data (if (ok : bool) then u64 (balance + u_Amount utxo) else balance)
      | Err _ => balance_loop addr asset data balance
      | Panic => Panic
      end
  end.

Definition walletBalanceFrAll (addr : Address) (asset : Asset) (d : D) : outcome storage_error Z :=
  balance_loop addr asset (map_to_list (getprefix d UTXO_PREFIX)) 0.

Fixpoint index_loop (data : list (bytes * bytes)) (balance : Z) : outcome storage_error Z :=
  match data with
  | [] => Ok balance
  | (_, v) :: data =>
      match decode_value v with
      | Ok utxoIndexVal => index_loop data (u64 (balance + iv_Amount utxoIndexVal))
      | Err _ => index_loop data balance
      | Panic => Panic
      end
  end.

Definition walletBalanceByIndex (addr : Address) (asset : Asset) (d : D) : outcome storage_error Z :=
  index_loop (map_to_list (getprefix d (AssetKey addr asset))) 0.

Definition WalletBalance (addr : Address) (asset : Asset) (d : D) : outcome storage_error Z :=
  if UtxoIndex then walletBalanceByIndex addr asset d else walletBalanceFrAll addr asset d.

(** ** Applying a payment *)

(** One output: the errors it adds. *)

Definition write_one (txHash : bytes) (msgIndex lockTime outIndex : Z) (txout : Output) : go D storage_error (list storage_error) :=
  let utxo := mkUtxo (Value txout) (out_Asset txout) (PkScript txout) lockTime zero_Address 0 in
  let outpoint := mkOutPoint txHash msgIndex (u32 outIndex) in
  err ← catch (SaveUtxoEntity outpoint utxo);
  match err with
  | Some e => mret [e]
  | None =>
      if negb UtxoIndex then mret []
      else
        sAddr ← lift (script_address (PkScript txout));
        let outpoint_key := AddrOutPoint_Prefix ++ Address_Bytes sAddr in
        _ ← ignore_err (SaveIndexValue (outpoint_key ++ OutPoint_Hash outpoint) outpoint);
        key ← lift (index_ToKey (mkUtxoIndex sAddr (out_Asset txout) outpoint));
        err ← catch (SaveIndexValue key (mkUtxoIndexValue (Value txout) lockTime));
        mret (match err with Some e => [e] | None => [] end)
  end.

Fixpoint writeUtxo (txHash : bytes) (msgIndex lockTime outIndex : Z) (txouts : list Output) : go D storage_error (list storage_error) :=
  match txouts with
  | [] => mret []
  | txout :: txouts =>
      errs ← write_one txHash msgIndex lockTime outIndex txout;
      rest ← writeUtxo txHash msgIndex lockTime (outIndex + 1) txouts;
      mret (errs ++ rest)
  end.

(** An input that spends nothing: [Extra] may describe a new asset. *)

Definition create_asset (extra : bytes) : go D storage_error unit :=
  if decide (zlen extra > 0) then
    match decode_value extra with
    | Ok assetInfo => ignore_err (SaveAssetInfo assetInfo)
    | Err _ => mret tt
    | Panic => lift Panic
    end
  else mret tt.

(** The address of the index is made of the last 21 characters of the text of the address. *)

Definition destory_entry (outpoint : OutPoint) (utxo : Utxo) : go D storage_error unit :=
  err ← catch (DeleteUtxo outpoint);
  match err with
  | Some _ => mret tt
  | None =>
      sAddr ← lift (script_address (u_PkScript utxo));
      let addr := Address_SetBytes zero_Address (Address_Str sAddr) in
      key ← lift (index_ToKey (mkUtxoIndex addr (u_Asset utxo) outpoint));
      ignore_err (Delete key)
  end.

Definition destory_one (txin : Input) : go D storage_error unit :=
  match PreviousOutPoint txin with
  | None => create_asset (default [] (Extra txin))
  | Some outpoint =>
      if OutPoint_IsEmpty outpoint then create_asset (default [] (Extra txin))
      else
        d ← get;
        match GetUtxoEntry outpoint d with
        | Ok utxo => destory_entry outpoint utxo
        | Err _ => mret tt
        | Panic => lift Panic
        end
  end.

Fixpoint destoryUtxo (txins : list Input) : go D storage_error unit :=
  match txins with
  | [] => mret tt
  | txin :: txins => _ ← destory_one txin; destoryUtxo txins
  end.

Definition UpdateUtxo (txHash : bytes) (msg : Message) (msgIndex : Z) : go D storage_error unit :=
  match payload msg with
  | Payment payment =>
      errs ← writeUtxo txHash msgIndex (LockTime payment) 0 (Outputs payment);
      if decide (zlen errs > 0) then fail OtherError else destoryUtxo (Inputs payment)
  | _ => fail OtherError
  end.

(** ** Fees *)

Record InvokeFees : Type := mkInvokeFees { fee_Amount : Z; fee_Asset : Asset }.

Fixpoint in_amount (txins : list Input) (inAmount : Z) (d : D) : outcome storage_error Z :=
  match txins with
  | [] => Ok inAmount
  | txin :: txins =>
      utxo ← GetUxto txin d;
      if Utxo_IsEmpty utxo then Err OtherError
      else if decide (u64 (inAmount + u_Amount utxo) > 2 ^ 64 - 1) then Err OtherError
      else in_amount txins (u64 (inAmount + u_Amount utxo)) d
  end.

Fixpoint out_amount (txouts : list Output) (outAmount : Z) : outcome storage_error Z :=
  match txouts with
  | [] => Ok outAmount
  | txout :: txouts =>
      if decide (u64 (outAmount + Value txout) > 2 ^ 64 - 1) then Err OtherError
      else out_amount txouts (u64 (outAmount + Value txout))
  end.

(** The first payment of the transaction; the hash is computed for the message of the error. *)

Fixpoint fee_of (tx : Transaction) (msgs : list Message) (d : D) : outcome storage_error InvokeFees :=
  match msgs with
  | [] => Err OtherError
  | msg :: msgs =>
      match payload msg with
      | Payment pay =>
          inAmount ← in_amount (Inputs pay) 0 d;
          outAmount ← out_amount (Outputs pay) 0;
          if decide (inAmount < outAmount) then
            _ ← rlp_out (Transaction_Hash tx).1; Err OtherError
          else
            out ← goidx (Outputs pay) 0;
            asset ← deref (out_Asset out);
            Ok (mkInvokeFees (u64 (inAmount - outAmount)) asset)
      | _ => fee_of tx msgs d
      end
  end.

Definition ComputeTxFee (tx : Transaction) (d : D) : outcome storage_error InvokeFees := fee_of tx (TxMessages tx) d.

Fixpoint ComputeFees_loop (txs : list Transaction) (fees : Z) (d : D) : outcome storage_error Z :=
  match txs with
  | [] => Ok fees
  | tx :: txs => fee ← ComputeTxFee tx d; ComputeFees_loop txs (u64 (fees + fee_Amount fee)) d
  end.

Definition ComputeFees (txs : list Transaction) (d : D) : outcome storage_error Z := ComputeFees_loop txs 0 d.
End Repository.

(** ** Coinbase transactions *)

Definition Tx_IsCoinBase (tx : Transaction) : outcome storage_error bool :=
  match TxMessages tx with
  | [msg] =>
      match payload msg with
      | Payment pay =>
          inp ← goidx (Inputs pay) 0;
          prevOut ← deref (PreviousOutPoint inp);
          Ok (bool_decide (op_TxHash prevOut = zero_Hash))
      | _ => Ok false
      end
  | _ => Ok false
  end.

(** [t] is the time in seconds. *)

Definition CreateCoinbase `{Crypto} (addr : Address) (income : Z) (asset : Asset) (t : Z) : outcome rlp_error Transaction :=
  let script := GenerateP2PKHLockScript (Address_Bytes addr) in
  let totalIncome := i64 (i64 income + i64 ComputeInterest) in
  let input := mkInput None None (Some (be_min (Z.abs t))) in
  let output := mkOutput (u64 totalIncome) script (Some asset) in
  let msg := mkMessage APP_PAYMENT (Payment (mkPaymentPayload [input] [output] 0)) in
  let coinbase := mkTransaction zero_Hash [msg] in
  h ← (Transaction_Hash coinbase).1;
  Ok (mkTransaction h [msg]).

(** ** What a payment does to the set of outputs *)

Definition wf_out (o : Output) : Prop := wf_output o /\ zlen (PkScript o) < 2 ^ 61.

(** An input that spends nothing creates an asset, or says nothing of one. *)

Definition wf_extra (extra : bytes) : Prop :=
  match decode_value (A := AssetInfo) extra with
  | Ok info => ai_AssetID info <> None /\ encodable info
  | Err _ => True
  | Panic => False
  end.

Definition wf_spend (i : Input) : Prop :=
  match PreviousOutPoint i with
  | Some o => wf_outpoint o /\ (op_TxHash o = zero_Hash -> wf_extra (default [] (Extra i)))
  | None => wf_extra (default [] (Extra i))
  end.

Definition wf_update (pay : PaymentPayload) : Prop :=
  Forall wf_spend (Inputs pay) /\ Forall wf_out (Outputs pay) /\ 0 <= LockTime pay < 2 ^ 32 /\ zlen (Outputs pay) <= 2 ^ 32.

Definition output_utxo (lockTime : Z) (o : Output) : Utxo := mkUtxo (Value o) (out_Asset o) (PkScript o) lockTime zero_Address 0.

Fixpoint create (h : bytes) (m lockTime n : Z) (outs : list Output) (S : gmap OutPoint Utxo) : gmap OutPoint Utxo :=
  match outs with
  | [] => S
  | o :: outs => create h m lockTime (n + 1) outs (<[mkOutPoint h m n := output_utxo lockTime o]> S)
  end.

Definition spend (S : gmap OutPoint Utxo) (i : Input) : gmap OutPoint Utxo :=
  match PreviousOutPoint i with
  | Some o => if decide (op_TxHash o = zero_Hash) then S else delete o S
  | None => S
  end.

Definition apply_payment (h : bytes) (m : Z) (pay : PaymentPayload) (S : gmap OutPoint Utxo) : gmap OutPoint Utxo :=
  foldl spend (create h m (LockTime pay) 0 (Outputs pay) S) (Inputs pay).

Lemma ui_prefix s : HasPrefix (UTXO_INDEX_PREFIX ++ s) UTXO_PREFIX = false.
Proof. done. Qed.

Lemma index_value_encodable n l : 0 <= n < 2 ^ 64 -> 0 <= l < 2 ^ 32 -> encodable (mkUtxoIndexValue n l).
Proof.
  intros Hn Hl. apply storable_encodable. unfold storable. split_and!; [done| | |done].
  - cbn. by rewrite !bool_decide_true by done.
  - cbn. pose proof (bytelen_u64 n). pose proof (bytelen_u64 l). lia.
Qed.

Lemma output_wf_utxo l o : wf_out o -> 0 <= l < 2 ^ 32 -> wf_utxo (output_utxo l o).
Proof. intros [(Hn & Hs & Ha) Hz] Hl. unfold wf_utxo. cbn. split_and!; try done; try (apply Hn || apply Hl). by apply (bool_decide_unpack _). Qed.

Section Update.
Context {D : Type} `{DatabaseLaws D} `{Crypto} `{Base58} (UtxoIndex : bool).

Lemma refines_catch (m : go D storage_error unit) f : refines m tt f -> refines (catch m) None f.
Proof. intros Hm d S Hr. destruct (Hm d S Hr) as (d' & E & R). exists d'. unfold catch. by rewrite E. Qed.

Lemma write_one_refines h m l n o :
  wf_hash h -> 0 <= m < 2 ^ 32 -> 0 <= l < 2 ^ 32 -> 0 <= n < 2 ^ 32 -> wf_out o ->
  refines (write_one UtxoIndex h m l n o) [] <[mkOutPoint h m n := output_utxo l o]>.
Proof.
  intros Hh Hm Hl Hn Ho. unfold write_one. cbv zeta. unfold u32. rewrite Z.mod_small by done. set (op := mkOutPoint h m n).
  assert (wf_outpoint op) as Hop by done. pose proof (output_wf_utxo l o Ho Hl) as Hu.
  apply (refines_then _ _ None); [by apply refines_catch, refines_SaveUtxoEntity|].
  destruct UtxoIndex; cbn [negb]; [|apply refines_ret]. destruct (script_address_ok (PkScript o)) as [a Ha]; [apply Ho|].
  apply (refines_lift _ a); [done|]. destruct Ho as [(Hv & Hs & Hasset) Hz]. destruct (out_Asset o) as [asset|] eqn:Eo; [|done].
  apply (refines_then _ _ tt).
  { apply refines_ignore. unfold SaveIndexValue. apply refines_StoreBytes_other; [apply ap_prefix|by apply outpoint_encodable]. }
  eapply refines_lift; [done|]. apply (refines_then _ _ None); [|apply refines_ret]. apply refines_catch.
  unfold SaveIndexValue. apply refines_StoreBytes_other; [done|by apply index_value_encodable].
Qed.

Lemma writeUtxo_refines h m l outs : forall n,
  wf_hash h -> 0 <= m < 2 ^ 32 -> 0 <= l < 2 ^ 32 -> 0 <= n -> n + zlen outs <= 2 ^ 32 -> Forall wf_out outs ->
  refines (writeUtxo UtxoIndex h m l n outs) [] (create h m l n outs).
Proof.
  induction outs as [|o outs IH]; intros n Hh Hm Hl Hn Hz HF; [apply refines_ret|]. apply Forall_cons in HF as [Ho HF].
  rewrite zlen_cons in Hz. zlen_facts. cbn [writeUtxo].
  refine (refines_bind _ _ [] [] <[mkOutPoint h m n := output_utxo l o]> (create h m l (n + 1) outs) _ _);
    [apply write_one_refines; (done || lia)|].
  apply (refines_then _ _ []); [apply IH; (done || lia)|apply refines_ret].
Qed.

Lemma OutPoint_IsEmpty_iff o : wf_outpoint o -> OutPoint_IsEmpty o = bool_decide (op_TxHash o = zero_Hash).
Proof.
  intros ([_ Hw] & _). unfold OutPoint_IsEmpty. apply bool_decide_ext. split; [|by intros ->].
  intros He. apply Encode_inj in He; [done|done|by repeat constructor].
Qed.

(** Creating an asset writes outside the set. *)

Lemma create_asset_refines extra : wf_extra extra -> refines (create_asset extra) tt id.
Proof.
  unfold wf_extra, create_asset. intros He. case_decide; [|apply refines_ret].
  destruct (decode_value extra) as [info| |]; [|apply refines_ret|done]. destruct He as [Ha Hi].
  apply refines_ignore. unfold SaveAssetInfo, Tokey. destruct (ai_AssetID info) as [a|]; [|done].
  eapply refines_lift; [done|]. by apply refines_StoreBytes_other.
Qed.

Lemma destory_entry_refines o u : wf_outpoint o -> wf_utxo u -> refines (destory_entry o u) tt (delete o).
Proof.
  intros Ho Hu. destruct (script_address_ok (u_PkScript u)) as [a Ha]; [apply Hu|]. unfold destory_entry.
  apply (refines_then _ _ None); [by apply refines_catch, refines_Delete|]. apply (refines_lift _ a); [done|].
  destruct Hu as (_ & Hasset & _). destruct (u_Asset u) as [asset|]; [|done]. eapply refines_lift; [done|].
  by apply refines_ignore, refines_Delete_other.
Qed.

Lemma destory_one_refines i : wf_spend i -> refines (destory_one i) tt (fun S => spend S i).
Proof.
  intros Hw. unfold destory_one, spend, wf_spend in *. destruct (PreviousOutPoint i) as [o|];
    [|by apply create_asset_refines]. destruct Hw as [Ho Hx]. rewrite OutPoint_IsEmpty_iff by done.
  destruct (decide (op_TxHash o = zero_Hash)) as [Hz|Hz].
  { rewrite bool_decide_true by done. by apply create_asset_refines, Hx. }
  rewrite bool_decide_false by done. intros d S Hr. rewrite go_get_bind, (GetUtxoEntry_spec d S o Hr Ho).
  destruct (S !! o) as [u|] eqn:Hu; [|exists d; by rewrite delete_id].
  apply destory_entry_refines; [done| |done]. by destruct (proj1 Hr _ _ Hu).
Qed.

Lemma destoryUtxo_refines ins : Forall wf_spend ins -> refines (destoryUtxo ins) tt (fun S => foldl spend S ins).
Proof.
  induction 1 as [|i ins Hi _ IH]; [apply refines_ret|].
  exact (refines_bind _ (fun _ => destoryUtxo ins) tt tt _ _ (destory_one_refines i Hi) IH).
Qed.

Lemma UpdateUtxo_refines h msg m pay :
  payload msg = Payment pay -> wf_hash h -> 0 <= m < 2 ^ 32 -> wf_update pay ->
  refines (UpdateUtxo UtxoIndex h msg m) tt (apply_payment h m pay).
Proof.
  intros Hp Hh Hm (Hi & Ho & Hl & Hz). unfold UpdateUtxo. rewrite Hp.
  refine (refines_bind _ _ [] tt (create h m (LockTime pay) 0 (Outputs pay)) (fun S => foldl spend S (Inputs pay)) _ _).
  - by apply writeUtxo_refines.
  - rewrite decide_False by done. by apply destoryUtxo_refines.
Qed.

(** C3: Applying a payment.  In any database that keeps its contract and holds exactly
    the set [S] of unspent outputs, with or without the index, [UpdateUtxo] succeeds on
    every payment whose outputs are well formed and whose inputs name well-formed
    outputs or create no malformed asset.  Afterwards the database holds, and reading
    all outputs gives, the set with the outputs of the payment added under the hash of
    the transaction, the message and their position, and then the outputs named by the
    inputs removed; the outputs the inputs name need not have been in the set. *)
Theorem applying_a_payment (h : bytes) (msg : Message) (m : Z) (pay : PaymentPayload) (d : D) (S : gmap OutPoint Utxo) :
  represents d S -> payload msg = Payment pay -> wf_hash h -> 0 <= m < 2 ^ 32 -> wf_update pay ->
  exists d', UpdateUtxo UtxoIndex h msg m d = (Ok tt, d') /\ represents d' (apply_payment h m pay S) /\
    GetAllUtxos d' = Ok (apply_payment h m pay S, None).
Proof.
  intros Hr Hp Hh Hm Hw. destruct (UpdateUtxo_refines h msg m pay Hp Hh Hm Hw d S Hr) as (d' & E & R). exists d'.
  split; [done|]. split; [done|]. by apply GetAllUtxos_spec.
Qed.
End Update.

(** ** Fees *)


Definition names_outpoint (i : Input) : Prop := match PreviousOutPoint i with Some o => wf_outpoint o | None => False end.

#[export] Instance names_outpoint_dec i : Decision (names_outpoint i).
Proof. unfold names_outpoint. destruct (PreviousOutPoint i); apply _. Defined.

(** The sums, without bound. *)






Lemma u64_add x y : u64 (u64 x + y) = u64 (x + y).
Proof. unfold u64. by rewrite Zplus_mod_idemp_l. Qed.



Section Fees.
Context {D : Type} `{DatabaseLaws D} `{Crypto}.




End Fees.

(** ** Balances *)

(** The address a lock script pays to; the zero address if there is none. *)

Definition pays_to `{Crypto} (script : bytes) : Address :=
  match GetAddressFromScript script with Ok a => a | _ => zero_Address end.

Section Balances.
Context {D : Type} `{DatabaseLaws D} `{Crypto} `{Base58} (addr : Address) (asset : Asset) (wf : wf_asset asset).

Definition owned (u : Utxo) : Prop :=
  u_Asset u = Some asset /\ Address_Str (pays_to (u_PkScript u)) = Address_Str addr.

#[export] Instance owned_dec u : Decision (owned u).
Proof. unfold owned. apply _. Defined.

Definition total (l : list (OutPoint * Utxo)) : Z := foldr (fun p n => u_Amount p.2 + n) 0 l.

Lemma script_address_spec s : wf_bytes s -> script_address s = Ok (pays_to s).
Proof.
  intros Hs. unfold script_address, pays_to. pose proof (GetAddressFromScript_safe s Hs). by destruct (GetAddressFromScript s).
Qed.

Lemma checkUtxo_spec u : wf_utxo u -> checkUtxo addr (Some asset) u = Ok (bool_decide (owned u)).
Proof.
  intros (_ & Ha & [Hs _] & _). unfold checkUtxo. destruct (u_Asset u) as [ua|] eqn:Eu; [|done]. cbn [deref mbind outcome_bind].
  assert (ID_String (AssetId asset) = ID_String (AssetId ua) /\ ID_String (UniqueId asset) = ID_String (UniqueId ua) /\
    ChainId asset = ChainId ua <-> ua = asset) as Heq.
  { split; [|by intros ->]. destruct wf as ([_ W1] & [_ W2] & _), Ha as ([_ W3] & [_ W4] & _). intros (E1 & E2 & E3).
    unfold ID_String, ID_Bytes in *. apply Encode_inj in E1; [|done..]. apply Encode_inj in E2; [|done..].
    destruct asset, ua. cbn in *. congruence. }
  destruct (decide (ua = asset)) as [->|Hne].
  - rewrite bool_decide_true by by apply Heq. cbn [negb]. rewrite script_address_spec by done. cbn [mbind outcome_bind].
    f_equal. apply bool_decide_ext. unfold owned. rewrite Eu. split; [by split|by intros [_ ?]].
  - rewrite bool_decide_false by (by rewrite Heq). cbn [negb]. f_equal. symmetry. apply bool_decide_false. unfold owned.
    rewrite Eu. by intros [[= ?] _].
Qed.

Definition stored (p : OutPoint * Utxo) : bytes * bytes := (OutPoint_ToKey p.1, encoding p.2).

Definition wf_pair (p : OutPoint * Utxo) : Prop := wf_outpoint p.1 /\ wf_utxo p.2.

Lemma balance_loop_spec l n :
  Forall wf_pair l -> balance_loop addr asset (stored <$> l) (u64 n) = Ok (u64 (n + total (filter (fun p => owned p.2) l))).
Proof.
  intros HF. revert n. induction HF as [|p l [Ho Hu] _ IH]; intros n; cbn [fmap list_fmap balance_loop stored].
  { by rewrite filter_nil, Z.add_0_r. }
  rewrite (storable_decodes _ (utxo_storable _ Hu)), (checkUtxo_spec _ Hu). cbn [mbind outcome_bind]. rewrite filter_cons.
  destruct (decide (owned p.2)) as [Hp|Hp]; [rewrite bool_decide_true by done|rewrite bool_decide_false by done].
  - rewrite u64_add, IH. cbn [total foldr]. by rewrite Z.add_assoc.
  - apply IH.
Qed.

Lemma readUtxos_loop_spec l m n :
  Forall wf_pair l -> readUtxos_loop addr asset (stored <$> l) m (u64 n) =
    Ok (list_to_map (reverse (filter (fun p => owned p.2) l)) ∪ m, u64 (n + total (filter (fun p => owned p.2) l))).
Proof.
  intros HF. revert m n. induction HF as [|p l [Ho Hu] _ IH]; intros m n; cbn [fmap list_fmap readUtxos_loop stored].
  { rewrite filter_nil, Z.add_0_r. cbn. by rewrite map_empty_union. }
  rewrite (storable_decodes _ (utxo_storable _ Hu)), (checkUtxo_spec _ Hu). cbn [mbind outcome_bind]. rewrite filter_cons.
  destruct (decide (owned p.2)) as [Hp|Hp]; [rewrite bool_decide_true by done|rewrite bool_decide_false by done]; cbn [negb].
  - rewrite (KeyToOutpoint_ToKey _ Ho). cbn [mbind outcome_bind]. rewrite u64_add, IH. cbn [total foldr].
    rewrite Z.add_assoc, reverse_cons. do 2 f_equal. rewrite list_to_map_app, <- map_union_assoc. f_equal.
    cbn. by rewrite insert_empty, insert_union_singleton_l.
  - apply IH.
Qed.

(** The entries of the database are those of the set, in some order. *)

Lemma entries_of_set d S :
  represents d S -> exists l, map_to_list (getprefix d UTXO_PREFIX) = stored <$> l /\ l ≡ₚ map_to_list S /\ Forall wf_pair l.
Proof.
  intros [Hw Hc]. assert (map_to_list (getprefix d UTXO_PREFIX) ≡ₚ map stored (map_to_list S)) as Hp.
  { apply NoDup_Permutation; [apply NoDup_map_to_list| |].
    - apply NoDup_fmap_2_strong; [|apply NoDup_map_to_list]. intros [o1 u1] [o2 u2] M1%elem_of_map_to_list M2%elem_of_map_to_list [Hk _]%pair_eq.
      cbn [fst snd] in Hk. destruct (Hw _ _ M1), (Hw _ _ M2). apply ToKey_inj in Hk as ->; [|done..]. congruence.
    - intros [k v]. rewrite elem_of_map_to_list, getprefix_spec, map_lookup_filter_Some. cbn [fst]. split.
      + intros [Hk Hpre]. apply (Hc k v Hpre) in Hk as (o & u & Hu & -> & ->). apply (list_elem_of_fmap_2 stored _ (o, u)).
        by apply elem_of_map_to_list.
      + intros ([o u] & [-> ->]%pair_eq & Hin)%list_elem_of_fmap. apply elem_of_map_to_list in Hin. cbn [fst snd].
        split; [|apply ToKey_prefix]. apply Hc; [apply ToKey_prefix|]. by exists o, u. }
  apply Permutation_map_inv in Hp as (l & Hl & Hp). exists l. split; [done|]. split; [done|]. rewrite <- Hp.
  apply list.Forall_forall. intros [o u] Hin%elem_of_map_to_list. by apply (Hw o u).
Qed.

Lemma total_perm l k : l ≡ₚ k -> total l = total k.
Proof. unfold total. induction 1; cbn [foldr]; lia. Qed.

(** C22: The balance of an address.  In a database that holds the set [S] of unspent
    outputs, reading the balance of an address in an asset from all outputs gives the
    sum, modulo 2^64, of the amounts of the outputs of [S] in that asset whose lock
    script pays to an address of the same text, in whatever order the database
    enumerates them; [readUtxosFrAll] returns exactly these outputs, with the same sum. *)
Theorem balance_of_address (d : D) (S : gmap OutPoint Utxo) :
  represents d S ->
  let mine := filter (fun p => owned p.2) S in
  let sum := total (map_to_list mine) `mod` 2 ^ 64 in
  walletBalanceFrAll addr asset d = Ok sum /\ readUtxosFrAll addr asset d = Ok (mine, sum).
Proof.
  intros Hr mine sum. destruct (entries_of_set d S Hr) as (l & El & Hp & HF).
  assert (filter (fun p => owned p.2) l ≡ₚ map_to_list mine) as Hf.
  { rewrite Hp. unfold mine. rewrite map_filter_alt. rewrite map_to_list_to_map; [done|].
    eapply sublist_NoDup; [apply (NoDup_fst_map_to_list S)|]. apply fmap_sublist, sublist_filter. }
  assert (u64 (0 + total (filter (fun p => owned p.2) l)) = sum) as Hs by (by rewrite (total_perm _ _ Hf)).
  unfold walletBalanceFrAll, readUtxosFrAll. rewrite El. split.
  - change (balance_loop addr asset (stored <$> l) 0) with (balance_loop addr asset (stored <$> l) (u64 0)).
    by rewrite balance_loop_spec, Hs.
  - change (readUtxos_loop addr asset (stored <$> l) ∅ 0) with (readUtxos_loop addr asset (stored <$> l) ∅ (u64 0)).
    rewrite readUtxos_loop_spec, Hs by done. rewrite map_union_empty. do 2 f_equal.
    rewrite <- (list_to_map_to_list mine). apply list_to_map_proper.
    + rewrite reverse_Permutation, Hf. apply NoDup_fst_map_to_list.
    + by rewrite reverse_Permutation.
Qed.
End Balances.

(** ** The index of addresses *)

Lemma no_bar t1 t2 x y :
  Forall plain t1 -> Forall plain t2 -> take (length (t1 ++ 124 :: x)) (t2 ++ 124 :: y) = t1 ++ 124 :: x -> t1 = t2.
Proof.
  intros H1. revert t2. induction H1 as [|c t1 Hc _ IH]; intros [|c' t2] H2 He; try done.
  - cbn in He. injection He as -> _. apply Forall_cons in H2 as [H2 _]. unfold plain in H2. lia.
  - cbn in He. injection He as <- _. unfold plain in Hc. lia.
  - apply Forall_cons in H2 as [_ H2]. cbn in He. injection He as -> He. f_equal. by apply (IH t2).
Qed.

Section Index.
Context {D : Type} `{DatabaseLaws D} `{Crypto} `{Base58} `{!Base58Laws} `{!Base58Text}.

Lemma Address_Str_plain a : Forall plain (Address_Str a).
Proof. constructor; [done|apply CheckEncode_plain]. Qed.

(** The address made of a text is the end of the text, after zeros. *)

Lemma copy_at_right b : (length b <= 21)%nat -> copy_at (21 - zlen b) zero_Address b = replicate (21 - length b) 0 ++ b.
Proof.
  intros Hl. unfold copy_at, gocopy, zero_Address, AddressLength. unfold zlen.
  replace (Z.to_nat (21 - Z.of_nat (length b))) with (21 - length b)%nat by lia.
  rewrite take_replicate, drop_replicate, length_replicate. f_equal; [f_equal; lia|].
  rewrite take_ge by lia. rewrite drop_ge by (rewrite length_replicate; lia). apply app_nil_r.
Qed.

Lemma text_address s c :
  exists q, Address_SetBytes zero_Address (s ++ [c]) = q ++ [c] /\ length q = 20%nat /\ forall x, x ∈ q -> x = 0 \/ x ∈ s.
Proof.
  unfold Address_SetBytes, AddressLength. change (zlen zero_Address) with 21. cbv zeta.
  assert (exists s', (if decide (zlen (s ++ [c]) > 21) then drop (Z.to_nat (zlen (s ++ [c]) - 21)) (s ++ [c]) else s ++ [c]) = s' ++ [c] /\
    (length s' <= 20)%nat /\ forall x, x ∈ s' -> x ∈ s) as (s' & -> & Hl & Hin).
  { rewrite zlen_snoc. unfold zlen. case_decide as Hd; [|exists s; split_and!; [done|lia|done]].
    exists (drop (Z.to_nat (Z.of_nat (length s) + 1 - 21)) s). rewrite drop_app_le by lia. split_and!; [done| |].
    - rewrite length_drop. lia.
    - intros x Hx. rewrite <- (take_drop (Z.to_nat (Z.of_nat (length s) + 1 - 21)) s). apply elem_of_app. by right. }
  rewrite copy_at_right by (rewrite length_app; cbn; lia). rewrite length_app. cbn [length].
  exists (replicate (21 - (length s' + 1)) 0 ++ s'). rewrite app_assoc. split_and!; [done| |].
  - rewrite length_app, length_replicate. lia.
  - intros x [Hx|Hx]%elem_of_app; [left; by apply elem_of_replicate in Hx as [-> _]|right; by apply Hin].
Qed.

(** Its text is not the text of an address of a known type, whose last byte is no character. *)

Lemma text_address_unknown a b : known a -> Address_Str (Address_SetBytes zero_Address (Address_Str b)) <> Address_Str a.
Proof.
  intros [[Hl Hw] Ht] He. pose proof (Address_Str_plain b) as Hp.
  assert (Address_Str b <> []) as Hne by done. destruct (exists_last Hne) as (s & c & Es). rewrite Es in *.
  destruct (text_address s c) as (q & Eq & Hq & Hin). rewrite Eq in He. apply Forall_app in Hp as [Hs Hc].
  apply Forall_cons in Hc as [Hc _]. unfold plain in *. unfold Address_Str in He. injection He as He.
  apply (f_equal CheckDecode) in He. rewrite take_app_le, take_ge in He by lia.
  assert (nth 20 (q ++ [c]) 0 = c) as Hn by (rewrite <- Hq; apply nth_middle). rewrite Hn in He.
  assert (wf_bytes q) as Hwq.
  { apply list.Forall_forall. intros x Hx. rewrite list.Forall_forall in Hs. unfold is_byte.
    destruct (Hin x Hx) as [->|Hx']; [lia|]. specialize (Hs x Hx'). cbn in Hs. lia. }
  assert (is_byte (GetType a)) as Hb.
  { rewrite !elem_of_cons, elem_of_nil in Ht. unfold PublicKeyHash, ScriptHash, ContractHash, is_byte in *. lia. }
  rewrite !CheckDecode_Encode in He by (done || (by apply Forall_take) || (unfold is_byte; lia)). injection He as _ He.
  unfold GetType in Ht. rewrite <- He in Ht. rewrite !elem_of_cons, elem_of_nil in Ht.
  unfold PublicKeyHash, ScriptHash, ContractHash in Ht. lia.
Qed.

(** Operations that leave alone what is under a prefix. *)

Section Frame.
Context (pre : bytes).

Definition keeps {A} (m : go D storage_error A) : Prop :=
  forall d k, HasPrefix k pre = true -> contents (m d).2 !! k = contents d !! k.

Lemma keeps_ret {A} (a : A) : keeps (mret a).
Proof. done. Qed.

Lemma keeps_bind {A B} (m : go D storage_error A) (f : A -> go D storage_error B) :
  keeps m -> (forall a, keeps (f a)) -> keeps (m ≫= f).
Proof.
  intros Hm Hf d k Hk. specialize (Hm d k Hk). unfold mbind, go_bind. destruct (m d) as [[a|e|] d']; [|done..].
  by rewrite (Hf a d' k Hk).
Qed.

Lemma keeps_lift {A B} (o : outcome storage_error A) (f : A -> go D storage_error B) :
  (forall a, o = Ok a -> keeps (f a)) -> keeps (lift o ≫= f).
Proof. intros Hf. destruct o as [a|e|]; [by apply Hf|done..]. Qed.

Lemma keeps_ignore (m : go D storage_error unit) : keeps m -> keeps (ignore_err m).
Proof. intros Hm d k Hk. specialize (Hm d k Hk). unfold ignore_err. by destruct (m d) as [[]]. Qed.

Lemma keeps_catch (m : go D storage_error unit) : keeps m -> keeps (catch m).
Proof. intros Hm d k Hk. specialize (Hm d k Hk). unfold catch. by destruct (m d) as [[]]. Qed.

Lemma keeps_Delete key : HasPrefix key pre = false -> keeps (Delete key).
Proof.
  intros Hp d k Hk. destruct (Delete_spec d key) as (d' & -> & Hd). cbn [snd]. rewrite Hd, lookup_delete_ne; [done|]. congruence.
Qed.

Lemma keeps_StoreBytes {A} `{RlpValue A} key (a : A) : HasPrefix key pre = false -> keeps (StoreBytes key a).
Proof.
  intros Hp. unfold StoreBytes. apply keeps_lift. intros b _ d k Hk. destruct (replace_bytes_spec d key b) as (d' & -> & Hd).
  cbn [snd]. rewrite Hd, lookup_insert_ne; [done|]. congruence.
Qed.
End Frame.

Lemma HasPrefix_inv k p : HasPrefix k p = true -> take (length p) k = p.
Proof. unfold HasPrefix. apply bool_decide_eq_true. Qed.

Lemma asset_key_prefix addr asset k : HasPrefix k (AssetKey addr asset) = true -> take 2 k = UTXO_INDEX_PREFIX.
Proof.
  intros Hk%HasPrefix_inv. unfold AssetKey in Hk. apply (f_equal (take 2)) in Hk. rewrite take_take in Hk.
  rewrite Nat.min_l in Hk by (rewrite length_app; cbn; lia). exact Hk.
Qed.

Lemma other_prefix addr asset k : take 2 k <> UTXO_INDEX_PREFIX -> HasPrefix k (AssetKey addr asset) = false.
Proof. intros Hk. destruct (HasPrefix k (AssetKey addr asset)) eqn:Hp; [|done]. by apply asset_key_prefix in Hp. Qed.

Lemma Ok_inj {E A} (a b : A) : Ok (E := E) a = Ok b -> a = b.
Proof. congruence. Qed.

(** The key that destroying an output deletes from the index is no key of a known address. *)

Lemma destroyed_key addr asset b a o key :
  known addr -> index_ToKey (mkUtxoIndex (Address_SetBytes zero_Address (Address_Str b)) a o) = Ok key ->
  HasPrefix key (AssetKey addr asset) = false.
Proof.
  intros Ha Hk. unfold index_ToKey in Hk. cbn [ui_Asset AccountAddr ui_OutPoint] in Hk. destruct a as [a|]; [|discriminate Hk].
  cbn [deref mbind outcome_bind] in Hk. apply Ok_inj in Hk as <-. destruct (HasPrefix _ _) eqn:Hp; [|done]. exfalso.
  apply HasPrefix_inv in Hp. unfold AssetKey in Hp. rewrite length_app, take_app_add in Hp. apply app_inv_head in Hp.
  apply (no_bar (Address_Str addr) _ (124 :: Asset_String asset) (124 :: Asset_String a ++ lit "||" ++ OutPoint_String o)) in Hp;
    [|apply Address_Str_plain..]. symmetry in Hp. by apply text_address_unknown in Hp.
Qed.

Lemma destoryUtxo_keeps addr asset ins : known addr -> keeps (AssetKey addr asset) (destoryUtxo ins).
Proof.
  intros Ha. assert (forall extra, keeps (AssetKey addr asset) (create_asset extra)) as Hc.
  { intros extra. unfold create_asset. case_decide; [|apply keeps_ret]. destruct (decode_value extra); [|done..].
    apply keeps_ignore. unfold SaveAssetInfo. apply keeps_lift. intros key Hk. apply keeps_StoreBytes, other_prefix.
    unfold Tokey in Hk. destruct (ai_AssetID a); [|discriminate Hk]. by injection Hk as <-. }
  induction ins as [|i ins IH]; [apply keeps_ret|]. apply keeps_bind; [|done]. unfold destory_one.
  destruct (PreviousOutPoint i) as [o|]; [|apply Hc]. destruct (OutPoint_IsEmpty o); [apply Hc|].
  intros d. rewrite go_get_bind. destruct (GetUtxoEntry o d) as [u| |]; [|done..]. revert d.
  change (keeps (AssetKey addr asset) (destory_entry o u)). unfold destory_entry.
  apply keeps_bind; [by apply keeps_catch, keeps_Delete, other_prefix|]. intros [e|]; [apply keeps_ret|].
  apply keeps_lift. intros b _. apply keeps_lift. intros key Hk. apply keeps_ignore, keeps_Delete. by eapply destroyed_key.
Qed.

(** C31: Spent outputs stay in the index.  Destroying outputs never changes the balance
    of an address as it is read from the index, which is what the node reports by
    default: the entry that [destoryUtxo] deletes is that of an address made of the
    last characters of the text of the owner's address, and the entry of the owner stays. *)
Theorem spent_outputs_stay_in_index (addr : Address) (asset : Asset) (ins : list Input) (d : D) :
  known addr -> walletBalanceByIndex addr asset (destoryUtxo ins d).2 = walletBalanceByIndex addr asset d.
Proof.
  intros Ha. pose proof (destoryUtxo_keeps addr asset ins Ha) as Hk. unfold walletBalanceByIndex. rewrite !getprefix_spec. do 2 f_equal.
  apply map_eq. intros k. apply option_eq. intros v. rewrite !map_lookup_filter_Some. cbn [fst].
  split; intros [Hv Hp]; split; try done; [by rewrite <- (Hk d k Hp)|by rewrite (Hk d k Hp)].
Qed.
End Index.

(** ** Examples *)

Lemma represents_singleton o u :
  wf_outpoint o -> wf_utxo u -> represents (mkMem (<[OutPoint_ToKey o := encoding u]> ∅)) (<[o := u]> ∅).
Proof. intros Ho Hu. by apply (represents_insert (mkMem ∅) _ ∅ o u represents_empty). Qed.

Definition toy_db (amount : Z) : MemDatabase := mkMem (<[OutPoint_ToKey (toy_outpoint 1) := encoding (toy_utxo amount 0)]> ∅).
Definition toy_set (amount : Z) : gmap OutPoint Utxo := <[toy_outpoint 1 := toy_utxo amount 0]> ∅.

Lemma toy_represents amount : 0 <= amount < 2 ^ 64 -> represents (toy_db amount) (toy_set amount).
Proof. intros Ha. apply represents_singleton; [by apply (bool_decide_unpack _)|]. split; [done|]. by apply (bool_decide_unpack _). Qed.

(** The payment of [toy_payment] replaces the output it spends, without an entry in the
    set for the difference. *)

Lemma applying_a_payment_witness :
  exists d', UpdateUtxo (H0 := toy_crypto) (H1 := letters_base58) true (replicate 32 9)
      (mkMessage APP_PAYMENT (Payment toy_payment)) 0 (toy_db 6) = (Ok tt, d') /\
    GetAllUtxos d' = Ok (<[mkOutPoint (replicate 32 9) 0 0 := toy_utxo 5 0]> ∅, None).
Proof.
  destruct (applying_a_payment (H1 := toy_crypto) (H2 := letters_base58) true (replicate 32 9)
    (mkMessage APP_PAYMENT (Payment toy_payment)) 0 toy_payment (toy_db 6) (toy_set 6)) as (d' & E & _ & Hall).
  - by apply toy_represents.
  - done.
  - by apply (bool_decide_unpack _).
  - done.
  - split; [constructor; [|constructor]; split; [by apply (bool_decide_unpack _)|done]|].
    split; [constructor; [|constructor]; split; [by apply (bool_decide_unpack _)|done]|done].
  - exists d'. split; [exact E|]. by rewrite Hall.
Defined.

(** One unit of one asset goes in and 2^64 units of another come out, for a fee of one. *)



Definition toy_addr : Address := NewAddress (replicate 20 7) PublicKeyHash.
Definition toy_lock : bytes := GenerateP2PKHLockScript (replicate 20 7).
Definition toy_owned : Utxo := mkUtxo 5 (Some toy_asset) toy_lock 0 zero_Address 0.

Lemma balance_of_address_witness :
  walletBalanceFrAll (H0 := toy_crypto) (H1 := letters_base58) toy_addr toy_asset
    (mkMem (<[OutPoint_ToKey (toy_outpoint 1) := encoding toy_owned]> ∅)) = Ok 5.
Proof.
  destruct (balance_of_address (H1 := toy_crypto) (H2 := letters_base58) toy_addr toy_asset
    ltac:(by apply (bool_decide_unpack (wf_id _ /\ wf_id _ /\ _)))
    (mkMem (<[OutPoint_ToKey (toy_outpoint 1) := encoding toy_owned]> ∅)) (<[toy_outpoint 1 := toy_owned]> ∅)) as [Hb _].
  - apply represents_singleton; by apply (bool_decide_unpack _).
  - rewrite Hb. by vm_compute.
Defined.

(** An output is created and spent: the node still reports its amount. *)

Definition indexed : MemDatabase :=
  (UpdateUtxo (H0 := toy_crypto) (H1 := letters_base58) true (replicate 32 9) (mkMessage APP_PAYMENT (Payment
    (mkPaymentPayload [] [mkOutput 5 toy_lock (Some toy_asset)] 0))) 0 (mkMem ∅)).2.

Definition spends_it : list Input := [mkInput (Some (mkOutPoint (replicate 32 9) 0 0)) None None].

Lemma spent_outputs_stay_in_index_witness :
  let d := (destoryUtxo (H0 := toy_crypto) (H1 := letters_base58) spends_it indexed).2 in
  walletBalanceByIndex (H1 := letters_base58) toy_addr toy_asset d = Ok 5 /\
  walletBalanceFrAll (H0 := toy_crypto) (H1 := letters_base58) toy_addr toy_asset d = Ok 0.
Proof.
  cbv zeta. split; [|by vm_compute].
  rewrite (spent_outputs_stay_in_index (H1 := toy_crypto) (H2 := letters_base58) (H3 := letters_laws) (H4 := letters_text)
    toy_addr toy_asset spends_it indexed); [by vm_compute|]. split; by apply (bool_decide_unpack _).
Defined.
